(* ===== verification/_CoqProject ===== *)
-Q . S2P
Prelude.v
Base.v
Transport.v
Bytes.v
QueueData.v
Queue.v
QueueInv.v
QueueLemmas.v
QueueSpec.v
Layout.v
QueueNew.v
QueueWait.v
FakeHal.v
FakeTransport.v
ExampleHal.v
Bench.v
QueueProps.v
QueueBuilds.v
Serve.v
Single.v
Pipeline.v
DeviceQueue.v
DeviceQueueSpec.v
DeviceQueueProps.v
Owning.v
Driver.v
Lab.v
OwningProps.v
Blk.v
BlkProps.v
Rng.v
Console.v
ConsoleProps.v
Net.v
NetProps.v
Input.v
InputProps.v
Gpu.v
GpuProps.v
Sound.v
SoundProps.v
SoundXfer.v
RingBuffer.v
VsockProtocol.v
VsockProps.v
Vsock.v
ConnectionManager.v
ManagerInv.v
ManagerProps.v
VsockFlow.v
SocketLaws.v
VsockQueue.v
Threads.v
ManagerThreads.v
ManagerOrder.v
ManagerSolo.v
ManagerSafe.v
ManagerConcurrency.v
Volatile.v
PciBus.v
PciBusProps.v
ExamplePci.v
Mmio.v
MmioProps.v
Pci.v
PciProps.v
Simulation.v
HypPci.v
HypPciProps.v
SomeTransport.v
FakeDevice.v
FakeDeviceProps.v
Rig.v
TestBlk.v
TestQueue.v
TestConsole.v
TestVsock.v
TestSound.v
TestPci.v
ExamplePrograms.v
