(* ===== verification/Prelude.v ===== *)
(** * virtio-drivers-and-devices: a verification library

    The crate [virtio-drivers] with the device side that this repository adds: drivers for VirtIO
    devices, and a device's end of a virtqueue. A driver initialises its device over a transport,
    shares descriptor chains with it through virtqueues, and waits for the device to use them.
    The library translates the crate into Rocq functions on explicit states and proves what each
    part does. This file holds the monad, the machine integers and the lemmas the others share.

    ** The model

    A method of type [&mut self -> A] is a function [M S A], from a state to an outcome and a
    state: [Val] a value, [Panic] for a failed assertion, an index out of range, an [unwrap] of
    nothing or an overflow in a build that checks it, [Hang] when a loop that waits for a device
    runs out of fuel. The state is kept on every way out. Errors are the values of [result], and
    [x ←? c; k] is the operator [?]. Integers are of type [Z], with their width in the operation
    ([add_u 32], [wrap 16]); [usize] has 64 bits. [Profile] says whether overflows are checked and
    whether [debug_assert!] is compiled in; a theorem holds for both unless it says otherwise.

    The traits of the crate are classes: [Hal], [DeviceHal], [Transport], [DeviceTransport],
    [ConfigurationAccess], [Volatile], [Allocator]. What the crate expects of their
    implementations is stated as classes of laws ([HalSpec], [DeviceHalSpec], [MemorySpec],
    [DmaSpec], [PciSpec], [MmioSpec], [CommonSpec], [HypervisorSpec]) that the theorems assume
    and that concrete instances satisfy. The memory the two sides share is part of the world the
    computations act on.

    ** The parts

    - Errors, page arithmetic, the DMA traits ([lib.rs], [hal.rs], [device/socket/error.rs]):
      [Base]. The simulated HAL of the tests ([hal/fake.rs]): [FakeHal].
    - The transport traits, status flags, [begin_init], [finish_init], [read_consistent]
      ([transport/mod.rs], [device/common.rs]): [Transport]. The transport of the tests
      ([transport/fake.rs]): [FakeTransport]. The device of the tests ([fake_read_write_queue] of
      [queue.rs] and the methods of [State] that call it): [FakeDevice], [FakeDeviceProps].
    - Virtqueues ([queue.rs]): [QueueData] the rings and descriptors; [Queue] the driver's side,
      [VirtQueue]; [DeviceQueue] the device's side, [DeviceVirtQueue]; [Layout] and [QueueNew]
      the memory layouts and construction. [Owning] is [queue/owning.rs].
      [QueueInv] holds the invariant of a queue and the abstract queue that it refines: a free
      list and a map from tokens to requests. [QueueLemmas] and [QueueSpec] run the operations,
      [QueueWait] the waiting ones; [QueueProps], [DeviceQueueProps], [OwningProps] have the
      theorems; [QueueBuilds] compares builds with and without overflow checks. [Bench] holds
      concrete queues.
    - [Serve], [Single], [Pipeline] and [Lab] are the interface between the drivers and a device:
      a [Server] answers each request with a function of its bytes, and steps of it alternate with
      the driver's waiting; [Single] is one request at a time, [Pipeline] several outstanding, in
      order; [Lab] is a concrete machine whose device walks the rings. A request is a chain in the
      descriptor table, or a list of descriptors that the driver has written to shared memory and
      the device decodes.
    - Drivers. Bytes of structures and configuration reads ([config.rs], [embedded_io.rs]):
      [Bytes], [Driver]. Block device ([device/blk.rs]): [Blk]; entropy ([device/rng.rs]): [Rng];
      console ([device/console.rs], [device/console/embedded_io.rs]): [Console]; network
      ([device/net]): [Net]; input ([device/input.rs]): [Input]; GPU ([device/gpu.rs]): [Gpu];
      sound ([device/sound.rs]): [Sound]. The theorems on [X] are in [XProps], those on the
      transfer of sound in [SoundXfer], those on the entropy driver in [Rng].
    - Sockets ([device/socket]): [VsockProtocol] the packets, [RingBuffer] the receive buffer,
      [Vsock] the trait [VirtIOSocketManager], the driver and the device over their queues,
      [ConnectionManager] the two managers. [VsockProps], [VsockFlow], [ManagerInv],
      [ManagerProps], [SocketLaws] and [VsockQueue] have the theorems.
    - Threads. [Threads] has programs with locks ([Lock] and [SpinLock] of [lib.rs]), pools of
      threads and their steps; [ManagerThreads] the methods of the managers as such programs, with
      the locks where the code takes them. [ManagerOrder] gives the order of the locks,
      [ManagerSafe] what one thread may rely on while others run, [ManagerSolo] relates a thread
      that runs alone to [ConnectionManager]; [ManagerConcurrency] has the theorems.
    - Transports: [Volatile] ([volatile.rs]), [PciBus] ([transport/pci/bus.rs]), [Mmio]
      ([transport/mmio.rs]), [Pci] ([transport/pci.rs]), [HypPci] ([transport/x86_64.rs] and its
      modules), [SomeTransport] ([transport/some.rs]); [Simulation] compares transports.
    - The unit tests, as programs over these models: [Rig] is the machine they run on, with a
      thread of the test as a list of turns; [TestQueue] the tests of [queue.rs] and
      [make_fake_header], [TestBlk], [TestConsole] (with the input driver's), [TestVsock],
      [TestPci] and [TestSound] (with the simulated sound device, [device/sound/fake.rs]) those
      of the other files.
    - Examples: [ExampleHal] the three HALs, [ExamplePci] the allocation of PCI memory of the
      aarch64 kernel, [ExamplePrograms] the kernels' tests of the block device and of the display and
      the adapter between the network driver and a TCP stack.

    ** What the theorems show

    - The queue. [add] and [pop_used] implement the abstract queue: they give a request the
      descriptors of a free list, or fail with the error it prescribes, and give them back. From
      construction on, in any interleaving with an arbitrary device, the descriptors of distinct
      requests are disjoint, the table the device sees is the driver's, and buffers are shared
      exactly while their request is in the queue; the device may rewrite all of it but the
      addresses in the lists of indirect requests, which the code reads back. A blocking request
      returns once the device has served it, with the length the device reported. Both layouts
      are set up with the alignments of the standard. No operation overflows: builds that check
      and builds that do not do the same.
    - Both sides. What the driver adds, the device pops, and the reverse, over the same memory.
    - Drivers, against a device as an abstract machine: the block driver implements a disk, what
      is written is read; the sound driver a mixer with the streams' states of the standard, and
      [pcm_xfer] plays exactly the frames given, and ends; the console delivers the bytes the
      device wrote, in order and once, and sends its own; received network packets are those the
      device wrote, and their buffers come back; input events and their buffers likewise; the
      framebuffer the GPU shows is the driver's memory.
    - Sockets. Encoding and decoding of packets are inverse. Between two managers whose calls
      come one at a time on each side, the streams of a connection are intact in both directions
      and credit never lets a peer overrun a buffer. A manager's connections stay well formed
      under every sequence of calls and any packet the peer sends, when [accept] is given new
      connections only, and [poll] returns. A packet that is too short, or whose length does
      not agree with its header, is refused.
    - Threads that share a manager. With one way of polling, no schedule deadlocks; no call panics
      because of what another thread does; one thread alone behaves as the sequential model. Threads
      that use both [poll] and [poll_direct] can deadlock, and threads that send on one connection
      can overrun its credit.
    - Transports. Initialisation ends with the negotiated features accepted; setting and unsetting
      a queue does what the standard's registers say, and only to that queue; [PciTransport::new]
      finds the right structures and stays in the regions; enumeration finds every function;
      the pKVM transport is the PCI transport.
    - The unit tests pass on the models, evaluated: a check of the definitions against what the
      authors of the code expect of it.
    - Examples. The HALs keep the contract of [Hal]: the regions are aligned and disjoint, and what
      is dropped is what was allocated; a queue constructed over them has the layout of the standard.
      The addresses given to base address registers are aligned, disjoint and in range, but for an
      overflow in builds that do not check it. The block device test passes on a disk, the display
      test draws inside its frame buffer and shows the picture, and a packet goes through the TCP
      adapter and its buffer back to the device.

    ** Fuel

    A loop that waits for the device takes a number of rounds as an argument and hangs when they
    are used up; a theorem that a call returns says how many suffice. An MMIO device reports a
    queue as stopped after at most [patience] reads, a field of [MmioSpec]. A blocking request on a
    server that answers within [N] steps needs more than [N] rounds; [pcm_xfer] of [c] chunks
    more than [(N + 3) c + N]. Walks of a capability list need one round more than the list is
    long; the loops over base address registers, the functions of a bus and the descriptors of a
    queue have the bounds of the code.

    ** Limits of the model

    - A device acts between the driver's accesses to the shared rings (in
      [QueueProps.reachable]) or while the driver waits ([Serve]), not inside an access. Memory
      barriers have no effect there. Outside [Threads] and the files on it, runs are of one thread,
      and locks are the identity; in a pool, threads interleave at the locks and around each
      operation on a queue, which is one step.
    - A notification does not run the device; it acts in the steps of the waiting loops.
    - A server determines the whole contents of the buffers it writes.
    - Between two sockets ([VsockFlow]) packets arrive in order, and a driver sends a packet whole
      or not at all ([Wire]); [VsockQueue] has the reception of one by the driver.
    - In a unit test, the thread that plays the device runs when the driver notifies a queue or
      waits: one schedule of the test.
    - Raw pointers are addresses, and the lifetime promises of the [unsafe] methods are
      hypotheses that the buffers are disjoint.

    ** Not modelled

    - The mutex of the crate [spin] under [SpinLock]: the steps of [Threads] state its documented
      behaviour.
    - [Debug] and [Display] of the data types, and log messages.
    - The instructions [vmcall] and [cpuid]: parameters of [HypPci].
    - The rest of the programs under [examples]: start-up code, interrupt tables, UARTs and loggers of
      the boards, walks over the device tree and the TCP server, which are calls of other crates,
      and tests that make one call and log its answer. *)

From stdpp Require Export base tactics list list_numbers numbers option gmap.
From Stdlib Require Export ZArith Lia.

#[global] Open Scope Z_scope.

(** ** Build profile

    Overflow of the built-in integer operators panics when the crate is built with
    overflow checks and wraps when it is not; [debug_assert!] is compiled in or out. *)
Class Profile := {
  overflow_checks : bool;
  debug_assertions : bool
}.

(** ** Outcomes and the state monad of the model *)

(** How a call ends: with a value, with a panic, or without an answer within the
    fuel given to a loop that waits for the device. *)
Inductive outcome (A : Type) : Type :=
| Val (a : A)
| Panic
| Hang.
Arguments Val {A} a.
Arguments Panic {A}.
Arguments Hang {A}.

(** Rust's [Result]. *)
Inductive result (A E : Type) : Type :=
| Ok (a : A)
| Err (e : E).
Arguments Ok {A E} a.
Arguments Err {A E} e.

(** A computation on a state [S]: the state is kept on every way out, as the
    mutations made before an early return or a panic are. *)
Definition M (S A : Type) : Type := S → outcome A * S.

#[export] Instance M_ret S : MRet (M S) := λ A a s, (Val a, s).

#[export] Instance M_bind S : MBind (M S) := λ A B k c s,
  match c s with
  | (Val a, s') => k a s'
  | (Panic, s') => (Panic, s')
  | (Hang, s') => (Hang, s')
  end.

Definition panic {S A} : M S A := λ s, (Panic, s).
Definition hang {S A} : M S A := λ s, (Hang, s).
Definition gets {S A} (f : S → A) : M S A := λ s, (Val (f s), s).
Definition modify {S} (f : S → S) : M S unit := λ s, (Val tt, f s).

(** [assert!(b)]. *)
Definition assert {S} (b : bool) : M S unit := if b then mret tt else panic.

(** [o.unwrap()], [o.expect(..)] and indexing with a bounds check. *)
Definition unwrap {S A} (o : option A) : M S A :=
  match o with Some a => mret a | None => panic end.

(** The [?] operator: an error is the caller's result. *)
Definition try {S A B E} (c : M S (result A E)) (k : A → M S (result B E))
    : M S (result B E) :=
  r ← c; match r with Ok a => k a | Err e => mret (Err e) end.

Notation "x ←? y ; z" := (try y (λ x : _, z))
  (at level 20, y at level 100, z at level 200, only parsing) : stdpp_scope.
Notation "' x ←? y ; z" := (try y (λ x : _, z))
  (at level 20, x pattern, y at level 100, z at level 200, only parsing) : stdpp_scope.

(** Running a computation on one component of a larger state. *)
Record lens (S A : Type) := { view : S → A; update : A → S → S }.
Arguments view {S A} _ _.
Arguments update {S A} _ _ _.

Definition zoom {S A B} (l : lens S A) (c : M A B) : M S B := λ s,
  let '(o, a) := c (view l s) in (o, update l a s).

Definition fst_lens {A B} : lens (A * B) A :=
  {| view := fst; update := λ a s, (a, s.2) |}.
Definition snd_lens {A B} : lens (A * B) B :=
  {| view := snd; update := λ b s, (s.1, b) |}.

Definition on_fst {A B C} (c : M A C) : M (A * B) C := zoom fst_lens c.
Definition on_snd {A B C} (c : M B C) : M (A * B) C := zoom snd_lens c.

(** ** Unsigned machine integers

    A [w]-bit unsigned integer is a [Z]; [fits w] is its range. [usize] is 64 bits wide. *)
Definition fits (w x : Z) : Prop := 0 ≤ x < 2 ^ w.
Definition fitsb (w x : Z) : bool := (0 <=? x) && (x <? 2 ^ w).

(** [x as uW], the wrapping operators. *)
Definition wrap (w x : Z) : Z := x mod 2 ^ w.
Definition wrapping_add (w a b : Z) : Z := wrap w (a + b).
Definition wrapping_sub (w a b : Z) : Z := wrap w (a - b).
Definition saturating_sub (a b : Z) : Z := Z.max 0 (a - b).

(** [a.checked_sub(b)] and [a.checked_add(b)]. *)
Definition checked_sub (a b : Z) : option Z := if b <=? a then Some (a - b) else None.
Definition checked_add (w a b : Z) : option Z :=
  if a + b <? 2 ^ w then Some (a + b) else None.

(** The operators [+], [-] and [*] at width [w]. *)
Definition arith `{Profile} {S} (w x : Z) : M S Z :=
  if fitsb w x then mret x
  else if overflow_checks then panic
  else mret (wrap w x).
Definition add_u `{Profile} {S} (w a b : Z) : M S Z := arith w (a + b).
Definition sub_u `{Profile} {S} (w a b : Z) : M S Z := arith w (a - b).
Definition mul_u `{Profile} {S} (w a b : Z) : M S Z := arith w (a * b).

(** [a % b] and [a / b], which panic when [b] is zero. *)
Definition rem_u {S} (a b : Z) : M S Z := if b =? 0 then panic else mret (a mod b).
Definition div_u {S} (a b : Z) : M S Z := if b =? 0 then panic else mret (a / b).

(** ** Slices *)

(** [l[a..b]], and [l.get(a..b)]. *)
Definition get_range {A} (l : list A) (a b : Z) : option (list A) :=
  if (a <=? b) && (b <=? Z.of_nat (length l))
  then Some (take (Z.to_nat (b - a)) (drop (Z.to_nat a) l)) else None.

(** [dst[a..a + src.len()].copy_from_slice(src)]. *)
Definition copy_into {A} (dst : list A) (a : Z) (src : list A) : option (list A) :=
  if (0 <=? a) && (a + Z.of_nat (length src) <=? Z.of_nat (length dst))
  then Some (take (Z.to_nat a) dst ++ src ++ drop (Z.to_nat a + length src) dst) else None.

(** Indexing a slice or an array with an unsigned integer. *)
Definition index {A} (l : list A) (i : Z) : option A := l !! Z.to_nat i.

(** Bit flags: [contains], [remove] and [from_bits_truncate] of the bitflags types. *)
Definition contains (flags x : Z) : bool := Z.land flags x =? x.
Definition remove_flags (flags x : Z) : Z := Z.ldiff flags x.
Definition truncate_flags (all bits : Z) : Z := Z.land bits all.

(** ** Lemmas on the monad *)
Section monad.
Context {S A B : Type}.
Implicit Types (s : S) (c : M S A) (k : A → M S B).

Lemma bind_val c k s a s' : c s = (Val a, s') → (c ≫= k) s = k a s'.
Proof. intros E. unfold mbind, M_bind. by rewrite E. Qed.

Lemma bind_ext c c' k k' s :
  c s = c' s → (∀ a s', k a s' = k' a s') → (c ≫= k) s = (c' ≫= k') s.
Proof. intros E Hk. unfold mbind, M_bind. rewrite E. by destruct (c' s) as [[a| |] s']. Qed.

Lemma bind_panic c k s s' : c s = (Panic, s') → (c ≫= k) s = (Panic, s').
Proof. intros E. unfold mbind, M_bind. by rewrite E. Qed.

Lemma bind_hang c k s s' : c s = (Hang, s') → (c ≫= k) s = (Hang, s').
Proof. intros E. unfold mbind, M_bind. by rewrite E. Qed.

(** The first computation of a [bind] that ends with a value did so. *)
Lemma bind_val_inv c k s b s'' :
  (c ≫= k) s = (Val b, s'') → ∃ a s', c s = (Val a, s') ∧ k a s' = (Val b, s'').
Proof. unfold mbind, M_bind. destruct (c s) as [[a| |] s'] eqn:E; naive_solver. Qed.
End monad.

Lemma try_ok {S A B E} (c : M S (result A E)) (k : A → M S (result B E)) s a s' :
  c s = (Val (Ok a), s') → try c k s = k a s'.
Proof. intros H. unfold try. by erewrite bind_val by exact H. Qed.

Lemma try_err {S A B E} (c : M S (result A E)) (k : A → M S (result B E)) s e s' :
  c s = (Val (Err e), s') → try c k s = (Val (Err e), s').
Proof. intros H. unfold try. by erewrite bind_val by exact H. Qed.

Lemma try_panic {S A B E} (c : M S (result A E)) (k : A → M S (result B E)) s s' :
  c s = (Panic, s') → try c k s = (Panic, s').
Proof. intros H. unfold try. by erewrite bind_panic by exact H. Qed.

Lemma try_hang {S A B E} (c : M S (result A E)) (k : A → M S (result B E)) s s' :
  c s = (Hang, s') → try c k s = (Hang, s').
Proof. intros H. unfold try. by erewrite bind_hang by exact H. Qed.

Lemma try_val_inv {S A B E} (c : M S (result A E)) (k : A → M S (result B E)) s r s'' :
  try c k s = (Val r, s'') →
  (∃ e, c s = (Val (Err e), s'') ∧ r = Err e) ∨
  (∃ a s', c s = (Val (Ok a), s') ∧ k a s' = (Val r, s'')).
Proof.
  unfold try. intros (x & s' & Hc & Hk)%bind_val_inv.
  destruct x as [a|e]; [right; eauto|left]. unfold mret, M_ret in Hk. naive_solver.
Qed.

Lemma on_snd_val {A B C} (c : M B C) (a : A) b x b' :
  c b = (Val x, b') → on_snd c (a, b) = (Val x, (a, b')).
Proof. intros E. unfold on_snd, zoom. simpl. by rewrite E. Qed.

Lemma on_snd_panic {A B C} (c : M B C) (a : A) b b' :
  c b = (Panic, b') → on_snd c (a, b) = (Panic, (a, b')).
Proof. intros E. unfold on_snd, zoom. simpl. by rewrite E. Qed.

Lemma on_snd_inv {A B C} (c : M B C) (s : A * B) x s' :
  on_snd c s = (x, s') → s'.1 = s.1.
Proof. unfold on_snd, zoom. destruct (c _). by intros [= <- <-]. Qed.

Lemma on_fst_val {A B C} (c : M A C) a (b : B) x a' :
  c a = (Val x, a') → on_fst c (a, b) = (Val x, (a', b)).
Proof. intros E. unfold on_fst, zoom. simpl. by rewrite E. Qed.

Lemma zoom_val {S A B} (l : lens S A) (c : M A B) s x a :
  c (view l s) = (Val x, a) → zoom l c s = (Val x, update l a s).
Proof. intros E. unfold zoom. by rewrite E. Qed.

(** ** Lemmas on machine integers *)
Lemma fitsb_spec w x : fitsb w x = true ↔ fits w x.
Proof. unfold fitsb, fits. rewrite andb_true_iff. lia. Qed.

Lemma wrap_fits w x : 0 ≤ w → fits w (wrap w x).
Proof. intros. apply Z.mod_pos_bound. lia. Qed.

Lemma wrap_small w x : fits w x → wrap w x = x.
Proof. apply Z.mod_small. Qed.

Lemma land_fits w x y : 0 ≤ w → fits w x → fits w (Z.land x y).
Proof.
  intros Hw Hx. replace (Z.land x y) with (wrap w (Z.land x y)); [by apply wrap_fits|].
  unfold wrap. rewrite <- Z.land_ones, <- Z.land_assoc, (Z.land_comm y), Z.land_assoc by done.
  rewrite Z.land_ones by done. by rewrite (wrap_small w x Hx : x mod 2 ^ w = x).
Qed.

Lemma arith_fits `{Profile} {S} w x (s : S) : fits w x → arith w x s = (Val x, s).
Proof. intros Hx%fitsb_spec. unfold arith. by rewrite Hx. Qed.

Lemma arith_overflow `{Profile} {S} w x (s : S) :
  ¬ fits w x → overflow_checks = true → arith w x s = (Panic, s).
Proof.
  intros Hx Hc. unfold arith. rewrite Hc. destruct (fitsb w x) eqn:E; [|done].
  by apply fitsb_spec in E.
Qed.

(** Where overflows are checked, a result is exact. *)
Lemma arith_checked `{Profile} {S} w x (s : S) y s' :
  arith w x s = (Val y, s') → overflow_checks = true → y = x ∧ s' = s.
Proof. unfold arith. intros E Hc. rewrite Hc in E. destruct (fitsb w x); by inversion E. Qed.

(** Counting modulo [2^w] moves. *)
Lemma wrap_succ_ne w x : 0 < w → wrapping_add w x 1 ≠ x.
Proof.
  intros Hw. unfold wrapping_add, wrap. intros E.
  assert (2 ≤ 2 ^ w) by (replace 2 with (2 ^ 1) at 1 by done; apply Z.pow_le_mono_r; lia).
  assert ((x + 1) / 2 ^ w * 2 ^ w = 1) as E'.
  { pose proof (Z.div_mod (x + 1) (2 ^ w)). lia. }
  assert (0 < (x + 1) / 2 ^ w) by nia. nia.
Qed.

(** Power-of-two masks: [x & (2^k - 1)] is [x mod 2^k]. *)
Lemma land_mask k x : 0 ≤ k → Z.land x (2 ^ k - 1) = x mod 2 ^ k.
Proof.
  intros. rewrite <- Z.land_ones by done. f_equal. rewrite Z.ones_equiv. lia.
Qed.

(** Evaluates the primitive steps at the head of a run. *)
Ltac mstep := repeat (first
  [ erewrite bind_val by (first [eassumption | reflexivity])
  | erewrite try_ok by (first [eassumption | reflexivity]) ]).

(** ** Lemmas on slices *)
Lemma get_range_spec {A} (l : list A) a b : 0 ≤ a ≤ b → b ≤ Z.of_nat (length l) →
  get_range l a b = Some (take (Z.to_nat (b - a)) (drop (Z.to_nat a) l)).
Proof.
  intros H1 H2. unfold get_range.
  by rewrite (proj2 (Z.leb_le _ _)), (proj2 (Z.leb_le _ _)) by lia.
Qed.

Lemma copy_into_spec {A} (dst : list A) a src :
  0 ≤ a → a + Z.of_nat (length src) ≤ Z.of_nat (length dst) →
  copy_into dst a src =
    Some (take (Z.to_nat a) dst ++ src ++ drop (Z.to_nat a + length src) dst).
Proof.
  intros H1 H2. unfold copy_into.
  by rewrite (proj2 (Z.leb_le _ _)), (proj2 (Z.leb_le _ _)) by lia.
Qed.

(** An element of the result of a copy is of the source or, outside it, of the destination. *)
Lemma copied_lookup {A} (dst src : list A) (n i : nat) : (n + length src ≤ length dst)%nat →
  (take n dst ++ src ++ drop (n + length src) dst) !! i =
  (if decide (n ≤ i < n + length src)%nat then src !! (i - n)%nat else dst !! i).
Proof.
  intros Hl. rewrite lookup_app, lookup_take. case_decide as H1.
  - destruct (dst !! i) eqn:E; [by rewrite decide_False by lia|].
    apply lookup_ge_None in E. lia.
  - rewrite length_take_le by lia. rewrite lookup_app. destruct (src !! (i - n)%nat) eqn:E.
    + apply lookup_lt_Some in E. by rewrite decide_True by lia.
    + apply lookup_ge_None in E. rewrite decide_False, lookup_drop by lia. f_equal. lia.
Qed.

Lemma copied_length {A} (dst src : list A) (n : nat) : (n + length src ≤ length dst)%nat →
  length (take n dst ++ src ++ drop (n + length src) dst) = length dst.
Proof. intros. rewrite !length_app, length_take_le, length_drop by lia. lia. Qed.

(** ** Invariants of computations

    [keeps I c]: [c] preserves [I], whether it returns, panics or hangs. The hint database
    [keeps] composes the invariant along the structure of [c]. *)
Definition keeps {S A} (I : S → Prop) (c : M S A) : Prop :=
  ∀ s o s', I s → c s = (o, s') → I s'.

Create HintDb keeps.

Section keeps.
Context {S : Type} (I : S → Prop).

Lemma keeps_ret {A} (a : A) : keeps I (mret a).
Proof. intros s o s' HI E. by injection E as <- <-. Qed.

Lemma keeps_panic {A} : keeps I (panic (A := A)).
Proof. intros s o s' HI E. by injection E as <- <-. Qed.

Lemma keeps_hang {A} : keeps I (hang (A := A)).
Proof. intros s o s' HI E. by injection E as <- <-. Qed.

Lemma keeps_gets {A} (f : S → A) : keeps I (gets f).
Proof. intros s o s' HI E. by injection E as <- <-. Qed.

Lemma keeps_modify (f : S → S) : (∀ s, I s → I (f s)) → keeps I (modify f).
Proof. intros Hf s o s' HI E. injection E as <- <-. by apply Hf. Qed.

Lemma keeps_bind {A B} (c : M S A) (k : A → M S B) :
  keeps I c → (∀ a, keeps I (k a)) → keeps I (c ≫= k).
Proof.
  intros Hc Hk s o s' HI E. unfold mbind, M_bind in E.
  destruct (c s) as [[a| |] s1] eqn:Ec; [|naive_solver..].
  apply (Hk a s1 o s'); [by apply (Hc s (Val a) s1)|done].
Qed.

Lemma keeps_try {A B E} (c : M S (result A E)) (k : A → M S (result B E)) :
  keeps I c → (∀ a, keeps I (k a)) → keeps I (try c k).
Proof. intros Hc Hk. apply keeps_bind; [done|]. intros [a|e]; [done|apply keeps_ret]. Qed.

Lemma keeps_unwrap {A} (o : option A) : keeps I (unwrap o).
Proof. destruct o; [apply keeps_ret|apply keeps_panic]. Qed.

Lemma keeps_assert b : keeps I (assert b).
Proof. destruct b; [apply keeps_ret|apply keeps_panic]. Qed.

Lemma keeps_if {A} (b : bool) (c d : M S A) : keeps I c → keeps I d → keeps I (if b then c else d).
Proof. by destruct b. Qed.
End keeps.

Lemma keeps_on_fst {A B C} (I : A → Prop) (c : M A C) :
  keeps I c → keeps (λ s : A * B, I s.1) (on_fst c).
Proof.
  intros Hc [a b] o s' HI E. unfold on_fst, zoom in E. simpl in E.
  destruct (c a) as [o1 a1] eqn:Ec. injection E as <- <-. by apply (Hc a o1 a1).
Qed.

Lemma keeps_on_snd {A B C} (I : A → Prop) (c : M B C) : keeps (λ s : A * B, I s.1) (on_snd c).
Proof.
  intros [a b] o s' HI E. unfold on_snd, zoom in E. simpl in E.
  destruct (c b) as [o1 b1]. by injection E as <- <-.
Qed.

#[export] Hint Resolve keeps_ret keeps_panic keeps_hang keeps_gets keeps_bind keeps_try
  keeps_unwrap keeps_assert keeps_if keeps_on_fst keeps_on_snd : keeps.

(** Composes [keeps] along a computation, splitting the matches on returned values. *)
Ltac keeps := repeat (intros; first
  [ solve [eauto 4 with keeps]
  | apply keeps_bind | apply keeps_try | apply keeps_if
  | match goal with |- keeps _ (match ?x with _ => _ end) => destruct x end ]).
