(* ===== verification/Base.v ===== *)
(** * Crate root and hardware abstraction layer

    [src/src/lib.rs] (errors, [PAGE_SIZE], [align_up], [pages]), the socket errors of
    [src/src/device/socket/error.rs], their [embedded_io] kinds ([src/src/embedded_io.rs])
    and [src/src/hal.rs] (buffer directions, the [Hal] and [DeviceHal] traits, [Dma] and
    [DeviceDma]). *)

From S2P Require Import Prelude.

(** ** Errors *)

Inductive SocketError :=
| ConnectionExists
| NotConnected
| PeerSocketShutdown
| BufferTooShort
| OutputBufferTooShort (needed : Z)
| BufferTooLong (len max : Z)
| UnknownOperation (op : Z)
| InvalidOperation
| InvalidNumber
| UnexpectedDataInPacket
| InsufficientBufferSpaceInPeer
| RecycledWrongBuffer.

Inductive Error :=
| QueueFull
| NotReady
| WrongToken
| AlreadyUsed
| InvalidParam
| DmaError
| IoError
| Unsupported
| ConfigSpaceTooSmall
| ConfigSpaceMissing
| SocketDeviceError (e : SocketError)
| InvalidDescriptor.

#[export] Instance SocketError_eq_dec : EqDecision SocketError.
Proof. solve_decision. Defined.
#[export] Instance Error_eq_dec : EqDecision Error.
Proof. solve_decision. Defined.

(** The kinds of errors of [embedded_io] that the crate uses. *)
Module ErrorKind.
Inductive ErrorKind :=
| InvalidInput | OutOfMemory | Unsupported | AddrInUse | NotConnected | ConnectionAborted
| WriteZero | Other.
End ErrorKind.

(** [embedded_io::Error::kind]. *)
Definition Error_kind (e : Error) : ErrorKind.ErrorKind :=
  match e with
  | InvalidDescriptor | InvalidParam => ErrorKind.InvalidInput
  | DmaError => ErrorKind.OutOfMemory
  | Unsupported => ErrorKind.Unsupported
  | SocketDeviceError e =>
    match e with
    | ConnectionExists => ErrorKind.AddrInUse
    | NotConnected => ErrorKind.NotConnected
    | PeerSocketShutdown => ErrorKind.ConnectionAborted
    | BufferTooShort | OutputBufferTooShort _ | BufferTooLong _ _ => ErrorKind.InvalidInput
    | InsufficientBufferSpaceInPeer => ErrorKind.WriteZero
    | UnknownOperation _ | InvalidOperation | InvalidNumber | UnexpectedDataInPacket
    | RecycledWrongBuffer => ErrorKind.Other
    end
  | QueueFull | NotReady | WrongToken | AlreadyUsed | IoError | ConfigSpaceTooSmall
  | ConfigSpaceMissing => ErrorKind.Other
  end.

(** The crate's [Result<T>]. *)
Abbreviation Result A := (result A Error).

(** ** Pages *)

Definition PAGE_SIZE : Z := 4096.

Definition align_up `{Profile} {S} (size : Z) : M S Z :=
  x ← add_u 64 size PAGE_SIZE;
  mret (Z.land x (2 ^ 64 - 1 - (PAGE_SIZE - 1))).

(** [size.div_ceil(PAGE_SIZE)]. *)
Definition pages (size : Z) : Z :=
  let d := size / PAGE_SIZE in
  let r := size mod PAGE_SIZE in
  if 0 <? r then d + 1 else d.

(** ** Memory and the hardware abstraction layer *)

(** [NonNull<[u8]>]: the address and the length of a byte slice. *)
Record Slice := mkSlice { s_ptr : Z; s_len : Z }.

#[export] Instance Slice_eq_dec : EqDecision Slice.
Proof. solve_decision. Defined.

Inductive BufferDirection :=
| DriverToDevice
| DeviceToDriver
| Both.

#[export] Instance BufferDirection_eq_dec : EqDecision BufferDirection.
Proof. solve_decision. Defined.

(** The [Hal] trait. Its implementations belong to the user of the crate: they are a
    parameter of the model, acting on the world [W] (memory, allocator, IOMMU). *)
Class Hal (W : Type) := {
  dma_alloc : Z → BufferDirection → M W (Z * Z);
  dma_dealloc : Z → Z → Z → M W Z;
  mmio_phys_to_virt : Z → Z → M W Z;
  share : Slice → BufferDirection → M W Z;
  unshare : Z → Slice → BufferDirection → M W unit
}.

(** The [DeviceHal] trait, likewise. *)
Class DeviceHal (W : Type) := {
  dma_map : Z → Z → BufferDirection → Z → M W (Result Z);
  dma_unmap : Z → Z → Z → M W Z
}.

(** The global allocator, as used by [Box]: [None] is an allocation failure; [box_write p l]
    stores [l] in the box at [p]. *)
Class Allocator (W : Type) := {
  box_new : Z → M W (option Z);
  box_write : Z → list Z → M W unit;
  box_drop : Z → Z → M W unit
}.

(** Access to the bytes of buffers. Memory belongs to the platform: it is a parameter. *)
Class Mem (W : Type) := {
  mem_read : Slice → M W (list Z);
  mem_write : Z → list Z → M W unit
}.

(** Local variables of a function whose bytes are passed to a device: the slices where the
    compiler placed them, one for each variable. *)
Class Stack (W : Type) := stack_slots : list (list Z) → M W (list Slice).

Definition stack_slot {W} `{Stack W} (a : list Z) : M W Slice :=
  l ← stack_slots [a];
  match l with [x] => mret x | _ => panic end.
Definition stack_slot2 {W} `{Stack W} (a b : list Z) : M W (Slice * Slice) :=
  l ← stack_slots [a; b];
  match l with [x; y] => mret (x, y) | _ => panic end.

(** The trait [DmaMemory]. *)
Class DmaMemory (D : Type) := {
  paddr : D → Z;
  vaddr : ∀ {P : Profile} {S}, D → Z → M S Z;
  raw_slice : ∀ {P : Profile} {S}, D → M S Slice
}.

(** *** Driver-side DMA regions *)
Module Dma.

Record Dma := mkDma { dma_paddr : Z; dma_vaddr : Z; dma_pages : Z }.

Definition new {W} `{Hal W} (pages : Z) (direction : BufferDirection) : M W (Result Dma) :=
  '(paddr, vaddr) ← dma_alloc pages direction;
  if paddr =? 0 then mret (Err DmaError)
  else mret (Ok (mkDma paddr vaddr pages)).

Definition vaddr `{Profile} {S} (d : Dma) (offset : Z) : M S Z :=
  size ← mul_u 64 (dma_pages d) PAGE_SIZE;
  assert (offset <? size);;
  a ← add_u 64 (dma_vaddr d) offset;
  assert (negb (a =? 0));;
  mret a.

Definition raw_slice `{Profile} {S} (d : Dma) : M S Slice :=
  a ← vaddr d 0;
  size ← mul_u 64 (dma_pages d) PAGE_SIZE;
  mret (mkSlice a size).

Definition drop {W} `{Hal W} (d : Dma) : M W unit :=
  err ← dma_dealloc (dma_paddr d) (dma_vaddr d) (dma_pages d);
  assert (err =? 0).

End Dma.
Abbreviation Dma := Dma.Dma.

#[export] Instance Dma_memory : DmaMemory Dma := {|
  paddr := Dma.dma_paddr;
  vaddr := λ _ _, Dma.vaddr;
  raw_slice := λ _ _, Dma.raw_slice
|}.

(** *** Device-side DMA regions *)
Module DeviceDma.

Record DeviceDma := mkDeviceDma {
  dma_paddr : Z;
  dma_vaddr : Z;
  dma_pages : Z;
  dma_client_id : Z
}.

(** The implementation of [PartialEq]: the client is not compared. *)
Definition eq (a b : DeviceDma) : bool :=
  (dma_paddr a =? dma_paddr b) && (dma_vaddr a =? dma_vaddr b) &&
  (dma_pages a =? dma_pages b).

Definition new {W} `{DeviceHal W} (paddr pages : Z) (direction : BufferDirection)
    (client_id : Z) : M W (Result DeviceDma) :=
  vaddr ←? dma_map paddr pages direction client_id;
  mret (Ok (mkDeviceDma paddr vaddr pages client_id)).

Definition vaddr `{Profile} {S} (d : DeviceDma) (offset : Z) : M S Z :=
  size ← mul_u 64 (dma_pages d) PAGE_SIZE;
  assert (offset <? size);;
  a ← add_u 64 (dma_vaddr d) offset;
  assert (negb (a =? 0));;
  mret a.

Definition raw_slice `{Profile} {S} (d : DeviceDma) : M S Slice :=
  a ← vaddr d 0;
  size ← mul_u 64 (dma_pages d) PAGE_SIZE;
  mret (mkSlice a size).

Definition drop {W} `{DeviceHal W} (d : DeviceDma) : M W unit :=
  err ← dma_unmap (dma_paddr d) (dma_vaddr d) (dma_pages d);
  assert (err =? 0).

End DeviceDma.
Abbreviation DeviceDma := DeviceDma.DeviceDma.

#[export] Instance DeviceDma_memory : DmaMemory DeviceDma := {|
  paddr := DeviceDma.dma_paddr;
  vaddr := λ _ _, DeviceDma.vaddr;
  raw_slice := λ _ _, DeviceDma.raw_slice
|}.

(** ** Lemmas on page arithmetic *)

Lemma land_page_mask x :
  fits 64 x → Z.land x (2 ^ 64 - 1 - (PAGE_SIZE - 1)) = PAGE_SIZE * (x / PAGE_SIZE).
Proof.
  intros [H0 H64].
  replace (2 ^ 64 - 1 - (PAGE_SIZE - 1)) with (Z.shiftl (Z.ones 52) 12) by done.
  replace (PAGE_SIZE * (x / PAGE_SIZE)) with (Z.shiftl (Z.shiftr x 12) 12).
  2:{ rewrite Z.shiftl_mul_pow2, Z.shiftr_div_pow2 by lia. unfold PAGE_SIZE. change (2 ^ 12) with 4096. lia. }
  apply Z.bits_inj'. intros n Hn.
  rewrite Z.land_spec, !Z.shiftl_spec by lia.
  destruct (decide (n < 12)).
  { rewrite (Z.testbit_neg_r (Z.ones 52)), (Z.testbit_neg_r (Z.shiftr x 12)) by lia.
    apply andb_false_r. }
  rewrite Z.shiftr_spec by lia. replace (n - 12 + 12) with n by lia.
  destruct (decide (n < 64)).
  - rewrite Z.ones_spec_low by lia. apply andb_true_r.
  - assert (Z.testbit x n = false) as ->; [|done].
    apply Z.testbit_false; [lia|].
    rewrite Z.div_small; [done|]. split; [done|].
    apply Z.lt_le_trans with (2 ^ 64); [done|]. apply Z.pow_le_mono_r; lia.
Qed.

Lemma align_up_run `{Profile} {S} size (s : S) :
  0 ≤ size → size + PAGE_SIZE < 2 ^ 64 →
  align_up size s = (Val (PAGE_SIZE * (size / PAGE_SIZE + 1)), s).
Proof.
  intros H0 H1. unfold align_up, add_u.
  assert (fits 64 (size + PAGE_SIZE)) by (unfold fits, PAGE_SIZE in *; lia).
  erewrite bind_val by by apply arith_fits.
  unfold mret, M_ret. rewrite land_page_mask by done. do 3 f_equal.
  unfold PAGE_SIZE. rewrite <- Z.div_add by lia. f_equal.
Qed.

Lemma pages_bounds size : 0 ≤ size →
  0 ≤ pages size ∧ size ≤ pages size * PAGE_SIZE < size + PAGE_SIZE.
Proof.
  intros H. unfold pages, PAGE_SIZE.
  pose proof (Z.div_mod size 4096). pose proof (Z.mod_pos_bound size 4096).
  pose proof (Z.div_pos size 4096).
  destruct (0 <? size mod 4096) eqn:E; lia.
Qed.

(** ** Memory *)

(** Memory holds a byte at each address; reads and writes of buffers are those of its bytes. *)
Class MemorySpec (W : Type) `{Mem W} := {
  byte_at : W → Z → Z;
  mem_read_spec : ∀ b w,
    mem_read b w = (Val (byte_at w <$> seqZ (s_ptr b) (s_len b)), w);
  mem_write_spec : ∀ a l w, ∃ w', mem_write a l w = (Val tt, w') ∧
    ∀ x, byte_at w' x = (if decide (a ≤ x < a + Z.of_nat (length l))
                         then default 0 (l !! Z.to_nat (x - a)) else byte_at w x)
}.

(** The bytes of a buffer. *)
Definition bytes_of {W} `{MemorySpec W} (w : W) (b : Slice) : list Z :=
  byte_at w <$> seqZ (s_ptr b) (s_len b).
