(* ===== verification/Transport.v ===== *)
(** * The transport layer's interface and device initialisation

    [src/src/transport/mod.rs]: the traits [Transport] and [DeviceTransport], the status and
    interrupt flags, the device types, the default methods [begin_init], [finish_init] and
    [read_consistent]; the reserved feature bits of [src/src/device/common.rs]. *)

From S2P Require Import Prelude Base.

(** ** Flags *)
Module DeviceStatus.
Definition empty : Z := 0.
Definition ACKNOWLEDGE : Z := 1.
Definition DRIVER : Z := 2.
Definition FAILED : Z := 128.
Definition FEATURES_OK : Z := 8.
Definition DRIVER_OK : Z := 4.
Definition DEVICE_NEEDS_RESET : Z := 64.
(** All the flags the type knows, for [from_bits_truncate]. *)
Definition all : Z :=
  Z.lor (Z.lor ACKNOWLEDGE (Z.lor DRIVER FAILED))
    (Z.lor FEATURES_OK (Z.lor DRIVER_OK DEVICE_NEEDS_RESET)).
End DeviceStatus.

Module InterruptStatus.
Definition empty : Z := 0.
Definition QUEUE_INTERRUPT : Z := Z.shiftl 1 0.
Definition DEVICE_CONFIGURATION_INTERRUPT : Z := Z.shiftl 1 1.
Definition all : Z := Z.lor QUEUE_INTERRUPT DEVICE_CONFIGURATION_INTERRUPT.
End InterruptStatus.

(** The device-independent feature bits of [device/common.rs]. *)
Module Feature.
Definition NOTIFY_ON_EMPTY : Z := Z.shiftl 1 24.
Definition ANY_LAYOUT : Z := Z.shiftl 1 27.
Definition RING_INDIRECT_DESC : Z := Z.shiftl 1 28.
Definition RING_EVENT_IDX : Z := Z.shiftl 1 29.
Definition UNUSED : Z := Z.shiftl 1 30.
Definition VERSION_1 : Z := Z.shiftl 1 32.
Definition ACCESS_PLATFORM : Z := Z.shiftl 1 33.
Definition RING_PACKED : Z := Z.shiftl 1 34.
Definition IN_ORDER : Z := Z.shiftl 1 35.
Definition ORDER_PLATFORM : Z := Z.shiftl 1 36.
Definition SR_IOV : Z := Z.shiftl 1 37.
Definition NOTIFICATION_DATA : Z := Z.shiftl 1 38.
Definition all : Z := foldr Z.lor 0
  [NOTIFY_ON_EMPTY; ANY_LAYOUT; RING_INDIRECT_DESC; RING_EVENT_IDX; UNUSED; VERSION_1;
   ACCESS_PLATFORM; RING_PACKED; IN_ORDER; ORDER_PLATFORM; SR_IOV; NOTIFICATION_DATA].
End Feature.

(** ** Device types *)
Inductive DeviceType :=
| Invalid | Network | Block | Console | EntropySource | MemoryBallooning | IoMemory | Rpmsg
| ScsiHost | P9 | Mac80211 | RprocSerial | VirtioCAIF | MemoryBalloon | GPU | Timer | Input
| Socket | Crypto | SignalDistributionModule | Pstore | IOMMU | Memory | Sound.

#[export] Instance DeviceType_eq_dec : EqDecision DeviceType.
Proof. solve_decision. Defined.

(** The discriminants of the [repr(u8)] enum. *)
Definition DeviceType_discriminant (t : DeviceType) : Z :=
  match t with
  | Invalid => 0 | Network => 1 | Block => 2 | Console => 3 | EntropySource => 4
  | MemoryBallooning => 5 | IoMemory => 6 | Rpmsg => 7 | ScsiHost => 8 | P9 => 9
  | Mac80211 => 10 | RprocSerial => 11 | VirtioCAIF => 12 | MemoryBalloon => 13
  | GPU => 16 | Timer => 17 | Input => 18 | Socket => 19 | Crypto => 20
  | SignalDistributionModule => 21 | Pstore => 22 | IOMMU => 23 | Memory => 24 | Sound => 25
  end.

(** [impl From<u32> for DeviceType]. *)
Definition DeviceType_from (virtio_device_id : Z) : DeviceType :=
  match virtio_device_id with
  | 1 => Network | 2 => Block | 3 => Console | 4 => EntropySource | 5 => MemoryBalloon
  | 6 => IoMemory | 7 => Rpmsg | 8 => ScsiHost | 9 => P9 | 10 => Mac80211
  | 11 => RprocSerial | 12 => VirtioCAIF | 13 => MemoryBalloon | 16 => GPU | 17 => Timer
  | 18 => Input | 19 => Socket | 20 => Crypto | 21 => SignalDistributionModule
  | 22 => Pstore | 23 => IOMMU | 24 => Memory | 25 => Sound
  | _ => Invalid
  end.

(** ** The traits

    A transport of type [T] acts on the world [W], in which the device answers. The
    configuration space is read and written as bytes: a value of a type of [size] bytes
    aligned to [align]. *)
Class Transport (T W : Type) := {
  device_type : M (T * W) DeviceType;
  read_device_features : M (T * W) Z;
  write_driver_features : Z → M (T * W) unit;
  max_queue_size : Z → M (T * W) Z;
  notify : Z → M (T * W) unit;
  get_status : M (T * W) Z;
  set_status : Z → M (T * W) unit;
  try_set_status : Z → M (T * W) (Result (option Z));
  set_guest_page_size : Z → M (T * W) unit;
  requires_legacy_layout : M (T * W) bool;
  queue_set : Z → Z → Z → Z → Z → M (T * W) unit;
  queue_unset : Z → M (T * W) unit;
  queue_used : Z → M (T * W) bool;
  ack_interrupt : M (T * W) Z;
  read_config_generation : M (T * W) Z;
  read_config_space : ∀ (size align offset : Z), M (T * W) (Result (list Z));
  write_config_space : ∀ (align offset : Z) (value : list Z), M (T * W) (Result unit)
}.

Class DeviceTransport (T W : Type) := {
  dt_get_client_id : M (T * W) Z;
  dt_max_queue_size : Z → M (T * W) Z;
  dt_requires_legacy_layout : M (T * W) bool;
  dt_queue_get : Z → M (T * W) (Z * Z * Z);
  dt_notify : Z → M (T * W) unit
}.

(** The default body of [try_set_status]. *)
Definition default_try_set_status {S} (set_status : Z → M S unit) (status : Z)
    : M S (Result (option Z)) :=
  set_status status;; mret (Ok None).

(** ** Initialisation *)
Section init.
Context {T W : Type} `{Transport T W} `{Profile}.

(** [F::all().bits()] is [all_features]: the feature bits the driver's flags type names. *)
Definition begin_init (all_features supported_features : Z) : M (T * W) (Result Z) :=
  set_status DeviceStatus.empty;;
  set_status (Z.lor DeviceStatus.ACKNOWLEDGE DeviceStatus.DRIVER);;
  device_feature_bits ← read_device_features;
  let device_features := truncate_flags all_features device_feature_bits in
  let negotiated_features := Z.land device_features supported_features in
  (if debug_assertions && (0 <? Z.land device_feature_bits Feature.VERSION_1)
   then assert (0 <? Z.land negotiated_features Feature.VERSION_1) else mret tt);;
  write_driver_features negotiated_features;;
  set_status_resp ←? try_set_status
    (Z.lor (Z.lor DeviceStatus.ACKNOWLEDGE DeviceStatus.DRIVER) DeviceStatus.FEATURES_OK);
  status ← get_status;
  let device_status := default status set_status_resp in
  if negb (contains device_status DeviceStatus.FEATURES_OK) then mret (Err Unsupported)
  else
    set_guest_page_size PAGE_SIZE;;
    mret (Ok negotiated_features).

Definition finish_init : M (T * W) unit :=
  set_status
    (Z.lor
       (Z.lor (Z.lor DeviceStatus.ACKNOWLEDGE DeviceStatus.DRIVER) DeviceStatus.FEATURES_OK)
       DeviceStatus.DRIVER_OK).

(** The loop retries until the generation is the same before and after the reads. *)
Fixpoint read_consistent {A} (fuel : nat) (f : M (T * W) (Result A)) : M (T * W) (Result A) :=
  match fuel with
  | O => hang
  | S fuel =>
    before ← read_config_generation;
    result ← f;
    after ← read_config_generation;
    if before =? after then mret result else read_consistent fuel f
  end.

End init.
