(* ===== verification/Bytes.v ===== *)
(** * Bytes

    Little-endian integers and the byte layout of the structures the drivers exchange with
    their devices ([zerocopy]'s [as_bytes], [read_from_prefix]), and the [read_config!] and
    [write_config!] macros of [src/src/config.rs]. *)

From S2P Require Import Prelude Base Transport.

(** ** Little-endian integers *)

(** The [n] bytes of [x]. *)
Fixpoint le (n : nat) (x : Z) : list Z :=
  match n with
  | O => []
  | S n => x mod 256 :: le n (x / 256)
  end.

Fixpoint of_le (l : list Z) : Z :=
  match l with
  | [] => 0
  | b :: l => b + 256 * of_le l
  end.

(** ** Packed structures

    A structure without padding is the list of the widths of its fields, in bytes. *)
Fixpoint encode_fields (ws : list nat) (xs : list Z) : list Z :=
  match ws, xs with
  | w :: ws, x :: xs => le w x ++ encode_fields ws xs
  | _, _ => []
  end.

Fixpoint decode_fields (ws : list nat) (bytes : list Z) : list Z :=
  match ws with
  | [] => []
  | w :: ws => of_le (take w bytes) :: decode_fields ws (drop w bytes)
  end.

Definition struct_size (ws : list nat) : nat := sum_list ws.
(** [offset_of!] of the field with the given index. *)
Definition field_offset (ws : list nat) (i : nat) : Z := Z.of_nat (struct_size (take i ws)).

(** ** The configuration space *)
Section config.
Context {T W : Type} `{Transport T W}.

(** [read_config!] of an unsigned integer field of [n] bytes at [offset]. *)
Definition read_config (n : nat) (offset : Z) : M (T * W) (Result Z) :=
  bytes ←? read_config_space (Z.of_nat n) (Z.of_nat n) offset;
  mret (Ok (of_le bytes)).

(** [write_config!]. *)
Definition write_config (n : nat) (offset value : Z) : M (T * W) (Result unit) :=
  write_config_space (Z.of_nat n) offset (le n value).
End config.

(** ** Lemmas *)

Definition bytes_ok (l : list Z) : Prop := Forall (λ b, 0 ≤ b < 256) l.

Lemma le_length n x : length (le n x) = n.
Proof. revert x. induction n; intros x; simpl; [done|]. by rewrite IHn. Qed.

Lemma le_bytes n x : bytes_ok (le n x).
Proof.
  unfold bytes_ok. revert x. induction n; intros x; simpl; constructor; [|done].
  apply Z.mod_pos_bound. lia.
Qed.

Lemma of_le_le n x : 0 ≤ x < 2 ^ (8 * Z.of_nat n) → of_le (le n x) = x.
Proof.
  revert x. induction n as [|n IH]; intros x Hx; simpl; [simpl in Hx; lia|].
  rewrite IH.
  - pose proof (Z.div_mod x 256). lia.
  - rewrite Nat2Z.inj_succ, Z.mul_succ_r, Z.pow_add_r in Hx by lia.
    change (2 ^ 8) with 256 in Hx. split; [apply Z.div_pos; lia|].
    apply Z.div_lt_upper_bound; lia.
Qed.

Lemma of_le_bound l : bytes_ok l → 0 ≤ of_le l < 2 ^ (8 * Z.of_nat (length l)).
Proof.
  induction 1 as [|b l Hb Hl IH]; [done|]. simpl length.
  rewrite Nat2Z.inj_succ, Z.mul_succ_r, Z.pow_add_r by lia. change (2 ^ 8) with 256.
  cbn [of_le]. lia.
Qed.

Lemma le_of_le l : bytes_ok l → le (length l) (of_le l) = l.
Proof.
  induction 1 as [|b l Hb Hl IH]; [done|]. simpl.
  replace (b + 256 * of_le l) with (b + of_le l * 256) by lia.
  rewrite Z.mod_add, Z.div_add, Z.mod_small, Z.div_small by lia. by rewrite Z.add_0_l, IH.
Qed.

(** The fields fit their widths. *)
Definition fields_ok (ws : list nat) (xs : list Z) : Prop :=
  Forall2 (λ w x, 0 ≤ x < 2 ^ (8 * Z.of_nat w)) ws xs.

Lemma encode_fields_length ws xs : length xs = length ws →
  length (encode_fields ws xs) = struct_size ws.
Proof.
  revert xs. induction ws as [|w ws IH]; intros [|x xs] Hl; simpl in *; try done.
  rewrite length_app, le_length, IH; [done|lia].
Qed.

Lemma encode_fields_bytes ws xs : bytes_ok (encode_fields ws xs).
Proof.
  revert xs. induction ws as [|w ws IH]; intros [|x xs]; try by constructor.
  simpl. apply Forall_app. split; [apply le_bytes|apply IH].
Qed.

Lemma decode_encode ws xs rest : fields_ok ws xs →
  decode_fields ws (encode_fields ws xs ++ rest) = xs.
Proof.
  induction 1 as [|w x ws xs Hx _ IH]; [done|]. simpl. rewrite <- app_assoc.
  rewrite take_app_length' by (by rewrite le_length). rewrite drop_app_length' by (by rewrite le_length).
  by rewrite of_le_le, IH.
Qed.

Lemma decode_fields_ok ws bytes : bytes_ok bytes → (struct_size ws ≤ length bytes)%nat →
  fields_ok ws (decode_fields ws bytes).
Proof.
  revert bytes. induction ws as [|w ws IH]; intros bytes Hb Hl; [constructor|].
  simpl in Hl. constructor.
  - pose proof (of_le_bound (take w bytes) (Forall_take _ _ _ Hb)) as H1.
    rewrite length_take_le in H1 by (unfold struct_size in *; simpl in *; lia). done.
  - apply IH; [by apply Forall_drop|rewrite length_drop; unfold struct_size in *; simpl in *; lia].
Qed.

Lemma encode_decode ws bytes : bytes_ok bytes → length bytes = struct_size ws →
  encode_fields ws (decode_fields ws bytes) = bytes.
Proof.
  revert bytes. induction ws as [|w ws IH]; intros bytes Hb Hl; simpl.
  { by apply length_zero_iff_nil in Hl. }
  unfold struct_size in *. simpl in Hl.
  rewrite IH by ((by apply Forall_drop) || (rewrite length_drop; lia)).
  pose proof (le_of_le (take w bytes) (Forall_take _ _ _ Hb)) as E.
  rewrite length_take_le in E by lia. rewrite E. apply take_drop.
Qed.

(** The first field, of a word. *)
Lemma first_word ws xs t rest : head ws = Some 4%nat → head xs = Some t → 0 ≤ t < 2 ^ 32 →
  of_le (take 4 (encode_fields ws xs ++ rest)) = t.
Proof.
  destruct ws as [|n ws], xs as [|x xs]; try done. intros [= ->] [= ->] Ht. cbn [encode_fields].
  rewrite <- !app_assoc, take_app_length' by (by rewrite le_length). by rewrite of_le_le.
Qed.

(** Proves [fields_ok] of an explicit list. *)
Ltac fields := unfold fields_ok, fits in *; simpl in *;
  repeat (apply Forall2_cons; split; [first [done|lia]|]); constructor.
