(* ===== verification/QueueData.v ===== *)
(** * Virtqueue data structures

    [src/src/queue.rs]: descriptors and their flags, the available and used rings, the
    iterator over input and output buffers and the memory layout of a split virtqueue. *)

From S2P Require Import Prelude Base Transport Bytes.

(** ** Descriptors *)
Module DescFlags.
Definition empty : Z := 0.
Definition NEXT : Z := 1.
Definition WRITE : Z := 2.
Definition INDIRECT : Z := 4.
End DescFlags.

(** [addr: u64], [len: u32], [flags: DescFlags] (a [u16]), [next: u16]. *)
Record Descriptor := mkDescriptor {
  d_addr : Z;
  d_len : Z;
  d_flags : Z;
  d_next : Z
}.

#[export] Instance Descriptor_eq_dec : EqDecision Descriptor.
Proof. solve_decision. Defined.

(** [size_of::<Descriptor>()]: 8 + 4 + 2 + 2 bytes, [align(16)]. *)
Definition DESCRIPTOR_SIZE : Z := 16.

Definition zero_descriptor : Descriptor := mkDescriptor 0 0 0 0.

Definition set_flags (d : Descriptor) (f : Z) : Descriptor :=
  mkDescriptor (d_addr d) (d_len d) f (d_next d).
Definition set_next (d : Descriptor) (n : Z) : Descriptor :=
  mkDescriptor (d_addr d) (d_len d) (d_flags d) n.

(** [Descriptor::set_buf]. *)
Definition set_buf {W} `{Hal W} (self : Descriptor) (buf : Slice)
    (direction : BufferDirection) (extra_flags : Z) : M W Descriptor :=
  addr ← share buf direction;
  assert (fitsb 32 (s_len buf));;
  match direction with
  | DeviceToDriver =>
      mret (mkDescriptor addr (s_len buf) (Z.lor extra_flags DescFlags.WRITE) (d_next self))
  | DriverToDevice =>
      mret (mkDescriptor addr (s_len buf) (Z.lor extra_flags DescFlags.empty) (d_next self))
  | Both => panic
  end.

(** [Descriptor::unset_buf]. *)
Definition unset_buf (self : Descriptor) : Descriptor :=
  mkDescriptor 0 0 (d_flags self) (d_next self).

(** *** Their bytes *)
Definition descriptor_widths : list nat := [8; 4; 2; 2]%nat.

(** [as_bytes] of a list of descriptors. *)
Definition descriptor_as_bytes (d : Descriptor) : list Z :=
  encode_fields descriptor_widths [d_addr d; d_len d; d_flags d; d_next d].
Definition descriptors_as_bytes (l : list Descriptor) : list Z := mjoin (descriptor_as_bytes <$> l).

(** The descriptors that memory at [addr] holds: [zerocopy::Ref::from_bytes], which fails if the
    bytes are not aligned or not a whole number of descriptors. *)
Definition decode_descriptor (bytes : list Z) : option Descriptor :=
  match decode_fields descriptor_widths bytes with
  | [a; l; f; n] => Some (mkDescriptor a l f n)
  | _ => None
  end.
Fixpoint decode_descriptors (n : nat) (bytes : list Z) : option (list Descriptor) :=
  match n with
  | O => Some []
  | S n => d ← decode_descriptor bytes; l ← decode_descriptors n (drop 16 bytes); Some (d :: l)
  end.
Definition descriptors_from_bytes (addr : Z) (bytes : list Z) : option (list Descriptor) :=
  if (addr mod 16 =? 0) && (Z.of_nat (length bytes) mod 16 =? 0)
  then decode_descriptors (length bytes / 16) bytes else None.

Definition descriptor_fits (d : Descriptor) : Prop :=
  fits 64 (d_addr d) ∧ fits 32 (d_len d) ∧ fits 16 (d_flags d) ∧ fits 16 (d_next d).

(** [Descriptor::next]. *)
Definition next (self : Descriptor) : option Z :=
  if contains (d_flags self) DescFlags.NEXT then Some (d_next self) else None.

(** ** Rings *)
Record AvailRing := mkAvailRing {
  av_flags : Z;
  av_idx : Z;
  av_ring : list Z;
  av_used_event : Z
}.

Record UsedElem := mkUsedElem { ue_id : Z; ue_len : Z }.

(** [size_of::<UsedElem>()]. *)
Definition USED_ELEM_SIZE : Z := 8.

Record UsedRing := mkUsedRing {
  us_flags : Z;
  us_idx : Z;
  us_ring : list UsedElem;
  us_avail_event : Z
}.

(** The memory shared with the other side: the pointees of the queue's [desc], [avail] and
    [used] pointers. *)
Record Shared := mkShared {
  sh_desc : list Descriptor;
  sh_avail : AvailRing;
  sh_used : UsedRing
}.

(** ** The iterator over inputs, then outputs *)

(** [InputOutputIter::next], with [take_first] and [take_first_mut]. *)
Definition InputOutputIter_next (it : list Slice * list Slice)
    : option ((Slice * BufferDirection) * (list Slice * list Slice)) :=
  match it with
  | (input :: inputs, outputs) => Some ((input, DriverToDevice), (inputs, outputs))
  | ([], output :: outputs) => Some ((output, DeviceToDriver), ([], outputs))
  | ([], []) => None
  end.

(** The items a [for] loop over the iterator sees; [fuel] bounds their number. *)
Fixpoint InputOutputIter_items (fuel : nat) (it : list Slice * list Slice)
    : list (Slice * BufferDirection) :=
  match fuel with
  | O => []
  | S fuel =>
    match InputOutputIter_next it with
    | Some (x, it') => x :: InputOutputIter_items fuel it'
    | None => []
    end
  end.

Definition io_items (inputs outputs : list Slice) : list (Slice * BufferDirection) :=
  InputOutputIter_items (length inputs + length outputs) (inputs, outputs).

(** ** Layout *)

(** [u16::is_power_of_two]. *)
Definition is_power_of_two (n : Z) : bool := (0 <? n) && (Z.land n (n - 1) =? 0).

(** The compile-time check [SIZE_OK]. *)
Definition SIZE_OK (SIZE : Z) : bool := is_power_of_two SIZE && (SIZE <=? 65535).

Definition queue_part_sizes {S} (queue_size : Z) : M S (Z * Z * Z) :=
  assert (is_power_of_two queue_size);;
  let desc := DESCRIPTOR_SIZE * queue_size in
  let avail := 2 * (3 + queue_size) in
  let used := 2 * 3 + USED_ELEM_SIZE * queue_size in
  mret (desc, avail, used).

Inductive VirtQueueLayout (D : Type) :=
| Legacy (dma : D) (avail_offset used_offset : Z)
| Modern (driver_to_device_dma device_to_driver_dma : D) (avail_offset : Z).
Arguments Legacy {D} _ _ _.
Arguments Modern {D} _ _ _.

Section layout.
Context `{Profile} {W : Type}.

Definition allocate_legacy `{Hal W} (queue_size : Z) : M W (Result (VirtQueueLayout Dma)) :=
  '(desc, avail, used) ← queue_part_sizes queue_size;
  a ← align_up (desc + avail);
  b ← align_up used;
  size ← add_u 64 a b;
  dma ←? Dma.new (size / PAGE_SIZE) Both;
  used_offset ← align_up (desc + avail);
  mret (Ok (Legacy dma desc used_offset)).

Definition allocate_flexible `{Hal W} (queue_size : Z) : M W (Result (VirtQueueLayout Dma)) :=
  '(desc, avail, used) ← queue_part_sizes queue_size;
  driver_to_device_dma ←? Dma.new (pages (desc + avail)) DriverToDevice;
  r ← Dma.new (pages used) DeviceToDriver;
  match r with
  | Ok device_to_driver_dma =>
      mret (Ok (Modern driver_to_device_dma device_to_driver_dma desc))
  | Err e => Dma.drop driver_to_device_dma;; mret (Err e)
  end.

Definition map_legacy `{DeviceHal W} (queue_size paddr client_id : Z)
    : M W (Result (VirtQueueLayout DeviceDma)) :=
  '(desc, avail, used) ← queue_part_sizes queue_size;
  a ← align_up (desc + avail);
  b ← align_up used;
  size ← add_u 64 a b;
  dma ←? DeviceDma.new paddr (size / PAGE_SIZE) Both client_id;
  used_offset ← align_up (desc + avail);
  mret (Ok (Legacy dma desc used_offset)).

Definition map_flexible `{DeviceHal W} (queue_size desc_avail_paddr used_paddr client_id : Z)
    : M W (Result (VirtQueueLayout DeviceDma)) :=
  '(desc, avail, used) ← queue_part_sizes queue_size;
  driver_to_device_dma ←?
    DeviceDma.new desc_avail_paddr (pages (desc + avail)) DriverToDevice client_id;
  r ← DeviceDma.new used_paddr (pages used) DeviceToDriver client_id;
  match r with
  | Ok device_to_driver_dma =>
      mret (Ok (Modern driver_to_device_dma device_to_driver_dma desc))
  | Err e => DeviceDma.drop driver_to_device_dma;; mret (Err e)
  end.

Context {D : Type} `{DmaMemory D} {S : Type}.

Definition descriptors_paddr (l : VirtQueueLayout D) : Z :=
  match l with
  | Legacy dma _ _ => paddr dma
  | Modern driver_to_device_dma _ _ => paddr driver_to_device_dma
  end.

Definition descriptors_vaddr (l : VirtQueueLayout D) : M S Z :=
  match l with
  | Legacy dma _ _ => vaddr dma 0
  | Modern driver_to_device_dma _ _ => vaddr driver_to_device_dma 0
  end.

Definition driver_area_paddr (l : VirtQueueLayout D) : M S Z :=
  match l with
  | Legacy dma avail_offset _ => add_u 64 (paddr dma) avail_offset
  | Modern driver_to_device_dma _ avail_offset =>
      add_u 64 (paddr driver_to_device_dma) avail_offset
  end.

Definition avail_vaddr (l : VirtQueueLayout D) : M S Z :=
  match l with
  | Legacy dma avail_offset _ => vaddr dma avail_offset
  | Modern driver_to_device_dma _ avail_offset => vaddr driver_to_device_dma avail_offset
  end.

Definition device_area_paddr (l : VirtQueueLayout D) : M S Z :=
  match l with
  | Legacy dma _ used_offset => add_u 64 (paddr dma) used_offset
  | Modern _ device_to_driver_dma _ => mret (paddr device_to_driver_dma)
  end.

Definition used_vaddr (l : VirtQueueLayout D) : M S Z :=
  match l with
  | Legacy dma _ used_offset => vaddr dma used_offset
  | Modern _ device_to_driver_dma _ => vaddr device_to_driver_dma 0
  end.

End layout.

(** ** Lemmas *)
Lemma power_of_two_eq n : is_power_of_two n = true → ∃ k, 0 ≤ k ∧ n = 2 ^ k.
Proof.
  unfold is_power_of_two. rewrite andb_true_iff. intros [Hp Hl].
  apply Z.ltb_lt in Hp. apply Z.eqb_eq in Hl.
  exists (Z.log2 n). pose proof (Z.log2_nonneg n). split; [done|].
  pose proof (Z.log2_spec n Hp) as [Hlo Hhi].
  destruct (decide (n = 2 ^ Z.log2 n)) as [|Hne]; [done|exfalso].
  assert (Z.testbit (Z.land n (n - 1)) (Z.log2 n) = true) as Ht; [|by rewrite Hl, Z.bits_0 in Ht].
  rewrite Z.land_spec, Z.bit_log2 by done.
  assert (Z.log2 (n - 1) = Z.log2 n) as <- by (apply Z.log2_unique; lia).
  apply Z.bit_log2. pose proof (Z.pow_pos_nonneg 2 (Z.log2 n)). lia.
Qed.

Lemma SIZE_OK_eq SIZE : SIZE_OK SIZE = true → ∃ k, 0 ≤ k ∧ SIZE = 2 ^ k ∧ 1 ≤ SIZE < 2 ^ 16.
Proof.
  unfold SIZE_OK. rewrite andb_true_iff. intros [Hp Hl].
  destruct (power_of_two_eq _ Hp) as (k & Hk & ->). exists k.
  apply Z.leb_le in Hl. pose proof (Z.pow_pos_nonneg 2 k). lia.
Qed.

(** Masking an index with [SIZE - 1] gives a slot of the ring. *)
Lemma mask_slot SIZE x : SIZE_OK SIZE = true →
  Z.land x (SIZE - 1) = x mod SIZE ∧ 0 ≤ Z.land x (SIZE - 1) < SIZE.
Proof.
  intros (k & Hk & -> & Hr)%SIZE_OK_eq. rewrite land_mask by done.
  split; [done|]. apply Z.mod_pos_bound. lia.
Qed.

(** The bytes of descriptors. *)
Lemma descriptor_as_bytes_length d : length (descriptor_as_bytes d) = 16%nat.
Proof. unfold descriptor_as_bytes. by rewrite encode_fields_length. Qed.

Lemma descriptors_as_bytes_cons d l :
  descriptors_as_bytes (d :: l) = descriptor_as_bytes d ++ descriptors_as_bytes l.
Proof. done. Qed.

Lemma descriptors_as_bytes_length l : length (descriptors_as_bytes l) = (16 * length l)%nat.
Proof.
  induction l as [|d l IH]; [done|].
  rewrite descriptors_as_bytes_cons, length_app, descriptor_as_bytes_length, IH. simpl. lia.
Qed.

Lemma decode_descriptor_bytes d rest : descriptor_fits d →
  decode_descriptor (descriptor_as_bytes d ++ rest) = Some d.
Proof.
  intros (? & ? & ? & ?). unfold decode_descriptor, descriptor_as_bytes.
  rewrite decode_encode; [by destruct d|]. unfold fields_ok, descriptor_widths. repeat (apply Forall2_cons; split; [done|]); constructor.
Qed.

Lemma decode_descriptors_bytes l : Forall descriptor_fits l →
  decode_descriptors (length l) (descriptors_as_bytes l) = Some l.
Proof.
  induction 1 as [|d l Hd Hl IH]; [done|]. cbn [length decode_descriptors].
  rewrite descriptors_as_bytes_cons, decode_descriptor_bytes by done. cbn [mbind option_bind].
  rewrite (drop_app_length' (descriptor_as_bytes d)) by (by rewrite descriptor_as_bytes_length).
  by rewrite IH.
Qed.
