(* ===== verification/Queue.v ===== *)
(** * The driver side of a virtqueue

    [src/src/queue.rs], [VirtQueue]: its state, construction, the operations that add
    buffers, wait for the device and pop used buffers, and the notification predicates. The
    state of an operation is the queue (with the memory it shares with the device, as seen
    at that point) and the world [W] of the hardware abstraction layer. *)

From S2P Require Import Prelude Base Transport QueueData.

(** What the device does to the memory of queue [queue_idx] while the driver spins. It is a
    parameter: the device is not part of the driver. *)
Class Device (W : Type) := device_step : ∀ (queue_idx : Z), Shared → W → Shared * W.

Module VirtQueue.

(** A leaked [Box<[Descriptor]>]: its address and its contents. *)
Record IndirectList := mkIndirectList { il_ptr : Z; il_descs : list Descriptor }.

Record VirtQueue := mkVirtQueue {
  layout : VirtQueueLayout Dma;
  shared : Shared;
  queue_idx : Z;
  num_used : Z;
  free_head : Z;
  desc_shadow : list Descriptor;
  avail_idx : Z;
  last_used_idx : Z;
  event_idx : bool;
  indirect : bool;
  indirect_lists : list (option IndirectList)
}.

(** Assignments to the fields. *)
Definition set_shared (v : Shared) (q : VirtQueue) : VirtQueue :=
  mkVirtQueue (layout q) v (queue_idx q) (num_used q) (free_head q) (desc_shadow q)
    (avail_idx q) (last_used_idx q) (event_idx q) (indirect q) (indirect_lists q).
Definition set_num_used (v : Z) (q : VirtQueue) : VirtQueue :=
  mkVirtQueue (layout q) (shared q) (queue_idx q) v (free_head q) (desc_shadow q)
    (avail_idx q) (last_used_idx q) (event_idx q) (indirect q) (indirect_lists q).
Definition set_free_head (v : Z) (q : VirtQueue) : VirtQueue :=
  mkVirtQueue (layout q) (shared q) (queue_idx q) (num_used q) v (desc_shadow q)
    (avail_idx q) (last_used_idx q) (event_idx q) (indirect q) (indirect_lists q).
Definition set_desc_shadow (v : list Descriptor) (q : VirtQueue) : VirtQueue :=
  mkVirtQueue (layout q) (shared q) (queue_idx q) (num_used q) (free_head q) v
    (avail_idx q) (last_used_idx q) (event_idx q) (indirect q) (indirect_lists q).
Definition set_avail_idx (v : Z) (q : VirtQueue) : VirtQueue :=
  mkVirtQueue (layout q) (shared q) (queue_idx q) (num_used q) (free_head q) (desc_shadow q)
    v (last_used_idx q) (event_idx q) (indirect q) (indirect_lists q).
Definition set_last_used_idx (v : Z) (q : VirtQueue) : VirtQueue :=
  mkVirtQueue (layout q) (shared q) (queue_idx q) (num_used q) (free_head q) (desc_shadow q)
    (avail_idx q) v (event_idx q) (indirect q) (indirect_lists q).
Definition set_indirect_lists (v : list (option IndirectList)) (q : VirtQueue) : VirtQueue :=
  mkVirtQueue (layout q) (shared q) (queue_idx q) (num_used q) (free_head q) (desc_shadow q)
    (avail_idx q) (last_used_idx q) (event_idx q) (indirect q) v.

(** Writes to the shared memory. *)
Definition set_desc (v : list Descriptor) (q : VirtQueue) : VirtQueue :=
  set_shared (mkShared v (sh_avail (shared q)) (sh_used (shared q))) q.
Definition set_avail (v : AvailRing) (q : VirtQueue) : VirtQueue :=
  set_shared (mkShared (sh_desc (shared q)) v (sh_used (shared q))) q.
Definition desc (q : VirtQueue) : list Descriptor := sh_desc (shared q).
Definition avail (q : VirtQueue) : AvailRing := sh_avail (shared q).
Definition used (q : VirtQueue) : UsedRing := sh_used (shared q).

Section virtqueue.
Context `{Profile} {W : Type} `{Hal W} `{Allocator W}.
Context (SIZE : Z).

Abbreviation St := (VirtQueue * W)%type.

Definition getq {A} (f : VirtQueue → A) : M St A := gets (λ s, f s.1).
Definition modq (f : VirtQueue → VirtQueue) : M St unit := modify (λ s, (f s.1, s.2)).
Definition hal {A} (c : M W A) : M St A := on_snd c.

(** [self.desc_shadow[i]] read, and assigned. *)
Definition get_shadow (i : Z) : M St Descriptor :=
  sh ← getq desc_shadow; unwrap (index sh i).
Definition put_shadow (i : Z) (d : Descriptor) : M St unit :=
  _ ← get_shadow i;
  modq (λ q, set_desc_shadow (<[Z.to_nat i := d]> (desc_shadow q)) q).

(** *** Construction *)

(** The contents of the freshly allocated, zeroed DMA pages. *)
Definition zeroed_shared : Shared :=
  mkShared (replicate (Z.to_nat SIZE) zero_descriptor)
    (mkAvailRing 0 0 (replicate (Z.to_nat SIZE) 0) 0)
    (mkUsedRing 0 0 (replicate (Z.to_nat SIZE) (mkUsedElem 0 0)) 0).

(** The loop [for i in 0..(size - 1)] on one of the two tables. *)
Definition link_descriptors (l : list Descriptor) : list Descriptor :=
  foldl (λ l i, alter (λ d, set_next d (Z.of_nat i + 1)) i l) l
    (seq 0 (Z.to_nat (SIZE - 1))).

Definition new {T} `{Transport T W} (idx : Z) (indirect event_idx : bool)
    : M (T * W) (Result VirtQueue) :=
  used ← queue_used idx;
  if used : bool then mret (Err AlreadyUsed) else
  max ← max_queue_size idx;
  if max <? SIZE then mret (Err InvalidParam) else
  legacy ← requires_legacy_layout;
  layout ←? on_snd (if legacy : bool then allocate_legacy SIZE else allocate_flexible SIZE);
  driver_area ← driver_area_paddr layout;
  device_area ← device_area_paddr layout;
  queue_set idx SIZE (descriptors_paddr layout) driver_area device_area;;
  _ ← descriptors_vaddr layout;
  _ ← avail_vaddr layout;
  _ ← used_vaddr layout;
  let z := zeroed_shared in
  mret (Ok (mkVirtQueue layout
    (mkShared (link_descriptors (sh_desc z)) (sh_avail z) (sh_used z))
    idx 0 0
    (link_descriptors (replicate (Z.to_nat SIZE) zero_descriptor))
    0 0 event_idx indirect (replicate (Z.to_nat SIZE) None))).

(** *** Adding buffers *)

Definition write_desc (i : Z) : M St unit :=
  d ← get_shadow i;
  table ← getq desc;
  _ ← unwrap (index table i);
  modq (λ q, set_desc (<[Z.to_nat i := d]> (desc q)) q).

(** The body of the loop of [add_direct]; [last] is the variable of that name. *)
Fixpoint add_direct_loop (items : list (Slice * BufferDirection)) (last : Z) : M St Z :=
  match items with
  | [] => mret last
  | (buffer, direction) :: items =>
    assert (negb (s_len buffer =? 0));;
    head ← getq free_head;
    d ← get_shadow head;
    d' ← hal (set_buf d buffer direction DescFlags.NEXT);
    put_shadow head d';;
    modq (set_free_head (d_next d'));;
    write_desc head;;
    add_direct_loop items head
  end.

Definition add_direct (inputs outputs : list Slice) : M St Z :=
  head ← getq free_head;
  last ← add_direct_loop (io_items inputs outputs) head;
  d ← get_shadow last;
  put_shadow last (set_flags d (remove_flags (d_flags d) DescFlags.NEXT));;
  write_desc last;;
  n ← getq num_used;
  n' ← add_u 16 n (wrap 16 (Z.of_nat (length inputs + length outputs)));
  modq (set_num_used n');;
  mret head.

(** The loop that fills the indirect list, from element [i] on. *)
Fixpoint fill_indirect (i : Z) (items : list (Slice * BufferDirection))
    (l : list Descriptor) : M St (list Descriptor) :=
  match items with
  | [] => mret l
  | (buffer, direction) :: items =>
    d ← unwrap (index l i);
    d' ← hal (set_buf d buffer direction DescFlags.NEXT);
    fill_indirect (i + 1) items
      (<[Z.to_nat i := set_next d' (wrap 16 (i + 1))]> l)
  end.

(** [l.last_mut().unwrap().flags.remove(NEXT)]. *)
Definition clear_last_next (l : list Descriptor) : option (list Descriptor) :=
  match last l with
  | None => None
  | Some d =>
      Some (<[Nat.pred (length l) := set_flags d (remove_flags (d_flags d) DescFlags.NEXT)]> l)
  end.

Definition add_indirect (inputs outputs : list Slice) : M St Z :=
  head ← getq free_head;
  let n := Z.of_nat (length inputs + length outputs) in
  box ← hal (box_new (DESCRIPTOR_SIZE * n));
  ptr ← unwrap box;
  l ← fill_indirect 0 (io_items inputs outputs)
        (replicate (length inputs + length outputs) zero_descriptor);
  l ← unwrap (clear_last_next l);
  hal (box_write ptr (descriptors_as_bytes l));;
  lists ← getq indirect_lists;
  old ← unwrap (index lists head);
  assert (bool_decide (old = None));;
  modq (set_indirect_lists (<[Z.to_nat head := Some (mkIndirectList ptr l)]> lists));;
  direct_desc ← get_shadow head;
  modq (set_free_head (d_next direct_desc));;
  direct_desc' ← hal (set_buf direct_desc (mkSlice ptr (DESCRIPTOR_SIZE * n))
                        DriverToDevice DescFlags.INDIRECT);
  put_shadow head direct_desc';;
  write_desc head;;
  used ← getq num_used;
  used' ← add_u 16 used 1;
  modq (set_num_used used');;
  mret head.

Definition set_avail_slot (slot head : Z) : M St unit :=
  a ← getq avail;
  _ ← unwrap (index (av_ring a) slot);
  modq (set_avail (mkAvailRing (av_flags a) (av_idx a)
          (<[Z.to_nat slot := head]> (av_ring a)) (av_used_event a))).

Definition store_avail_idx (v : Z) : M St unit :=
  modq (λ q, let a := avail q in
    set_avail (mkAvailRing (av_flags a) v (av_ring a) (av_used_event a)) q).

Definition add (inputs outputs : list Slice) : M St (Result Z) :=
  if bool_decide (inputs = []) && bool_decide (outputs = []) then mret (Err InvalidParam) else
  let descriptors_needed := Z.of_nat (length inputs + length outputs) in
  used ← getq num_used;
  ind ← getq indirect;
  if (SIZE <? used + 1) || (SIZE <? descriptors_needed)
     || (negb ind && (SIZE <? used + descriptors_needed))
  then mret (Err QueueFull) else
  head ← (if ind && (1 <? descriptors_needed) then add_indirect inputs outputs
          else add_direct inputs outputs);
  idx ← getq avail_idx;
  set_avail_slot (Z.land idx (SIZE - 1)) head;;
  let idx' := wrapping_add 16 idx 1 in
  modq (set_avail_idx idx');;
  store_avail_idx idx';;
  mret (Ok head).

(** *** Notifications and the used ring *)

Definition set_dev_notify (enable : bool) : M St unit :=
  let avail_ring_flags := if enable then 0 else 1 in
  e ← getq event_idx;
  if e : bool then mret tt
  else modq (λ q, let a := avail q in
         set_avail (mkAvailRing avail_ring_flags (av_idx a) (av_ring a) (av_used_event a)) q).

Definition should_notify (q : VirtQueue) : bool :=
  if event_idx q then wrapping_add 16 (us_avail_event (used q)) 1 <=? avail_idx q
  else Z.land (us_flags (used q)) 1 =? 0.

Definition can_pop (q : VirtQueue) : bool := negb (last_used_idx q =? us_idx (used q)).

Definition last_used_slot (q : VirtQueue) : Z := Z.land (last_used_idx q) (SIZE - 1).

Definition peek_used : M St (option Z) :=
  b ← getq can_pop;
  if b : bool then
    e ← getq (λ q, index (us_ring (used q)) (last_used_slot q));
    e ← unwrap e;
    mret (Some (wrap 16 (ue_id e)))
  else mret None.

Definition available_desc : M St Z :=
  ind ← getq indirect;
  n ← getq num_used;
  if ind : bool then mret (if n =? SIZE then 0 else SIZE)
  else sub_u 64 SIZE n.

(** *** Recycling and popping *)

(** The loop that unshares the buffers of an indirect list. *)
Fixpoint unshare_indirect (i : Z) (items : list (Slice * BufferDirection))
    (l : list Descriptor) : M St unit :=
  match items with
  | [] => mret tt
  | (buffer, direction) :: items =>
    assert (negb (s_len buffer =? 0));;
    d ← unwrap (index l i);
    hal (unshare (d_addr d) buffer direction);;
    unshare_indirect (i + 1) items l
  end.

(** The loop over a direct chain; it returns the final value of [next]. *)
Fixpoint recycle_direct (original_free_head : Z) (items : list (Slice * BufferDirection))
    (nxt : option Z) : M St (option Z) :=
  match items with
  | [] => mret nxt
  | (buffer, direction) :: items =>
    assert (negb (s_len buffer =? 0));;
    desc_index ← unwrap nxt;
    d ← get_shadow desc_index;
    let paddr := d_addr d in
    let d := unset_buf d in
    n ← getq num_used;
    n' ← sub_u 16 n 1;
    modq (set_num_used n');;
    let nxt := next d in
    let d := match nxt with None => set_next d original_free_head | Some _ => d end in
    put_shadow desc_index d;;
    write_desc desc_index;;
    hal (unshare paddr buffer direction);;
    recycle_direct original_free_head items nxt
  end.

Definition recycle_descriptors (head : Z) (inputs outputs : list Slice) : M St unit :=
  original_free_head ← getq free_head;
  modq (set_free_head head);;
  head_desc ← get_shadow head;
  if contains (d_flags head_desc) DescFlags.INDIRECT then
    lists ← getq indirect_lists;
    slot ← unwrap (index lists head);
    modq (set_indirect_lists (<[Z.to_nat head := None]> lists));;
    indirect_list ← unwrap slot;
    let paddr := d_addr head_desc in
    let l := il_descs indirect_list in
    let bytes := mkSlice (il_ptr indirect_list) (DESCRIPTOR_SIZE * Z.of_nat (length l)) in
    n ← getq num_used;
    n' ← sub_u 16 n 1;
    modq (set_num_used n');;
    put_shadow head (set_next (unset_buf head_desc) original_free_head);;
    hal (unshare paddr bytes DriverToDevice);;
    assert (bool_decide (length l = (length inputs + length outputs)%nat));;
    unshare_indirect 0 (io_items inputs outputs) l;;
    hal (box_drop (il_ptr indirect_list) (DESCRIPTOR_SIZE * Z.of_nat (length l)))
  else
    nxt ← recycle_direct original_free_head (io_items inputs outputs) (Some head);
    assert (bool_decide (nxt = None)).

Definition pop_used (token : Z) (inputs outputs : list Slice) : M St (Result Z) :=
  b ← getq can_pop;
  if negb b then mret (Err NotReady) else
  e ← getq (λ q, index (us_ring (used q)) (last_used_slot q));
  e ← unwrap e;
  let i := wrap 16 (ue_id e) in
  let len := ue_len e in
  if negb (i =? token) then mret (Err WrongToken) else
  recycle_descriptors i inputs outputs;;
  l ← getq last_used_idx;
  let l' := wrapping_add 16 l 1 in
  modq (set_last_used_idx l');;
  ev ← getq event_idx;
  (if ev : bool then modq (λ q, let a := avail q in
     set_avail (mkAvailRing (av_flags a) (av_idx a) (av_ring a) l') q)
   else mret tt);;
  mret (Ok len).

(** *** Waiting for the device *)

Context `{Device W}.

(** One [spin_loop()]: the device may have acted. *)
Definition spin : M St unit := λ '(q, w),
  let '(sh, w') := device_step (queue_idx q) (shared q) w in
  (Val tt, (set_shared sh q, w')).

Fixpoint wait_can_pop (fuel : nat) : M St unit :=
  match fuel with
  | O => hang
  | S fuel =>
    b ← getq can_pop;
    if b : bool then mret tt else spin;; wait_can_pop fuel
  end.

Definition queue_lens {T} : lens (VirtQueue * (T * W)) (VirtQueue * W) :=
  {| view := λ s, (s.1, s.2.2); update := λ a s, (a.1, (s.2.1, a.2)) |}.

Definition add_notify_wait_pop {T} `{Transport T W} (fuel : nat)
    (inputs outputs : list Slice) : M (VirtQueue * (T * W)) (Result Z) :=
  token ←? zoom queue_lens (add inputs outputs);
  q ← gets fst;
  (if should_notify q then on_snd (notify (queue_idx q)) else mret tt);;
  zoom queue_lens (wait_can_pop fuel);;
  zoom queue_lens (pop_used token inputs outputs).

End virtqueue.
End VirtQueue.
