(* ===== verification/QueueInv.v ===== *)
(** * Invariant and abstract specification of the driver's virtqueue

    The free list and the in-flight descriptor chains of [Queue.VirtQueue] partition the
    descriptor table; the abstract state is the map from tokens to the buffers they stand
    for. *)

From S2P Require Import Prelude Base Transport QueueData Queue.
Import VirtQueue.

(** A buffer shared with the device: the address the HAL gave it, the buffer, the direction. *)
Abbreviation Seg := (Z * Slice * BufferDirection)%type.

(** A resource the queue holds in the world: a buffer it has shared, or a [Box] of a number
    of bytes that it has leaked. *)
Inductive Res :=
| Share (s : Seg)
| Boxed (ptr size : Z).

(** ** What the queue relies on

    The documented contract of [Hal::share] and [Hal::unshare]: a non-empty buffer can be
    shared, and a buffer that is shared can be unshared with the address [share] returned.
    Likewise for [Box]: a live box can be written and dropped, and memory does not run out
    (otherwise the program aborts). [held w] are the live shares and boxes. *)
Class HalSpec (W : Type) `{Hal W} `{Allocator W} := {
  held : W → list Res;
  share_spec : ∀ b d w, s_len b ≠ 0 → d ≠ Both →
    ∃ pa w', share b d w = (Val pa, w') ∧ held w' ≡ₚ Share (pa, b, d) :: held w;
  unshare_spec : ∀ pa b d w l, s_len b ≠ 0 → held w ≡ₚ Share (pa, b, d) :: l →
    ∃ w', unshare pa b d w = (Val tt, w') ∧ held w' ≡ₚ l;
  box_new_spec : ∀ n w,
    ∃ p w', p ≠ 0 ∧ box_new n w = (Val (Some p), w') ∧ held w' ≡ₚ Boxed p n :: held w;
  box_write_spec : ∀ p l w, Boxed p (Z.of_nat (length l)) ∈ held w →
    ∃ w', box_write p l w = (Val tt, w') ∧ held w' ≡ₚ held w;
  box_drop_spec : ∀ p n w l, held w ≡ₚ Boxed p n :: l →
    ∃ w', box_drop p n w = (Val tt, w') ∧ held w' ≡ₚ l
}.

(** ** Ghost state *)

(** The request behind a token: a chain of descriptors of the table, or one descriptor
    pointing to an indirect list. *)
Inductive Req :=
| Direct (chain : list Z) (segs : list Seg)
| Indirect (head pa : Z) (il : IndirectList) (segs : list Seg).

Definition req_chain (r : Req) : list Z :=
  match r with Direct c _ => c | Indirect h _ _ _ => [h] end.

Definition req_indirect (r : Req) : bool :=
  match r with Direct _ _ => false | Indirect _ _ _ _ => true end.

Definition req_segs (r : Req) : list Seg :=
  match r with Direct _ s => s | Indirect _ _ _ s => s end.

Definition list_slice (il : IndirectList) : Slice :=
  mkSlice (il_ptr il) (DESCRIPTOR_SIZE * Z.of_nat (length (il_descs il))).

(** All that the request holds. *)
Definition req_held (r : Req) : list Res :=
  match r with
  | Direct _ s => Share <$> s
  | Indirect _ pa il s =>
      Boxed (il_ptr il) (s_len (list_slice il)) ::
      Share (pa, list_slice il, DriverToDevice) :: (Share <$> s)
  end.

(** The buffers as the caller passed them. *)
Definition seg_item (s : Seg) : Slice * BufferDirection := (s.1.2, s.2).
Definition req_items (r : Req) : list (Slice * BufferDirection) := seg_item <$> req_segs r.

(** A buffer that [add] accepts: not empty, of a length that fits in 32 bits. *)
Definition item_ok (x : Slice * BufferDirection) : Prop :=
  s_len x.1 ≠ 0 ∧ fits 32 (s_len x.1) ∧ x.2 ≠ Both.

(** The descriptor of a shared buffer; [more] tells whether another one follows. *)
Definition seg_flags (d : BufferDirection) (more : bool) : Z :=
  Z.lor (if more then DescFlags.NEXT else 0)
    (match d with DeviceToDriver => DescFlags.WRITE | _ => 0 end).
Definition seg_desc (more : bool) (nx : Z) (s : Seg) : Descriptor :=
  mkDescriptor s.1.1 (s_len s.1.2) (seg_flags s.2 more) nx.

Definition nonempty {A} (l : list A) : bool :=
  match l with [] => false | _ => true end.

(** [chain] is a linked chain of descriptors of [sh] for [segs]. *)
Fixpoint chain_segs (sh : list Descriptor) (chain : list Z) (segs : list Seg) : Prop :=
  match chain, segs with
  | [], [] => True
  | i :: chain, s :: segs =>
      (∃ nx, index sh i = Some (seg_desc (nonempty chain) nx s) ∧
             ∀ j, head chain = Some j → nx = j) ∧
      chain_segs sh chain segs
  | _, _ => False
  end.

(** The indirect list for [segs], its first element having index [i]. *)
Fixpoint indirect_table (i : Z) (segs : list Seg) : list Descriptor :=
  match segs with
  | [] => []
  | s :: segs => seg_desc (nonempty segs) (wrap 16 (i + 1)) s :: indirect_table (i + 1) segs
  end.

(** [l] is the linked list of descriptors that starts at [start]. *)
Fixpoint free_path (sh : list Descriptor) (start : Z) (l : list Z) : Prop :=
  match l with
  | [] => True
  | i :: l => start = i ∧ ∃ d, index sh i = Some d ∧ free_path sh (d_next d) l
  end.

(** The descriptors of table [sh] that stand for request [r] with token [h]; [lists] are the
    indirect lists. *)
Definition req_in (sh : list Descriptor) (lists : list (option IndirectList))
    (h : Z) (r : Req) : Prop :=
  match r with
  | Direct chain segs => head chain = Some h ∧ chain_segs sh chain segs
  | Indirect h' pa il segs =>
      h' = h ∧ index lists h = Some (Some il) ∧ il_descs il = indirect_table 0 segs ∧
      (∃ nx, index sh h =
        Some (mkDescriptor pa (s_len (list_slice il)) DescFlags.INDIRECT nx))
  end.

(** Two contents of the memory of an indirect list: the addresses of the buffers are the same. *)
Definition same_list (il il' : IndirectList) : Prop :=
  il_ptr il' = il_ptr il ∧ d_addr <$> il_descs il' = d_addr <$> il_descs il.

(** The same, where the memory of the indirect list may have been written since, but for the
    addresses. *)
Definition req_stands (sh : list Descriptor) (lists : list (option IndirectList))
    (h : Z) (r : Req) : Prop :=
  match r with
  | Direct chain segs => head chain = Some h ∧ chain_segs sh chain segs
  | Indirect h' pa il segs =>
      h' = h ∧ (∃ il', index lists h = Some (Some il') ∧ same_list il il') ∧
      il_descs il = indirect_table 0 segs ∧
      (∃ nx, index sh h =
        Some (mkDescriptor pa (s_len (list_slice il)) DescFlags.INDIRECT nx))
  end.

Abbreviation req_ok q := (req_stands (desc_shadow q) (indirect_lists q)).

(** ** The abstract queue

    What the caller sees is the map from the tokens in flight to the buffers that were added
    with them. A request takes one descriptor per buffer, or one in all if it has several
    buffers and the device supports indirect descriptors. *)
Abbreviation Item := (Slice * BufferDirection)%type.

Definition slots (ind : bool) (items : list Item) : nat :=
  if ind && (1 <? Z.of_nat (length items)) then 1 else length items.

Definition used_slots (ind : bool) (pend : gmap Z (list Item)) : Z :=
  Z.of_nat (sum_list ((λ p, slots ind p.2) <$> map_to_list pend)).

(** The error that adding [items] gives, if any. *)
Definition spec_add_error (SIZE : Z) (ind : bool) (pend : gmap Z (list Item))
    (items : list Item) : option Error :=
  if bool_decide (items = []) then Some InvalidParam
  else if (SIZE <? Z.of_nat (length items))
          || (SIZE <? used_slots ind pend + Z.of_nat (slots ind items)) then Some QueueFull
  else None.

Definition pending (infl : gmap Z Req) : gmap Z (list Item) := req_items <$> infl.

(** The descriptors and the resources of all in-flight requests. *)
Definition owned (infl : gmap Z Req) : list Z :=
  mjoin ((λ p, req_chain p.2) <$> map_to_list infl).
Definition live_held (infl : gmap Z Req) : list Res :=
  mjoin ((λ p, req_held p.2) <$> map_to_list infl).

(** ** The invariant *)
Record shared_ok (SIZE : Z) (sh : Shared) : Prop := {
  ok_desc : length (sh_desc sh) = Z.to_nat SIZE;
  ok_avail : length (av_ring (sh_avail sh)) = Z.to_nat SIZE;
  ok_used : length (us_ring (sh_used sh)) = Z.to_nat SIZE
}.

Record inv (SIZE : Z) {W} `{HalSpec W} (q : VirtQueue) (w : W)
    (fl : list Z) (infl : gmap Z Req) (rest : list Res) : Prop := {
  inv_shared : shared_ok SIZE (shared q);
  inv_shadow : length (desc_shadow q) = Z.to_nat SIZE;
  inv_lists : length (indirect_lists q) = Z.to_nat SIZE;
  inv_free : free_path (desc_shadow q) (free_head q) fl;
  inv_reqs : ∀ h r, infl !! h = Some r → req_ok q h r;
  inv_kind : ∀ h r, infl !! h = Some r →
    length (req_chain r) = slots (indirect q) (req_items r);
  inv_items : ∀ h r, infl !! h = Some r → Forall item_ok (req_items r);
  inv_parts : fl ++ owned infl ≡ₚ seqZ 0 SIZE;
  inv_num : num_used q = SIZE - Z.of_nat (length fl);
  inv_slots : ∀ h il, index (indirect_lists q) h = Some (Some il) → 0 ≤ h →
    ∃ pa il' segs, infl !! h = Some (Indirect h pa il' segs);
  inv_held : held w ≡ₚ live_held infl ++ rest;
  inv_avail_idx : fits 16 (avail_idx q);
  inv_last_used : fits 16 (last_used_idx q)
}.
