(* ===== verification/QueueLemmas.v ===== *)
(** * Lemmas on descriptor chains and runs of the virtqueue's primitive steps *)

From S2P Require Import Prelude Base Transport QueueData Queue QueueInv.
Import VirtQueue.

(** ** Buffers *)

(** The items are the inputs, then the outputs. *)
Lemma io_items_eq inputs outputs :
  io_items inputs outputs =
  ((λ b, (b, DriverToDevice)) <$> inputs) ++ ((λ b, (b, DeviceToDriver)) <$> outputs).
Proof.
  unfold io_items. induction inputs as [|i inputs IH]; simpl; [|by f_equal].
  induction outputs as [|o outputs IH]; simpl; by f_equal.
Qed.

Lemma length_io_items inputs outputs :
  length (io_items inputs outputs) = (length inputs + length outputs)%nat.
Proof. rewrite io_items_eq, length_app, !length_fmap. done. Qed.

(** ** Indexing *)
Lemma index_insert_eq {A} (l : list A) i x :
  is_Some (index l i) → index (<[Z.to_nat i := x]> l) i = Some x.
Proof. intros H. apply list_lookup_insert_eq. by apply lookup_lt_is_Some. Qed.

Lemma index_insert_ne {A} (l : list A) i j x :
  0 ≤ i → 0 ≤ j → i ≠ j → index (<[Z.to_nat i := x]> l) j = index l j.
Proof. intros. apply list_lookup_insert_ne. lia. Qed.

Lemma index_lt {A} (l : list A) n i :
  length l = Z.to_nat n → 0 ≤ i < n → is_Some (index l i).
Proof. intros. apply lookup_lt_is_Some. lia. Qed.

(** ** Chains depend only on their own descriptors *)
Lemma free_path_agree sh sh' l s :
  (∀ i, i ∈ l → index sh' i = index sh i) → free_path sh s l → free_path sh' s l.
Proof.
  revert s. induction l as [|i l IH]; intros s Hag; simpl; [done|].
  intros (-> & d & Hd & Hp). split; [done|]. exists d. split.
  - rewrite Hag; [done|set_solver].
  - apply IH; [|done]. intros; apply Hag; set_solver.
Qed.

Lemma chain_segs_agree sh sh' c segs :
  (∀ i, i ∈ c → index sh' i = index sh i) → chain_segs sh c segs → chain_segs sh' c segs.
Proof.
  revert segs. induction c as [|i c IH]; intros [|s segs] Hag; simpl; try done.
  intros [(nx & Hd & Hn) Hc]. split.
  - exists nx. rewrite Hag by set_solver. done.
  - apply IH; [|done]. intros; apply Hag; set_solver.
Qed.

Lemma chain_segs_length sh c segs : chain_segs sh c segs → length c = length segs.
Proof.
  revert segs. induction c as [|i c IH]; intros [|s segs]; simpl; try done.
  intros [_ Hc]. f_equal. auto.
Qed.

Lemma free_path_app sh s l1 l2 : free_path sh s (l1 ++ l2) → free_path sh s l1.
Proof.
  revert s. induction l1 as [|i l1 IH]; intros s; simpl; [done|].
  intros (-> & d & Hd & Hp). eauto.
Qed.

(** ** The in-flight map *)
Lemma owned_insert infl h r :
  infl !! h = None → owned (<[h:=r]> infl) ≡ₚ req_chain r ++ owned infl.
Proof. intros Hn. unfold owned. by rewrite map_to_list_insert by done. Qed.

Lemma live_held_insert infl h r :
  infl !! h = None → live_held (<[h:=r]> infl) ≡ₚ req_held r ++ live_held infl.
Proof. intros Hn. unfold live_held. by rewrite map_to_list_insert by done. Qed.

Lemma owned_delete infl h r :
  infl !! h = Some r → owned infl ≡ₚ req_chain r ++ owned (delete h infl).
Proof.
  intros Hs. rewrite <- owned_insert by apply lookup_delete_eq.
  by rewrite insert_delete_id.
Qed.

Lemma live_held_delete infl h r :
  infl !! h = Some r → live_held infl ≡ₚ req_held r ++ live_held (delete h infl).
Proof.
  intros Hs. rewrite <- live_held_insert by apply lookup_delete_eq.
  by rewrite insert_delete_id.
Qed.

Lemma elem_of_owned infl h r i : infl !! h = Some r → i ∈ req_chain r → i ∈ owned infl.
Proof. intros Hs Hi. rewrite (owned_delete _ _ _ Hs). set_solver. Qed.

Lemma same_list_slice il il' : same_list il il' → list_slice il' = list_slice il.
Proof.
  intros [Hp Ha]. unfold list_slice. apply (f_equal length) in Ha. rewrite !length_fmap in Ha. by rewrite Hp, Ha.
Qed.

Lemma req_stands_head sh lists h r : req_stands sh lists h r → h ∈ req_chain r.
Proof.
  destruct r as [c segs|h' pa il segs]; simpl.
  - intros [Hh _]. destruct c; simplify_eq/=. set_solver.
  - intros [-> _]. set_solver.
Qed.

(** A request depends only on its own descriptors and its own indirect list. *)
Lemma req_stands_agree sh sh' lists lists' h r :
  (∀ i, i ∈ req_chain r → index sh' i = index sh i) →
  (∀ i, i ∈ req_chain r → index lists' i = index lists i) →
  req_stands sh lists h r → req_stands sh' lists' h r.
Proof.
  intros Hs Hl. destruct r as [c segs|h' pa il segs]; simpl in *.
  - intros [? Hc]. split; [done|]. by eapply chain_segs_agree.
  - intros (-> & Hi & Ht & nx & Hn). rewrite Hs, Hl by set_solver. eauto.
Qed.

(** ** Runs of the primitive steps *)
Section runs.
Context `{Profile} {W : Type} `{HalSpec W}.
Context (SIZE : Z).

Lemma assert_true {S} b (s : S) : b = true → assert b s = (Val tt, s).
Proof. by intros ->. Qed.

Lemma get_shadow_run i d (q : VirtQueue) (w : W) :
  index (desc_shadow q) i = Some d → get_shadow i (q, w) = (Val d, (q, w)).
Proof. intros E. unfold get_shadow. mstep. simpl. by rewrite E. Qed.

Lemma put_shadow_run i d (q : VirtQueue) (w : W) :
  is_Some (index (desc_shadow q) i) →
  put_shadow i d (q, w) =
  (Val tt, (set_desc_shadow (<[Z.to_nat i := d]> (desc_shadow q)) q, w)).
Proof.
  intros [d' Hd]. unfold put_shadow. erewrite bind_val by by apply get_shadow_run. done.
Qed.

Lemma write_desc_run i d (q : VirtQueue) (w : W) :
  index (desc_shadow q) i = Some d → is_Some (index (desc q) i) →
  write_desc i (q, w) = (Val tt, (set_desc (<[Z.to_nat i := d]> (desc q)) q, w)).
Proof.
  intros Hd [d' Hd']. unfold write_desc.
  erewrite bind_val by by apply get_shadow_run. mstep. simpl. rewrite Hd'. done.
Qed.

(** The calls of [Hal::share] and [Hal::unshare] for a list of buffers, in order. *)
Fixpoint shared_by (segs : list Seg) (w w' : W) : Prop :=
  match segs with
  | [] => w' = w
  | (pa, b, d) :: segs => ∃ w1, share b d w = (Val pa, w1) ∧ shared_by segs w1 w'
  end.
Fixpoint unshared_by (segs : list Seg) (w w' : W) : Prop :=
  match segs with
  | [] => w' = w
  | (pa, b, d) :: segs => ∃ w1, unshare pa b d w = (Val tt, w1) ∧ unshared_by segs w1 w'
  end.

(** The calls for a request; those for a list of indirect descriptors allocate its box, share the
    buffers, and share the box filled with the descriptors. *)
Definition req_shared (r : Req) (w w' : W) : Prop :=
  match r with
  | Direct _ segs => shared_by segs w w'
  | Indirect _ pa il segs => ∃ w1 w2 w3,
      box_new (s_len (list_slice il)) w = (Val (Some (il_ptr il)), w1) ∧ shared_by segs w1 w2 ∧
      box_write (il_ptr il) (descriptors_as_bytes (il_descs il)) w2 = (Val tt, w3) ∧
      share (list_slice il) DriverToDevice w3 = (Val pa, w')
  end.
Definition req_unshared (r : Req) (w w' : W) : Prop :=
  match r with
  | Direct _ segs => unshared_by segs w w'
  | Indirect _ pa il segs => ∃ w1 w2,
      unshare pa (list_slice il) DriverToDevice w = (Val tt, w1) ∧ unshared_by segs w1 w2 ∧
      box_drop (il_ptr il) (s_len (list_slice il)) w2 = (Val tt, w')
  end.

(** Sharing a buffer in a descriptor. *)
Lemma set_buf_run d b dir more extra (w : W) :
  item_ok (b, dir) →
  Z.lor extra (match dir with DeviceToDriver => DescFlags.WRITE | _ => 0 end)
    = seg_flags dir more →
  ∃ pa w', set_buf d b dir extra w = (Val (seg_desc more (d_next d) (pa, b, dir)), w') ∧
    held w' ≡ₚ Share (pa, b, dir) :: held w ∧ share b dir w = (Val pa, w').
Proof.
  intros (Hne & Hfit & Hdir) Hflags; simpl in *.
  destruct (share_spec b dir w Hne Hdir) as (pa & w' & Hsh & Hp).
  exists pa, w'. split; [|done].
  unfold set_buf. erewrite bind_val by exact Hsh.
  erewrite bind_val by (apply assert_true; by apply fitsb_spec).
  unfold seg_desc. simpl. rewrite <- Hflags. by destruct dir.
Qed.

(** *** The loop of [add_direct] *)

(** A chain under construction: every descriptor, the last one too, has [NEXT] set and
    leads to the next one; the last one leads to [fh]. *)
Fixpoint open_chain (sh : list Descriptor) (c : list Z) (segs : list Seg) (fh : Z) : Prop :=
  match c, segs with
  | [], [] => True
  | i :: c, s :: segs =>
      index sh i = Some (seg_desc true (default fh (head c)) s) ∧ open_chain sh c segs fh
  | _, _ => False
  end.

Lemma open_chain_agree sh sh' c segs fh :
  (∀ i, i ∈ c → index sh' i = index sh i) → open_chain sh c segs fh → open_chain sh' c segs fh.
Proof.
  revert segs. induction c as [|i c IH]; intros [|s segs] Hag; simpl; try done.
  intros [Hd Hc]. split; [by rewrite Hag by set_solver|].
  apply IH; [|done]. intros; apply Hag; set_solver.
Qed.

(** [sh'] differs from [sh] only at the indices of [c]. *)
Definition only_at (c : list Z) (sh sh' : list Descriptor) : Prop :=
  length sh' = length sh ∧ ∀ i, 0 ≤ i → i ∉ c → index sh' i = index sh i.

Lemma only_at_insert i d sh : 0 ≤ i → only_at [i] sh (<[Z.to_nat i := d]> sh).
Proof.
  intros Hi. split; [apply length_insert|]. intros j Hj Hn.
  apply index_insert_ne; set_solver.
Qed.

Lemma only_at_trans c c' sh1 sh2 sh3 :
  only_at c sh1 sh2 → only_at c' sh2 sh3 → only_at (c ++ c') sh1 sh3.
Proof.
  intros [L1 A1] [L2 A2]. split; [lia|]. intros i Hi Hn.
  rewrite A2, A1; set_solver.
Qed.

Lemma only_at_weaken c c' sh sh' : c ⊆ c' → only_at c sh sh' → only_at c' sh sh'.
Proof. intros Hs [L A]. split; [done|]. intros i Hi Hn. apply A; set_solver. Qed.

(** The queue after the table, its shadow and the free list changed. *)
Definition retable (sh de : list Descriptor) (fh : Z) (q : VirtQueue) : VirtQueue :=
  set_free_head fh (set_desc_shadow sh (set_desc de q)).

Lemma add_direct_loop_run items : ∀ last q (w : W) c fl,
  Forall item_ok items → length c = length items →
  free_path (desc_shadow q) (free_head q) (c ++ fl) → NoDup (c ++ fl) →
  (∀ i, i ∈ c → 0 ≤ i < SIZE) → (∀ i, i ∈ fl → 0 ≤ i) →
  length (desc_shadow q) = Z.to_nat SIZE → length (desc q) = Z.to_nat SIZE →
  ∃ sh de fh w' segs,
    add_direct_loop items last (q, w)
      = (Val (default last (list.last c)), (retable sh de fh q, w')) ∧
    seg_item <$> segs = items ∧ held w' ≡ₚ (Share <$> segs) ++ held w ∧
    open_chain sh c segs fh ∧ free_path sh fh fl ∧
    only_at c (desc_shadow q) sh ∧ only_at c (desc q) de ∧
    (∀ i, i ∈ c → index de i = index sh i) ∧ (c = [] → fh = free_head q) ∧ shared_by segs w w'.
Proof.
  induction items as [|[b dir] items IH]; intros last q w c fl Hok Hlen Hfree Hnd Hc Hfl Hsh Hde.
  { destruct c; [|done]. exists (desc_shadow q), (desc q), (free_head q), w, [].
    repeat split; auto; try set_solver. simpl. by destruct q as [?[]]. }
  destruct c as [|i c]; [done|]. injection Hlen as Hlen.
  apply Forall_cons in Hok as [Hok1 Hok].
  simpl in Hfree. destruct Hfree as (Hhd & d & Hd & Hfree).
  assert (0 ≤ i < SIZE) as Hi by (apply Hc; set_solver).
  simpl in Hnd. apply NoDup_cons in Hnd as [Hni Hnd].
  simpl add_direct_loop.
  erewrite bind_val by (apply assert_true; destruct Hok1 as [Hne _]; simpl in *; lia).
  mstep. simpl. rewrite Hhd.
  erewrite bind_val by by apply get_shadow_run.
  destruct (set_buf_run d b dir true DescFlags.NEXT w Hok1 eq_refl) as (pa & w1 & Hsb & Hp1 & Hcall).
  erewrite bind_val by (apply on_snd_val; exact Hsb).
  erewrite bind_val by by apply put_shadow_run.
  mstep. simpl.
  set (d1 := seg_desc true (d_next d) (pa, b, dir)).
  set (sh1 := <[Z.to_nat i := d1]> (desc_shadow q)).
  assert (index sh1 i = Some d1) as Hd1 by (by apply index_insert_eq).
  erewrite bind_val.
  2:{ apply (write_desc_run _ d1); [done|]. simpl. by eapply index_lt. }
  set (q1 := set_desc _ _).
  assert (desc_shadow q1 = sh1) as E1 by done.
  assert (desc q1 = <[Z.to_nat i := d1]> (desc q)) as E2 by done.
  assert (free_head q1 = d_next d) as E3 by done.
  destruct (IH i q1 w1 c fl) as (sh & de & fh & w' & segs & Hrun & Hit & Hp & Hoc & Hfp & Os & Od & Hag & Hfh & Hcalls);
    rewrite ?E1, ?E2, ?E3 in *; try done.
  { apply (free_path_agree (desc_shadow q)); [|done]. intros j Hj.
    apply index_insert_ne; [lia| |set_solver].
    apply elem_of_app in Hj as [Hj|Hj]; [apply Hc; set_solver|by apply Hfl]. }
  { intros; apply Hc; set_solver. }
  { unfold sh1. by rewrite length_insert. }
  { by rewrite length_insert. }
  exists sh, de, fh, w', ((pa, b, dir) :: segs).
  rewrite Hrun. split_and!.
  - destruct c as [|j c]; [done|]. simpl. do 2 f_equal.
    destruct (list.last (j :: c)) eqn:El; [done|]. by apply last_None in El.
  - by rewrite fmap_cons, Hit.
  - rewrite Hp, Hp1. simpl. by rewrite Permutation_middle.
  - destruct Os as [_ Os]. rewrite Os, Hd1 by (lia || set_solver).
    unfold d1. do 2 f_equal. destruct c as [|j c]; simpl.
    + by rewrite Hfh.
    + by destruct Hfree as [-> _].
  - done.
  - done.
  - apply (only_at_trans [i] c _ sh1); [apply only_at_insert; lia|done].
  - apply (only_at_trans [i] c _ (<[Z.to_nat i:=d1]> (desc q))); [apply only_at_insert; lia|done].
  - intros j [->|Hj]%elem_of_cons; [|by apply Hag].
    destruct Os as [_ Os], Od as [_ Od].
    rewrite Os, Od, Hd1 by (lia || set_solver). apply index_insert_eq. by eapply index_lt.
  - done.
  - by exists w1.
Qed.

(** Clearing [NEXT] in the last descriptor turns an open chain into a chain. *)
Lemma close_chain sh c segs fh i :
  open_chain sh c segs fh → NoDup c → (∀ j, j ∈ c → 0 ≤ j) → list.last c = Some i →
  ∃ d, index sh i = Some d ∧
    chain_segs (<[Z.to_nat i := set_flags d (remove_flags (d_flags d) DescFlags.NEXT)]> sh)
      c segs.
Proof.
  revert segs. induction c as [|j c IH]; intros [|s segs] Hoc Hnd Hpos Hl; try done.
  destruct Hoc as [Hd Hoc]. destruct c as [|k c].
  - destruct segs; [|done]. simplify_eq/=. eexists; split; [done|]. split; [|done].
    exists fh. split; [|done]. rewrite index_insert_eq by done.
    unfold seg_desc, set_flags. simpl. do 2 f_equal. by destruct s as [[? ?] []].
  - apply NoDup_cons in Hnd as [Hnj Hnd].
    destruct (IH segs) as (d & Hi & Hc); try done.
    { intros; apply Hpos. by right. }
    exists d. split; [done|]. simpl. split; [|done]. exists k. split; [|by intros ? [= ->]].
    assert (i ∈ k :: c) by (by apply last_Some_elem_of).
    rewrite index_insert_ne; [done|apply Hpos; by right|apply Hpos; by left|].
    intros ->. done.
Qed.

Lemma add_direct_run inputs outputs q (w : W) c fl :
  Forall item_ok (io_items inputs outputs) → inputs ++ outputs ≠ [] →
  length c = (length inputs + length outputs)%nat →
  free_path (desc_shadow q) (free_head q) (c ++ fl) → NoDup (c ++ fl) →
  (∀ i, i ∈ c ++ fl → 0 ≤ i < SIZE) →
  length (desc_shadow q) = Z.to_nat SIZE → length (desc q) = Z.to_nat SIZE →
  fits 16 (num_used q + Z.of_nat (length c)) → 0 ≤ num_used q →
  ∃ sh de fh w' segs,
    add_direct inputs outputs (q, w) = (Val (free_head q),
      (set_num_used (num_used q + Z.of_nat (length c)) (retable sh de fh q), w')) ∧
    seg_item <$> segs = io_items inputs outputs ∧ held w' ≡ₚ (Share <$> segs) ++ held w ∧
    head c = Some (free_head q) ∧ chain_segs sh c segs ∧ free_path sh fh fl ∧
    only_at c (desc_shadow q) sh ∧ only_at c (desc q) de ∧
    (∀ i, i ∈ c → index de i = index sh i) ∧ shared_by segs w w'.
Proof.
  intros Hok Hne Hlen Hfree Hnd Hpos Hsh Hde Hfit Hnu.
  destruct (add_direct_loop_run (io_items inputs outputs) (free_head q) q w c fl)
    as (sh & de & fh & w' & segs & Hrun & Hit & Hp & Hoc & Hfp & Os & Od & Hag & _ & Hcalls); try done.
  { by rewrite length_io_items. }
  { intros; apply Hpos; set_solver. }
  { intros i Hi. apply (Hpos i). set_solver. }
  destruct (list.last c) as [i|] eqn:Hl; [|apply last_None in Hl; subst c;
    destruct inputs, outputs; simplify_eq/=].
  assert (i ∈ c) as Hi by (by apply last_Some_elem_of).
  assert (0 ≤ i < SIZE) as Hi' by (apply Hpos; set_solver).
  destruct (close_chain sh c segs fh i) as (d & Hd & Hc); try done.
  { by apply NoDup_app in Hnd as [? _]. }
  { intros j Hj. apply (Hpos j). set_solver. }
  set (d' := set_flags d (remove_flags (d_flags d) DescFlags.NEXT)) in *.
  exists (<[Z.to_nat i := d']> sh), (<[Z.to_nat i := d']> de), fh, w', segs.
  split.
  { unfold add_direct. mstep. simpl.
    erewrite bind_val by by apply get_shadow_run.
    erewrite bind_val by (apply put_shadow_run; eauto).
    erewrite bind_val.
    2:{ apply (write_desc_run _ d'); simpl; [by apply index_insert_eq|].
        apply (index_lt _ SIZE); [|done]. etrans; [exact (proj1 Od)|done]. }
    mstep. simpl. rewrite wrap_small by (rewrite <- Hlen; unfold fits in *; lia).
    erewrite bind_val by (rewrite <- Hlen; by apply arith_fits). done. }
  assert (only_at c sh (<[Z.to_nat i := d']> sh)) as Os'.
  { eapply only_at_weaken; [|apply only_at_insert; lia]. set_solver. }
  assert (only_at c de (<[Z.to_nat i := d']> de)) as Od'.
  { eapply only_at_weaken; [|apply only_at_insert; lia]. set_solver. }
  split_and!; try done.
  - destruct c as [|j c]; [done|]. simpl in Hfree |- *. by destruct Hfree as [-> _].
  - eapply free_path_agree; [|done]. intros j Hj. apply index_insert_ne; [lia| |].
    + apply (Hpos j). set_solver.
    + apply NoDup_app in Hnd as (_ & Hd' & _). intros ->. by apply (Hd' j).
  - eapply only_at_weaken; [|by eapply only_at_trans]. set_solver.
  - eapply only_at_weaken; [|by eapply only_at_trans]. set_solver.
  - intros j Hj. destruct (decide (j = i)) as [->|].
    + rewrite !index_insert_eq; [done|by eauto|by rewrite Hag by done].
    + assert (0 ≤ j < SIZE) by (apply Hpos; set_solver).
      rewrite !index_insert_ne by lia. by apply Hag.
Qed.

(** *** The indirect list *)

(** The list as the loop leaves it: [NEXT] is set in the last element too. *)
Fixpoint open_table (i : Z) (segs : list Seg) : list Descriptor :=
  match segs with
  | [] => []
  | s :: segs => seg_desc true (wrap 16 (i + 1)) s :: open_table (i + 1) segs
  end.

Lemma length_indirect_table i segs : length (indirect_table i segs) = length segs.
Proof. revert i. induction segs as [|s segs IH]; intros i; simpl; [done|]. by rewrite IH. Qed.

Lemma clear_last_next_cons d1 d2 l :
  clear_last_next (d1 :: d2 :: l) = cons d1 <$> clear_last_next (d2 :: l).
Proof.
  unfold clear_last_next. change (list.last (d1 :: d2 :: l)) with (list.last (d2 :: l)).
  by destruct (list.last (d2 :: l)).
Qed.

Lemma clear_open_table i segs :
  segs ≠ [] → clear_last_next (open_table i segs) = Some (indirect_table i segs).
Proof.
  revert i. induction segs as [|s segs IH]; intros i Hne; [done|].
  destruct segs as [|s' segs].
  - unfold clear_last_next. simpl. do 3 f_equal. unfold set_flags, seg_desc. simpl.
    f_equal. by destruct s as [[? ?] []].
  - change (open_table i (s :: s' :: segs)) with
      (seg_desc true (wrap 16 (i + 1)) s :: open_table (i + 1) (s' :: segs)).
    transitivity (cons (seg_desc true (wrap 16 (i + 1)) s) <$>
                  clear_last_next (open_table (i + 1) (s' :: segs)));
      [apply clear_last_next_cons|].
    by rewrite IH.
Qed.

Lemma fill_indirect_run items : ∀ done q (w : W),
  Forall item_ok items →
  ∃ w' segs,
    fill_indirect (Z.of_nat (length done)) items
      (done ++ replicate (length items) zero_descriptor) (q, w)
      = (Val (done ++ open_table (Z.of_nat (length done)) segs), (q, w')) ∧
    seg_item <$> segs = items ∧ held w' ≡ₚ (Share <$> segs) ++ held w ∧ shared_by segs w w'.
Proof.
  induction items as [|[b dir] items IH]; intros don q w Hok.
  { exists w, []. simpl. by rewrite app_nil_r. }
  apply Forall_cons in Hok as [Hok1 Hok]. simpl fill_indirect.
  destruct (set_buf_run zero_descriptor b dir true DescFlags.NEXT w Hok1 eq_refl)
    as (pa & w1 & Hsb & Hp1 & Hcall).
  unfold index at 1. rewrite Nat2Z.id, lookup_app_r, Nat.sub_diag by lia. simpl.
  mstep. erewrite bind_val by (apply on_snd_val; exact Hsb).
  rewrite insert_app_r_alt, Nat.sub_diag by lia. simpl.
  set (d := set_next _ _).
  replace (don ++ d :: replicate (length items) zero_descriptor)
    with ((don ++ [d]) ++ replicate (length items) zero_descriptor) by by rewrite <- app_assoc.
  destruct (IH (don ++ [d]) q w1 Hok) as (w' & segs & Hrun & Hit & Hp & Hcalls).
  rewrite length_app, Nat2Z.inj_add in Hrun. change (Z.of_nat (length [d])) with 1 in Hrun.
  exists w', ((pa, b, dir) :: segs). rewrite Hrun. split_and!.
  - by rewrite <- app_assoc.
  - by rewrite fmap_cons, Hit.
  - rewrite Hp, Hp1. simpl. by rewrite Permutation_middle.
  - by exists w1.
Qed.

Lemma set_buf_indirect_run d b (w : W) :
  item_ok (b, DriverToDevice) →
  ∃ pa w', set_buf d b DriverToDevice DescFlags.INDIRECT w
    = (Val (mkDescriptor pa (s_len b) DescFlags.INDIRECT (d_next d)), w') ∧
    held w' ≡ₚ Share (pa, b, DriverToDevice) :: held w ∧ share b DriverToDevice w = (Val pa, w').
Proof.
  intros (Hne & Hfit & Hdir); simpl in *.
  destruct (share_spec b DriverToDevice w Hne Hdir) as (pa & w' & Hsh & Hp).
  exists pa, w'. split; [|done].
  unfold set_buf. erewrite bind_val by exact Hsh.
  by erewrite bind_val by (apply assert_true; by apply fitsb_spec).
Qed.

Lemma add_indirect_run inputs outputs q (w : W) i fl :
  Forall item_ok (io_items inputs outputs) → inputs ++ outputs ≠ [] →
  Z.of_nat (length inputs + length outputs) ≤ SIZE → SIZE < 2 ^ 16 →
  free_path (desc_shadow q) (free_head q) (i :: fl) → i ∉ fl →
  0 ≤ i < SIZE → (∀ j, j ∈ fl → 0 ≤ j) →
  index (indirect_lists q) i = Some None →
  length (desc_shadow q) = Z.to_nat SIZE → length (desc q) = Z.to_nat SIZE →
  fits 16 (num_used q + 1) →
  ∃ pa ptr nx w' segs,
    let il := mkIndirectList ptr (indirect_table 0 segs) in
    let d := mkDescriptor pa (s_len (list_slice il)) DescFlags.INDIRECT nx in
    let sh := <[Z.to_nat i := d]> (desc_shadow q) in
    add_indirect inputs outputs (q, w) = (Val (free_head q),
      (set_num_used (num_used q + 1)
        (set_indirect_lists (<[Z.to_nat i := Some il]> (indirect_lists q))
          (retable sh (<[Z.to_nat i := d]> (desc q)) nx q)), w')) ∧
    seg_item <$> segs = io_items inputs outputs ∧
    held w' ≡ₚ req_held (Indirect i pa il segs) ++ held w ∧
    free_path sh nx fl ∧ req_shared (Indirect i pa il segs) w w'.
Proof.
  intros Hok Hne Hn HS Hfree Hni Hi Hfl Hlists Hsh Hde Hfit.
  destruct Hfree as (Hhd & d & Hd & Hfree).
  set (n := (length inputs + length outputs)%nat) in *.
  destruct (box_new_spec (DESCRIPTOR_SIZE * Z.of_nat n) w) as (ptr & w1 & _ & Hbox & Hp1).
  destruct (fill_indirect_run (io_items inputs outputs) [] q w1 Hok)
    as (w2 & segs & Hfill & Hit & Hp2 & Hcalls).
  rewrite length_io_items in Hfill. simpl in Hfill. fold n in Hfill.
  assert (length segs = n) as Hls
    by (rewrite <- (length_fmap seg_item), Hit; apply length_io_items).
  assert (0 < n)%nat as Hn0 by (unfold n; destruct inputs, outputs; simpl; done || lia).
  assert (clear_last_next (open_table 0 segs) = Some (indirect_table 0 segs)) as Hcl.
  { apply clear_open_table. intros ->. simpl in Hls. lia. }
  set (il := mkIndirectList ptr (indirect_table 0 segs)).
  assert (list_slice il = mkSlice ptr (DESCRIPTOR_SIZE * Z.of_nat n)) as Hsl.
  { unfold list_slice, il. simpl. by rewrite length_indirect_table, Hls. }
  destruct (box_write_spec ptr (descriptors_as_bytes (indirect_table 0 segs)) w2) as (w3 & Hwr & Hpw).
  { rewrite descriptors_as_bytes_length, length_indirect_table, Hls, Hp2, elem_of_app, Hp1. right.
    rewrite elem_of_cons. left. f_equal. unfold DESCRIPTOR_SIZE. lia. }
  destruct (set_buf_indirect_run d (list_slice il) w3) as (pa & w' & Hsb & Hp3 & Hcall).
  { rewrite Hsl. unfold item_ok, DESCRIPTOR_SIZE, fits. simpl. split_and!; [lia..|done]. }
  exists pa, ptr, (d_next d), w', segs. cbv zeta. fold il. split_and!.
  - unfold add_indirect. mstep. cbn [fst snd]. fold n.
    erewrite bind_val by (apply on_snd_val; exact Hbox).
    erewrite bind_val by done. erewrite bind_val by exact Hfill.
    change (Z.of_nat 0) with 0. rewrite Hcl. erewrite bind_val by done.
    erewrite bind_val by (apply on_snd_val; exact Hwr).
    mstep. simpl. rewrite Hhd, Hlists. mstep. simpl.
    erewrite bind_val by (apply get_shadow_run; exact Hd).
    mstep. simpl. rewrite <- Hsl.
    erewrite bind_val by (apply on_snd_val; exact Hsb).
    erewrite bind_val by (apply put_shadow_run; simpl; eauto).
    erewrite bind_val.
    2:{ eapply write_desc_run; simpl; [apply index_insert_eq; eauto|].
        by apply (index_lt _ SIZE). }
    mstep. simpl. erewrite bind_val by (by apply arith_fits). done.
  - done.
  - rewrite Hp3, Hpw, Hp2, Hp1. unfold req_held. rewrite Hsl. cbn [s_len]. solve_Permutation.
  - eapply free_path_agree; [|done]. intros j Hj.
    apply index_insert_ne; [lia|by apply Hfl|]. intros ->. done.
  - exists w1, w2, w3. rewrite Hsl in *. by split_and!.
Qed.

(** *** Recycling *)
Lemma next_unset_buf more nx s :
  next (unset_buf (seg_desc more nx s)) = if more then Some nx else None.
Proof. by destruct more, s as [[? ?] []]. Qed.

Lemma recycle_direct_run ofh items : ∀ q (w : W) c segs fl rest nxt,
  seg_item <$> segs = items → Forall item_ok items →
  chain_segs (desc_shadow q) c segs → (c ≠ [] → nxt = head c) → NoDup (c ++ fl) →
  (∀ i, i ∈ c → 0 ≤ i < SIZE) → (∀ i, i ∈ fl → 0 ≤ i) →
  free_path (desc_shadow q) ofh fl → held w ≡ₚ (Share <$> segs) ++ rest →
  length (desc_shadow q) = Z.to_nat SIZE → length (desc q) = Z.to_nat SIZE →
  Z.of_nat (length c) ≤ num_used q → fits 16 (num_used q) →
  ∃ sh de w',
    recycle_direct ofh items nxt (q, w) =
      (Val (match c with [] => nxt | _ => None end),
        (set_num_used (num_used q - Z.of_nat (length c)) (retable sh de (free_head q) q), w')) ∧
    held w' ≡ₚ rest ∧ free_path sh (default ofh (head c)) (c ++ fl) ∧
    only_at c (desc_shadow q) sh ∧ only_at c (desc q) de ∧
    (∀ i, i ∈ c → index de i = index sh i) ∧ unshared_by segs w w'.
Proof.
  induction items as [|[b dir] items IH];
    intros q w c segs fl rest nxt Hit Hok Hcs Hnxt Hnd Hc Hfl Hfree Hp Hsh Hde Hnum Hfit.
  { apply fmap_nil_inv in Hit as ->. destruct c; [|done].
    exists (desc_shadow q), (desc q), w. split_and!; try done; try set_solver.
    simpl. rewrite Z.sub_0_r. by destruct q as [?[]]. }
  destruct segs as [|s segs]; [done|]. rewrite fmap_cons in Hit.
  injection Hit as Hs Hit. destruct c as [|i c]; [done|].
  destruct Hcs as [(nx & Hd & Hnx) Hcs]. rewrite Hnxt by done. clear Hnxt. simpl in Hnd, Hnum.
  apply Forall_cons in Hok as [Hok1 Hok]. apply NoDup_cons in Hnd as [Hni Hnd].
  assert (0 ≤ i < SIZE) as Hi by (apply Hc; set_solver).
  set (d1 := match next (unset_buf (seg_desc (nonempty c) nx s)) with
             | None => set_next (unset_buf (seg_desc (nonempty c) nx s)) ofh
             | Some _ => unset_buf (seg_desc (nonempty c) nx s) end).
  assert (d_next d1 = default ofh (head c)) as Hd1n.
  { unfold d1. rewrite next_unset_buf. destruct c as [|j c]; simpl; [done|]. by apply Hnx. }
  set (sh1 := <[Z.to_nat i := d1]> (desc_shadow q)).
  set (de1 := <[Z.to_nat i := d1]> (desc q)).
  assert (index sh1 i = Some d1) as Hd1 by (by apply index_insert_eq).
  destruct (unshare_spec s.1.1 b dir w ((Share <$> segs) ++ rest)) as (w1 & Hun & Hp1); [apply Hok1|..].
  { rewrite Hp. destruct s as [[? ?] ?]. by simplify_eq/=. }
  set (q1 := set_num_used (num_used q - 1) (retable sh1 de1 (free_head q) q)).
  destruct (IH q1 w1 c segs fl rest (if nonempty c then Some nx else None))
    as (sh & de & w' & Hrun & Hp' & Hfp & Os & Od & Hag & Hcalls); clear IH; try done.
  { eapply chain_segs_agree; [|done]. intros j Hj. apply index_insert_ne; [lia| |set_solver].
    apply (Hc j); set_solver. }
  { destruct c as [|j c]; simpl; [done|]. intros _. by rewrite (Hnx j). }
  { intros; apply Hc; set_solver. }
  { eapply free_path_agree; [|done]. intros j Hj.
    apply index_insert_ne; [lia|by apply Hfl|set_solver]. }
  { simpl. unfold sh1. by rewrite length_insert. }
  { unfold q1, desc, de1. simpl. by rewrite length_insert. }
  { simpl. lia. } { unfold fits in *. simpl. lia. }
  exists sh, de, w'. split.
  { simpl recycle_direct.
    erewrite bind_val by (apply assert_true; destruct Hok1 as [Hne _]; simpl in *; lia).
    erewrite bind_val by done. erewrite bind_val by (apply get_shadow_run; exact Hd).
    mstep. cbn [fst snd].
    erewrite bind_val by (apply arith_fits; unfold fits in *; lia).
    mstep. cbn [fst snd]. fold d1.
    erewrite bind_val by (apply put_shadow_run; simpl; eauto).
    erewrite bind_val.
    2:{ apply (write_desc_run _ d1); simpl; [done|]. by apply (index_lt _ SIZE). }
    erewrite bind_val by (apply on_snd_val; exact Hun).
    rewrite next_unset_buf.
    etrans; [exact Hrun|]. f_equal; [by destruct c|]. f_equal.
    unfold q1, set_num_used, retable. simpl. f_equal. lia. }
  clear Hrun. subst q1. simpl in Os, Od. split_and!; try done.
  - split; [done|]. exists d1. split; [|by rewrite Hd1n].
    destruct Os as [_ Os]. by rewrite Os by (lia || set_solver).
  - apply (only_at_trans [i] c _ sh1); [apply only_at_insert; lia|done].
  - apply (only_at_trans [i] c _ de1); [apply only_at_insert; lia|done].
  - intros j [->|Hj]%elem_of_cons; [|by apply Hag].
    destruct Os as [_ Os], Od as [_ Od].
    rewrite Os, Od, Hd1 by (lia || set_solver). apply index_insert_eq. by apply (index_lt _ SIZE).
  - destruct s as [[pa b'] d']. simplify_eq/=. by exists w1.
Qed.

Lemma indirect_addrs segs : ∀ i, d_addr <$> indirect_table i segs = (λ s, s.1.1) <$> segs.
Proof. induction segs as [|s segs IH]; intros i; [done|]. simpl. by rewrite IH. Qed.

Lemma unshare_indirect_run segs : ∀ pre l q (w : W) rest,
  Forall item_ok (seg_item <$> segs) → held w ≡ₚ (Share <$> segs) ++ rest →
  d_addr <$> l = (λ s, s.1.1) <$> segs →
  ∃ w', unshare_indirect (Z.of_nat (length pre)) (seg_item <$> segs) (pre ++ l) (q, w)
      = (Val tt, (q, w')) ∧
    held w' ≡ₚ rest ∧ unshared_by segs w w'.
Proof.
  induction segs as [|s segs IH]; intros pre l q w rest Hok Hp Hl; [by exists w|].
  destruct l as [|d l]; [done|]. rewrite !fmap_cons in Hl. injection Hl as Hd Hl.
  rewrite fmap_cons in Hok |- *. apply Forall_cons in Hok as [Hok1 Hok].
  destruct (unshare_spec s.1.1 s.1.2 s.2 w ((Share <$> segs) ++ rest)) as (w1 & Hun & Hp1); [apply Hok1|..].
  { rewrite Hp. by destruct s as [[? ?] ?]. }
  change (seg_item s :: _) with ((s.1.2, s.2) :: (seg_item <$> segs)). cbn [unshare_indirect].
  erewrite bind_val by (apply assert_true; destruct Hok1 as [Hne _]; simpl in *; lia).
  erewrite bind_val.
  2:{ unfold index. rewrite Nat2Z.id, lookup_app_r, Nat.sub_diag by lia. done. }
  rewrite Hd. erewrite bind_val by (apply on_snd_val; exact Hun).
  destruct (IH (pre ++ [d]) l q w1 rest Hok Hp1 Hl) as (w' & Hrun & Hp' & Hcalls).
  rewrite length_app, Nat2Z.inj_add in Hrun. change (Z.of_nat (length [d])) with 1 in Hrun.
  rewrite <- app_assoc in Hrun. exists w'. split; [done|]. split; [done|].
  destruct s as [[pa b] dir]. by exists w1.
Qed.

(** The descriptors of a request go back to the free list, in the order of the chain and in
    front of it, and all that the request held is released. *)
Definition recycled (q : VirtQueue) (w : W) (h : Z) (r : Req) (fl : list Z) (rest : list Res)
    (inputs outputs : list Slice) : Prop :=
  ∃ sh de lists w',
    recycle_descriptors h inputs outputs (q, w) =
      (Val tt, (set_num_used (num_used q - Z.of_nat (length (req_chain r)))
        (set_indirect_lists lists (retable sh de h q)), w')) ∧
    held w' ≡ₚ rest ∧ free_path sh h (req_chain r ++ fl) ∧
    only_at (req_chain r) (desc_shadow q) sh ∧ only_at (req_chain r) (desc q) de ∧
    lists = (match r with
             | Direct _ _ => indirect_lists q
             | Indirect _ _ _ _ => <[Z.to_nat h := None]> (indirect_lists q)
             end) ∧
    req_unshared r w w'.

(** What is known of a request that is to be recycled. *)
Record recyclable (q : VirtQueue) (w : W) (h : Z) (r : Req) (fl : list Z) (rest : list Res)
    (inputs outputs : list Slice) : Prop := {
  rc_req : req_ok q h r;
  rc_items : req_items r = io_items inputs outputs;
  rc_ok : Forall item_ok (req_items r);
  rc_segs : req_segs r ≠ [];
  rc_free : free_path (desc_shadow q) (free_head q) fl;
  rc_nodup : NoDup (req_chain r ++ fl);
  rc_range : ∀ i, i ∈ req_chain r ++ fl → 0 ≤ i < SIZE;
  rc_held : held w ≡ₚ req_held r ++ rest;
  rc_shadow : length (desc_shadow q) = Z.to_nat SIZE;
  rc_desc : length (desc q) = Z.to_nat SIZE;
  rc_num : Z.of_nat (length (req_chain r)) ≤ num_used q;
  rc_fits : fits 16 (num_used q)
}.

Lemma recycle_direct_case q w h c segs fl rest inputs outputs :
  recyclable q w h (Direct c segs) fl rest inputs outputs →
  recycled q w h (Direct c segs) fl rest inputs outputs.
Proof.
  intros [Hr Hit Hok Hne Hfree Hnd Hpos Hp Hsh Hde Hnum Hfit]; simpl in *.
  destruct Hr as [Hhd Hcs]. destruct c as [|i c]; [done|]. injection Hhd as ->.
  destruct segs as [|s segs]; [done|].
  destruct (recycle_direct_run (free_head q) (io_items inputs outputs) (set_free_head h q) w
    (h :: c) (s :: segs) fl rest (Some h)) as (sh & de & w' & Hrun & Hp' & Hfp & Os & Od & Hag & Hcalls);
    try done.
  { by rewrite <- Hit. }
  { intros i Hi. apply Hpos. set_solver. }
  { intros i Hi. apply (Hpos i). set_solver. }
  exists sh, de, (indirect_lists q), w'. split_and!; try done.
  unfold recycle_descriptors. mstep. cbn [fst snd]. destruct Hcs as [(nx & Hd & _) _].
  erewrite bind_val by (apply get_shadow_run; exact Hd).
  assert (contains (d_flags (seg_desc (nonempty c) nx s)) DescFlags.INDIRECT = false) as ->
    by (by destruct s as [[? ?] []], c).
  erewrite bind_val by exact Hrun. done.
Qed.

(** Releasing an indirect list: the list itself, the buffers, then the box. *)
Lemma release_indirect_run q1 (w : W) h pa il il' segs rest :
  held w ≡ₚ req_held (Indirect h pa il segs) ++ rest → segs ≠ [] →
  il_descs il = indirect_table 0 segs → same_list il il' → Forall item_ok (seg_item <$> segs) →
  ∃ w1 w2 w3, unshare pa (list_slice il) DriverToDevice w = (Val tt, w1) ∧
    unshare_indirect 0 (seg_item <$> segs) (il_descs il') (q1, w1) = (Val tt, (q1, w2)) ∧
    box_drop (il_ptr il) (s_len (list_slice il)) w2 = (Val tt, w3) ∧ held w3 ≡ₚ rest ∧
    unshared_by segs w1 w2.
Proof.
  intros Hp Hne Hil [_ Hsa] Hok. simpl in Hp. set (bx := Boxed (il_ptr il) (s_len (list_slice il))) in *.
  destruct (unshare_spec pa (list_slice il) DriverToDevice w ((Share <$> segs) ++ bx :: rest))
    as (w1 & Hun & Hp1).
  { unfold list_slice. rewrite Hil, length_indirect_table. simpl.
    destruct segs; [done|]. unfold DESCRIPTOR_SIZE. simpl. lia. }
  { rewrite Hp. solve_Permutation. }
  rewrite Hil, indirect_addrs in Hsa.
  destruct (unshare_indirect_run segs [] (il_descs il') q1 w1 (bx :: rest) Hok Hp1 Hsa) as (w2 & Hrun & Hp2 & Hcalls).
  destruct (box_drop_spec (il_ptr il) (s_len (list_slice il)) w2 rest Hp2) as (w3 & Hdrop & Hp3).
  by exists w1, w2, w3.
Qed.

Lemma recycle_indirect_case q w h h' pa il segs fl rest inputs outputs :
  recyclable q w h (Indirect h' pa il segs) fl rest inputs outputs →
  recycled q w h (Indirect h' pa il segs) fl rest inputs outputs.
Proof.
  intros [Hr Hit Hok Hne Hfree Hnd Hpos Hp Hsh Hde Hnum Hfit].
  destruct Hr as (-> & (il' & Hl & Hsl) & Hil & nx & Hd); simpl in Hnd, Hpos, Hnum, Hne.
  assert (0 ≤ h < SIZE) as Hh by (apply Hpos; set_solver).
  set (d := mkDescriptor 0 0 DescFlags.INDIRECT (free_head q)).
  set (sh := <[Z.to_nat h := d]> (desc_shadow q)).
  set (q1 := set_num_used (num_used q - 1) (set_indirect_lists
    (<[Z.to_nat h := None]> (indirect_lists q)) (retable sh (desc q) h q))).
  pose proof (same_list_slice _ _ Hsl) as Hls.
  destruct (release_indirect_run q1 w h pa il il' segs rest)
    as (w1 & w2 & w3 & Hun & Hrun & Hdrop & Hp3 & Hcalls); try done.
  pose proof Hun as Hun'. pose proof Hdrop as Hdrop'.
  rewrite <- Hls in Hun'. rewrite <- Hls, <- (proj1 Hsl) in Hdrop'.
  exists sh, (desc q), (<[Z.to_nat h := None]> (indirect_lists q)), w3. split_and!; try done.
  - unfold recycle_descriptors. mstep. cbn [fst snd].
    erewrite bind_val by (apply get_shadow_run; exact Hd).
    change (contains _ _) with true. cbn beta match.
    mstep. cbn [fst snd indirect_lists set_free_head]. rewrite Hl. mstep. cbn [fst snd].
    erewrite bind_val by (apply arith_fits; unfold fits in *; simpl in *; lia).
    mstep. cbn [fst snd].
    erewrite bind_val by (apply put_shadow_run; simpl; eauto).
    erewrite bind_val by (apply on_snd_val; exact Hun').
    erewrite bind_val.
    2:{ apply assert_true, bool_decide_eq_true. rewrite <- (length_fmap d_addr), (proj2 Hsl), length_fmap, Hil, length_indirect_table,
          <- length_io_items, <- Hit. symmetry. apply length_fmap. }
    rewrite <- Hit.
    erewrite bind_val by (etrans; [|exact Hrun]; f_equal; f_equal; by destruct q as [?[]]).
    etrans; [apply on_snd_val; exact Hdrop'|done].
  - simpl. split; [done|]. exists d. split; [by apply index_insert_eq|].
    eapply free_path_agree; [|done]. intros j Hj. apply NoDup_cons in Hnd as [Hn _].
    apply index_insert_ne; [lia|apply (Hpos j); set_solver|]. intros ->. done.
  - apply only_at_insert. lia.
  - by exists w1, w2.
Qed.

Lemma recycle_run q w h r fl rest inputs outputs :
  recyclable q w h r fl rest inputs outputs → recycled q w h r fl rest inputs outputs.
Proof. destruct r; [apply recycle_direct_case|apply recycle_indirect_case]. Qed.
End runs.
