(* ===== verification/QueueSpec.v ===== *)
(** * The driver's virtqueue implements the abstract queue

    Every operation of [Queue.VirtQueue] preserves the invariant of [QueueInv] and does to
    the map of tokens what the abstract queue does. *)

From S2P Require Import Prelude Base Transport QueueData Queue QueueInv QueueLemmas.
Import VirtQueue.

Section spec.
Context `{Profile} {W : Type} `{HalSpec W}.
Context (SIZE : Z).
Implicit Types (q : VirtQueue) (w : W) (infl : gmap Z Req).

(** ** Consequences of the invariant *)
Lemma length_owned (ind : bool) infl :
  (∀ h r, infl !! h = Some r → length (req_chain r) = slots ind (req_items r)) →
  Z.of_nat (length (owned infl)) = used_slots ind (pending infl).
Proof.
  intros Hk. unfold owned, used_slots, pending. f_equal.
  rewrite map_to_list_fmap, <- list_fmap_compose.
  rewrite length_join, <- list_fmap_compose. f_equal.
  apply list_fmap_ext. intros i [h r] Hi. simpl. apply (Hk h).
  apply elem_of_map_to_list. by eapply list_elem_of_lookup_2.
Qed.

Section facts.
Context {q : VirtQueue} {w : W} {fl : list Z} {infl : gmap Z Req} {rest : list Res}.
Context (I : inv SIZE q w fl infl rest).

Lemma inv_NoDup : NoDup (fl ++ owned infl).
Proof. rewrite (inv_parts _ _ _ _ _ _ I). apply NoDup_seqZ. Qed.

Lemma inv_range i : i ∈ fl ++ owned infl → 0 ≤ i < SIZE.
Proof. rewrite (inv_parts _ _ _ _ _ _ I). rewrite elem_of_seqZ. lia. Qed.

Lemma inv_disjoint i : i ∈ fl → i ∉ owned infl.
Proof. intros Hi. pose proof inv_NoDup as (_ & Hd & _)%NoDup_app. auto. Qed.

Lemma inv_length : 0 ≤ SIZE → Z.of_nat (length fl) + Z.of_nat (length (owned infl)) = SIZE.
Proof.
  intros. pose proof (Permutation_length (inv_parts _ _ _ _ _ _ I)) as L.
  rewrite length_app, length_seqZ in L. lia.
Qed.

Lemma inv_num_used : 0 ≤ SIZE → num_used q = used_slots (indirect q) (pending infl).
Proof.
  intros. rewrite <- (length_owned (indirect q)) by apply (inv_kind _ _ _ _ _ _ I).
  rewrite (inv_num _ _ _ _ _ _ I). pose proof inv_length. lia.
Qed.

Lemma inv_chain h r i : infl !! h = Some r → i ∈ req_chain r → i ∈ owned infl ∧ 0 ≤ i < SIZE.
Proof.
  intros Hr Hi. assert (i ∈ owned infl) by (by eapply elem_of_owned).
  split; [done|]. apply inv_range. set_solver.
Qed.

Lemma inv_token h r : infl !! h = Some r → h ∈ owned infl ∧ 0 ≤ h < SIZE.
Proof. intros Hr. eapply inv_chain; [done|]. eapply req_stands_head, I, Hr. Qed.

Lemma inv_segs h r : infl !! h = Some r → req_segs r ≠ [].
Proof.
  intros Hr. pose proof (inv_kind _ _ _ _ _ _ I h r Hr) as Hk. unfold slots, req_items in Hk.
  pose proof (req_stands_head _ _ _ _ (inv_reqs _ _ _ _ _ _ I h r Hr)) as Hh.
  destruct (req_chain r); [set_solver|]. intros Hs. rewrite Hs, andb_false_r in Hk. done.
Qed.

Lemma inv_free_lists i : i ∈ fl → index (indirect_lists q) i = Some None.
Proof.
  intros Hi. assert (0 ≤ i < SIZE) as Hr by (apply inv_range; set_solver).
  destruct (index_lt (indirect_lists q) SIZE i (inv_lists _ _ _ _ _ _ I) Hr) as [[il|] Hil]; [|done].
  destruct (inv_slots _ _ _ _ _ _ I i il Hil) as (pa & il' & segs & Hs); [lia|].
  exfalso. apply (inv_disjoint i); [done|]. by eapply inv_token.
Qed.
End facts.

(** Taking descriptors off the free list for a new request. *)
Lemma inv_push q w q' w' fl fl' infl rest h r :
  inv SIZE q w fl infl rest → fl = req_chain r ++ fl' →
  req_ok q' h r → Forall item_ok (req_items r) →
  length (req_chain r) = slots (indirect q) (req_items r) → indirect q' = indirect q →
  free_path (desc_shadow q') (free_head q') fl' →
  only_at (req_chain r) (desc_shadow q) (desc_shadow q') → shared_ok SIZE (shared q') →
  num_used q' = num_used q + Z.of_nat (length (req_chain r)) →
  indirect_lists q' = (match r with
    | Direct _ _ => indirect_lists q
    | Indirect _ _ il _ => <[Z.to_nat h := Some il]> (indirect_lists q) end) →
  held w' ≡ₚ req_held r ++ held w →
  fits 16 (avail_idx q') → fits 16 (last_used_idx q') →
  infl !! h = None ∧ inv SIZE q' w' fl' (<[h:=r]> infl) rest.
Proof.
  intros I -> Hr Hok Hk Hind Hfp Os Hshared Hnum Hlists Hp Ha Hl.
  assert (h ∈ req_chain r) as Hh by (by eapply req_stands_head).
  assert (0 ≤ h < SIZE) as Hhr by (apply (inv_range I); set_solver).
  assert (infl !! h = None) as Hnone.
  { apply eq_None_not_Some. intros [r' Hr']. apply (inv_disjoint I h); [set_solver|].
    by eapply (inv_token I). }
  assert (∀ h' r' i, infl !! h' = Some r' → i ∈ req_chain r' → i ∉ req_chain r ∧ 0 ≤ i) as Hdis.
  { intros h' r' i Hr' Hi. destruct (inv_chain I h' r' i Hr' Hi) as [Ho Hi'].
    split; [|lia]. intros Hc. apply (inv_disjoint I i); set_solver. }
  split; [done|]. split; try done.
  - rewrite (proj1 Os). apply I.
  - rewrite Hlists. destruct r; rewrite ?length_insert; apply I.
  - intros h' r' [[<- <-]|[Hne Hr']]%lookup_insert_Some; [done|].
    eapply req_stands_agree; [..|by apply I].
    + intros i Hi. destruct (Hdis _ _ _ Hr' Hi). by apply Os.
    + intros i Hi. destruct (Hdis _ _ _ Hr' Hi). rewrite Hlists. destruct r; [done|].
      apply index_insert_ne; [lia..|]. set_solver.
  - rewrite Hind. intros h' r' [[<- <-]|[Hne Hr']]%lookup_insert_Some; [done|]. by eapply I.
  - intros h' r' [[<- <-]|[Hne Hr']]%lookup_insert_Some; [done|]. by eapply I.
  - rewrite owned_insert by done. rewrite <- (inv_parts _ _ _ _ _ _ I).
    rewrite <- app_assoc. rewrite (Permutation_app_comm (req_chain r) (fl' ++ _)).
    rewrite <- app_assoc. f_equiv. apply Permutation_app_comm.
  - rewrite Hnum, (inv_num _ _ _ _ _ _ I), length_app. lia.
  - intros h' il Hil Hh'. destruct (decide (h' = h)) as [->|Hne].
    + rewrite lookup_insert_eq. destruct r as [c segs|h0 pa il' segs].
      * rewrite Hlists, (inv_free_lists I h) in Hil by set_solver. done.
      * destruct Hr as (-> & _). eauto.
    + rewrite lookup_insert_ne by done. eapply (inv_slots _ _ _ _ _ _ I _ il); [|done].
      rewrite Hlists in Hil. destruct r; [done|]. by rewrite index_insert_ne in Hil by lia.
  - rewrite Hp, live_held_insert, (inv_held _ _ _ _ _ _ I) by done.
    by rewrite app_assoc.
Qed.

(** Giving the descriptors of a request back to the free list. *)
Lemma inv_pull q w q' w' fl infl rest h r :
  inv SIZE q w fl infl rest → infl !! h = Some r → indirect q' = indirect q →
  free_path (desc_shadow q') (free_head q') (req_chain r ++ fl) →
  only_at (req_chain r) (desc_shadow q) (desc_shadow q') → shared_ok SIZE (shared q') →
  num_used q' = num_used q - Z.of_nat (length (req_chain r)) →
  indirect_lists q' = (match r with
    | Direct _ _ => indirect_lists q
    | Indirect _ _ il _ => <[Z.to_nat h := None]> (indirect_lists q) end) →
  held w' ≡ₚ live_held (delete h infl) ++ rest →
  fits 16 (avail_idx q') → fits 16 (last_used_idx q') →
  inv SIZE q' w' (req_chain r ++ fl) (delete h infl) rest.
Proof.
  intros I Hr Hind Hfp Os Hshared Hnum Hlists Hp Ha Hl.
  assert (h ∈ req_chain r ∧ 0 ≤ h < SIZE) as [Hh Hhr].
  { split; [eapply req_stands_head, I, Hr|by eapply (inv_token I)]. }
  assert (∀ h' r' i, delete h infl !! h' = Some r' → i ∈ req_chain r' → i ∉ req_chain r ∧ 0 ≤ i)
    as Hdis.
  { intros h' r' i Hr' Hi. assert (i ∈ owned (delete h infl)) as Hio by (by eapply elem_of_owned).
    pose proof (inv_NoDup I) as Hnd. rewrite (owned_delete _ _ _ Hr) in Hnd.
    apply NoDup_app in Hnd as (_ & _ & Hnd). apply NoDup_app in Hnd as (_ & Hd & _).
    split; [intros Hc; by apply (Hd i)|].
    apply lookup_delete_Some in Hr' as [_ Hr']. destruct (inv_chain I h' r' i Hr' Hi). lia. }
  split; try done.
  - rewrite (proj1 Os). apply I.
  - rewrite Hlists. destruct r; rewrite ?length_insert; apply I.
  - intros h' r' Hr'. pose proof Hr' as [Hne Hr'']%lookup_delete_Some.
    eapply req_stands_agree; [..|by apply I].
    + intros i Hi. destruct (Hdis _ _ _ Hr' Hi). by apply Os.
    + intros i Hi. destruct (Hdis _ _ _ Hr' Hi). rewrite Hlists. destruct r; [done|].
      apply index_insert_ne; [lia..|]. set_solver.
  - rewrite Hind. intros h' r' [_ Hr']%lookup_delete_Some. by eapply I.
  - intros h' r' [_ Hr']%lookup_delete_Some. by eapply I.
  - rewrite <- (inv_parts _ _ _ _ _ _ I), (owned_delete _ _ _ Hr).
    rewrite !app_assoc. f_equiv. apply Permutation_app_comm.
  - rewrite Hnum, (inv_num _ _ _ _ _ _ I), length_app. lia.
  - intros h' il Hil Hh'. destruct (decide (h' = h)) as [->|Hne].
    + exfalso. rewrite Hlists in Hil. destruct r as [c segs|h0 pa il' segs].
      * destruct (inv_slots _ _ _ _ _ _ I h il Hil) as (? & ? & ? & ?); [done|]. simplify_eq.
      * rewrite index_insert_eq in Hil; [done|].
        apply (index_lt _ SIZE); [apply I|done].
    + rewrite lookup_delete_ne by done. eapply (inv_slots _ _ _ _ _ _ I _ il); [|done].
      rewrite Hlists in Hil. destruct r; [done|]. by rewrite index_insert_ne in Hil by lia.
Qed.

(** ** Adding *)

(** The queue once the chain that starts at [h] is in the available ring. *)
Definition publish (h : Z) (q : VirtQueue) : VirtQueue :=
  let a := avail q in
  let idx' := wrapping_add 16 (avail_idx q) 1 in
  set_avail (mkAvailRing (av_flags a) idx'
      (<[Z.to_nat (avail_idx q mod SIZE) := h]> (av_ring a)) (av_used_event a))
    (set_avail_idx idx' q).

Lemma publish_run q w h : SIZE_OK SIZE = true → shared_ok SIZE (shared q) →
  (idx ← getq avail_idx;
   set_avail_slot (Z.land idx (SIZE - 1)) h;;
   let idx' := wrapping_add 16 idx 1 in
   modq (set_avail_idx idx');;
   store_avail_idx idx';;
   mret (Ok h : Result Z)) (q, w) = (Val (Ok h), (publish h q, w)).
Proof.
  intros HS Hsh. mstep. cbn [fst snd].
  destruct (mask_slot SIZE (avail_idx q) HS) as [-> Hr].
  destruct (index_lt (av_ring (avail q)) SIZE (avail_idx q mod SIZE)) as [x Hx].
  { apply Hsh. } { apply Z.mod_pos_bound. lia. }
  erewrite bind_val.
  2:{ unfold set_avail_slot. mstep. cbn [fst snd]. rewrite Hx. done. }
  done.
Qed.

Lemma shared_ok_publish q h : shared_ok SIZE (shared q) → shared_ok SIZE (shared (publish h q)).
Proof. intros [? ? ?]. split; simpl; rewrite ?length_insert; done. Qed.

(** The three conditions of [add] amount to the abstract queue being full. *)
Lemma add_full_eq ind used n : 1 ≤ n →
  (SIZE <? used + 1) || (SIZE <? n) || (negb ind && (SIZE <? used + n)) =
  (SIZE <? n) || (SIZE <? used + (if ind && (1 <? n) then 1 else n)).
Proof. intros. destruct ind; simpl; [destruct (Z.ltb_spec 1 n)|]; lia. Qed.

Lemma io_items_nil inputs outputs :
  bool_decide (io_items inputs outputs = []) =
  bool_decide (inputs = []) && bool_decide (outputs = []).
Proof. rewrite io_items_eq. by destruct inputs, outputs. Qed.

(** [add] decides as the abstract queue does. *)
Lemma add_unfold q w fl infl rest inputs outputs :
  SIZE_OK SIZE = true → inv SIZE q w fl infl rest →
  add SIZE inputs outputs (q, w) =
  match spec_add_error SIZE (indirect q) (pending infl) (io_items inputs outputs) with
  | Some e => (Val (Err e), (q, w))
  | None =>
    (head ← (if indirect q && (1 <? Z.of_nat (length inputs + length outputs))
             then add_indirect inputs outputs else add_direct inputs outputs);
     idx ← getq avail_idx;
     set_avail_slot (Z.land idx (SIZE - 1)) head;;
     let idx' := wrapping_add 16 idx 1 in
     modq (set_avail_idx idx');; store_avail_idx idx';; mret (Ok head : Result Z)) (q, w)
  end.
Proof.
  intros (k & Hk & HSk & HS)%SIZE_OK_eq I. unfold add, spec_add_error.
  rewrite io_items_nil. destruct (bool_decide _ && bool_decide _) eqn:E; [done|].
  mstep. cbn [fst snd]. unfold slots. rewrite length_io_items.
  rewrite add_full_eq, (inv_num_used I) by (try lia; destruct inputs, outputs; simpl in *; lia || done).
  destruct (indirect q && _); change (Z.of_nat 1) with 1; (by destruct (_ || _)).
Qed.

Lemma spec_add_None ind pend inputs outputs :
  spec_add_error SIZE ind pend (io_items inputs outputs) = None →
  inputs ++ outputs ≠ [] ∧ Z.of_nat (length inputs + length outputs) ≤ SIZE ∧
  used_slots ind pend + Z.of_nat (slots ind (io_items inputs outputs)) ≤ SIZE.
Proof.
  unfold spec_add_error. rewrite io_items_nil.
  destruct (bool_decide _ && bool_decide _) eqn:E; [done|]. rewrite length_io_items.
  destruct (_ || _) eqn:F; [done|]. intros _.
  apply orb_false_elim in F as [F1%Z.ltb_ge F2%Z.ltb_ge]. split_and!; [|done..].
  by destruct inputs, outputs.
Qed.

(** What [add_direct] and [add_indirect] do, before the chain is published. *)
Definition added (q : VirtQueue) (w : W) (fl : list Z) inputs outputs
    (q0 : VirtQueue) (w' : W) (fl' : list Z) (r : Req) : Prop :=
  req_items r = io_items inputs outputs ∧ fl = req_chain r ++ fl' ∧
  length (req_chain r) = slots (indirect q) (req_items r) ∧
  req_ok q0 (free_head q) r ∧ req_in (desc q0) (indirect_lists q0) (free_head q) r ∧
  free_path (desc_shadow q0) (free_head q0) fl' ∧
  only_at (req_chain r) (desc_shadow q) (desc_shadow q0) ∧
  only_at (req_chain r) (desc q) (desc q0) ∧ held w' ≡ₚ req_held r ++ held w ∧
  ∃ lists, lists = (match r with
    | Direct _ _ => indirect_lists q
    | Indirect _ _ il _ => <[Z.to_nat (free_head q) := Some il]> (indirect_lists q) end) ∧
  q0 = set_num_used (num_used q + Z.of_nat (length (req_chain r)))
         (set_indirect_lists lists (retable (desc_shadow q0) (desc q0) (free_head q0) q)) ∧
  req_indirect r = indirect q && (1 <? Z.of_nat (length inputs + length outputs)) ∧
  req_shared r w w'.

Lemma add_direct_added q w fl infl rest inputs outputs :
  SIZE_OK SIZE = true → inv SIZE q w fl infl rest →
  Forall item_ok (io_items inputs outputs) →
  spec_add_error SIZE (indirect q) (pending infl) (io_items inputs outputs) = None →
  indirect q && (1 <? Z.of_nat (length inputs + length outputs)) = false →
  ∃ q0 w' fl' r, add_direct inputs outputs (q, w) = (Val (free_head q), (q0, w')) ∧
    added q w fl inputs outputs q0 w' fl' r.
Proof.
  intros (k & Hk & HSk & HS)%SIZE_OK_eq I Hok (Hne & Hn & Hfits)%spec_add_None Hind.
  assert (slots (indirect q) (io_items inputs outputs) = (length inputs + length outputs)%nat)
    as Hslots by (unfold slots; by rewrite length_io_items, Hind).
  rewrite Hslots, <- (inv_num_used I) in Hfits by lia.
  pose proof (inv_num _ _ _ _ _ _ I) as Hnum. pose proof (inv_length I) as Hlen.
  set (n := (length inputs + length outputs)%nat) in *.
  destruct (add_direct_run SIZE inputs outputs q w (take n fl) (drop n fl))
    as (sh & de & fh & w' & segs & Hrun & Hit & Hp & Hhd & Hcs & Hfp & Os & Od & Hag & Hcalls);
    rewrite ?take_drop; try done.
  { rewrite length_take. lia. }
  { apply I. }
  { by pose proof (inv_NoDup I) as (? & _)%NoDup_app. }
  { intros i Hi. apply (inv_range I). set_solver. }
  { apply I. }
  { apply (ok_desc _ _ (inv_shared _ _ _ _ _ _ I)). }
  { unfold fits. rewrite length_take. lia. }
  { lia. }
  eexists _, w', (drop n fl), (Direct (take n fl) segs). split; [exact Hrun|].
  unfold added. simpl. rewrite take_drop. split_and!; try done.
  - unfold req_items. simpl. rewrite Hit, Hslots, length_take. lia.
  - by eapply chain_segs_agree.
  - exists (indirect_lists q). done.
Qed.

Lemma add_indirect_added q w fl infl rest inputs outputs :
  SIZE_OK SIZE = true → inv SIZE q w fl infl rest →
  Forall item_ok (io_items inputs outputs) →
  spec_add_error SIZE (indirect q) (pending infl) (io_items inputs outputs) = None →
  indirect q && (1 <? Z.of_nat (length inputs + length outputs)) = true →
  ∃ q0 w' fl' r, add_indirect inputs outputs (q, w) = (Val (free_head q), (q0, w')) ∧
    added q w fl inputs outputs q0 w' fl' r.
Proof.
  intros (k & Hk & HSk & HS)%SIZE_OK_eq I Hok (Hne & Hn & Hfits)%spec_add_None Hind.
  assert (slots (indirect q) (io_items inputs outputs) = 1%nat)
    as Hslots by (unfold slots; by rewrite length_io_items, Hind).
  rewrite Hslots, <- (inv_num_used I) in Hfits by lia.
  pose proof (inv_num _ _ _ _ _ _ I) as Hnum. pose proof (inv_length I) as Hlen.
  destruct fl as [|i fl]; [simpl in *; lia|].
  assert (free_head q = i) as Hfh by (by destruct (inv_free _ _ _ _ _ _ I)).
  assert (0 ≤ i < SIZE) as Hi by (apply (inv_range I); set_solver).
  pose proof (ok_desc _ _ (inv_shared _ _ _ _ _ _ I)) as Hde.
  destruct (add_indirect_run SIZE inputs outputs q w i fl)
    as (pa & ptr & nx & w' & segs & Hrun & Hit & Hp & Hfp & Hcalls); try done; try apply I; try lia.
  { pose proof (inv_NoDup I) as (Hnd & _)%NoDup_app. by apply NoDup_cons in Hnd as [? _]. }
  { intros j Hj. apply (inv_range I). set_solver. }
  { apply (inv_free_lists I). set_solver. }
  { unfold fits. lia. }
  cbv zeta in Hrun, Hfp, Hcalls.
  set (il := mkIndirectList ptr (indirect_table 0 segs)) in *.
  eexists _, w', fl, (Indirect i pa il segs). split; [exact Hrun|].
  assert (index (<[Z.to_nat i := Some il]> (indirect_lists q)) i = Some (Some il)) as Hil.
  { apply index_insert_eq, (index_lt _ SIZE); [apply I|done]. }
  unfold added. rewrite Hfh. simpl. split_and!; try done.
  - unfold req_items. simpl. by rewrite Hit, Hslots.
  - by exists il.
  - exists nx. apply index_insert_eq, (index_lt _ SIZE); [apply I|done].
  - exists nx. by apply index_insert_eq, (index_lt _ SIZE).
  - apply only_at_insert; lia.
  - apply only_at_insert; lia.
  - eexists. split; [done|]. split; [done|]. by rewrite Hind.
Qed.

Lemma add_ok_run q w fl infl rest inputs outputs :
  SIZE_OK SIZE = true → inv SIZE q w fl infl rest →
  Forall item_ok (io_items inputs outputs) →
  spec_add_error SIZE (indirect q) (pending infl) (io_items inputs outputs) = None →
  ∃ r q0 w' fl', let h := free_head q in
    add SIZE inputs outputs (q, w) = (Val (Ok h), (publish h q0, w')) ∧
    added q w fl inputs outputs q0 w' fl' r ∧
    infl !! h = None ∧ inv SIZE (publish h q0) w' fl' (<[h:=r]> infl) rest.
Proof.
  intros HS I Hok Herr.
  assert (∃ q0 w' fl' r,
    (if indirect q && (1 <? Z.of_nat (length inputs + length outputs))
     then add_indirect inputs outputs else add_direct inputs outputs) (q, w)
      = (Val (free_head q), (q0, w')) ∧ added q w fl inputs outputs q0 w' fl' r)
    as (q0 & w' & fl' & r & Hrun & Ha).
  { destruct (_ && _) eqn:Hind; [by eapply add_indirect_added|by eapply add_direct_added]. }
  exists r, q0, w', fl'. cbv zeta.
  pose proof Ha as (Hit & Hfl & Hk & Hro & Hri & Hfp & Os & Od & Hp & lists & Hl & Hq0 & _).
  assert (shared_ok SIZE (shared q0)) as Hsh0.
  { rewrite Hq0. destruct (inv_shared _ _ _ _ _ _ I) as [Hd Hav Hus].
    split; [|done..]. simpl. etrans; [exact (proj1 Od)|done]. }
  split; [|split; [done|]].
  - rewrite (add_unfold q w fl infl rest) by done. rewrite Herr.
    erewrite bind_val by exact Hrun. by apply publish_run.
  - eapply inv_push; try done.
    + by rewrite Hit.
    + by rewrite Hq0.
    + by apply shared_ok_publish.
    + by rewrite Hq0.
    + etrans; [|exact Hl]. by rewrite Hq0.
    + by apply wrap_fits.
    + rewrite Hq0. apply (inv_last_used _ _ _ _ _ _ I).
Qed.

(** ** Popping *)

(** The element of the used ring that is next to be popped. *)
Definition next_used (q : VirtQueue) : option UsedElem :=
  if can_pop q then index (us_ring (used q)) (last_used_idx q mod SIZE) else None.

Definition spec_pop (q : VirtQueue) (token : Z) : Result Z :=
  match next_used q with
  | None => Err NotReady
  | Some e => if wrap 16 (ue_id e) =? token then Ok (ue_len e) else Err WrongToken
  end.

(** The queue once the used element is consumed. *)
Definition consume (q : VirtQueue) : VirtQueue :=
  let l' := wrapping_add 16 (last_used_idx q) 1 in
  let q1 := set_last_used_idx l' q in
  let a := avail q in
  if event_idx q then set_avail (mkAvailRing (av_flags a) (av_idx a) (av_ring a) l') q1 else q1.

Lemma next_used_can_pop q : SIZE_OK SIZE = true → shared_ok SIZE (shared q) →
  can_pop q = true → ∃ e, next_used q = Some e ∧
    index (us_ring (used q)) (last_used_slot SIZE q) = Some e.
Proof.
  intros HS Hsh Hp. unfold next_used, last_used_slot. rewrite Hp.
  destruct (mask_slot SIZE (last_used_idx q) HS) as [-> Hr].
  destruct (index_lt (us_ring (used q)) SIZE (last_used_idx q mod SIZE)) as [e He];
    [apply Hsh|apply Z.mod_pos_bound; lia|eauto].
Qed.

(** [pop_used] decides as [spec_pop] does. *)
Lemma pop_unfold q w token inputs outputs :
  SIZE_OK SIZE = true → shared_ok SIZE (shared q) →
  pop_used SIZE token inputs outputs (q, w) =
  match spec_pop q token with
  | Err e => (Val (Err e), (q, w))
  | Ok len =>
    (recycle_descriptors token inputs outputs;;
     l ← getq last_used_idx;
     let l' := wrapping_add 16 l 1 in
     modq (set_last_used_idx l');;
     ev ← getq event_idx;
     (if ev : bool then modq (λ q, let a := avail q in
        set_avail (mkAvailRing (av_flags a) (av_idx a) (av_ring a) l') q)
      else mret tt);;
     mret (Ok len : Result Z)) (q, w)
  end.
Proof.
  intros HS Hsh. unfold pop_used, spec_pop. mstep. cbn [fst snd].
  destruct (can_pop q) eqn:Hp; cbn [negb].
  - destruct (next_used_can_pop q) as (e & -> & He); try done.
    mstep. cbn [fst snd]. rewrite He. mstep. cbn beta zeta.
    destruct (Z.eqb_spec (wrap 16 (ue_id e)) token) as [->|]; done.
  - unfold next_used. by rewrite Hp.
Qed.

Lemma consume_run q w len :
  (l ← getq last_used_idx;
   let l' := wrapping_add 16 l 1 in
   modq (set_last_used_idx l');;
   ev ← getq event_idx;
   (if ev : bool then modq (λ q, let a := avail q in
      set_avail (mkAvailRing (av_flags a) (av_idx a) (av_ring a) l') q)
    else mret tt);;
   mret (Ok len : Result Z)) (q, w) = (Val (Ok len), (consume q, w)).
Proof. mstep. cbn [fst snd]. unfold consume. simpl. by destruct (event_idx q). Qed.

Lemma pop_ok_run q w fl infl rest token r len inputs outputs :
  SIZE_OK SIZE = true → inv SIZE q w fl infl rest →
  infl !! token = Some r → req_items r = io_items inputs outputs →
  spec_pop q token = Ok len →
  ∃ q0 w', pop_used SIZE token inputs outputs (q, w) = (Val (Ok len), (consume q0, w')) ∧
    inv SIZE (consume q0) w' (req_chain r ++ fl) (delete token infl) rest ∧
    (∃ sh de lists, q0 = set_num_used (num_used q - Z.of_nat (length (req_chain r)))
      (set_indirect_lists lists (retable sh de token q)) ∧ only_at (req_chain r) (desc q) de) ∧
    req_unshared r w w'.
Proof.
  intros HS I Hr Hit Hpop. pose proof (SIZE_OK_eq _ HS) as (k & Hk & HSk & HSr).
  pose proof (inv_num _ _ _ _ _ _ I) as Hnum. pose proof (inv_length I) as Hlen.
  pose proof (inv_NoDup I) as Hnd.
  pose proof (Permutation_length (owned_delete _ _ _ Hr)) as Hlo. rewrite length_app in Hlo.
  assert (∀ i, i ∈ req_chain r ++ fl → 0 ≤ i < SIZE) as Hpos.
  { intros i Hi. apply (inv_range I). rewrite (owned_delete _ _ _ Hr). set_solver. }
  destruct (recycle_run SIZE q w token r fl (live_held (delete token infl) ++ rest)
    inputs outputs) as (sh & de & lists & w' & Hrun & Hp & Hfp & Os & Od & Hl & Hcalls).
  { split; try done; try (by eapply I); try lia.
    - by eapply (inv_segs I).
    - rewrite (owned_delete _ _ _ Hr), app_assoc in Hnd. apply NoDup_app in Hnd as [Hnd _].
      by rewrite Permutation_app_comm.
    - rewrite (inv_held _ _ _ _ _ _ I), (live_held_delete _ _ _ Hr). by rewrite app_assoc.
    - unfold fits. lia. }
  eexists _, w'. split; [|split; [|by eauto 8]].
  - rewrite pop_unfold, Hpop by (done || apply I).
    erewrite bind_val by exact Hrun. apply consume_run.
  - eapply inv_pull; try done; unfold consume; destruct (event_idx _); simpl; try done;
      try apply I; try (by apply wrap_fits).
    all: destruct (inv_shared _ _ _ _ _ _ I) as [Hd Hav Hus]; split; [|done..]; simpl;
      etrans; [exact (proj1 Od)|done].
Qed.
End spec.
