(* ===== verification/Layout.v ===== *)
(** * Where the parts of a virtqueue lie

    The sizes and offsets that [VirtQueueLayout] computes: the parts are inside the memory
    that was allocated for them, they do not overlap, and they are aligned as the VirtIO
    specification requires. *)

From S2P Require Import Prelude Base QueueData.

(** A DMA region at [pa] and [va], of [n] pages, inside the address space. *)
Definition region_ok (pa va n : Z) : Prop :=
  0 < pa ∧ pa + n * PAGE_SIZE < 2 ^ 64 ∧ 0 < va ∧ va + n * PAGE_SIZE < 2 ^ 64.

(** Sizes of the parts, as [queue_part_sizes] gives them. *)
Definition desc_bytes (n : Z) : Z := DESCRIPTOR_SIZE * n.
Definition avail_bytes (n : Z) : Z := 2 * (3 + n).
Definition used_bytes (n : Z) : Z := 2 * 3 + USED_ELEM_SIZE * n.

Lemma queue_part_sizes_run {S} n (s : S) : is_power_of_two n = true →
  queue_part_sizes n s = (Val (desc_bytes n, avail_bytes n, used_bytes n), s).
Proof. intros E. unfold queue_part_sizes. by rewrite E. Qed.

(** For a power of two, neither [desc + avail] nor [used] is a multiple of the page size, so
    that [align_up] is the exact rounding. *)
Lemma part_sizes_unaligned k : 0 ≤ k →
  (desc_bytes (2 ^ k) + avail_bytes (2 ^ k)) mod PAGE_SIZE ≠ 0 ∧
  used_bytes (2 ^ k) mod PAGE_SIZE ≠ 0.
Proof.
  intros Hk. unfold desc_bytes, avail_bytes, used_bytes, DESCRIPTOR_SIZE, USED_ELEM_SIZE, PAGE_SIZE.
  destruct (decide (k < 2)) as [Hlt|Hge].
  { assert (k = 0 ∨ k = 1) as [-> | ->] by lia; vm_compute; split; congruence. }
  replace (2 ^ k) with (4 * 2 ^ (k - 2)).
  - set (m := 2 ^ (k - 2)). split; intros E; apply Z.mod_divide in E as [z Hz]; lia.
  - change 4 with (2 ^ 2). rewrite <- Z.pow_add_r by lia. f_equal. lia.
Qed.

Definition round_pages (n : Z) : Z := pages n * PAGE_SIZE.

Lemma align_up_round `{Profile} {S} n (s : S) :
  0 ≤ n → n + PAGE_SIZE < 2 ^ 64 → n mod PAGE_SIZE ≠ 0 →
  align_up n s = (Val (round_pages n), s).
Proof.
  intros H0 H1 Hn. rewrite align_up_run by done. do 2 f_equal.
  unfold round_pages, pages. rewrite (proj2 (Z.ltb_lt _ _)); [lia|].
  pose proof (Z.mod_pos_bound n PAGE_SIZE). unfold PAGE_SIZE in *. lia.
Qed.

Lemma round_pages_bounds n : 0 ≤ n → n ≤ round_pages n < n + PAGE_SIZE.
Proof. intros. unfold round_pages. pose proof (pages_bounds n). lia. Qed.

(** ** The layouts *)

(** A layout whose parts are inside its DMA regions and do not overlap; the used ring of a
    legacy layout starts a page. *)
Definition layout_wf (n : Z) (l : VirtQueueLayout Dma) : Prop :=
  match l with
  | Legacy dma avail_offset used_offset =>
      region_ok (Dma.dma_paddr dma) (Dma.dma_vaddr dma) (Dma.dma_pages dma) ∧
      avail_offset = desc_bytes n ∧ used_offset = round_pages (desc_bytes n + avail_bytes n) ∧
      used_offset + used_bytes n ≤ Dma.dma_pages dma * PAGE_SIZE
  | Modern d1 d2 avail_offset =>
      region_ok (Dma.dma_paddr d1) (Dma.dma_vaddr d1) (Dma.dma_pages d1) ∧
      region_ok (Dma.dma_paddr d2) (Dma.dma_vaddr d2) (Dma.dma_pages d2) ∧
      avail_offset = desc_bytes n ∧
      desc_bytes n + avail_bytes n ≤ Dma.dma_pages d1 * PAGE_SIZE ∧
      used_bytes n ≤ Dma.dma_pages d2 * PAGE_SIZE
  end.

(** The sizes requested from the HAL. *)
Definition driver_pages (n : Z) : Z := pages (desc_bytes n + avail_bytes n).
Definition device_pages (n : Z) : Z := pages (used_bytes n).
Definition legacy_pages (n : Z) : Z := driver_pages n + device_pages n.

Lemma part_bytes_bounds n : 1 ≤ n < 2 ^ 16 →
  0 < desc_bytes n < 2 ^ 20 ∧ 0 < avail_bytes n < 2 ^ 20 ∧ 0 < used_bytes n < 2 ^ 20.
Proof. unfold desc_bytes, avail_bytes, used_bytes, DESCRIPTOR_SIZE, USED_ELEM_SIZE. lia. Qed.

Section alloc.
Context `{Profile} {W : Type} `{Hal W}.
Implicit Types w : W.

Lemma dma_new_run n d w pa va w' :
  dma_alloc n d w = (Val (pa, va), w') → pa ≠ 0 →
  Dma.new n d w = (Val (Ok (Dma.mkDma pa va n)), w').
Proof. intros E Hne. unfold Dma.new. mstep. simpl. by apply Z.eqb_neq in Hne as ->. Qed.

Lemma dma_new_zero n d w va w' :
  dma_alloc n d w = (Val (0, va), w') → Dma.new n d w = (Val (Err DmaError), w').
Proof. intros E. unfold Dma.new. mstep. done. Qed.

Lemma allocate_flexible_run n w pa1 va1 w1 pa2 va2 w2 :
  is_power_of_two n = true →
  dma_alloc (driver_pages n) DriverToDevice w = (Val (pa1, va1), w1) → pa1 ≠ 0 →
  dma_alloc (device_pages n) DeviceToDriver w1 = (Val (pa2, va2), w2) → pa2 ≠ 0 →
  allocate_flexible n w =
  (Val (Ok (Modern (Dma.mkDma pa1 va1 (driver_pages n)) (Dma.mkDma pa2 va2 (device_pages n))
    (desc_bytes n))), w2).
Proof.
  intros Hp E1 N1 E2 N2. unfold allocate_flexible.
  erewrite bind_val by by apply queue_part_sizes_run. cbv beta iota.
  erewrite try_ok by by eapply dma_new_run.
  by erewrite bind_val by by eapply dma_new_run.
Qed.

Lemma align_part k (f : Z → Z) {S} (s : S) : 1 ≤ 2 ^ k < 2 ^ 16 → 0 ≤ f (2 ^ k) < 2 ^ 21 →
  f (2 ^ k) mod PAGE_SIZE ≠ 0 → align_up (f (2 ^ k)) s = (Val (round_pages (f (2 ^ k))), s).
Proof. intros. apply align_up_round; unfold PAGE_SIZE in *; lia. Qed.

Lemma allocate_legacy_run n w pa va w' :
  SIZE_OK n = true →
  dma_alloc (legacy_pages n) Both w = (Val (pa, va), w') → pa ≠ 0 →
  allocate_legacy n w =
  (Val (Ok (Legacy (Dma.mkDma pa va (legacy_pages n)) (desc_bytes n)
    (round_pages (desc_bytes n + avail_bytes n)))), w').
Proof.
  intros HS E N. pose proof (SIZE_OK_eq _ HS) as (k & Hk & -> & Hr).
  destruct (part_sizes_unaligned k Hk) as [U1 U2].
  destruct (part_bytes_bounds _ Hr) as (B1 & B2 & B3).
  unfold SIZE_OK in HS. apply andb_true_iff in HS as [HS _]. unfold allocate_legacy.
  erewrite bind_val by by apply queue_part_sizes_run. cbv beta iota.
  erewrite bind_val by (apply (align_part k (λ n, desc_bytes n + avail_bytes n)); [done|lia|done]).
  erewrite bind_val by (apply (align_part k used_bytes); [done|lia|done]).
  cbv beta. set (a := desc_bytes _ + avail_bytes _) in *. set (b := used_bytes _) in *.
  pose proof (round_pages_bounds a) as Ra. pose proof (round_pages_bounds b) as Rb.
  unfold add_u. erewrite bind_val by (apply arith_fits; unfold fits, PAGE_SIZE in *; lia).
  replace ((round_pages a + round_pages b) / PAGE_SIZE) with (legacy_pages (2 ^ k)).
  2:{ unfold round_pages, legacy_pages, driver_pages, device_pages. fold a b.
      rewrite <- Z.mul_add_distr_r, Z.div_mul by done. done. }
  erewrite try_ok by by eapply dma_new_run.
  by erewrite bind_val by (apply (align_part k (λ n, desc_bytes n + avail_bytes n)); [done|lia|done]).
Qed.
End alloc.

Lemma modern_wf n pa1 va1 pa2 va2 : 1 ≤ n < 2 ^ 16 →
  region_ok pa1 va1 (driver_pages n) → region_ok pa2 va2 (device_pages n) →
  layout_wf n (Modern (Dma.mkDma pa1 va1 (driver_pages n)) (Dma.mkDma pa2 va2 (device_pages n))
    (desc_bytes n)).
Proof.
  intros Hr (k1 & k2 & k3 & k4) (l1 & l2 & l3 & l4).
  destruct (part_bytes_bounds _ Hr) as (B1 & B2 & B3).
  unfold layout_wf, region_ok, driver_pages, device_pages in *. simpl.
  pose proof (pages_bounds (desc_bytes n + avail_bytes n)).
  pose proof (pages_bounds (used_bytes n)). lia.
Qed.

Lemma legacy_wf n pa va : 1 ≤ n < 2 ^ 16 → region_ok pa va (legacy_pages n) →
  layout_wf n (Legacy (Dma.mkDma pa va (legacy_pages n)) (desc_bytes n)
    (round_pages (desc_bytes n + avail_bytes n))).
Proof.
  intros Hr (k1 & k2 & k3 & k4). destruct (part_bytes_bounds _ Hr) as (B1 & B2 & B3).
  unfold layout_wf, region_ok, legacy_pages, driver_pages, device_pages, round_pages in *. simpl.
  pose proof (pages_bounds (desc_bytes n + avail_bytes n)).
  pose proof (pages_bounds (used_bytes n)). lia.
Qed.

(** ** Addresses *)

(** The physical and the virtual addresses of the three parts. *)
Definition paddrs (l : VirtQueueLayout Dma) : Z * Z * Z :=
  match l with
  | Legacy d ao uo => (Dma.dma_paddr d, Dma.dma_paddr d + ao, Dma.dma_paddr d + uo)
  | Modern d1 d2 ao => (Dma.dma_paddr d1, Dma.dma_paddr d1 + ao, Dma.dma_paddr d2)
  end.
Definition vaddrs (l : VirtQueueLayout Dma) : Z * Z * Z :=
  match l with
  | Legacy d ao uo => (Dma.dma_vaddr d, Dma.dma_vaddr d + ao, Dma.dma_vaddr d + uo)
  | Modern d1 d2 ao => (Dma.dma_vaddr d1, Dma.dma_vaddr d1 + ao, Dma.dma_vaddr d2)
  end.

Section addresses.
Context `{Profile} {S : Type}.
Implicit Types (s : S).

Lemma dma_vaddr_run (d : Dma) off s :
  region_ok (Dma.dma_paddr d) (Dma.dma_vaddr d) (Dma.dma_pages d) →
  0 ≤ off < Dma.dma_pages d * PAGE_SIZE →
  vaddr d off s = (Val (Dma.dma_vaddr d + off), s).
Proof.
  intros (R1 & R2 & R3 & R4) Ho. unfold vaddr, Dma_memory, Dma.vaddr, mul_u, add_u.
  erewrite bind_val by (apply arith_fits; unfold fits in *; lia).
  rewrite (proj2 (Z.ltb_lt _ _)) by lia. mstep.
  erewrite bind_val by (apply arith_fits; unfold fits in *; lia).
  rewrite (proj2 (Z.eqb_neq _ _)) by lia. done.
Qed.

(** None of the accessors panics, and they give the addresses of the three parts. *)
Lemma layout_paddrs_run n l s : 1 ≤ n < 2 ^ 16 → layout_wf n l →
  descriptors_paddr l = (paddrs l).1.1 ∧
  driver_area_paddr l s = (Val (paddrs l).1.2, s) ∧
  device_area_paddr l s = (Val (paddrs l).2, s).
Proof.
  intros Hr Hwf. destruct (part_bytes_bounds _ Hr) as (B1 & B2 & B3).
  pose proof (round_pages_bounds (desc_bytes n + avail_bytes n)).
  destruct l as [d ao uo|d1 d2 ao]; simpl in *; unfold region_ok in Hwf.
  - destruct Hwf as ((? & ? & ? & ?) & -> & -> & ?).
    split_and!; [done|apply arith_fits; unfold fits; lia..].
  - destruct Hwf as ((? & ? & ? & ?) & (? & ? & ? & ?) & -> & ? & ?).
    split_and!; [done|apply arith_fits; unfold fits; lia|done].
Qed.

Lemma layout_vaddrs_run n l s : 1 ≤ n < 2 ^ 16 → layout_wf n l →
  descriptors_vaddr l s = (Val (vaddrs l).1.1, s) ∧
  avail_vaddr l s = (Val (vaddrs l).1.2, s) ∧
  used_vaddr l s = (Val (vaddrs l).2, s).
Proof.
  intros Hr Hwf. destruct (part_bytes_bounds _ Hr) as (B1 & B2 & B3).
  pose proof (round_pages_bounds (desc_bytes n + avail_bytes n)).
  destruct l as [d ao uo|d1 d2 ao]; simpl in *.
  - destruct Hwf as (R & -> & -> & ?). unfold PAGE_SIZE in *. rewrite !dma_vaddr_run by (done || unfold PAGE_SIZE in *; lia).
    rewrite Z.add_0_r. done.
  - destruct Hwf as (R1 & R2 & -> & ? & ?).
    rewrite !dma_vaddr_run by (done || lia). rewrite !Z.add_0_r. done.
Qed.
End addresses.
