(* ===== verification/QueueNew.v ===== *)
(** * Construction of the driver's virtqueue

    [VirtQueue::new] returns a queue that satisfies the invariant, all of whose descriptors
    are free, registered with the transport at the addresses of its parts. *)

From S2P Require Import Prelude Base Transport QueueData Queue QueueInv QueueLemmas Layout.
Import VirtQueue.

(** ** The initial free list *)

(** The loop that links the descriptors sets [next] in the first [m] elements. *)
Lemma link_lookup m (l : list Descriptor) i :
  foldl (λ l i, alter (λ d, set_next d (Z.of_nat i + 1)) i l) l (seq 0 m) !! i =
  (if decide (i < m)%nat then (λ d, set_next d (Z.of_nat i + 1)) <$> l !! i
   else l !! i).
Proof.
  revert i. induction m as [|m IH]; intros i; [done|].
  rewrite seq_S, foldl_app. simpl. destruct (decide (i = m)) as [->|Hne].
  - rewrite list_lookup_alter_eq, IH. repeat case_decide; lia || done.
  - rewrite list_lookup_alter_ne, IH by done. repeat case_decide; lia || done.
Qed.

Lemma link_length m (l : list Descriptor) :
  length (foldl (λ l i, alter (λ d, set_next d (Z.of_nat i + 1)) i l) l (seq 0 m)) = length l.
Proof.
  revert l. induction (seq 0 m) as [|i s IH]; intros l; [done|].
  simpl. rewrite IH. apply length_alter.
Qed.

(** The descriptors from [i] on are a path. *)
Lemma link_path SIZE (k : nat) i : 0 ≤ i → i + Z.of_nat k = SIZE →
  free_path (link_descriptors SIZE (replicate (Z.to_nat SIZE) zero_descriptor)) i (seqZ i (Z.of_nat k)).
Proof.
  revert i. induction k as [|k IH]; intros i Hi Hs; [done|].
  rewrite seqZ_cons by lia. replace (Z.pred (Z.of_nat (S k))) with (Z.of_nat k) by lia.
  split; [done|]. unfold index, link_descriptors at 1. rewrite link_lookup.
  rewrite lookup_replicate_2 by lia. case_decide as Hd.
  - eexists. split; [done|]. simpl. rewrite Z2Nat.id by lia. apply IH; lia.
  - destruct k; [|lia]. eexists. split; [done|]. done.
Qed.

(** ** The run of [new] *)
Section new.
Context `{Profile} {W : Type} `{HalSpec W} {T : Type} `{Transport T W}.
Context (SIZE : Z) (HS : SIZE_OK SIZE = true).

Definition initial_queue (l : VirtQueueLayout Dma) (idx : Z) (ind ev : bool) : VirtQueue :=
  mkVirtQueue l
    (mkShared (link_descriptors SIZE (replicate (Z.to_nat SIZE) zero_descriptor))
      (sh_avail (zeroed_shared SIZE)) (sh_used (zeroed_shared SIZE)))
    idx 0 0 (link_descriptors SIZE (replicate (Z.to_nat SIZE) zero_descriptor))
    0 0 ev ind (replicate (Z.to_nat SIZE) None).

Lemma initial_inv l idx ind ev (w : W) :
  inv SIZE (initial_queue l idx ind ev) w (seqZ 0 SIZE) ∅ (held w).
Proof.
  pose proof (SIZE_OK_eq _ HS) as (k & Hk & HSk & HSr).
  assert (length (link_descriptors SIZE (replicate (Z.to_nat SIZE) zero_descriptor))
    = Z.to_nat SIZE) as HL by (unfold link_descriptors; by rewrite link_length, length_replicate).
  split; simpl; rewrite ?length_replicate; try done.
  - split; simpl; rewrite ?length_replicate; done.
  - pose proof (link_path SIZE (Z.to_nat SIZE) 0) as Hp. rewrite Z2Nat.id in Hp by lia.
    apply Hp; lia.
  - by rewrite app_nil_r.
  - rewrite length_seqZ. lia.
  - intros h il Hi Hh. unfold index in Hi. by apply lookup_replicate in Hi as [? _].
Qed.

(** [new], once the layout is allocated and the transport accepts the queue. *)
Lemma new_run idx ind ev (s s1 s2 : T * W) t3 w3 max legacy l w4 s5 :
  queue_used idx s = (Val false, s1) →
  max_queue_size idx s1 = (Val max, s2) → SIZE ≤ max →
  requires_legacy_layout s2 = (Val legacy, (t3, w3)) →
  (if legacy then allocate_legacy SIZE else allocate_flexible SIZE) w3 = (Val (Ok l), w4) →
  layout_wf SIZE l →
  queue_set idx SIZE (paddrs l).1.1 (paddrs l).1.2 (paddrs l).2 (t3, w4) = (Val tt, s5) →
  new SIZE idx ind ev s = (Val (Ok (initial_queue l idx ind ev)), s5).
Proof.
  intros E1 E2 Hmax E3 E4 Hwf E5. pose proof (SIZE_OK_eq _ HS) as (k & Hk & HSk & HSr).
  destruct (layout_paddrs_run SIZE l (t3, w4) HSr Hwf) as (P1 & P2 & P3).
  destruct (layout_vaddrs_run SIZE l s5 HSr Hwf) as (V1 & V2 & V3).
  unfold new. erewrite bind_val by exact E1. cbv beta iota.
  erewrite bind_val by exact E2. rewrite (proj2 (Z.ltb_ge _ _)) by done.
  erewrite bind_val by exact E3.
  erewrite try_ok by (apply on_snd_val; exact E4).
  erewrite bind_val by exact P2. erewrite bind_val by exact P3.
  rewrite P1. erewrite bind_val by exact E5.
  erewrite bind_val by exact V1. erewrite bind_val by exact V2.
  by erewrite bind_val by exact V3.
Qed.
End new.
