(* ===== verification/QueueWait.v ===== *)
(** * Blocking requests on the driver's virtqueue

    [VirtQueue::add_notify_wait_pop] terminates and returns the length the device gave when
    the device serves the request; the queue is then idle again. *)

From S2P Require Import Prelude Base Transport QueueData Queue QueueInv QueueLemmas QueueSpec.
Import VirtQueue.

Section wait.
Context `{Profile} {W : Type} `{HalSpec W} `{Device W} {T : Type} `{Transport T W}.
Context (SIZE : Z) (HS : SIZE_OK SIZE = true).

(** ** What the device promises *)

(** The memory of queue [idx] and the world after [n] steps of the device. *)
Definition device_steps (idx : Z) (n : nat) (sh : Shared) (w : W) : Shared * W :=
  Nat.iter n (λ s, device_step idx s.1 s.2) (sh, w).

(** The device serves a queue within [N] steps: when exactly one chain is available, with
    head [h], it leaves the used index alone for some steps and then advances it by one,
    having written a used element for [h]. It never resizes the memory nor touches what the
    driver holds. *)
Definition device_serves (N : nat) : Prop := ∀ idx sh (w : W) h,
  shared_ok SIZE sh → 0 ≤ h < SIZE →
  av_idx (sh_avail sh) = wrapping_add 16 (us_idx (sh_used sh)) 1 →
  index (av_ring (sh_avail sh)) (us_idx (sh_used sh) mod SIZE) = Some h →
  ∃ n len, (n ≤ N)%nat ∧
    (∀ m, (m < n)%nat →
      us_idx (sh_used (device_steps idx m sh w).1) = us_idx (sh_used sh)) ∧
    let '(sh', w') := device_steps idx n sh w in
    us_idx (sh_used sh') = wrapping_add 16 (us_idx (sh_used sh)) 1 ∧
    index (us_ring (sh_used sh')) (us_idx (sh_used sh) mod SIZE) = Some (mkUsedElem h len) ∧
    shared_ok SIZE sh' ∧ held w' ≡ₚ held w.

(** Notifying the device of queue [idx] does not change what the driver holds. *)
Definition notify_ok (idx : Z) (t : T) : Prop := ∀ w : W,
  ∃ t' w', notify idx (t, w) = (Val tt, (t', w')) ∧ held w' ≡ₚ held w.

(** ** Runs *)
Lemma inv_world q (w w' : W) fl infl rest :
  inv SIZE q w fl infl rest → held w' ≡ₚ held w → inv SIZE q w' fl infl rest.
Proof. intros [] Hp. split; try done. by rewrite Hp. Qed.

Lemma device_steps_S idx n sh (w : W) :
  device_steps idx (S n) sh w =
  (let '(sh1, w1) := device_step idx sh w in device_steps idx n sh1 w1).
Proof.
  unfold device_steps. rewrite Nat.iter_succ_r. simpl. by destruct (device_step idx sh w).
Qed.

Lemma wait_run n : ∀ fuel q (w : W), (n < fuel)%nat →
  (∀ m, (m < n)%nat →
    us_idx (sh_used (device_steps (queue_idx q) m (shared q) w).1) = last_used_idx q) →
  us_idx (sh_used (device_steps (queue_idx q) n (shared q) w).1) ≠ last_used_idx q →
  wait_can_pop fuel (q, w) =
    (Val tt, (set_shared (device_steps (queue_idx q) n (shared q) w).1 q,
              (device_steps (queue_idx q) n (shared q) w).2)).
Proof.
  induction n as [|n IH]; intros [|fuel] q w Hf Hm Hn; try lia; simpl wait_can_pop; mstep;
    unfold can_pop, used; cbn [fst snd].
  - simpl in Hn. rewrite (proj2 (Z.eqb_neq _ _)) by congruence. by destruct q.
  - pose proof (Hm 0%nat ltac:(lia)) as H0'. simpl in H0'.
    rewrite (proj2 (Z.eqb_eq _ _)) by congruence. cbn [negb].
    rewrite device_steps_S in Hn |- *.
    destruct (device_step (queue_idx q) (shared q) w) as [sh1 w1] eqn:Ed.
    erewrite bind_val by (unfold spin; rewrite Ed; reflexivity).
    rewrite (IH fuel (set_shared sh1 q) w1); [done|lia| |done].
    intros m Hmn. specialize (Hm (S m) ltac:(lia)). by rewrite device_steps_S, Ed in Hm.
Qed.

(** A queue with nothing in flight, nothing to pop and the indices in step. *)
Record idle (q : VirtQueue) (w : W) (rest : list Res) : Prop := {
  idle_inv : ∃ fl, inv SIZE q w fl ∅ rest;
  idle_used : last_used_idx q = us_idx (used q);
  idle_avail : avail_idx q = us_idx (used q)
}.

(** Popping the only request, which the device has just used. *)
Lemma pop_only_run q (w : W) fl rest h r len inputs outputs :
  inv SIZE q w fl {[h := r]} rest → req_items r = io_items inputs outputs →
  us_idx (used q) = wrapping_add 16 (last_used_idx q) 1 →
  index (us_ring (used q)) (last_used_idx q mod SIZE) = Some (mkUsedElem h len) →
  avail_idx q = us_idx (used q) → 0 ≤ h < SIZE →
  ∃ q' w', pop_used SIZE h inputs outputs (q, w) = (Val (Ok len), (q', w')) ∧ idle q' w' rest ∧
    indirect q' = indirect q ∧ queue_idx q' = queue_idx q ∧
    req_unshared r w w'.
Proof.
  intros I Hit Hus Hel Hav Hh. pose proof (SIZE_OK_eq _ HS) as (k & _ & _ & HSr).
  assert (spec_pop SIZE q h = Ok len) as Hsp.
  { unfold spec_pop, next_used, can_pop. rewrite (proj2 (Z.eqb_neq _ _)); simpl.
    - rewrite Hel. simpl. rewrite wrap_small by (unfold fits; lia). by rewrite Z.eqb_refl.
    - rewrite Hus. intros E. by eapply (wrap_succ_ne 16). }
  destruct (pop_ok_run SIZE q w fl {[h := r]} rest h r len inputs outputs)
    as (q0 & w' & Hrun & I' & (sh & de & lists & Hq0 & _) & Hcalls); try done.
  { apply lookup_singleton_eq. }
  exists (consume q0), w'. split; [done|]. split; [split|split; [|split; [|done]]].
  - rewrite delete_singleton_eq in I'. eauto.
  - rewrite Hq0. unfold consume. destruct (event_idx _); simpl; unfold used in *; simpl; by rewrite Hus.
  - rewrite Hq0. unfold consume. by destruct (event_idx _).
  - rewrite Hq0. unfold consume. by destruct (event_idx _).
  - rewrite Hq0. unfold consume. by destruct (event_idx _).
Qed.

(** A request has just been published, and it is the only one. *)
Record waiting (q : VirtQueue) (w : W) (h : Z) (r : Req) (rest : list Res) : Prop := {
  wt_inv : ∃ fl, inv SIZE q w fl {[h := r]} rest;
  wt_used : last_used_idx q = us_idx (used q);
  wt_avail : avail_idx q = wrapping_add 16 (us_idx (used q)) 1;
  wt_idx : av_idx (avail q) = avail_idx q;
  wt_slot : index (av_ring (avail q)) (us_idx (used q) mod SIZE) = Some h
}.

(** The device takes [n] steps, at most [N], to use the chain [h]: it advances the used index only
    with the last of them, and the used element it has written says [len]. *)
Definition served_in (N : nat) (idx : Z) (n : nat) (sh : Shared) (w : W) (h len : Z) : Prop :=
  (n ≤ N)%nat ∧
  (∀ m, (m < n)%nat → us_idx (sh_used (device_steps idx m sh w).1) = us_idx (sh_used sh)) ∧
  us_idx (sh_used (device_steps idx n sh w).1) = wrapping_add 16 (us_idx (sh_used sh)) 1 ∧
  index (us_ring (sh_used (device_steps idx n sh w).1)) (us_idx (sh_used sh) mod SIZE) =
    Some (mkUsedElem h len).

Lemma wait_pop_run N fuel q (w : W) h r rest inputs outputs :
  device_serves N → (N < fuel)%nat → waiting q w h r rest →
  req_items r = io_items inputs outputs →
  ∃ n len q' w', served_in N (queue_idx q) n (shared q) w h len ∧
    let '(sh1, w1) := device_steps (queue_idx q) n (shared q) w in
    wait_can_pop fuel (q, w) = (Val tt, (set_shared sh1 q, w1)) ∧
    pop_used SIZE h inputs outputs (set_shared sh1 q, w1) = (Val (Ok len), (q', w')) ∧ idle q' w' rest.
Proof.
  intros Hdev Hfuel [[fl I] Hu Ha Hi Hs] Hit.
  assert (0 ≤ h < SIZE) as Hh by (by apply (inv_token SIZE I h r), lookup_singleton_eq).
  destruct (Hdev (queue_idx q) (shared q) w h) as (n & len & Hn & Hm & Hdone);
    [apply I|done|by etrans; [exact Hi|]|done|].
  pose proof (wait_run n fuel q w) as Hwait. unfold served_in.
  destruct (device_steps (queue_idx q) n (shared q) w) as [sh1 w1] eqn:Eds.
  destruct Hdone as (D1 & D2 & D3 & D4). simpl in Hwait.
  destruct (pop_only_run (set_shared sh1 q) w1 fl rest h r len inputs outputs)
    as (q' & w' & Hpop & Hidle & _); try done.
  { apply (inv_world _ w); [|done]. destruct I. by split. }
  { etrans; [exact D1|]. simpl. by rewrite Hu. }
  { simpl. by rewrite Hu. }
  { simpl. rewrite Ha. symmetry. exact D1. }
  exists n, len, q', w'. rewrite Eds. split_and!; try done.
  apply Hwait; [lia| |].
  - intros m Hmn. rewrite Hu. by apply Hm.
  - rewrite D1, Hu. by apply wrap_succ_ne.
Qed.

(** Adding to an idle queue. *)
Lemma add_idle_run q (w : W) rest inputs outputs :
  idle q w rest → Forall item_ok (io_items inputs outputs) →
  spec_add_error SIZE (indirect q) ∅ (io_items inputs outputs) = None →
  ∃ h r q' w', add SIZE inputs outputs (q, w) = (Val (Ok h), (q', w')) ∧
    req_items r = io_items inputs outputs ∧ waiting q' w' h r rest ∧ queue_idx q' = queue_idx q ∧
    indirect q' = indirect q ∧ req_in (desc q') (indirect_lists q') h r ∧
    req_indirect r = indirect q && (1 <? Z.of_nat (length inputs + length outputs)) ∧
    req_shared r w w'.
Proof.
  intros [[fl I] Hiu Hia] Hok Herr. pose proof (SIZE_OK_eq _ HS) as (k & _ & _ & HSr).
  destruct (add_ok_run SIZE q w fl ∅ rest inputs outputs)
    as (r & q0 & w1 & fl' & Hrun & Ha & _ & I1); try done.
  destruct Ha as (Hit & _ & _ & _ & Hri & _ & _ & _ & _ & lists & _ & Hq0 & Hind & Hcalls).
  set (h := free_head q) in *. exists h, r, (publish SIZE h q0), w1.
  split; [done|]. split; [done|]. split; [|split_and!; [by rewrite Hq0|by rewrite Hq0|done|done|done]].
  assert (avail q0 = avail q ∧ avail_idx q0 = avail_idx q ∧ used q0 = used q ∧
    last_used_idx q0 = last_used_idx q) as (Ea & Ei & Eu & El) by (by rewrite Hq0).
  assert (used (publish SIZE h q0) = used q) as Eu' by done.
  split; rewrite ?Eu'.
  - exists fl'. done.
  - simpl. by rewrite El.
  - simpl. by rewrite Ei, Hia.
  - done.
  - simpl. rewrite Ei, Ea, Hia. apply index_insert_eq, (index_lt _ SIZE).
    + apply (inv_shared _ _ _ _ _ _ I).
    + apply Z.mod_pos_bound. lia.
Qed.

Lemma notify_run {A} (b : bool) idx (a : A) (t : T) (w : W) : notify_ok idx t →
  ∃ t' w', (if b then on_snd (notify idx) else mret tt) (a, (t, w)) = (Val tt, (a, (t', w')))
    ∧ held w' ≡ₚ held w.
Proof.
  intros Hnot. destruct b; [|by exists t, w].
  destruct (Hnot w) as (t' & w' & Hn & Hp).
  exists t', w'. split; [by apply on_snd_val|done].
Qed.

(** An idle queue takes a request, the device serves it, and the queue is idle again. *)
Lemma add_notify_wait_pop_run N fuel q (t : T) (w : W) rest inputs outputs :
  device_serves N → notify_ok (queue_idx q) t → (N < fuel)%nat →
  idle q w rest → Forall item_ok (io_items inputs outputs) →
  spec_add_error SIZE (indirect q) ∅ (io_items inputs outputs) = None →
  ∃ h q1 w1 w2 n len q' t' w', add SIZE inputs outputs (q, w) = (Val (Ok h), (q1, w1)) ∧
    (if should_notify q1 then notify (queue_idx q) else mret tt) (t, w1) = (Val tt, (t', w2)) ∧
    served_in N (queue_idx q) n (shared q1) w2 h len ∧
    add_notify_wait_pop SIZE fuel inputs outputs (q, (t, w)) = (Val (Ok len), (q', (t', w'))) ∧
    idle q' w' rest.
Proof.
  intros Hdev Hnot Hfuel Hid Hok Herr.
  destruct (add_idle_run q w rest inputs outputs) as (h & r & q1 & w1 & Hadd & Hit & Hwt & Hqi & _); try done.
  destruct (notify_run (should_notify q1) (queue_idx q1) q1 t w1) as (t2 & w2 & Hn & Hp2); [by rewrite Hqi|].
  destruct (wait_pop_run N fuel q1 w2 h r rest inputs outputs)
    as (n & len & q' & w' & Hsv & Hrest); try done.
  { destruct Hwt as [[fl I] ? ? ? ?]. split; try done. exists fl. by apply (inv_world _ w1). }
  destruct (device_steps (queue_idx q1) n (shared q1) w2) as [sh3 w3].
  destruct Hrest as (Hwait & Hpop & Hidle). rewrite Hqi in Hsv.
  exists h, q1, w1, w2, n, len, q', t2, w'. split_and!; try done.
  { rewrite Hqi in Hn. destruct (should_notify q1); [|by injection Hn as -> ->].
    revert Hn. unfold on_snd, zoom. cbn. destruct (notify (queue_idx q) (t, w1)) as [[[]| |] [t3 w3']];
      by intros [= -> ->]. }
  unfold add_notify_wait_pop.
  erewrite try_ok by (apply zoom_val; exact Hadd). mstep. cbn.
  erewrite bind_val by (apply zoom_val; exact Hwait). cbn.
  etrans; [apply zoom_val; exact Hpop|done].
Qed.
End wait.
