(* ===== verification/FakeHal.v ===== *)
(** * The HAL of the unit tests

    [src/src/hal/fake.rs]: [FakeHal] allocates a bounce buffer for each buffer it shares, so
    that sharing and unsharing are observable. The memory and the allocator it runs on are
    modelled by byte contents and the set of live allocations; each allocation gets an
    address range of its own. *)

From S2P Require Import Prelude Base QueueInv.

Module FakeHal.

(** A live allocation. The buffer that a bounce buffer stands for is recorded so that the
    live shares can be stated; the operations do not depend on it. *)
Inductive Alloc :=
| Bounce (buffer : Slice) (direction : BufferDirection)
| Block (len : Z).

(** The contents of memory in lines of some bytes; bytes that were never written are zero. *)
Definition LINE : Z := 64.
Abbreviation Memory := (gmap Z (gmap Z Z)).
Record World := mkWorld { mem : Memory; allocs : gmap positive Alloc }.

Definition RANGE : Z := 2 ^ 32.
Definition addr (p : positive) : Z := RANGE * Zpos p.
Definition slot (a : Z) : positive := Z.to_pos (a / RANGE).

Definition line_at (m : Memory) (p : Z) : gmap Z Z := default ∅ (m !! p).
Definition get (m : Memory) (a : Z) : Z := default 0 (line_at m (a / LINE) !! (a mod LINE)).
Definition put (a v : Z) (m : Memory) : Memory :=
  <[a / LINE := <[a mod LINE := v]> (line_at m (a / LINE))]> m.
Definition load (w : World) (a : Z) : Z := get (mem w) a.

(** The lines of a range of addresses, and the bytes that were written there. *)
Definition lines_of (a n : Z) : list Z := seqZ (a / LINE) ((a + n - 1) / LINE - a / LINE + 1).
Definition contents (a n : Z) (m : Memory) : list (Z * Z) :=
  filter (λ x, a ≤ x.1 < a + n)
    (mjoin ((λ p, (λ x, (p * LINE + x.1, x.2)) <$> map_to_list (line_at m p)) <$> lines_of a n)).
Definition zero_range (a n : Z) (m : Memory) : Memory :=
  foldr (λ p, alter (filter (λ x, ¬ a ≤ p * LINE + x.1 < a + n)) p) m (lines_of a n).
Definition copy (from to n : Z) (m : Memory) : Memory :=
  foldr (λ x, put (to + (x.1 - from)) x.2) (zero_range to n m) (contents from n m).

Definition alloc_zeroed (a : Alloc) (n : Z) : M World Z := λ w,
  let p := fresh (dom (allocs w)) in
  (Val (addr p), mkWorld (zero_range (addr p) n (mem w)) (<[p := a]> (allocs w))).
Definition dealloc (a : Z) : M World unit :=
  modify (λ w, mkWorld (mem w) (delete (slot a) (allocs w))).
Definition memcpy (from to n : Z) : M World unit :=
  modify (λ w, mkWorld (copy from to n (mem w)) (allocs w)).

Fixpoint write_bytes (a : Z) (l : list Z) (m : Memory) : Memory :=
  match l with [] => m | x :: l => put a x (write_bytes (a + 1) l m) end.

Definition virt_to_phys (vaddr : Z) : Z := vaddr.
Definition phys_to_virt (paddr : Z) : Z := paddr.

Definition dma_alloc (pages : Z) (_ : BufferDirection) : M World (Z * Z) :=
  assert (negb (pages =? 0));;
  ptr ← alloc_zeroed (Block (pages * PAGE_SIZE)) (pages * PAGE_SIZE);
  mret (ptr, ptr).

Definition dma_dealloc (_ vaddr pages : Z) : M World Z :=
  assert (negb (pages =? 0));;
  dealloc vaddr;;
  mret 0.

Definition mmio_phys_to_virt (paddr _ : Z) : M World Z :=
  assert (negb (paddr =? 0));; mret paddr.

Definition share (buffer : Slice) (direction : BufferDirection) : M World Z :=
  assert (negb (s_len buffer =? 0));;
  shared_buffer ← alloc_zeroed (Bounce buffer direction) (s_len buffer);
  (match direction with
   | DriverToDevice | Both => memcpy (s_ptr buffer) shared_buffer (s_len buffer)
   | DeviceToDriver => mret tt
   end);;
  mret (virt_to_phys shared_buffer).

Definition unshare (paddr : Z) (buffer : Slice) (direction : BufferDirection) : M World unit :=
  assert (negb (s_len buffer =? 0));;
  assert (negb (paddr =? 0));;
  let vaddr := phys_to_virt paddr in
  (match direction with
   | DeviceToDriver | Both => memcpy vaddr (s_ptr buffer) (s_len buffer)
   | DriverToDevice => mret tt
   end);;
  dealloc vaddr.

Definition dma_map (paddr _ : Z) (_ : BufferDirection) (_ : Z) : M World (Result Z) :=
  assert (negb (paddr =? 0));; mret (Ok paddr).

Definition dma_unmap (_ _ _ : Z) : M World Z := mret 0.

#[global] Instance fake_hal : Hal World := {|
  Base.dma_alloc := dma_alloc;
  Base.dma_dealloc := dma_dealloc;
  Base.mmio_phys_to_virt := mmio_phys_to_virt;
  Base.share := share;
  Base.unshare := unshare
|}.
#[global] Instance fake_device_hal : DeviceHal World := {|
  Base.dma_map := dma_map;
  Base.dma_unmap := dma_unmap
|}.
#[global] Instance fake_allocator : Allocator World := {|
  box_new := λ n, a ← alloc_zeroed (Block n) n; mret (Some a);
  box_write := λ p l, modify (λ w, mkWorld (write_bytes p l (mem w)) (allocs w));
  box_drop := λ p _, dealloc p
|}.

(** ** [FakeHal] satisfies the contract the queue relies on *)

Definition alloc_res (x : positive * Alloc) : Res :=
  match x with
  | (p, Bounce b d) => Share (addr p, b, d)
  | (p, Block n) => Boxed (addr p) n
  end.

Definition live (w : World) : list Res := alloc_res <$> map_to_list (allocs w).

Lemma slot_addr p : slot (addr p) = p.
Proof. unfold slot, addr. rewrite Z.mul_comm, Z.div_mul by done. apply Pos2Z.id. Qed.

Lemma live_insert w p a m' :
  allocs w !! p = None → live (mkWorld m' (<[p := a]> (allocs w))) ≡ₚ alloc_res (p, a) :: live w.
Proof. intros Hn. unfold live. simpl. by rewrite map_to_list_insert. Qed.

Lemma fresh_alloc (w : World) : allocs w !! fresh (dom (allocs w)) = None.
Proof. apply not_elem_of_dom. apply is_fresh. Qed.

(** A live resource belongs to one allocation, and freeing that one removes it. *)
Lemma live_take w r l m' :
  live w ≡ₚ r :: l →
  ∃ p a, r = alloc_res (p, a) ∧ live (mkWorld m' (delete p (allocs w))) ≡ₚ l.
Proof.
  intros Hp. assert (r ∈ live w) as Hr by (rewrite Hp; set_solver).
  apply list_elem_of_fmap in Hr as ([p a] & -> & Ha%elem_of_map_to_list).
  exists p, a. split; [done|]. apply (Permutation_cons_inv (a := alloc_res (p, a))).
  rewrite <- Hp. unfold live. simpl. rewrite <- (map_to_list_delete (allocs w) p a) by done. done.
Qed.

#[global] Program Instance fake_hal_spec : HalSpec World := {| held := live |}.
Next Obligation.
  intros b d w Hne Hd. apply Z.eqb_neq in Hne.
  destruct d; [..|done]; eexists _, _;
    (split; [unfold Base.share, fake_hal, share; rewrite Hne; reflexivity|];
     apply (live_insert w), fresh_alloc).
Qed.
Next Obligation.
  intros pa b d w l Hne Hp. apply Z.eqb_neq in Hne.
  destruct (live_take w _ l (match d with
    | DriverToDevice => mem w | _ => copy pa (s_ptr b) (s_len b) (mem w) end) Hp)
    as (p & [] & Heq & Hl); simplify_eq/=.
  eexists. split; [|exact Hl]. unfold unshare. rewrite Hne.
  unfold dealloc, phys_to_virt. rewrite slot_addr. destruct direction; reflexivity.
Qed.
Next Obligation.
  intros n w. eexists _, _. split; [|split; [reflexivity|apply (live_insert w), fresh_alloc]]. done.
Qed.
Next Obligation. intros p l w _. by eexists. Qed.
Next Obligation.
  intros p n w l Hp. destruct (live_take w _ l (mem w) Hp) as (i & [] & Heq & Hl); simplify_eq/=.
  eexists. split; [|exact Hl]. unfold dealloc. by rewrite slot_addr.
Qed.

(** ** Its memory *)

#[global] Instance fake_memory : Mem World := {|
  mem_read := λ b, gets (λ w, load w <$> seqZ (s_ptr b) (s_len b));
  mem_write := λ a l, modify (λ w, mkWorld (write_bytes a l (mem w)) (allocs w))
|}.

Lemma get_put a v m x : get (put a v m) x = if decide (x = a) then v else get m x.
Proof.
  unfold get, put, line_at. case_decide as E; [subst; by rewrite lookup_insert_eq; simpl; rewrite lookup_insert_eq|].
  destruct (decide (x / LINE = a / LINE)) as [Ep|Ep]; [|by rewrite lookup_insert_ne by congruence].
  rewrite Ep, lookup_insert_eq. simpl. rewrite lookup_insert_ne; [done|]. intros Em. apply E.
  rewrite (Z.div_mod x LINE), (Z.div_mod a LINE) by done. by rewrite Ep, Em.
Qed.

Lemma get_write_bytes l : ∀ a m x,
  get (write_bytes a l m) x =
  (if decide (a ≤ x < a + Z.of_nat (length l)) then default 0 (l !! Z.to_nat (x - a)) else get m x).
Proof.
  induction l as [|y l IH]; intros a m x; simpl.
  { rewrite decide_False by lia. done. }
  rewrite get_put. destruct (decide (x = a)) as [->|Hne].
  { rewrite decide_True, Z.sub_diag by lia. done. }
  rewrite IH. repeat case_decide; try lia; try done.
  replace (Z.to_nat (x - a)) with (S (Z.to_nat (x - (a + 1)))) by lia. done.
Qed.

#[global] Program Instance fake_memory_spec : MemorySpec World := {|
  byte_at := load
|}.
Next Obligation. done. Qed.
Next Obligation.
  intros a l w. eexists. split; [reflexivity|]. intros x. apply get_write_bytes.
Qed.

End FakeHal.
