(* ===== verification/FakeTransport.v ===== *)
(** * The transport of the unit tests

    [src/src/transport/fake.rs]: [FakeTransport] and its state, as an implementation of the
    [Transport] and [DeviceTransport] traits. The mutex that guards the state is not
    modelled: every method takes it once, for its whole body. *)

From S2P Require Import Prelude Base Transport.

Module FakeTransport.

Record QueueStatus := mkQueueStatus {
  qs_size : Z;
  qs_descriptors : Z;
  qs_driver_area : Z;
  qs_device_area : Z;
  qs_notified : bool;
  qs_device_notified : bool
}.

Definition QueueStatus_default : QueueStatus := mkQueueStatus 0 0 0 0 false false.

Record State := mkState {
  st_status : Z;
  st_driver_features : Z;
  st_guest_page_size : Z;
  st_interrupt_pending : bool;
  st_queues : list QueueStatus;
  st_config_generation : Z;
  st_config_space : list Z
}.

(** [State::new]. *)
Definition State_new (queues : list QueueStatus) (config_space : list Z) : State :=
  mkState DeviceStatus.empty 0 0 false queues 0 config_space.

Record FakeTransport := mkFakeTransport {
  ft_device_type : DeviceType;
  ft_max_queue_size : Z;
  ft_device_features : Z;
  ft_state : State
}.

Section fake.
Context `{Profile} {W : Type}.

Definition state : M (FakeTransport * W) State := gets (λ s, ft_state s.1).
Definition put (f : State → State) : M (FakeTransport * W) unit :=
  modify (λ '(t, w),
    (mkFakeTransport (ft_device_type t) (ft_max_queue_size t) (ft_device_features t)
       (f (ft_state t)), w)).

(** [state.queues[queue]] read, and modified. *)
Definition get_queue (queue : Z) : M (FakeTransport * W) QueueStatus :=
  st ← state; unwrap (index (st_queues st) queue).
Definition put_queue (queue : Z) (f : QueueStatus → QueueStatus) : M (FakeTransport * W) unit :=
  _ ← get_queue queue;
  put (λ st, mkState (st_status st) (st_driver_features st) (st_guest_page_size st)
    (st_interrupt_pending st) (alter f (Z.to_nat queue) (st_queues st))
    (st_config_generation st) (st_config_space st)).

Definition device_type : M (FakeTransport * W) DeviceType := gets (λ s, ft_device_type s.1).
Definition read_device_features : M (FakeTransport * W) Z := gets (λ s, ft_device_features s.1).
Definition write_driver_features (v : Z) : M (FakeTransport * W) unit :=
  put (λ st, mkState (st_status st) v (st_guest_page_size st)
    (st_interrupt_pending st) (st_queues st) (st_config_generation st) (st_config_space st)).
Definition max_queue_size (_ : Z) : M (FakeTransport * W) Z := gets (λ s, ft_max_queue_size s.1).

Definition notify (queue : Z) : M (FakeTransport * W) unit :=
  put_queue queue (λ q, mkQueueStatus (qs_size q) (qs_descriptors q) (qs_driver_area q)
    (qs_device_area q) true (qs_device_notified q)).

Definition get_status : M (FakeTransport * W) Z := st ← state; mret (st_status st).
Definition set_status (v : Z) : M (FakeTransport * W) unit :=
  put (λ st, mkState v (st_driver_features st) (st_guest_page_size st)
    (st_interrupt_pending st) (st_queues st) (st_config_generation st) (st_config_space st)).
Definition set_guest_page_size (v : Z) : M (FakeTransport * W) unit :=
  put (λ st, mkState (st_status st) (st_driver_features st) v
    (st_interrupt_pending st) (st_queues st) (st_config_generation st) (st_config_space st)).
Definition requires_legacy_layout : M (FakeTransport * W) bool := mret false.

Definition queue_set (queue size descriptors driver_area device_area : Z)
    : M (FakeTransport * W) unit :=
  put_queue queue (λ q, mkQueueStatus size descriptors driver_area device_area
    (qs_notified q) (qs_device_notified q)).
Definition queue_unset (queue : Z) : M (FakeTransport * W) unit :=
  put_queue queue (λ q, mkQueueStatus 0 0 0 0 (qs_notified q) (qs_device_notified q)).
Definition queue_used (queue : Z) : M (FakeTransport * W) bool :=
  q ← get_queue queue; mret (negb (qs_descriptors q =? 0)).

Definition ack_interrupt : M (FakeTransport * W) Z :=
  st ← state;
  if st_interrupt_pending st then
    put (λ st, mkState (st_status st) (st_driver_features st) (st_guest_page_size st)
      false (st_queues st) (st_config_generation st) (st_config_space st));;
    mret InterruptStatus.QUEUE_INTERRUPT
  else mret InterruptStatus.empty.

Definition read_config_generation : M (FakeTransport * W) Z :=
  st ← state; mret (st_config_generation st).

(** [bytes[offset..offset + n]]. *)
Definition read_config_space (size align offset : Z) : M (FakeTransport * W) (Result (list Z)) :=
  assert (align <=? 4);;
  assert (offset mod align =? 0);;
  e ← add_u 64 offset size;
  st ← state;
  if Z.of_nat (length (st_config_space st)) <? e then mret (Err ConfigSpaceTooSmall)
  else mret (Ok (take (Z.to_nat size) (drop (Z.to_nat offset) (st_config_space st)))).

Definition write_config_space (align offset : Z) (value : list Z)
    : M (FakeTransport * W) (Result unit) :=
  assert (align <=? 4);;
  assert (offset mod align =? 0);;
  e ← add_u 64 offset (Z.of_nat (length value));
  st ← state;
  if Z.of_nat (length (st_config_space st)) <? e then mret (Err ConfigSpaceTooSmall)
  else
    put (λ st, mkState (st_status st) (st_driver_features st) (st_guest_page_size st)
      (st_interrupt_pending st) (st_queues st) (st_config_generation st)
      (take (Z.to_nat offset) (st_config_space st) ++ value ++
       drop (Z.to_nat offset + length value) (st_config_space st)));;
    mret (Ok tt).

(** [DeviceTransport]. *)
Definition queue_get (queue : Z) : M (FakeTransport * W) (Z * Z * Z) :=
  q ← get_queue queue; mret (qs_descriptors q, qs_driver_area q, qs_device_area q).
Definition device_notify (queue : Z) : M (FakeTransport * W) unit :=
  put_queue queue (λ q, mkQueueStatus (qs_size q) (qs_descriptors q) (qs_driver_area q)
    (qs_device_area q) (qs_notified q) true).

(** The test side: [State::poll_queue_notified]. *)
Definition poll_queue_notified (queue : Z) : M (FakeTransport * W) bool :=
  q ← get_queue queue;
  put_queue queue (λ q, mkQueueStatus (qs_size q) (qs_descriptors q) (qs_driver_area q)
    (qs_device_area q) false (qs_device_notified q));;
  mret (qs_notified q).

End fake.

#[global] Instance fake_transport {W} `{Profile} : Transport FakeTransport W := {|
  Transport.device_type := device_type;
  Transport.read_device_features := read_device_features;
  Transport.write_driver_features := write_driver_features;
  Transport.max_queue_size := max_queue_size;
  Transport.notify := notify;
  Transport.get_status := get_status;
  Transport.set_status := set_status;
  try_set_status := default_try_set_status set_status;
  Transport.set_guest_page_size := set_guest_page_size;
  Transport.requires_legacy_layout := requires_legacy_layout;
  Transport.queue_set := queue_set;
  Transport.queue_unset := queue_unset;
  Transport.queue_used := queue_used;
  Transport.ack_interrupt := ack_interrupt;
  Transport.read_config_generation := read_config_generation;
  Transport.read_config_space := read_config_space;
  Transport.write_config_space := write_config_space
|}.

#[global] Instance fake_device_transport {W} : DeviceTransport FakeTransport W := {|
  dt_get_client_id := mret 0;
  dt_max_queue_size := max_queue_size;
  dt_requires_legacy_layout := requires_legacy_layout;
  dt_queue_get := queue_get;
  dt_notify := device_notify
|}.

End FakeTransport.
