(* ===== verification/ExampleHal.v ===== *)
(** * The HALs of the example programs

    [examples/x86_64/src/hal.rs] and [examples/riscv/src/virtio_impl.rs] hand out memory from a
    pointer that only grows; [examples/aarch64/src/hal.rs] uses the global allocator. In all of
    them a device sees the addresses of the program. *)

From S2P Require Import Prelude Base Transport QueueData Queue QueueInv QueueLemmas.
From S2P Require Import Layout QueueNew FakeTransport.
Import VirtQueue.

(** ** What the three have in common *)
Module Identity.
Section identity.
Context {W : Type}.

Definition virt_to_phys (vaddr : Z) : Z := vaddr.

(** [NonNull::new(paddr as _).unwrap()]. *)
Definition nonnull (paddr : Z) : M W Z := assert (negb (paddr =? 0));; mret paddr.

Definition mmio_phys_to_virt (paddr _size : Z) : M W Z := nonnull paddr.
Definition share (buffer : Slice) (_direction : BufferDirection) : M W Z :=
  mret (virt_to_phys (s_ptr buffer)).
Definition unshare (_paddr : Z) (_buffer : Slice) (_direction : BufferDirection) : M W unit :=
  mret tt.

Lemma nonnull_run p (w : W) : p ≠ 0 → nonnull p w = (Val p, w).
Proof. intros Hp%Z.eqb_neq. unfold nonnull. by rewrite Hp. Qed.
End identity.
End Identity.

(** ** x86_64 and riscv *)
Module BumpHal.
Section bump.
Context `{Profile} {W : Type} (DMA_PADDR : lens W Z).

(** [DMA_PADDR.fetch_add(n)], which wraps around. *)
Definition fetch_add (n : Z) : M W Z :=
  zoom DMA_PADDR (p ← gets id; modify (λ p, wrapping_add 64 p n);; mret p).

Definition dma_alloc (pages : Z) (_direction : BufferDirection) : M W (Z * Z) :=
  n ← mul_u 64 PAGE_SIZE pages;
  paddr ← fetch_add n;
  vaddr ← Identity.nonnull paddr;
  mret (paddr, vaddr).

Definition dma_dealloc (_paddr _vaddr _pages : Z) : M W Z := mret 0.

Definition HalImpl : Hal W := {|
  Base.dma_alloc := dma_alloc;
  Base.dma_dealloc := dma_dealloc;
  Base.mmio_phys_to_virt := Identity.mmio_phys_to_virt;
  Base.share := Identity.share;
  Base.unshare := Identity.unshare
|}.

(** The counter is a part of the world. *)
Definition cell : Prop := ∀ p w, view DMA_PADDR (update DMA_PADDR p w) = p.

Lemma fetch_add_run n w : 0 ≤ view DMA_PADDR w + n < 2 ^ 64 →
  fetch_add n w =
  (Val (view DMA_PADDR w), update DMA_PADDR (view DMA_PADDR w + n) w).
Proof.
  intros Hn. unfold fetch_add. apply zoom_val.
  change ((Val (view DMA_PADDR w), wrap 64 (view DMA_PADDR w + n)) =
    (Val (view DMA_PADDR w),
    view DMA_PADDR w + n)). by rewrite wrap_small.
Qed.

Lemma dma_alloc_run n d w p : cell → view DMA_PADDR w = p → 0 < p → 0 ≤ n →
  p + n * PAGE_SIZE < 2 ^ 64 →
  ∃ w', dma_alloc n d w = (Val (p, p), w') ∧ view DMA_PADDR w' = p + n * PAGE_SIZE.
Proof.
  intros Hc Hv Hp Hn Hfit. exists (update DMA_PADDR (p + n * PAGE_SIZE) w).
  split; [|by rewrite Hc]. unfold PAGE_SIZE in *. unfold dma_alloc, mul_u, PAGE_SIZE.
  erewrite bind_val by (apply arith_fits; unfold fits; lia).
  erewrite bind_val by (apply fetch_add_run; rewrite Hv; lia). rewrite Hv.
  erewrite bind_val by (apply Identity.nonnull_run; lia). by rewrite (Z.mul_comm 4096).
Qed.

(** Allocations one after the other: the counter is atomic, so that the calls of several threads
    are such a sequence too. *)
Fixpoint allocs (l : list (Z * BufferDirection)) : M W (list (Z * Z)) :=
  match l with
  | [] => mret []
  | (pages, d) :: l => r ← dma_alloc pages d; rs ← allocs l; mret (r :: rs)
  end.

(** Where they lie: one behind the other. *)
Fixpoint bumped (p : Z) (l : list (Z * BufferDirection)) : list (Z * Z) :=
  match l with [] => [] | (n, _) :: l => (p, p) :: bumped (p + n * PAGE_SIZE) l end.
Definition total (l : list (Z * BufferDirection)) : Z := foldr (λ x t, x.1 * PAGE_SIZE + t) 0 l.

Lemma total_nonneg l : Forall (λ x, 0 ≤ x.1) l → 0 ≤ total l.
Proof.
  induction 1 as [|x l Hx _ IH]; [done|]. cbn. fold (total l). unfold PAGE_SIZE. lia.
Qed.

Lemma allocs_run l w p : cell → view DMA_PADDR w = p → 0 < p → Forall (λ x, 0 ≤ x.1) l →
  p + total l < 2 ^ 64 →
  ∃ w', allocs l w = (Val (bumped p l), w') ∧ view DMA_PADDR w' = p + total l.
Proof.
  intros Hc Hv Hp Hl. revert w p Hv Hp. induction Hl as [|[n d] l Hn Hl IH]; intros w p Hv Hp Hfit.
  { exists w. split; [done|]. cbn. lia. }
  pose proof (total_nonneg l Hl). cbn in Hn, Hfit. fold (total l) in Hfit.
  destruct (dma_alloc_run n d w p) as (w1 & E1 & Hv1); try done; [lia|].
  destruct (IH w1 (p + n * PAGE_SIZE)) as (w2 & E2 & Hv2);
    [done|unfold PAGE_SIZE in *; lia|lia|].
  exists w2. split; [|cbn; fold (total l); lia]. cbn [allocs bumped].
  erewrite bind_val by exact E1. by erewrite bind_val by exact E2.
Qed.

Lemma bumped_at l p i n d r : Forall (λ x, 0 ≤ x.1) l → l !! i = Some (n, d) →
  bumped p l !! i = Some r → r = (p + total (take i l), p + total (take i l)).
Proof.
  intros Hl. revert p i. induction Hl as [|[m e] l Hm Hl IH]; intros p [|i] E1 E2; try done.
  - cbn in *. simplify_eq. f_equal; lia.
  - cbn in E1, E2. apply (IH _ _ E1) in E2 as ->. cbn. fold (total (take i l)). f_equal; lia.
Qed.

Lemma total_app l1 l2 : total (l1 ++ l2) = total l1 + total l2.
Proof. induction l1 as [|x l1 IH]; [done|]. cbn. fold (total (l1 ++ l2)) (total l1). lia. Qed.

(** An allocation ends where the next one begins, and is inside what was handed out. *)
Lemma total_take l i n d j : Forall (λ x, 0 ≤ x.1) l → l !! i = Some (n, d) → (i < j)%nat →
  total (take i l) + n * PAGE_SIZE ≤ total (take j l).
Proof.
  intros Hl Hi Hj. rewrite <- (take_drop (S i) (take j l)), take_take, Nat.min_l by lia.
  rewrite (take_S_r _ _ _ Hi), !total_app. cbn.
  pose proof (total_nonneg (drop (S i) (take j l))) as T. specialize (T ltac:(by apply Forall_drop, Forall_take)).
  lia.
Qed.

Lemma bumped_length p l : length (bumped p l) = length l.
Proof. revert p. induction l as [|[n d] l IH]; intros p; cbn; by rewrite ?IH. Qed.

Lemma total_aligned l : (PAGE_SIZE | total l).
Proof.
  induction l as [|x l IH]; cbn; [apply Z.divide_0_r|]. apply Z.divide_add_r; [|done].
  apply Z.divide_factor_r.
Qed.
End bump.
End BumpHal.

(** ** aarch64 *)
Module HeapHal.
Section heap.
Context `{Profile} {W : Type}.

(** The global allocator, [buddy_system_allocator]: [alloc_zeroed size align] and
    [dealloc ptr size align]; a null pointer is an allocation failure. *)
Context (alloc_zeroed : Z → Z → M W Z) (dealloc : Z → Z → Z → M W unit).

(** [Layout::from_size_align(size, align).unwrap()]: the size rounded up to the alignment is at
    most [isize::MAX]. *)
Definition from_size_align (size align : Z) : M W (Z * Z) :=
  assert (is_power_of_two align && (size <=? 2 ^ 63 - 1 - (align - 1)));; mret (size, align).

Definition dma_alloc (pages : Z) (_direction : BufferDirection) : M W (Z * Z) :=
  n ← mul_u 64 pages PAGE_SIZE;
  '(size, align) ← from_size_align n PAGE_SIZE;
  vaddr ← alloc_zeroed size align;
  if vaddr =? 0 then panic else mret (Identity.virt_to_phys vaddr, vaddr).

Definition dma_dealloc (_paddr vaddr pages : Z) : M W Z :=
  n ← mul_u 64 pages PAGE_SIZE;
  '(size, align) ← from_size_align n PAGE_SIZE;
  dealloc vaddr size align;;
  mret 0.

Definition HalImpl : Hal W := {|
  Base.dma_alloc := dma_alloc;
  Base.dma_dealloc := dma_dealloc;
  Base.mmio_phys_to_virt := Identity.mmio_phys_to_virt;
  Base.share := Identity.share;
  Base.unshare := Identity.unshare
|}.

(** The contract of [GlobalAlloc]: a block that is handed out is aligned, inside the address
    space and apart from the blocks that are live, and it is live until it is given back with
    the layout it was asked for. *)
Record heap_ok (live : W → list (Z * Z)) : Prop := {
  alloc_ok size align w : 0 < size → ∃ p w', alloc_zeroed size align w = (Val p, w') ∧
    (p = 0 ∧ live w' = live w ∨
     0 < p ∧ p + size < 2 ^ 64 ∧ (align | p) ∧ live w' ≡ₚ (p, size) :: live w ∧
     ∀ q n, (q, n) ∈ live w → q + n ≤ p ∨ p + size ≤ q);
  dealloc_ok p size align w l : live w ≡ₚ (p, size) :: l →
    ∃ w', dealloc p size align w = (Val tt, w') ∧ live w' ≡ₚ l
}.

(** Sizes that have a layout. *)
Definition sizes (pages : Z) : Prop := 0 < pages ∧ pages * PAGE_SIZE ≤ 2 ^ 63 - PAGE_SIZE.

Lemma from_size_align_run pages (w : W) : sizes pages →
  from_size_align (pages * PAGE_SIZE) PAGE_SIZE w = (Val (pages * PAGE_SIZE, PAGE_SIZE), w).
Proof.
  intros [_ Hn]. unfold from_size_align.
  rewrite (proj2 (Z.leb_le _ _)) by (unfold PAGE_SIZE in *; lia). done.
Qed.

Lemma pages_fit pages : sizes pages → fits 64 (pages * PAGE_SIZE).
Proof. unfold sizes, fits, PAGE_SIZE. lia. Qed.

Lemma dma_alloc_cases live pages d w : heap_ok live → sizes pages →
  ∃ p w', live w' ≡ₚ (if p =? 0 then [] else [(p, pages * PAGE_SIZE)]) ++ live w ∧
    dma_alloc pages d w = (if p =? 0 then Panic else Val (p, p), w') ∧
    (p ≠ 0 → region_ok p p pages ∧ (PAGE_SIZE | p) ∧
      ∀ q n, (q, n) ∈ live w → q + n ≤ p ∨ p + pages * PAGE_SIZE ≤ q).
Proof.
  intros Hh Hs. pose proof (pages_fit _ Hs) as Hf.
  destruct (alloc_ok live Hh (pages * PAGE_SIZE) PAGE_SIZE w) as (p & w' & E & Hp).
  { destruct Hs. unfold PAGE_SIZE. lia. }
  exists p, w'. unfold dma_alloc, mul_u. erewrite bind_val by by apply arith_fits.
  erewrite bind_val by by apply from_size_align_run. cbv beta iota.
  erewrite bind_val by exact E. unfold region_ok. destruct Hp as [[-> ->]|(Hp & Hr & Ha & Hl & Hd)].
  - done.
  - rewrite (proj2 (Z.eqb_neq p 0)) by lia. by split_and!.
Qed.

Lemma dma_dealloc_run live pa p pages w l : heap_ok live → sizes pages →
  live w ≡ₚ (p, pages * PAGE_SIZE) :: l →
  ∃ w', dma_dealloc pa p pages w = (Val 0, w') ∧ live w' ≡ₚ l.
Proof.
  intros Hh Hs Hl. pose proof (pages_fit _ Hs) as Hf.
  destruct (dealloc_ok live Hh p _ PAGE_SIZE w l Hl) as (w' & E & Hl').
  exists w'. split; [|done]. unfold dma_dealloc, mul_u. erewrite bind_val by by apply arith_fits.
  erewrite bind_val by by apply from_size_align_run. cbv beta iota. by erewrite bind_val by exact E.
Qed.
End heap.
End HeapHal.

(** ** Theorems *)
Section bump_theorems.
Context `{Profile} {W : Type} (DMA_PADDR : lens W Z).

(** The regions that the HAL of the x86_64 and riscv examples hands out, as long as the counter
    does not reach the end of the address space: one for each call, at the same address for the
    program and the device, aligned to pages when the start of the DMA memory is, inside the memory
    between the start and the final counter, and each behind all that came before it. So none
    overlaps another, as the contract of [Hal::dma_alloc] requires. *)
Theorem bump_regions l w p : BumpHal.cell DMA_PADDR → view DMA_PADDR w = p → 0 < p →
  Forall (λ x, 0 ≤ x.1) l → p + BumpHal.total l < 2 ^ 64 →
  ∃ rs w', BumpHal.allocs DMA_PADDR l w = (Val rs, w') ∧ length rs = length l ∧
    view DMA_PADDR w' = p + BumpHal.total l ∧
    (∀ i n d pa va, l !! i = Some (n, d) → rs !! i = Some (pa, va) →
      pa = va ∧ p ≤ pa ∧ pa + n * PAGE_SIZE ≤ view DMA_PADDR w' ∧
      ((PAGE_SIZE | p) → (PAGE_SIZE | pa))) ∧
    (∀ i j n d r r', (i < j)%nat → l !! i = Some (n, d) → rs !! i = Some r → rs !! j = Some r' →
      r.1 + n * PAGE_SIZE ≤ r'.1).
Proof.
  intros Hc Hv Hp Hl Hfit. destruct (BumpHal.allocs_run DMA_PADDR l w p) as (w' & E & Hv'); try done.
  exists (BumpHal.bumped p l), w'. split_and!; [done|by rewrite BumpHal.bumped_length|done|..].
  - intros i n d pa va Hi Hr. apply (BumpHal.bumped_at _ _ _ _ _ _ Hl Hi) in Hr. simplify_eq.
    pose proof (BumpHal.total_nonneg (take i l) ltac:(by apply Forall_take)).
    pose proof (BumpHal.total_take l i n d (length l) Hl Hi (lookup_lt_Some _ _ _ Hi)) as Ht.
    rewrite (take_ge l (length l)) in Ht by lia. split_and!; [done|lia|lia|].
    intros Ha. apply Z.divide_add_r; [done|]. apply BumpHal.total_aligned.
  - intros i j n d r r' Hij Hi Hr Hr'.
    assert (is_Some (l !! j)) as [[m e] Hj].
    { apply lookup_lt_is_Some. apply lookup_lt_Some in Hr'. by rewrite BumpHal.bumped_length in Hr'. }
    apply (BumpHal.bumped_at _ _ _ _ _ _ Hl Hi) in Hr as ->.
    apply (BumpHal.bumped_at _ _ _ _ _ _ Hl Hj) in Hr' as ->. cbn.
    pose proof (BumpHal.total_take l i n d j Hl Hi Hij). lia.
Qed.

Context {T : Type} `{Transport T W}.
#[local] Instance bump_hal : Hal W := BumpHal.HalImpl DMA_PADDR.

(** The pages of a queue, whichever its layout. *)
Lemma bump_pages SIZE : 1 ≤ SIZE < 2 ^ 16 → 0 < driver_pages SIZE ∧ 0 < device_pages SIZE.
Proof.
  intros Hr. destruct (part_bytes_bounds _ Hr) as (B1 & B2 & B3).
  unfold driver_pages, device_pages.
  pose proof (pages_bounds (desc_bytes SIZE + avail_bytes SIZE)).
  pose proof (pages_bounds (used_bytes SIZE)). unfold PAGE_SIZE in *. lia.
Qed.

Lemma bump_allocate SIZE w p legacy : BumpHal.cell DMA_PADDR → SIZE_OK SIZE = true →
  view DMA_PADDR w = p → 0 < p → p + legacy_pages SIZE * PAGE_SIZE < 2 ^ 64 →
  ∃ l w', (if legacy : bool then allocate_legacy SIZE else allocate_flexible SIZE) w = (Val (Ok l), w') ∧
    layout_wf SIZE l ∧ view DMA_PADDR w' = p + legacy_pages SIZE * PAGE_SIZE ∧
    (paddrs l).1.1 = p ∧ paddrs l = vaddrs l.
Proof.
  intros Hc HS Hv Hp Hfit. pose proof (SIZE_OK_eq _ HS) as (k & _ & _ & HSr).
  destruct (bump_pages SIZE HSr) as [P1 P2]. unfold legacy_pages in Hfit.
  assert (PAGE_SIZE = 4096) as HP by done. destruct legacy.
  - destruct (BumpHal.dma_alloc_run DMA_PADDR (legacy_pages SIZE) Both w p) as (w' & E & Hv');
      try done; [unfold legacy_pages; lia..|].
    exists (Legacy (Dma.mkDma p p (legacy_pages SIZE)) (desc_bytes SIZE)
      (round_pages (desc_bytes SIZE + avail_bytes SIZE))), w'.
    split; [apply (allocate_legacy_run SIZE w p p); [done|exact E|lia]|].
    split; [apply legacy_wf; [done|unfold region_ok, legacy_pages; lia]|done].
  - destruct (BumpHal.dma_alloc_run DMA_PADDR (driver_pages SIZE) DriverToDevice w p)
      as (w1 & E1 & Hv1); try done; [lia..|].
    destruct (BumpHal.dma_alloc_run DMA_PADDR (device_pages SIZE) DeviceToDriver w1
      (p + driver_pages SIZE * PAGE_SIZE)) as (w2 & E2 & Hv2); try done; [lia..|].
    set (p2 := p + driver_pages SIZE * PAGE_SIZE) in *.
    exists (Modern (Dma.mkDma p p (driver_pages SIZE)) (Dma.mkDma p2 p2 (device_pages SIZE))
      (desc_bytes SIZE)), w2.
    apply andb_true_iff in HS as [HS _].
    split; [apply (allocate_flexible_run SIZE w p p w1); [done|exact E1|lia|exact E2|lia]|].
    split; [apply modern_wf; [done|unfold region_ok; lia..]|]. split; [|done].
    rewrite Hv2. unfold legacy_pages. lia.
Qed.

(** [VirtQueue::new] over this HAL: whichever layout the transport requires, while there is memory
    left, the queue has its descriptor table at the counter and its parts behind each other, where
    the program and the device see them at the same addresses. The counter moves past them, so that
    the queues that are created later lie elsewhere. *)
Theorem bump_new_queue SIZE idx ind ev (s s1 s2 : T * W) t3 w3 max legacy p :
  BumpHal.cell DMA_PADDR → SIZE_OK SIZE = true → queue_used idx s = (Val false, s1) →
  max_queue_size idx s1 = (Val max, s2) → SIZE ≤ max →
  requires_legacy_layout s2 = (Val legacy, (t3, w3)) →
  view DMA_PADDR w3 = p → 0 < p → p + legacy_pages SIZE * PAGE_SIZE < 2 ^ 64 →
  ∃ l w4, layout_wf SIZE l ∧ (paddrs l).1.1 = p ∧ paddrs l = vaddrs l ∧
    view DMA_PADDR w4 = p + legacy_pages SIZE * PAGE_SIZE ∧
    ∀ s5, queue_set idx SIZE (paddrs l).1.1 (paddrs l).1.2 (paddrs l).2 (t3, w4) = (Val tt, s5) →
      new SIZE idx ind ev s = (Val (Ok (initial_queue SIZE l idx ind ev)), s5).
Proof.
  intros Hc HS E1 E2 Hmax E3 Hv Hp Hfit.
  destruct (bump_allocate SIZE w3 p legacy) as (l & w4 & E4 & Hwf & Hv4 & Hpa & Hpv); try done.
  exists l, w4. split_and!; try done. intros s5 E5.
  by eapply (new_run SIZE HS idx ind ev s s1 s2 t3 w3 max legacy).
Qed.
End bump_theorems.

(** A DMA region of the aarch64 example, from [Dma::new] to its drop: when the allocator has
    memory, the region is aligned to pages and apart from every block that is live, and dropping
    it later gives exactly this block back, whatever was allocated and freed in between. When the
    allocator has none, the program stops and nothing is lost. *)
Theorem heap_dma_roundtrip `{Profile} {W : Type} (alloc_zeroed : Z → Z → M W Z)
    (dealloc : Z → Z → Z → M W unit) live pages d w :
  HeapHal.heap_ok alloc_zeroed dealloc live → HeapHal.sizes pages →
  let hal := HeapHal.HalImpl alloc_zeroed dealloc in
  (∃ w', Dma.new pages d w = (Panic, w') ∧ live w' ≡ₚ live w) ∨
  ∃ p w', Dma.new pages d w = (Val (Ok (Dma.mkDma p p pages)), w') ∧
    region_ok p p pages ∧ (PAGE_SIZE | p) ∧
    (∀ q n, (q, n) ∈ live w → q + n ≤ p ∨ p + pages * PAGE_SIZE ≤ q) ∧
    live w' ≡ₚ (p, pages * PAGE_SIZE) :: live w ∧
    ∀ w1 l, live w1 ≡ₚ (p, pages * PAGE_SIZE) :: l →
      ∃ w2, Dma.drop (Dma.mkDma p p pages) w1 = (Val tt, w2) ∧ live w2 ≡ₚ l.
Proof.
  intros Hh Hs hal.
  destruct (HeapHal.dma_alloc_cases alloc_zeroed dealloc live pages d w Hh Hs)
    as (p & w' & Hl & E & Hp). destruct (Z.eqb_spec p 0) as [->|Hne].
  { left. exists w'. split; [|done]. unfold Dma.new. by apply bind_panic. }
  right. exists p, w'. destruct (Hp Hne) as (Hr & Ha & Hd). split_and!; try done.
  - by apply dma_new_run.
  - intros w1 l Hl1. destruct (HeapHal.dma_dealloc_run _ _ _ p p pages w1 l Hh Hs Hl1) as (w2 & E2 & Hl2).
    exists w2. split; [|done]. unfold Dma.drop. by erewrite bind_val by exact E2.
Qed.

(** ** Concrete worlds *)

(** DMA memory from 2 MiB on, and the rest of the machine. *)
Definition World : Type := Z * Z.
Definition world0 : World := (2 ^ 21, 2 ^ 30).

#[local] Instance checked : Profile := {| overflow_checks := true; debug_assertions := true |}.
#[local] Instance world_hal : Hal World := BumpHal.HalImpl fst_lens.
Lemma fst_cell : BumpHal.cell (@fst_lens Z Z).
Proof. done. Qed.

Lemma bump_regions_witness : ∃ rs w',
  BumpHal.allocs fst_lens [(1, DriverToDevice); (2, DeviceToDriver); (1, Both)] world0 = (Val rs, w') ∧
  length rs = 3%nat.
Proof.
  destruct (bump_regions fst_lens [(1, DriverToDevice); (2, DeviceToDriver); (1, Both)] world0 (2 ^ 21))
    as (rs & w' & E & Hlen & _); [exact fst_cell|done|lia| |cbn; unfold PAGE_SIZE; lia|].
  { repeat (apply Forall_cons; split; [cbn; lia|]). apply Forall_nil_2. }
  exists rs, w'. split; [exact E|exact Hlen].
Defined.

Definition transport0 : FakeTransport.FakeTransport :=
  FakeTransport.mkFakeTransport Block 8 0
    (FakeTransport.State_new [FakeTransport.QueueStatus_default] []).

Lemma bump_new_queue_witness : ∃ l s, layout_wf 4 l ∧
  new 4 0 true false (transport0, world0) = (Val (Ok (initial_queue 4 l 0 true false)), s).
Proof.
  destruct (bump_new_queue fst_lens 4 0 true false (transport0, world0) (transport0, world0)
    (transport0, world0) transport0 world0 8 false (2 ^ 21)) as (l & w4 & Hwf & _ & _ & _ & Hnew);
    [exact fst_cell|done|done|done|lia|done|done|lia|vm_compute; done|].
  exists l. eexists. split; [exact Hwf|]. apply Hnew. reflexivity.
Defined.

(** A heap that hands out addresses above all its live blocks. *)
Definition top (l : list (Z * Z)) : Z := foldr (λ x t, Z.max (x.1 + x.2) t) 0 l.
Definition heap_alloc (size align : Z) : M (list (Z * Z)) Z := λ l,
  let p := align * (top l + 1) in
  if (0 <? align) && (p + size <? 2 ^ 64) then (Val p, (p, size) :: l) else (Val 0, l).
Fixpoint remove_block (x : Z * Z) (l : list (Z * Z)) : list (Z * Z) :=
  match l with [] => [] | y :: l => if decide (x = y) then l else y :: remove_block x l end.
Definition heap_dealloc (p size _align : Z) : M (list (Z * Z)) unit :=
  modify (remove_block (p, size)).

Lemma remove_block_perm x l : x ∈ l → l ≡ₚ x :: remove_block x l.
Proof.
  induction 1 as [x l|x y l Hx IH]; cbn; case_decide; simplify_eq; try done.
  rewrite IH at 1. apply Permutation_swap.
Qed.
Lemma top_above l q n : (q, n) ∈ l → q + n ≤ top l.
Proof.
  induction l as [|x l IH]; [by intros ?%not_elem_of_nil|].
  intros [<-|Hq%IH]%elem_of_cons; cbn; fold (top l); lia.
Qed.
Lemma top_nonneg l : 0 ≤ top l.
Proof. induction l as [|x l IH]; [done|]. cbn. fold (top l). lia. Qed.

Lemma heap_is_ok : HeapHal.heap_ok heap_alloc heap_dealloc id.
Proof.
  split.
  - intros size align w Hs. unfold heap_alloc, id. pose proof (top_nonneg w).
    destruct (0 <? align) eqn:Ha; cbn; [|by eexists _, _; split; [done|left]].
    apply Z.ltb_lt in Ha. case_match eqn:Hf; [|by eexists _, _; split; [done|left]].
    apply Z.ltb_lt in Hf. eexists _, _. split; [done|]. right.
    split_and!; [nia|done|apply Z.divide_factor_l|done|].
    intros q n Hq%top_above. left. nia.
  - intros p size align w l Hl. unfold id in *. eexists. split; [done|].
    apply (Permutation_cons_inv (a := (p, size))). rewrite <- Hl. symmetry.
    apply remove_block_perm. rewrite Hl. apply list_elem_of_here.
Qed.

(** The heap has room, so that the region exists. *)
Lemma heap_dma_roundtrip_witness :
  let hal := HeapHal.HalImpl heap_alloc heap_dealloc in
  ∃ p w', Dma.new 2 Both [(4096, 4096)] = (Val (Ok (Dma.mkDma p p 2)), w') ∧ region_ok p p 2 ∧
    ∃ w2, Dma.drop (Dma.mkDma p p 2) w' = (Val tt, w2) ∧ w2 ≡ₚ [(4096, 4096)].
Proof.
  intros hal.
  destruct (heap_dma_roundtrip heap_alloc heap_dealloc id 2 Both [(4096, 4096)] heap_is_ok
    ltac:(split; vm_compute; congruence)) as [(w' & E & _)|(p & w' & E & Hr & _ & _ & Hl & Hdrop)].
  - vm_compute in E. discriminate E.
  - exists p, w'. split_and!; [exact E|exact Hr|]. exact (Hdrop w' _ Hl).
Defined.
