(* ===== verification/Bench.v ===== *)
(** * Concrete instances

    A queue of four descriptors on the HAL and the transport of the unit tests, with a device
    that uses the chains in order, as the fake device of the tests does. The hypotheses of the
    theorems about the queue hold of it. *)

From S2P Require Import Prelude Base Transport QueueData Queue QueueInv QueueLemmas QueueSpec.
From S2P Require Import Layout QueueNew QueueWait FakeHal FakeTransport.
Import VirtQueue.

Module Bench.

(** A release build: no overflow checks, no debug assertions. *)
#[export] Instance release : Profile := {| overflow_checks := false; debug_assertions := false |}.

Definition w0 : FakeHal.World := FakeHal.mkWorld ∅ ∅.

Definition layout0 : VirtQueueLayout Dma :=
  Modern (Dma.mkDma 4096 4096 1) (Dma.mkDma 8192 8192 1) (desc_bytes 4).

Definition q0 : VirtQueue := initial_queue 4 layout0 0 false false.

(** The same, with indirect descriptors. *)
Definition qi : VirtQueue := initial_queue 4 layout0 0 true false.

Definition in1 : Slice := mkSlice 256 16.
Definition in2 : Slice := mkSlice 512 32.
Definition out1 : Slice := mkSlice 1024 8.

Lemma items_ok : Forall item_ok (io_items [in1; in2] [out1]).
Proof. repeat constructor; done. Qed.

(** A transport with one queue, that supports up to 8 descriptors. *)
Definition t0 : FakeTransport.FakeTransport :=
  FakeTransport.mkFakeTransport Block 8 0
    (FakeTransport.State_new [FakeTransport.QueueStatus_default] []).

(** A device that uses the next available chain, with length 8. *)
#[export] Instance in_order_device : Device FakeHal.World := λ _ sh w,
  let a := sh_avail sh in
  let u := sh_used sh in
  let n := Z.of_nat (length (us_ring u)) in
  if av_idx a =? us_idx u then (sh, w)
  else match index (av_ring a) (us_idx u mod n) with
       | None => (sh, w)
       | Some h =>
         (mkShared (sh_desc sh) a
            (mkUsedRing (us_flags u) (wrapping_add 16 (us_idx u) 1)
               (<[Z.to_nat (us_idx u mod n) := mkUsedElem h 8]> (us_ring u))
               (us_avail_event u)), w)
       end.

Lemma in_order_serves SIZE : SIZE_OK SIZE = true →
  device_serves (W := FakeHal.World) SIZE 1.
Proof.
  intros HS idx sh w h Hsh Hh Hav Hslot.
  pose proof (SIZE_OK_eq _ HS) as (k & _ & _ & HSr).
  destruct Hsh as [Hd Ha Hu]. exists 1%nat, 8. split; [lia|]. split.
  { intros m Hm. assert (m = 0)%nat as -> by lia. done. }
  unfold device_steps. simpl. unfold device_step, in_order_device.
  rewrite (proj2 (Z.eqb_neq _ _)) by (rewrite Hav; by apply wrap_succ_ne).
  rewrite Hu, Z2Nat.id, Hslot by lia. simpl. split_and!; try done.
  - apply index_insert_eq, (index_lt _ SIZE); [done|]. apply Z.mod_pos_bound. lia.
  - split; simpl; rewrite ?length_insert; done.
Qed.

Lemma t0_notify : notify_ok (W := FakeHal.World) 0 t0.
Proof. intros w. by do 2 eexists. Qed.

Lemma q0_inv : inv 4 q0 w0 (seqZ 0 4) ∅ [].
Proof. exact (initial_inv 4 eq_refl layout0 0 false false w0). Qed.

Lemma qi_inv : inv 4 qi w0 (seqZ 0 4) ∅ [].
Proof. exact (initial_inv 4 eq_refl layout0 0 true false w0). Qed.

Lemma q0_idle : idle 4 q0 w0 [].
Proof. split; [exists (seqZ 0 4); exact q0_inv|done..]. Qed.

(** The queue after one request has been added, and after the device has used it. *)
Definition s1 : VirtQueue * FakeHal.World := (add 4 [in1; in2] [out1] (q0, w0)).2.
Definition q2 : VirtQueue := set_shared (device_step 0 (shared s1.1) s1.2).1 s1.1.

Lemma q2_inv : ∃ fl r, inv 4 q2 s1.2 fl {[0 := r]} [] ∧ req_items r = io_items [in1; in2] [out1].
Proof.
  destruct (add_ok_run 4 q0 w0 (seqZ 0 4) ∅ [] [in1; in2] [out1])
    as (r & qa & wa & fl & Hrun & Ha & _ & I); [done|exact q0_inv|exact items_ok|done|].
  assert (s1 = (publish 4 (free_head q0) qa, wa)) as Hs by (unfold s1; by rewrite Hrun).
  exists fl, r.
  split; [|by destruct Ha].
  unfold q2. rewrite Hs. cbn [fst snd].
  assert (shared_ok 4 (device_step 0 (shared (publish 4 (free_head q0) qa)) wa).1) as Hok.
  { destruct (inv_shared _ _ _ _ _ _ I) as [Hd Hav Hu].
    unfold device_step, in_order_device. destruct (_ =? _); [by split|].
    destruct (index _ _); split; simpl in *; rewrite ?length_insert in *; done. }
  destruct I. by split.
Qed.

(** A queue with event indices whose available index is about to wrap; the device wants to
    be notified of the chain at index 65534. Two chains are added. *)
Definition qw : VirtQueue :=
  let q := initial_queue 4 layout0 0 false true in
  set_shared (mkShared (desc q) (avail q)
    (mkUsedRing 0 0 (replicate 4 (mkUsedElem 0 0)) 65534)) (set_avail_idx 65534 q).
Definition sw1 : VirtQueue * FakeHal.World := (add 4 [in1] [] (qw, w0)).2.
Definition sw2 : VirtQueue * FakeHal.World := (add 4 [in2] [] sw1).2.

Lemma qw_inv : inv 4 qw w0 (seqZ 0 4) ∅ [].
Proof.
  destruct (initial_inv 4 eq_refl layout0 0 false true w0) as [[] ? ? ? ? ? ? ? ? ? ? ? ?].
  by split.
Qed.

(** The fake transport, but requiring the legacy layout. *)
Definition legacy_transport : Transport FakeTransport.FakeTransport FakeHal.World := {|
  device_type := FakeTransport.device_type;
  read_device_features := FakeTransport.read_device_features;
  write_driver_features := FakeTransport.write_driver_features;
  max_queue_size := FakeTransport.max_queue_size;
  notify := FakeTransport.notify;
  get_status := FakeTransport.get_status;
  set_status := FakeTransport.set_status;
  try_set_status := default_try_set_status FakeTransport.set_status;
  set_guest_page_size := FakeTransport.set_guest_page_size;
  requires_legacy_layout := mret true;
  queue_set := FakeTransport.queue_set;
  queue_unset := FakeTransport.queue_unset;
  queue_used := FakeTransport.queue_used;
  ack_interrupt := FakeTransport.ack_interrupt;
  read_config_generation := FakeTransport.read_config_generation;
  read_config_space := FakeTransport.read_config_space;
  write_config_space := FakeTransport.write_config_space
|}.

End Bench.
