(* ===== verification/QueueProps.v ===== *)
(** * Properties of the driver's virtqueue *)

From S2P Require Import Prelude Base Transport QueueData Queue QueueInv QueueLemmas QueueSpec.
From S2P Require Import Layout QueueNew QueueWait FakeHal FakeTransport Bench.
Import VirtQueue.

(** ** Any interleaving of driver operations and device writes *)
Section reach.
Context `{Profile} {W : Type} `{HalSpec W}.
Context (SIZE : Z).

(** A queue, the world, and what the caller remembers: the buffers it added under each token
    it was given and has not popped yet. *)
Definition State : Type := VirtQueue * W * gmap Z (list Item).

(** The indirect lists after writes that leave the addresses of the buffers alone. *)
Definition rewritten : list (option IndirectList) → list (option IndirectList) → Prop :=
  Forall2 (option_Forall2 same_list).

(** The caller passes non-empty buffers, and pops a token with the buffers it added. At any time
    between two operations, the device may write anything to the descriptor table and the rings,
    and anything but the addresses to the indirect lists. These are shared for reading only, but
    [recycle_descriptors] takes the addresses to unshare from there ([forged_address]). *)
Inductive step : State → State → Prop :=
| step_add_ok q w pend inputs outputs h q' w' :
    Forall item_ok (io_items inputs outputs) →
    add SIZE inputs outputs (q, w) = (Val (Ok h), (q', w')) →
    step (q, w, pend) (q', w', <[h := io_items inputs outputs]> pend)
| step_add_err q w pend inputs outputs e q' w' :
    Forall item_ok (io_items inputs outputs) →
    add SIZE inputs outputs (q, w) = (Val (Err e), (q', w')) →
    step (q, w, pend) (q', w', pend)
| step_pop_ok q w pend token inputs outputs len q' w' :
    pend !! token = Some (io_items inputs outputs) →
    pop_used SIZE token inputs outputs (q, w) = (Val (Ok len), (q', w')) →
    step (q, w, pend) (q', w', delete token pend)
| step_pop_err q w pend token inputs outputs e q' w' :
    pend !! token = Some (io_items inputs outputs) →
    pop_used SIZE token inputs outputs (q, w) = (Val (Err e), (q', w')) →
    step (q, w, pend) (q', w', pend)
| step_set_dev_notify q w pend enable q' w' :
    set_dev_notify enable (q, w) = (Val tt, (q', w')) →
    step (q, w, pend) (q', w', pend)
| step_device q w pend sh lists :
    shared_ok SIZE sh → rewritten (indirect_lists q) lists →
    step (q, w, pend) (set_indirect_lists lists (set_shared sh q), w, pend).

(** The states a new queue can get to. *)
Definition reachable (rest : list Res) (s : State) : Prop :=
  ∃ l idx ind ev w, held w ≡ₚ rest ∧ rtc step (initial_queue SIZE l idx ind ev, w, ∅) s.

Definition good (rest : list Res) (s : State) : Prop :=
  ∃ fl infl, inv SIZE s.1.1 s.1.2 fl infl rest ∧ pending infl = s.2.

Lemma pending_insert infl h r : pending (<[h:=r]> infl) = <[h:=req_items r]> (pending infl).
Proof. apply fmap_insert. Qed.

Lemma pending_lookup infl h items :
  pending infl !! h = Some items → ∃ r, infl !! h = Some r ∧ req_items r = items.
Proof. unfold pending. rewrite lookup_fmap. intros (r & ? & ?)%fmap_Some. eauto. Qed.

(** The driver's own data does not depend on what the device can write. *)
Lemma inv_set_shared q w fl infl rest sh :
  inv SIZE q w fl infl rest → shared_ok SIZE sh → inv SIZE (set_shared sh q) w fl infl rest.
Proof. intros [] ?. by split. Qed.

Lemma same_list_trans il il' il'' : same_list il il' → same_list il' il'' → same_list il il''.
Proof. unfold same_list. intros [-> ->] [-> ->]. done. Qed.

Lemma inv_rewritten q w fl infl rest lists :
  inv SIZE q w fl infl rest → rewritten (indirect_lists q) lists →
  inv SIZE (set_indirect_lists lists q) w fl infl rest.
Proof.
  intros [] Hl. split; try done; simpl.
  - by rewrite <- (Forall2_length _ _ _ Hl).
  - intros h r Hr. specialize (inv_reqs h r Hr). destruct r as [c segs|h' pa il segs]; [done|].
    destruct inv_reqs as (-> & (il' & Hi & Hs) & Ht & Hn). split_and!; try done.
    destruct (Forall2_lookup_l _ _ _ _ _ Hl Hi) as (o & Ho & Hrel). inversion Hrel as [? il'' Hs'|]; subst.
    exists il''. split; [done|]. by eapply same_list_trans.
  - intros h il Hi Hh. destruct (Forall2_lookup_r _ _ _ _ _ Hl Hi) as (o & Ho & Hrel).
    inversion Hrel; subst. by eapply inv_slots.
Qed.

Lemma set_dev_notify_run enable q (w : W) : shared_ok SIZE (shared q) →
  ∃ sh, shared_ok SIZE sh ∧ set_dev_notify enable (q, w) = (Val tt, (set_shared sh q, w)).
Proof.
  intros Hsh. unfold set_dev_notify. mstep. cbn [fst snd]. destruct (event_idx q).
  - exists (shared q). split; [done|]. by destruct q.
  - eexists. split; [|reflexivity]. destruct Hsh. by split.
Qed.

Section good.
Context (HS : SIZE_OK SIZE = true).

Lemma good_add q w pend rest inputs outputs :
  good rest (q, w, pend) → Forall item_ok (io_items inputs outputs) →
  (∃ e, add SIZE inputs outputs (q, w) = (Val (Err e), (q, w))) ∨
  (∃ h q' w', add SIZE inputs outputs (q, w) = (Val (Ok h), (q', w')) ∧
     good rest (q', w', <[h := io_items inputs outputs]> pend)).
Proof.
  intros (fl & infl & I & Hp) Hok; simpl in *.
  destruct (spec_add_error SIZE (indirect q) (pending infl) (io_items inputs outputs)) as [e|] eqn:E.
  - left. exists e. rewrite (add_unfold SIZE q w fl infl rest) by done. by rewrite E.
  - right. destruct (add_ok_run SIZE q w fl infl rest inputs outputs)
      as (r & q0 & w' & fl' & Hrun & Ha & Hn & I'); try done.
    do 3 eexists. split; [exact Hrun|]. eexists _, _. split; [exact I'|].
    simpl. rewrite pending_insert, Hp. by destruct Ha as [-> _].
Qed.

Lemma good_pop q w pend rest token inputs outputs :
  good rest (q, w, pend) → pend !! token = Some (io_items inputs outputs) →
  (∃ e, pop_used SIZE token inputs outputs (q, w) = (Val (Err e), (q, w))) ∨
  (∃ len q' w', pop_used SIZE token inputs outputs (q, w) = (Val (Ok len), (q', w')) ∧
     good rest (q', w', delete token pend)).
Proof.
  intros (fl & infl & I & Hp) Htok; simpl in *. subst pend.
  destruct (spec_pop SIZE q token) as [len|e] eqn:E.
  - right. apply pending_lookup in Htok as (r & Hr & Hit).
    destruct (pop_ok_run SIZE q w fl infl rest token r len inputs outputs)
      as (q0 & w' & Hrun & I' & _); try done.
    do 3 eexists. split; [exact Hrun|]. eexists _, _. split; [exact I'|].
    apply fmap_delete.
  - left. exists e. rewrite pop_unfold by (done || apply I). by rewrite E.
Qed.

Lemma good_step rest s s' : good rest s → step s s' → good rest s'.
Proof.
  intros Hg Hs. destruct Hs as [q w pend i o h q' w' Hok Hr|q w pend i o e q' w' Hok Hr
    |q w pend t i o len q' w' Ht Hr|q w pend t i o e q' w' Ht Hr|q w pend en q' w' Hr|q w pend sh lists Hsh Hl].
  1,2: destruct (good_add q w pend rest i o Hg Hok) as [(e' & E)|(h' & q1 & w1 & E & G)];
    rewrite E in Hr; by simplify_eq.
  1,2: destruct (good_pop q w pend rest t i o Hg Ht) as [(e' & E)|(h' & q1 & w1 & E & G)];
    rewrite E in Hr; by simplify_eq.
  - destruct Hg as (fl & infl & I & Hp); simpl in *.
    destruct (set_dev_notify_run en q w) as (sh & Hsh & E); [apply I|].
    rewrite E in Hr. simplify_eq. exists fl, infl. split; [by apply inv_set_shared|done].
  - destruct Hg as (fl & infl & I & Hp). exists fl, infl. split; [|done].
    apply inv_rewritten; [by apply inv_set_shared|done].
Qed.

Lemma reachable_good rest s : reachable rest s → good rest s.
Proof.
  intros (l & idx & ind & ev & w & Hw & Hsteps).
  assert (good rest (initial_queue SIZE l idx ind ev, w, ∅)) as Hg.
  { exists (seqZ 0 SIZE), ∅. split; [|apply fmap_empty].
    by destruct (initial_inv SIZE HS l idx ind ev w). }
  clear Hw. induction Hsteps as [|s1 s2 s3 Hs _ IH]; [done|]. apply IH. by eapply good_step.
Qed.
End good.
End reach.

(** ** Main theorems *)
Section theorems.
Context `{Profile} {W : Type} `{HalSpec W}.
Context (SIZE : Z).

(** C1. [add] implements the abstract queue. It never panics on non-empty buffers. It fails,
    leaving everything as it was, exactly when the abstract queue does: with [InvalidParam]
    when there is no buffer, with [QueueFull] when there are more buffers than descriptors in
    the table or the request does not fit in the free descriptors. Otherwise it returns a
    token that is not in flight, the invariant holds with the token standing for the buffers,
    the device finds the chain of descriptors for the buffers behind the token in the shared
    table, and the token is in the next slot of the available ring, no other slot of which
    has changed. *)
Theorem add_refines q (w : W) fl infl rest inputs outputs :
  SIZE_OK SIZE = true → inv SIZE q w fl infl rest →
  Forall item_ok (io_items inputs outputs) →
  match spec_add_error SIZE (indirect q) (pending infl) (io_items inputs outputs) with
  | Some e => add SIZE inputs outputs (q, w) = (Val (Err e), (q, w))
  | None => ∃ h r q' w' fl',
      add SIZE inputs outputs (q, w) = (Val (Ok h), (q', w')) ∧
      infl !! h = None ∧ inv SIZE q' w' fl' (<[h:=r]> infl) rest ∧
      pending (<[h:=r]> infl) = <[h := io_items inputs outputs]> (pending infl) ∧
      req_in (desc q') (indirect_lists q') h r ∧
      av_ring (avail q') = <[Z.to_nat (avail_idx q mod SIZE) := h]> (av_ring (avail q)) ∧
      av_idx (avail q') = wrapping_add 16 (avail_idx q) 1
  end.
Proof.
  intros HS I Hok. destruct (spec_add_error _ _ _ _) as [e|] eqn:E.
  { rewrite (add_unfold SIZE q w fl infl rest) by done. by rewrite E. }
  destruct (add_ok_run SIZE q w fl infl rest inputs outputs)
    as (r & q0 & w' & fl' & Hrun & Ha & Hn & I'); try done.
  exists (free_head q), r, (publish SIZE (free_head q) q0), w', fl'.
  destruct Ha as (Hit & _ & _ & _ & Hri & _ & _ & _ & _ & lists & _ & Hq0 & _).
  assert (avail q0 = avail q ∧ avail_idx q0 = avail_idx q) as [Ea Ei] by (by rewrite Hq0).
  split_and!; try done.
  - by rewrite pending_insert, Hit.
  - unfold publish. cbn. by rewrite Ea, Ei.
  - unfold publish. cbn. by rewrite Ei.
Qed.

(** C2. [pop_used] implements the abstract queue. It returns [NotReady] when the device has
    used nothing, and [WrongToken] when the next used element is for another token, leaving
    everything as it was. Otherwise, for a token in flight and the buffers it was added with,
    it does not panic: it returns the length the device gave, the token is no longer in
    flight, its descriptors are at the front of the free list, all that was shared or
    allocated for it has been released, and the next used element is the following one. *)
Theorem pop_used_refines q (w : W) fl infl rest token r inputs outputs :
  SIZE_OK SIZE = true → inv SIZE q w fl infl rest →
  infl !! token = Some r → req_items r = io_items inputs outputs →
  match spec_pop SIZE q token with
  | Err e => pop_used SIZE token inputs outputs (q, w) = (Val (Err e), (q, w))
  | Ok len => ∃ q' w',
      pop_used SIZE token inputs outputs (q, w) = (Val (Ok len), (q', w')) ∧
      inv SIZE q' w' (req_chain r ++ fl) (delete token infl) rest ∧
      held w ≡ₚ req_held r ++ held w' ∧
      last_used_idx q' = wrapping_add 16 (last_used_idx q) 1
  end.
Proof.
  intros HS I Hr Hit. destruct (spec_pop SIZE q token) as [len|e] eqn:E.
  2:{ rewrite pop_unfold by (done || apply I). by rewrite E. }
  destruct (pop_ok_run SIZE q w fl infl rest token r len inputs outputs)
    as (q0 & w' & Hrun & I' & (sh & de & lists & Hq0 & _) & _); try done.
  exists (consume q0), w'. split_and!; try done.
  - rewrite (inv_held _ _ _ _ _ _ I), (inv_held _ _ _ _ _ _ I'), app_assoc.
    by rewrite (live_held_delete _ _ _ Hr).
  - rewrite Hq0. unfold consume. by destruct (event_idx _).
Qed.

(** C3. Safety of the queue against the device. In every state that a new queue reaches by any
    sequence of [add], [pop_used], [set_dev_notify] and writes of the device, which may write
    anything to the descriptor table, the available and the used ring, and anything to the
    indirect lists but the addresses of the buffers: the free descriptors and those in flight partition the table, the
    buffers shared with the device are exactly those of the tokens in flight, no operation
    within the caller's contract panics, and a queue with no token in flight holds nothing. *)
Theorem reachable_safe rest q (w : W) pend :
  SIZE_OK SIZE = true → reachable SIZE rest (q, w, pend) →
  (∃ fl infl, inv SIZE q w fl infl rest ∧ pending infl = pend ∧
     num_used q = used_slots (indirect q) pend) ∧
  (∀ inputs outputs, Forall item_ok (io_items inputs outputs) →
     ∃ res s', add SIZE inputs outputs (q, w) = (Val res, s')) ∧
  (∀ token inputs outputs, pend !! token = Some (io_items inputs outputs) →
     ∃ res s', pop_used SIZE token inputs outputs (q, w) = (Val res, s')) ∧
  (pend = ∅ → held w ≡ₚ rest).
Proof.
  intros HS Hr. pose proof (reachable_good SIZE HS rest _ Hr) as Hg.
  pose proof (SIZE_OK_eq _ HS) as (k & _ & _ & HSr). split_and!.
  - destruct Hg as (fl & infl & I & Hp); simpl in *. exists fl, infl. split_and!; try done.
    rewrite <- Hp. apply (inv_num_used SIZE I). lia.
  - intros i o Hok. destruct (good_add SIZE HS q w pend rest i o Hg Hok)
      as [(e & ->)|(h & q' & w' & -> & _)]; eauto.
  - intros t i o Ht. destruct (good_pop SIZE HS q w pend rest t i o Hg Ht)
      as [(e & ->)|(h & q' & w' & -> & _)]; eauto.
  - intros ->. destruct Hg as (fl & infl & I & Hp). unfold pending in Hp. simpl in *.
    apply fmap_empty_inv in Hp as ->. apply (inv_held _ _ _ _ _ _ I).
Qed.

(** C18. Tokens are reused last in, first out: the token of the request popped last is the
    token of the next successful [add], whatever the device wrote in between. The owning queue
    and the input driver, which put a buffer back after popping it and expect its old token,
    rely on this. *)
Theorem token_reuse q (w : W) fl infl rest token r len inputs outputs q' w' sh inputs' outputs' :
  SIZE_OK SIZE = true → inv SIZE q w fl infl rest →
  infl !! token = Some r → req_items r = io_items inputs outputs →
  pop_used SIZE token inputs outputs (q, w) = (Val (Ok len), (q', w')) →
  shared_ok SIZE sh → Forall item_ok (io_items inputs' outputs') →
  spec_add_error SIZE (indirect q) (pending (delete token infl)) (io_items inputs' outputs') = None →
  ∃ q'' w'', add SIZE inputs' outputs' (set_shared sh q', w') = (Val (Ok token), (q'', w'')).
Proof.
  intros HS I Hr Hit Hpop Hsh Hok Herr.
  rewrite pop_unfold in Hpop by (done || apply I).
  destruct (spec_pop SIZE q token) as [len'|e] eqn:E; [|done].
  destruct (pop_ok_run SIZE q w fl infl rest token r len' inputs outputs)
    as (q0 & w0 & Hrun & I' & (sh0 & de & lists & Hq0 & _) & _); try done.
  rewrite pop_unfold, E in Hrun by (done || apply I). rewrite Hpop in Hrun. injection Hrun as -> -> ->.
  assert (free_head (consume q0) = token ∧ indirect (consume q0) = indirect q) as [Hf Hi].
  { rewrite Hq0. unfold consume. by destruct (event_idx _). }
  destruct (add_ok_run SIZE (set_shared sh (consume q0)) w0 (req_chain r ++ fl)
    (delete token infl) rest inputs' outputs')
    as (r' & q1 & w1 & fl' & Hadd & _); try done.
  { by apply inv_set_shared. }
  { simpl. by rewrite Hi. }
  simpl in Hadd. rewrite Hf in Hadd. eauto.
Qed.

(** C5. A blocking request terminates. On an idle queue, if the device serves the request
    within [N] polls and [fuel] allows that many, [add_notify_wait_pop] adds the request, notifies
    the device when it is to, waits for the step with which the device advances the used index,
    returns the length in the used element the device has written for the request by then, and
    leaves the queue idle again with nothing shared or allocated for it. *)
Theorem add_notify_wait_pop_total {T} `{Transport T W} `{Device W}
    N fuel q (t : T) (w : W) rest inputs outputs :
  SIZE_OK SIZE = true → device_serves SIZE N → notify_ok (queue_idx q) t → (N < fuel)%nat →
  idle SIZE q w rest → Forall item_ok (io_items inputs outputs) →
  spec_add_error SIZE (indirect q) ∅ (io_items inputs outputs) = None →
  ∃ h q1 w1 w2 n len q' t' w', add SIZE inputs outputs (q, w) = (Val (Ok h), (q1, w1)) ∧
    (if should_notify q1 then notify (queue_idx q) else mret tt) (t, w1) = (Val tt, (t', w2)) ∧
    served_in SIZE N (queue_idx q) n (shared q1) w2 h len ∧
    add_notify_wait_pop SIZE fuel inputs outputs (q, (t, w)) = (Val (Ok len), (q', (t', w'))) ∧
    idle SIZE q' w' rest ∧ held w' ≡ₚ held w.
Proof.
  intros HS Hd Hn Hf Hid Hok Herr.
  destruct (add_notify_wait_pop_run SIZE HS N fuel q t w rest inputs outputs)
    as (h & q1 & w1 & w2 & n & len & q' & t' & w' & Hadd & Hno & Hsv & Hrun & Hid'); try done.
  exists h, q1, w1, w2, n, len, q', t', w'. split_and!; try done.
  destruct Hid as [[fl I] _ _], Hid' as [[fl' I'] _ _].
  by rewrite (inv_held _ _ _ _ _ _ I), (inv_held _ _ _ _ _ _ I').
Qed.
End theorems.

(** ** Construction and layout *)
Section construction.
Context `{Profile} {W : Type} `{HalSpec W} {T : Type} `{Transport T W}.
Context (SIZE : Z).

(** C19. [VirtQueue::new] on a transport with the modern layout: when the queue is not in use,
    the device supports its size, the HAL gives two DMA regions inside the address space and
    the transport accepts the addresses, [new] returns a queue that satisfies the invariant
    with all descriptors free and nothing in flight. The addresses it gives the transport are
    those of the descriptor table, of the available ring behind it, and of the used ring. *)
Theorem new_modern idx ind ev (s s1 s2 : T * W) t3 w3 max pa1 va1 w4 pa2 va2 w5 s6 :
  SIZE_OK SIZE = true → queue_used idx s = (Val false, s1) →
  max_queue_size idx s1 = (Val max, s2) → SIZE ≤ max →
  requires_legacy_layout s2 = (Val false, (t3, w3)) →
  dma_alloc (driver_pages SIZE) DriverToDevice w3 = (Val (pa1, va1), w4) →
  region_ok pa1 va1 (driver_pages SIZE) →
  dma_alloc (device_pages SIZE) DeviceToDriver w4 = (Val (pa2, va2), w5) →
  region_ok pa2 va2 (device_pages SIZE) →
  queue_set idx SIZE pa1 (pa1 + desc_bytes SIZE) pa2 (t3, w5) = (Val tt, s6) →
  ∃ q, new SIZE idx ind ev s = (Val (Ok q), s6) ∧
    inv SIZE q s6.2 (seqZ 0 SIZE) ∅ (held s6.2) ∧
    indirect q = ind ∧ event_idx q = ev ∧ queue_idx q = idx ∧ can_pop q = false.
Proof.
  intros HS E1 E2 Hmax E3 E4 R1 E5 R2 E6. pose proof (SIZE_OK_eq _ HS) as (k & _ & _ & HSr).
  assert (is_power_of_two SIZE = true) as Hp by (by apply andb_true_iff in HS as [? _]).
  eexists. split; [|split; [by apply initial_inv|done]].
  eapply (new_run SIZE HS idx ind ev s s1 s2 t3 w3 max false); try done.
  - apply (allocate_flexible_run SIZE w3 pa1 va1 w4 pa2 va2); try done;
      unfold region_ok in *; lia.
  - by apply modern_wf.
  - exact E6.
Qed.

(** [VirtQueue::new] on a transport with the legacy layout: one DMA region holds the three
    parts, the used ring starting a page. *)
Theorem new_legacy idx ind ev (s s1 s2 : T * W) t3 w3 max pa va w4 s5 :
  SIZE_OK SIZE = true → queue_used idx s = (Val false, s1) →
  max_queue_size idx s1 = (Val max, s2) → SIZE ≤ max →
  requires_legacy_layout s2 = (Val true, (t3, w3)) →
  dma_alloc (legacy_pages SIZE) Both w3 = (Val (pa, va), w4) →
  region_ok pa va (legacy_pages SIZE) →
  queue_set idx SIZE pa (pa + desc_bytes SIZE)
    (pa + round_pages (desc_bytes SIZE + avail_bytes SIZE)) (t3, w4) = (Val tt, s5) →
  ∃ q, new SIZE idx ind ev s = (Val (Ok q), s5) ∧
    inv SIZE q s5.2 (seqZ 0 SIZE) ∅ (held s5.2) ∧ layout_wf SIZE (layout q) ∧
    desc_bytes SIZE + avail_bytes SIZE ≤ round_pages (desc_bytes SIZE + avail_bytes SIZE) ∧
    round_pages (desc_bytes SIZE + avail_bytes SIZE) + used_bytes SIZE
      ≤ legacy_pages SIZE * PAGE_SIZE.
Proof.
  intros HS E1 E2 Hmax E3 E4 R E5. pose proof (SIZE_OK_eq _ HS) as (k & _ & _ & HSr).
  pose proof (legacy_wf SIZE pa va HSr R) as Hwf.
  destruct (part_bytes_bounds SIZE HSr) as (B1 & B2 & _).
  eexists. split; [|split; [by apply initial_inv|split; [exact Hwf|]]].
  - eapply (new_run SIZE HS idx ind ev s s1 s2 t3 w3 max true); try done.
    apply (allocate_legacy_run SIZE w3 pa va); try done. unfold region_ok in R; lia.
  - destruct Hwf as (_ & _ & _ & Hu). split; [|done].
    apply round_pages_bounds. lia.
Qed.

(** [VirtQueue::new] refuses a queue that is in use, before it asks or allocates anything
    else, and a queue larger than the device supports, before it allocates anything. *)
Theorem new_errors idx ind ev (s s1 : T * W) used :
  queue_used idx s = (Val used, s1) →
  (used = true → new SIZE idx ind ev s = (Val (Err AlreadyUsed), s1)) ∧
  (used = false → ∀ max s2, max_queue_size idx s1 = (Val max, s2) → max < SIZE →
     new SIZE idx ind ev s = (Val (Err InvalidParam), s2)).
Proof.
  intros E. split; [intros ->|intros -> max s2 E2 Hlt]; unfold new; erewrite bind_val by exact E;
    [done|]. cbv beta iota. erewrite bind_val by exact E2.
  by rewrite (proj2 (Z.ltb_lt _ _)).
Qed.
End construction.

(** ** Notifications *)

(** The test of the VirtIO specification (2.7.10, [vring_need_event]) for a driver that has
    made chains available from index [old] to index [new] since it last looked. *)
Definition need_event (event new old : Z) : bool :=
  wrapping_sub 16 (wrapping_sub 16 new event) 1 <? wrapping_sub 16 new old.

(** With [VIRTIO_F_EVENT_IDX], no notification that the device asked for is lost as long as
    the available index does not wrap: when the driver has added from index [old] on and the
    specification requires a notification, [should_notify] says so. *)
Theorem should_notify_complete q old :
  event_idx q = true → fits 16 (us_avail_event (used q)) → fits 16 old → fits 16 (avail_idx q) →
  old ≤ avail_idx q →
  need_event (us_avail_event (used q)) (avail_idx q) old = true → should_notify q = true.
Proof.
  unfold need_event, should_notify, wrapping_sub, wrapping_add, wrap, fits.
  intros -> He Ho Ha Hle Hn%Z.ltb_lt. apply Z.leb_le. change (2 ^ 16) with 65536 in *.
  Z.to_euclidean_division_equations. lia.
Qed.

(** The test of [should_notify] is not the specification's when the available index wraps:
    there is a queue that satisfies the invariant, whose device asks for a notification once
    the chain at index 65534 is available, and for which the driver adds the chains 65534 and
    65535, so that a notification is required, and [should_notify] answers no. *)
Theorem should_notify_wrap_misses :
  inv 4 Bench.qw Bench.w0 (seqZ 0 4) ∅ [] ∧ event_idx Bench.qw = true ∧
  avail_idx Bench.qw = 65534 ∧ us_avail_event (used Bench.qw) = 65534 ∧
  add (H := Bench.release) 4 [Bench.in1] [] (Bench.qw, Bench.w0) = (Val (Ok 0), Bench.sw1) ∧
  add (H := Bench.release) 4 [Bench.in2] [] Bench.sw1 = (Val (Ok 1), Bench.sw2) ∧
  need_event (us_avail_event (used Bench.sw2.1)) (avail_idx Bench.sw2.1)
    (avail_idx Bench.qw) = true ∧
  should_notify Bench.sw2.1 = false.
Proof. split; [exact Bench.qw_inv|split_and!; vm_compute; reflexivity]. Qed.

(** ** Witnesses: the hypotheses hold of the concrete queues *)
Section witnesses.
Import Bench.

Lemma add_refines_witness : ∃ h q' w',
  add 4 [in1; in2] [out1] (qi, w0) = (Val (Ok h), (q', w')) ∧ av_idx (avail q') = 1.
Proof.
  pose proof (add_refines 4 qi w0 (seqZ 0 4) ∅ [] [in1; in2] [out1] eq_refl qi_inv items_ok)
    as Hadd.
  assert (spec_add_error 4 (indirect qi) (pending ∅) (io_items [in1; in2] [out1]) = None) as E
    by reflexivity.
  rewrite E in Hadd. destruct Hadd as (h & r & q' & w' & fl' & Hrun & _ & _ & _ & _ & _ & Hidx).
  exists h, q', w'. split; [exact Hrun|exact Hidx].
Defined.

Lemma pop_used_refines_witness : ∃ q' w',
  pop_used 4 0 [in1; in2] [out1] (q2, s1.2) = (Val (Ok 8), (q', w')) ∧ last_used_idx q' = 1.
Proof.
  destruct q2_inv as (fl & r & I & Hit).
  pose proof (pop_used_refines 4 q2 s1.2 fl {[0 := r]} [] 0 r [in1; in2] [out1] eq_refl I
    (lookup_singleton_eq 0 r) Hit) as Hpop.
  assert (spec_pop 4 q2 0 = Ok 8) as E by (vm_compute; reflexivity).
  rewrite E in Hpop. destruct Hpop as (q' & w' & Hrun & _ & _ & Hl).
  exists q', w'. split; [exact Hrun|]. rewrite Hl. vm_compute. reflexivity.
Defined.

(** A request with an indirect list, that the device has used, having written [f] to the list. *)
Definition si : VirtQueue * FakeHal.World := (add 4 [in1; in2] [out1] (qi, w0)).2.
Definition by_device (f : Descriptor → Descriptor) : list (option IndirectList) :=
  map (option_map (λ il, mkIndirectList (il_ptr il) (map f (il_descs il)))) (indirect_lists si.1).
Definition used_by_device : Shared :=
  mkShared (desc si.1) (avail si.1) (mkUsedRing 0 1 (mkUsedElem 0 8 :: replicate 3 (mkUsedElem 0 0)) 0).
Definition qf (f : Descriptor → Descriptor) : VirtQueue :=
  set_indirect_lists (by_device f) (set_shared used_by_device si.1).

(** The lengths, the flags and the links cleared. *)
Definition cleared (d : Descriptor) : Descriptor := mkDescriptor (d_addr d) 0 0 0.

Lemma qf_reachable : reachable 4 [] (qf cleared, si.2, {[0 := io_items [in1; in2] [out1]]}).
Proof.
  exists layout0, 0, true, false, w0. split; [reflexivity|].
  eapply rtc_l; [apply (step_add_ok 4 qi w0 ∅ [in1; in2] [out1] 0 si.1 si.2); [exact items_ok|]|].
  { vm_compute. reflexivity. }
  apply rtc_once, (step_device 4 si.1 si.2 _ used_by_device (by_device cleared)); [by split|].
  apply (Forall2_fmap_r (option_map _) (option_Forall2 same_list)), Forall_Forall2_diag, Forall_forall.
  intros [il|] _; constructor.
  split; [reflexivity|]. exact (eq_sym (list_fmap_compose cleared d_addr (il_descs il))).
Qed.

Lemma reachable_safe_witness :
  num_used (qf cleared) = 1 ∧
  ∃ res s', pop_used 4 0 [in1; in2] [out1] (qf cleared, si.2) = (Val res, s').
Proof.
  destruct (reachable_safe 4 [] (qf cleared) si.2 {[0 := io_items [in1; in2] [out1]]} eq_refl qf_reachable)
    as (_ & _ & Hpop & _).
  split; [vm_compute; reflexivity|].
  apply (Hpop 0 [in1; in2] [out1]). apply lookup_singleton_eq.
Defined.

(** The addresses to unshare are read back from the indirect list. A device that writes there,
    although the list is shared for reading only, makes the driver pass [Hal::unshare] addresses
    that were never shared; here the HAL of the tests panics. *)
Lemma forged_address :
  (pop_used 4 0 [in1; in2] [out1] (qf id, si.2)).1 = Val (Ok 8) ∧
  (pop_used 4 0 [in1; in2] [out1] (qf (λ d, mkDescriptor 0 (d_len d) (d_flags d) (d_next d)), si.2)).1 = Panic.
Proof. split; vm_compute; reflexivity. Qed.

Lemma token_reuse_witness : ∃ q'' w'',
  add 4 [in1] [] (set_shared (shared q2) (pop_used 4 0 [in1; in2] [out1] (q2, s1.2)).2.1,
                  (pop_used 4 0 [in1; in2] [out1] (q2, s1.2)).2.2) = (Val (Ok 0), (q'', w'')).
Proof.
  destruct q2_inv as (fl & r & I & Hit).
  refine (token_reuse 4 q2 s1.2 fl {[0 := r]} [] 0 r 8 [in1; in2] [out1] _ _ (shared q2) [in1] []
    eq_refl I (lookup_singleton_eq 0 r) Hit _ (inv_shared _ _ _ _ _ _ I) _ _).
  - vm_compute. reflexivity.
  - repeat constructor; done.
  - rewrite delete_singleton_eq. reflexivity.
Defined.

Lemma add_notify_wait_pop_total_witness : ∃ h q1 w1 w2 n len q' t' w',
  add 4 [in1; in2] [out1] (q0, w0) = (Val (Ok h), (q1, w1)) ∧
  served_in 4 1 0 n (shared q1) w2 h len ∧
  add_notify_wait_pop 4 2 [in1; in2] [out1] (q0, (t0, w0)) = (Val (Ok len), (q', (t', w'))).
Proof.
  destruct (add_notify_wait_pop_total 4 1 2 q0 t0 w0 [] [in1; in2] [out1] eq_refl
    (in_order_serves 4 eq_refl) t0_notify ltac:(lia) q0_idle items_ok eq_refl)
    as (h & q1 & w1 & w2 & n & len & q' & t' & w' & Hadd & _ & Hsv & Hrun & _).
  exists h, q1, w1, w2, n, len, q', t', w'. split; [exact Hadd|]. split; [exact Hsv|exact Hrun].
Defined.

Lemma new_modern_witness : ∃ q s', new 4 0 false false (t0, w0) = (Val (Ok q), s') ∧
  can_pop q = false.
Proof.
  edestruct (new_modern 4 0 false false (t0, w0) (t0, w0) (t0, w0) t0 w0 8)
    as (q & Hnew & _ & _ & _ & _ & Hpop);
    [reflexivity|reflexivity|reflexivity|lia|reflexivity|reflexivity|..].
  - vm_compute. repeat split; congruence.
  - reflexivity.
  - vm_compute. repeat split; congruence.
  - reflexivity.
  - exists q. eexists. split; [exact Hnew|exact Hpop].
Defined.

Lemma new_legacy_witness : ∃ q s',
  new (H2 := legacy_transport) 4 0 false false (t0, w0) = (Val (Ok q), s').
Proof.
  edestruct (new_legacy (H3 := legacy_transport) 4 0 false false (t0, w0) (t0, w0) (t0, w0) t0 w0 8)
    as (q & Hnew & _);
    [reflexivity|reflexivity|reflexivity|lia|reflexivity|reflexivity|..].
  - vm_compute. repeat split; congruence.
  - reflexivity.
  - exists q. eexists. exact Hnew.
Defined.

Lemma new_errors_witness :
  new 16 0 false false (t0, w0) = (Val (Err InvalidParam), (t0, w0)).
Proof.
  edestruct (new_errors 16 0 false false (t0, w0)) as [_ Herr]; [reflexivity|].
  apply (Herr eq_refl 8); [reflexivity|lia].
Defined.

Lemma should_notify_complete_witness : should_notify sw1.1 = true.
Proof.
  apply (should_notify_complete sw1.1 65534); vm_compute; repeat split; congruence.
Defined.
End witnesses.
