(* ===== verification/QueueBuilds.v ===== *)
(** * The virtqueue in debug and in release builds

    The arithmetic of the queue's operations panics on an overflow in a build with overflow
    checks, and wraps around in one without. No operation on a queue within its contract
    overflows: the builds behave alike. *)

From S2P Require Import Prelude Base Transport QueueData Queue QueueInv QueueLemmas QueueSpec.
From S2P Require Import Layout QueueNew QueueWait FakeHal FakeTransport Bench QueueProps.
Import VirtQueue.

Definition all_checks : Profile := {| overflow_checks := true; debug_assertions := true |}.

(** ** Operations that agree *)
Section agrees.
Context {S : Type}.

(** What ends with a value when everything is checked ends with it in every build. *)
Definition agrees {A} (m : Profile → M S A) : Prop :=
  ∀ s a s', m all_checks s = (Val a, s') → ∀ p, m p s = (Val a, s').

Lemma agrees_const {A} (m : M S A) : agrees (λ _, m).
Proof. by intros s a s' E. Qed.

Lemma agrees_bind {A B} (m : Profile → M S A) (k : Profile → A → M S B) :
  agrees m → (∀ a, agrees (λ p, k p a)) → agrees (λ p, m p ≫= k p).
Proof.
  intros Hm Hk s b s' E p. apply bind_val_inv in E as (a & s1 & E1 & E2).
  erewrite bind_val by (by apply Hm). by apply Hk.
Qed.

Lemma agrees_if {A} (b : bool) (m n : Profile → M S A) :
  agrees m → agrees n → agrees (λ p, if b then m p else n p).
Proof. by destruct b. Qed.

Lemma agrees_arith w x : agrees (λ p, arith (S := S) w x).
Proof. intros s a s' E p. unfold arith in *. by destruct (fitsb w x). Qed.
End agrees.

Create HintDb agrees.
#[export] Hint Resolve agrees_const agrees_arith : agrees.
Ltac agree_step :=
  lazymatch goal with
  | |- agrees (λ p, _ ≫= _) => first [apply agrees_const | apply (agrees_bind (λ p, _) (λ p a, _)); [|intros ?]]
  | |- agrees (λ p, if ?b then _ else _) => apply agrees_if
  | |- _ => solve [eauto with agrees]
  end.
Ltac agree := repeat (agree_step; cbv beta).

(** ** The queue *)
Section queue.
Context {W : Type} `{HalSpec W}.
Context (SIZE : Z).

Lemma add_direct_agrees inputs outputs : agrees (S := VirtQueue * W) (λ p, add_direct inputs outputs).
Proof. unfold add_direct, add_u. agree. Qed.

Lemma add_indirect_agrees inputs outputs : agrees (S := VirtQueue * W) (λ p, add_indirect inputs outputs).
Proof. unfold add_indirect, add_u. agree. Qed.

#[local] Hint Resolve add_direct_agrees add_indirect_agrees : agrees.

Lemma add_agrees inputs outputs : agrees (S := VirtQueue * W) (λ p, add SIZE inputs outputs).
Proof. unfold add. cbv zeta. agree. Qed.

Lemma recycle_direct_agrees f items : ∀ n, agrees (S := VirtQueue * W) (λ p, recycle_direct f items n).
Proof.
  induction items as [|[b d] items IH]; intros n; cbn [recycle_direct]; unfold sub_u; cbv zeta; [agree|].
  agree.
Qed.
#[local] Hint Resolve recycle_direct_agrees : agrees.

Lemma recycle_agrees head inputs outputs :
  agrees (S := VirtQueue * W) (λ p, recycle_descriptors head inputs outputs).
Proof. unfold recycle_descriptors, sub_u. cbv zeta. agree. Qed.
#[local] Hint Resolve recycle_agrees : agrees.

Lemma pop_used_agrees token inputs outputs :
  agrees (S := VirtQueue * W) (λ p, pop_used SIZE token inputs outputs).
Proof. unfold pop_used. cbv zeta. agree. Qed.

Lemma available_desc_agrees : agrees (S := VirtQueue * W) (λ p, available_desc SIZE).
Proof. unfold available_desc, sub_u. agree. Qed.
End queue.

(** ** Builds *)
Section builds.
Context {W : Type} `{HalSpec W}.
Context (SIZE : Z) (HS : SIZE_OK SIZE = true).

(** The states reachable and the steps possible in a build. *)
Definition reach (p : Profile) (rest : list Res) (s : State (W := W)) : Prop := reachable SIZE rest s.
Definition move (p : Profile) (s s' : State (W := W)) : Prop := step SIZE s s'.

Lemma good_available (p : Profile) rest q (w : W) pend : good SIZE rest (q, w, pend) →
  ∃ n, available_desc SIZE (q, w) = (Val n, (q, w)) ∧ 0 ≤ n ≤ SIZE.
Proof.
  intros (fl & infl & I & _). simpl in I. pose proof (SIZE_OK_eq _ HS) as (k & _ & _ & HSr).
  pose proof (inv_num _ _ _ _ _ _ I) as Hn. pose proof (inv_length SIZE I) as Hl.
  unfold available_desc. mstep. cbn [fst]. destruct (indirect q).
  - eexists. split; [done|]. destruct (_ =? _); lia.
  - unfold sub_u. rewrite arith_fits by (unfold fits; lia). eexists. split; [done|]. lia.
Qed.

(** In a state that satisfies the invariant, the operations within their contract are the same. *)
Lemma good_same (p : Profile) rest q (w : W) pend : good SIZE rest (q, w, pend) →
  (∀ inputs outputs, Forall item_ok (io_items inputs outputs) →
     add SIZE inputs outputs (q, w) = add (H := all_checks) SIZE inputs outputs (q, w)) ∧
  (∀ token inputs outputs, pend !! token = Some (io_items inputs outputs) →
     pop_used SIZE token inputs outputs (q, w) = pop_used (H := all_checks) SIZE token inputs outputs (q, w)) ∧
  available_desc SIZE (q, w) = available_desc (H := all_checks) SIZE (q, w).
Proof.
  intros Hg. split_and!.
  - intros inputs outputs Hok.
    destruct (good_add (H := all_checks) SIZE HS q w pend rest inputs outputs Hg Hok)
      as [(e & E)|(h & q' & w' & E & _)]; rewrite E; by apply (add_agrees SIZE).
  - intros token inputs outputs Ht.
    destruct (good_pop (H := all_checks) SIZE HS q w pend rest token inputs outputs Hg Ht)
      as [(e & E)|(len & q' & w' & E & _)]; rewrite E; by apply (pop_used_agrees SIZE).
  - destruct (good_available all_checks rest q w pend Hg) as (n & E & _). rewrite E.
    by apply (available_desc_agrees SIZE).
Qed.

Lemma good_move p p' rest s s' : good SIZE rest s → move p s s' → move p' s s'.
Proof.
  intros Hg Hs. destruct s as [[q0 w0] pend0]. destruct (good_same p rest q0 w0 pend0 Hg) as (Ea & Ep & _).
  destruct (good_same p' rest q0 w0 pend0 Hg) as (Ea' & Ep' & _).
  inversion Hs; subst; [eapply step_add_ok|eapply step_add_err|eapply step_pop_ok|eapply step_pop_err
    |eapply step_set_dev_notify|by eapply step_device]; try done.
  all: first [rewrite Ea' by done; rewrite <- Ea by done; done|rewrite Ep' by done; rewrite <- Ep by done; done|done].
Qed.

Lemma reach_from p p' rest s : reach p rest s → reach p' rest s.
Proof.
  intros (l & idx & ind & ev & w & Hw & Hs). exists l, idx, ind, ev, w. split; [done|].
  assert (good SIZE rest (initial_queue SIZE l idx ind ev, w, ∅)) as Hg.
  { eapply (reachable_good (H := p) SIZE HS). exists l, idx, ind, ev, w. split; [done|]. apply rtc_refl. }
  clear Hw. induction Hs as [|s1 s2 s3 Hm _ IH]; [by apply rtc_refl|].
  eapply rtc_l; [by apply (good_move p p' rest)|]. apply IH. by eapply (good_step (H := p)).
Qed.
End builds.

(** C4. No arithmetic of the queue overflows: a build with overflow checks and one without reach
    the same states by calls within the contract and writes of the device, and in each of them
    [add] of non-empty buffers, [pop_used] of a token in flight and [available_desc] have the
    same results and the same effects, none of them a panic. *)
Theorem builds_agree {W : Type} `{HalSpec W} SIZE (p p' : Profile) rest q (w : W) pend :
  SIZE_OK SIZE = true → reach SIZE p rest (q, w, pend) →
  reach SIZE p' rest (q, w, pend) ∧
  (∀ inputs outputs, Forall item_ok (io_items inputs outputs) → ∃ r s,
     add (H := p) SIZE inputs outputs (q, w) = (Val r, s) ∧
     add (H := p') SIZE inputs outputs (q, w) = (Val r, s)) ∧
  (∀ token inputs outputs, pend !! token = Some (io_items inputs outputs) → ∃ r s,
     pop_used (H := p) SIZE token inputs outputs (q, w) = (Val r, s) ∧
     pop_used (H := p') SIZE token inputs outputs (q, w) = (Val r, s)) ∧
  (∃ n, available_desc (H := p) SIZE (q, w) = (Val n, (q, w)) ∧
     available_desc (H := p') SIZE (q, w) = (Val n, (q, w)) ∧ 0 ≤ n ≤ SIZE).
Proof.
  intros HS Hr. split; [by apply (reach_from SIZE HS p p')|].
  pose proof (reachable_good (H := p) SIZE HS rest _ Hr) as Hg.
  destruct (good_same SIZE HS p rest q w pend Hg) as (Ea & Ep & Ed).
  destruct (good_same SIZE HS p' rest q w pend Hg) as (Ea' & Ep' & Ed'). split_and!.
  - intros i o Hok. rewrite Ea, Ea' by done.
    destruct (good_add (H := all_checks) SIZE HS q w pend rest i o Hg Hok)
      as [(e & ->)|(h & q' & w' & -> & _)]; eauto.
  - intros t i o Ht. rewrite (Ep t), (Ep' t) by done.
    destruct (good_pop (H := all_checks) SIZE HS q w pend rest t i o Hg Ht)
      as [(e & ->)|(len & q' & w' & -> & _)]; eauto.
  - rewrite Ed, Ed'. destruct (good_available SIZE HS all_checks rest q w pend Hg) as (n & E & ?).
    by exists n.
Qed.

Section witnesses.
Import Bench.

Lemma builds_agree_witness : ∃ r s,
  pop_used (H := all_checks) 4 0 [in1; in2] [out1] (qf cleared, si.2) = (Val r, s) ∧
  pop_used (H := release) 4 0 [in1; in2] [out1] (qf cleared, si.2) = (Val r, s).
Proof.
  destruct (builds_agree (W := FakeHal.World) 4 all_checks release [] (qf cleared) si.2 {[0 := io_items [in1; in2] [out1]]} eq_refl)
    as (_ & _ & Hpop & _).
  - apply (reach_from 4 eq_refl release), qf_reachable.
  - apply (Hpop 0 [in1; in2] [out1]). apply lookup_singleton_eq.
Defined.
End witnesses.
