(* ===== verification/Serve.v ===== *)
(** * Requests that a device answers

    The contents of the buffers of a blocking request. [VirtQueue::add_notify_wait_pop] hands
    the bytes of its inputs to the device and returns with the device's answer in its outputs,
    through whatever memory the HAL makes the device work on. The protocol the device speaks is
    a parameter: the drivers' theorems instantiate it. *)

From S2P Require Import Prelude Base Transport QueueData Queue QueueInv QueueLemmas QueueSpec QueueWait.
Import VirtQueue.

(** ** Buffers *)
Definition in_slice (b : Slice) (x : Z) : Prop := s_ptr b ≤ x < s_ptr b + s_len b.

Definition disjoint (b c : Slice) : Prop := ∀ x, in_slice b x → in_slice c x → False.

Fixpoint disjoint_all (bs : list Slice) : Prop :=
  match bs with [] => True | b :: bs => Forall (disjoint b) bs ∧ disjoint_all bs end.

#[export] Instance in_slice_dec b x : Decision (in_slice b x).
Proof. unfold in_slice. apply _. Defined.

(** [l], cut or padded with zeros to [n] bytes. *)
Definition fit (n : Z) (l : list Z) : list Z := take (Z.to_nat n) (l ++ replicate (Z.to_nat n) 0).

Lemma fit_length n l : length (fit n l) = Z.to_nat n.
Proof. unfold fit. rewrite length_take, length_app, length_replicate. lia. Qed.

Lemma fit_exact n l : Z.of_nat (length l) = n → fit n l = l.
Proof. intros <-. unfold fit. rewrite Nat2Z.id. by rewrite take_app_length. Qed.

Lemma take_fit n l : Z.of_nat (length l) ≤ n → take (length l) (fit n l) = l.
Proof. intros Hl. unfold fit. rewrite take_take, Nat.min_l by lia. by rewrite take_app_length. Qed.

Lemma fit_pad n l : Z.of_nat (length l) ≤ n → fit n l = l ++ replicate (Z.to_nat n - length l) 0.
Proof.
  intros Hl. unfold fit. rewrite take_app, take_replicate, firstn_all2 by lia. do 2 f_equal. lia.
Qed.

(** ** What the driver relies on

    [Hal::share] makes a buffer accessible to the device, which sees it as [view]; a buffer the
    device may write gets what the device has written when it is unshared. The HAL may work in
    place or copy; it does not change the memory that the program owns otherwise. A new [Box] is
    memory that neither the program nor another box uses; writing to it changes nothing else. *)
Class DmaSpec (W : Type) `{HalSpec W} `{MemorySpec W} := {
  own : Z → Prop;
  view : W → Seg → list Z;
  (* A buffer of the program, or a box. *)
  mine (w : W) (b : Slice) : Prop := (∀ x, in_slice b x → own x) ∨ Boxed (s_ptr b) (s_len b) ∈ held w;
  share_view : ∀ b d (w : W) pa w', s_len b ≠ 0 → d ≠ Both → mine w b →
    share b d w = (Val pa, w') →
    (d = DriverToDevice → view w' (pa, b, d) = bytes_of w b) ∧
    (∀ x, own x → byte_at w' x = byte_at w x) ∧
    (∀ s, Share s ∈ held w → view w' s = view w s);
  share_fits : ∀ b d (w : W) pa w', 0 < s_len b → (∀ x, in_slice b x → own x) →
    share b d w = (Val pa, w') → fits 64 pa;
  unshare_view : ∀ pa b d (w : W) l w', held w ≡ₚ Share (pa, b, d) :: l →
    mine w b → unshare pa b d w = (Val tt, w') →
    (∀ x, own x ∨ in_slice b x → byte_at w' x =
      if decide (d = DeviceToDriver ∧ in_slice b x)
      then default 0 (view w (pa, b, d) !! Z.to_nat (x - s_ptr b)) else byte_at w x) ∧
    (∀ s, Share s ∈ l → view w' s = view w s);
  box_new_view : ∀ n (w : W) p w', box_new n w = (Val (Some p), w') →
    (∀ x, in_slice (mkSlice p n) x → ¬ own x) ∧
    (∀ p' n', Boxed p' n' ∈ held w → disjoint (mkSlice p' n') (mkSlice p n)) ∧
    (∀ x, own x → byte_at w' x = byte_at w x) ∧
    (∀ s, Share s ∈ held w → view w' s = view w s);
  box_write_view : ∀ p l (w : W) w', let b := mkSlice p (Z.of_nat (length l)) in
    Boxed p (Z.of_nat (length l)) ∈ held w → box_write p l w = (Val tt, w') →
    bytes_of w' b = l ∧ (∀ x, own x → ¬ in_slice b x → byte_at w' x = byte_at w x) ∧
    (∀ s, Share s ∈ held w → disjoint s.1.2 b → view w' s = view w s);
  box_drop_view : ∀ p n (w : W) l w', held w ≡ₚ Boxed p n :: l → box_drop p n w = (Val tt, w') →
    (∀ x, own x → byte_at w' x = byte_at w x) ∧
    (∀ s, Share s ∈ l → view w' s = view w s)
}.

Section calls.
Context `{Profile} {W : Type} `{DmaSpec W}.

Lemma unshare_own pa b d (w : W) l w' : held w ≡ₚ Share (pa, b, d) :: l → mine w b →
  unshare pa b d w = (Val tt, w') →
  (∀ x, own x → byte_at w' x =
    if decide (d = DeviceToDriver ∧ in_slice b x)
    then default 0 (view w (pa, b, d) !! Z.to_nat (x - s_ptr b)) else byte_at w x) ∧
  (∀ s, Share s ∈ l → view w' s = view w s).
Proof. intros Hp Hm E. destruct (unshare_view pa b d w l w' Hp Hm E). by split; [auto|]. Qed.

Definition seg_ok (s : Seg) : Prop :=
  0 < s_len s.1.2 < 2 ^ 32 ∧ s.2 ≠ Both ∧ ∀ x, in_slice s.1.2 x → own x.

Lemma bytes_of_length (w : W) b : length (bytes_of w b) = Z.to_nat (s_len b).
Proof. unfold bytes_of. by rewrite length_fmap, length_seqZ. Qed.

Lemma bytes_of_ext (w w' : W) b : (∀ x, in_slice b x → byte_at w' x = byte_at w x) →
  bytes_of w' b = bytes_of w b.
Proof.
  intros E. unfold bytes_of. apply list_fmap_ext. intros i x Hx.
  apply lookup_seqZ in Hx as [-> Hx]. apply E. unfold in_slice. lia.
Qed.

Lemma bytes_of_eq (w : W) b l : length l = Z.to_nat (s_len b) →
  (∀ x, in_slice b x → byte_at w x = default 0 (l !! Z.to_nat (x - s_ptr b))) → bytes_of w b = l.
Proof.
  intros Hl E. unfold bytes_of. apply list_eq. intros i. rewrite list_lookup_fmap.
  destruct (decide (i < length l)%nat) as [Hi|Hi].
  - rewrite lookup_seqZ_lt by lia. simpl. rewrite E by (unfold in_slice; lia).
    replace (Z.to_nat (_ - _)) with i by lia. destruct (lookup_lt_is_Some_2 l i Hi) as [y ->]. done.
  - rewrite lookup_seqZ_ge by lia. simpl. symmetry. apply lookup_ge_None. lia.
Qed.

(** Writing to the start of a buffer. *)
Lemma write_bytes (w w' : W) b l : Z.of_nat (length l) ≤ s_len b → mem_write (s_ptr b) l w = (Val tt, w') →
  bytes_of w' b = l ++ drop (length l) (bytes_of w b) ∧
  (∀ x, ¬ in_slice b x → byte_at w' x = byte_at w x).
Proof.
  intros Hl E. destruct (mem_write_spec (s_ptr b) l w) as (w1 & E1 & Hm). rewrite E in E1. injection E1 as <-. split.
  - apply bytes_of_eq; [rewrite length_app, length_drop, bytes_of_length; lia|]. intros x Hx. unfold in_slice in Hx.
    rewrite Hm. case_decide as Hin.
    + by rewrite lookup_app_l by lia.
    + rewrite lookup_app_r, lookup_drop by lia. unfold bytes_of. rewrite list_lookup_fmap, lookup_seqZ_lt by lia.
      simpl. f_equal. lia.
  - intros x Hx. rewrite Hm. rewrite decide_False; [done|]. unfold in_slice in Hx. lia.
Qed.

(** The first bytes of a buffer. *)
Lemma bytes_of_take (w : W) p n m : 0 ≤ m ≤ n →
  bytes_of w (mkSlice p m) = take (Z.to_nat m) (bytes_of w (mkSlice p n)).
Proof.
  intros Hm. unfold bytes_of. apply list_eq. intros i. rewrite lookup_take, !list_lookup_fmap. simpl.
  case_decide; [by rewrite !lookup_seqZ_lt by lia|by rewrite lookup_seqZ_ge by lia].
Qed.

(** A part of a buffer. *)
Lemma bytes_of_sub (w : W) p n a m : 0 ≤ a → 0 ≤ m → a + m ≤ n →
  bytes_of w (mkSlice (p + a) m) = take (Z.to_nat m) (drop (Z.to_nat a) (bytes_of w (mkSlice p n))).
Proof.
  intros Ha Hm Hn. unfold bytes_of. apply list_eq. intros i. rewrite lookup_take, lookup_drop, !list_lookup_fmap. simpl.
  case_decide; [rewrite !lookup_seqZ_lt by lia; simpl; f_equal; f_equal; lia|by rewrite lookup_seqZ_ge by lia].
Qed.

(** Sharing buffers: the device sees the contents of those it may read. *)
Lemma shared_by_view segs : ∀ (w w' : W), Forall seg_ok segs → shared_by segs w w' →
  held w' ≡ₚ (Share <$> segs) ++ held w ∧ (∀ x, own x → byte_at w' x = byte_at w x) ∧
  (∀ s, Share s ∈ held w → view w' s = view w s) ∧
  (∀ s, s ∈ segs → s.2 = DriverToDevice → view w' s = bytes_of w s.1.2) ∧
  Forall (λ s, fits 64 s.1.1) segs.
Proof.
  induction segs as [|[[pa b] d] segs IH]; intros w w' Hok Hs.
  { simpl in Hs. subst. split_and!; try done. intros s Hs. by apply not_elem_of_nil in Hs. }
  destruct Hs as (w1 & E & Hs). apply Forall_cons in Hok as [(Hl & Hb & Ho) Hok]. simpl in Hl, Hb, Ho.
  assert (s_len b ≠ 0) as Hl0 by lia.
  destruct (share_spec b d w Hl0 Hb) as (pa' & w1' & E' & Hp). rewrite E in E'. injection E' as <- <-.
  destruct (share_view b d w pa w1 Hl0 Hb (or_introl Ho) E) as (V1 & V2 & V3).
  destruct (IH w1 w' Hok Hs) as (Hp' & M & Vh & Vs & Hf). split_and!.
  - rewrite Hp', Hp. simpl. by rewrite Permutation_middle.
  - intros x Hx. by rewrite M, V2.
  - intros s Hin. rewrite Vh, V3; [done..|]. rewrite Hp. set_solver.
  - intros s [->|Hin]%elem_of_cons Hd.
    + simpl in Hd. subst d. rewrite Vh by (rewrite Hp; set_solver). by apply V1.
    + rewrite Vs by done. apply bytes_of_ext. intros x Hx. apply V2.
      rewrite Forall_forall in Hok. destruct (Hok s Hin) as (_ & _ & Ho'). by apply Ho'.
  - constructor; [apply (share_fits b d w pa w1); [lia|done..]|done].
Qed.

(** The buffers the device may write. *)
Definition seg_out (s : Seg) : bool := match s.2 with DeviceToDriver => true | _ => false end.
Definition outs (segs : list Seg) : list Seg := filter (λ s, seg_out s = true) segs.
Definition ins (segs : list Seg) : list Seg := filter (λ s, seg_out s = false) segs.
Definition seg_slice (s : Seg) : Slice := s.1.2.

Lemma outs_cons s segs : outs (s :: segs) = if seg_out s then s :: outs segs else outs segs.
Proof. unfold outs. rewrite filter_cons. destruct (seg_out s) eqn:E; by case_decide. Qed.

Lemma outs_tail s x segs : s ∈ outs segs → s ∈ outs (x :: segs).
Proof. intros Hs. rewrite outs_cons. destruct (seg_out x); [by right|done]. Qed.

(** Unsharing buffers: those the device may write get what it wrote. *)
Lemma unshared_by_view segs : ∀ (w w' : W) rest, Forall seg_ok segs →
  disjoint_all (seg_slice <$> outs segs) → (∀ s, s ∈ outs segs → length (view w s) = Z.to_nat (s_len s.1.2)) →
  held w ≡ₚ (Share <$> segs) ++ rest → unshared_by segs w w' →
  (∀ x, own x → (∀ s, s ∈ outs segs → ¬ in_slice s.1.2 x) → byte_at w' x = byte_at w x) ∧
  (∀ s, s ∈ outs segs → bytes_of w' s.1.2 = view w s).
Proof.
  induction segs as [|[[pa b] d] segs IH]; intros w w' rest Hok Hd Hl Hp Hs.
  { simpl in Hs. subst. split; [done|]. intros s Hs. by apply not_elem_of_nil in Hs. }
  destruct Hs as (w1 & E & Hs). apply Forall_cons in Hok as [(Hlen & _ & Ho) Hok]. simpl in Hlen, Ho.
  rewrite fmap_cons in Hp. simpl in Hp. destruct (unshare_own pa b d w _ w1 Hp (or_introl Ho) E) as [M V].
  assert (∀ s, s ∈ outs segs → view w1 s = view w s ∧ s ∈ outs ((pa, b, d) :: segs)) as Hv.
  { intros s Hin. split; [|by apply outs_tail].
    apply V, elem_of_app. left. apply list_elem_of_fmap. exists s. split; [done|].
    by apply list_elem_of_filter in Hin as [_ ?]. }
  destruct (unshare_spec pa b d w _ ltac:(lia) Hp) as (w1' & E' & Hp1). rewrite E in E'. injection E' as <-.
  destruct (IH w1 w' rest Hok) as [M' B']; [| |done|done|].
  { rewrite outs_cons in Hd. destruct (seg_out _); [by destruct Hd|done]. }
  { intros s Hin. destruct (Hv s Hin) as [-> ?]. by apply Hl. }
  split.
  - intros x Hx Hn. rewrite M', M by (try done; intros s Hin; by apply Hn, Hv).
    rewrite decide_False; [done|]. intros [-> Hin]. apply (Hn (pa, b, DeviceToDriver)); [|done].
    rewrite outs_cons. by left.
  - rewrite outs_cons in *. destruct (seg_out _) eqn:Hout; [|intros s Hin; rewrite B' by done; by apply Hv].
    destruct Hd as [Hd _]. intros s [->|Hin]%elem_of_cons; [|rewrite B' by done; by apply Hv].
    simpl. assert (d = DeviceToDriver) as -> by (by destruct d). rewrite Forall_fmap, Forall_forall in Hd.
    rewrite (bytes_of_ext w1).
    + apply bytes_of_eq; [apply (Hl (pa, b, DeviceToDriver)); by left|]. intros x Hx.
      rewrite M by auto. by rewrite decide_True.
    + intros x Hx. apply M'; [by apply Ho|]. intros s Hin Hx'. by apply (Hd s Hin x).
Qed.

(** Unsharing buffers leaves the others as the device sees them. *)
Lemma unshared_by_rest segs : ∀ (w w' : W) rest, Forall seg_ok segs → held w ≡ₚ (Share <$> segs) ++ rest →
  unshared_by segs w w' → held w' ≡ₚ rest ∧ ∀ s, Share s ∈ rest → view w' s = view w s.
Proof.
  induction segs as [|[[pa b] d] segs IH]; intros w w' rest Hok Hp Hs; [simpl in Hs; by subst|].
  destruct Hs as (w1 & E & Hs). apply Forall_cons in Hok as [(Hl & _ & Ho) Hok]. simpl in Hl, Ho.
  rewrite fmap_cons in Hp. simpl in Hp. destruct (unshare_own pa b d w _ w1 Hp (or_introl Ho) E) as [_ V].
  destruct (unshare_spec pa b d w _ ltac:(lia) Hp) as (w1' & E' & Hp1). rewrite E in E'. injection E' as <-.
  destruct (IH w1 w' rest Hok Hp1 Hs) as [Hr V']. split; [done|]. intros s Hin. rewrite V' by done.
  apply V, elem_of_app. by right.
Qed.

(** A buffer that the device may write, after it is unshared. *)
Lemma unshare_bytes pa b (w : W) l w' : held w ≡ₚ Share (pa, b, DeviceToDriver) :: l →
  mine w b → unshare pa b DeviceToDriver w = (Val tt, w') →
  bytes_of w' b = (λ i, default 0 (view w (pa, b, DeviceToDriver) !! Z.to_nat i)) <$> seqZ 0 (s_len b) ∧
  (∀ x, own x → ¬ in_slice b x → byte_at w' x = byte_at w x).
Proof.
  intros Hp Hm E. destruct (unshare_view pa b DeviceToDriver w l w' Hp Hm E) as [M _]. split.
  - apply list_eq. intros i. unfold bytes_of. rewrite !list_lookup_fmap.
    destruct (decide (Z.of_nat i < s_len b)) as [Hi|Hi]; [|by rewrite !lookup_seqZ_ge by lia].
    rewrite !lookup_seqZ_lt by lia. simpl. f_equal.
    assert (in_slice b (s_ptr b + Z.of_nat i)) as Hin by (unfold in_slice; lia).
    rewrite M by (by right). rewrite decide_True by done. do 2 f_equal. lia.
  - intros x Hx Hn. rewrite M by (by left). by rewrite decide_False by naive_solver.
Qed.

(** ** Requests in memory *)

(** What the device reads of request [r] with token [h]: its chain in the descriptor table, or
    one descriptor that points to the list of its descriptors in shared memory. *)
Definition posted (table : list Descriptor) (w : W) (h : Z) (r : Req) : Prop :=
  match r with
  | Direct c segs => head c = Some h ∧ chain_segs table c segs
  | Indirect _ pa il segs =>
      (∃ nx, index table h = Some (mkDescriptor pa (s_len (list_slice il)) DescFlags.INDIRECT nx)) ∧
      length (il_descs il) = length segs ∧
      decode_descriptors (length segs) (view w (pa, list_slice il, DriverToDevice)) = Some (indirect_table 0 segs)
  end.

Lemma segs_held r s : s ∈ req_segs r → Share s ∈ req_held r.
Proof. intros Hs. destruct r; simpl; [|do 2 right]; by apply list_elem_of_fmap_2. Qed.

Lemma posted_view table (w w' : W) h r :
  (∀ s, Share s ∈ req_held r → view w' s = view w s) → posted table w h r → posted table w' h r.
Proof. intros Hv. destruct r as [c segs|? pa il segs]; [done|]. simpl. rewrite Hv; [done|]. simpl. set_solver. Qed.

Lemma indirect_table_fits segs : ∀ i, Forall seg_ok segs → Forall (λ s, fits 64 s.1.1) segs →
  Forall descriptor_fits (indirect_table i segs).
Proof.
  induction segs as [|[[pa b] d] segs IH]; intros i Hok Hf; [constructor|].
  apply Forall_cons in Hok as [(Hl & _) Hok]. apply Forall_cons in Hf as [Hpa Hf]. simpl in Hl, Hpa.
  constructor; [|by apply IH]. split_and!; simpl; [done|unfold fits; lia| |apply wrap_fits; lia].
  by destruct d, segs.
Qed.

Lemma list_slice_bytes il : list_slice il =
  mkSlice (il_ptr il) (Z.of_nat (length (descriptors_as_bytes (il_descs il)))).
Proof. unfold list_slice. rewrite descriptors_as_bytes_length. f_equal. unfold DESCRIPTOR_SIZE. lia. Qed.

(** A request as [add] lays it out. *)
Definition laid_out (r : Req) : Prop :=
  req_segs r ≠ [] ∧ match r with Direct _ _ => True | Indirect _ _ il segs => il_descs il = indirect_table 0 segs end.

(** The device reads the descriptors of an indirect list, which is not memory of the program. *)
Definition list_seen (w : W) (r : Req) : Prop :=
  match r with
  | Direct _ _ => True
  | Indirect _ pa il segs => (∀ x, in_slice (list_slice il) x → ¬ own x) ∧
      decode_descriptors (length segs) (view w (pa, list_slice il, DriverToDevice)) = Some (indirect_table 0 segs)
  end.

Lemma list_seen_view (w w' : W) r :
  (∀ s, Share s ∈ req_held r → (s ∈ req_segs r ∨ ∀ x, in_slice s.1.2 x → ¬ own x) → view w' s = view w s) →
  list_seen w r → list_seen w' r.
Proof.
  intros Hv. destruct r as [c segs|? pa il segs]; [done|]. intros [Hn Hl]. split; [done|].
  rewrite Hv; [done|simpl; set_solver|by right].
Qed.

(** What sharing a request does: the device sees the contents of the buffers it may read, and the
    indirect list. *)
Record handed_over (r : Req) (w w' : W) : Prop := {
  ho_held : held w' ≡ₚ req_held r ++ held w;
  ho_own : ∀ x, own x → byte_at w' x = byte_at w x;
  ho_view : ∀ s, Share s ∈ held w → mine w s.1.2 → view w' s = view w s;
  ho_ins : ∀ s, s ∈ req_segs r → s.2 = DriverToDevice → view w' s = bytes_of w s.1.2;
  ho_list : list_seen w' r
}.

Lemma direct_handed c segs (w w' : W) : Forall seg_ok segs → shared_by segs w w' →
  handed_over (Direct c segs) w w'.
Proof. intros Hok Hs. destruct (shared_by_view segs w w' Hok Hs) as (? & ? & ? & ? & _). by split; auto. Qed.

Lemma indirect_handed h pa il segs (w w' : W) : Forall seg_ok segs → laid_out (Indirect h pa il segs) →
  req_shared (Indirect h pa il segs) w w' → handed_over (Indirect h pa il segs) w w'.
Proof.
  intros Hok [Hne Hil] (w1 & w2 & w3 & E1 & Hs & E3 & E4). simpl in Hne, Hil.
  pose proof (list_slice_bytes il) as Hb. set (b := list_slice il) in *.
  assert (0 < s_len b) as Hlb.
  { unfold b, list_slice. rewrite Hil, length_indirect_table. destruct segs; [done|]. unfold DESCRIPTOR_SIZE. simpl. lia. }
  destruct (box_new_spec (s_len b) w) as (p & w1' & _ & E1' & P1). rewrite E1 in E1'. injection E1' as <- <-.
  destruct (box_new_view _ _ _ _ E1) as (N1 & N2 & N3 & N4). change (mkSlice (il_ptr il) (s_len b)) with b in *.
  destruct (shared_by_view segs w1 w2 Hok Hs) as (P2 & M2 & V2 & I2 & F2).
  assert (Boxed (il_ptr il) (s_len b) ∈ held w2) as Hbx by (rewrite P2, P1; set_solver).
  rewrite Hb in Hbx. cbn [s_len] in Hbx.
  destruct (box_write_spec _ _ _ Hbx) as (w3' & E3' & P3). rewrite E3 in E3'. injection E3' as <-.
  destruct (box_write_view _ _ _ _ Hbx E3) as (B3 & M3 & V3). rewrite <- Hb in B3, M3, V3.
  destruct (share_spec b DriverToDevice w3) as (pa' & w4 & E4' & P4); [lia|done|].
  rewrite E4 in E4'. injection E4' as <- <-.
  destruct (share_view b DriverToDevice w3 pa w') as (V4 & M4 & K4); [lia|done| |done|].
  { right. rewrite P3. rewrite Hb. done. }
  rewrite Forall_forall in Hok.
  assert (∀ s, Share s ∈ held w1 → disjoint s.1.2 b → view w' s = view w1 s) as Hold.
  { intros s Hs1 Hd. rewrite K4, V3, V2; try done; rewrite ?P3, P2; set_solver. }
  split.
  - rewrite P4, P3, P2, P1. simpl. solve_Permutation.
  - intros x Hx. rewrite M4, M3, M2, N3; try done. intros Hin. by apply (N1 x).
  - intros s Hin Hm. rewrite Hold; [by apply N4|rewrite P1; set_solver|].
    destruct Hm as [Hm|Hm]; [intros x X1 X2; by apply (N1 x X2), Hm|]. destruct s as [[? [? ?]] ?]. by apply N2.
  - intros s Hin Hd. simpl in Hin. destruct (Hok s Hin) as (_ & _ & Ho).
    rewrite K4, V3, I2; try done; rewrite ?P3, ?P2.
    + apply bytes_of_ext. intros x Hx. by apply N3, Ho.
    + apply elem_of_app. left. by apply list_elem_of_fmap_2.
    + intros x X1 X2. by apply (N1 x X2), Ho.
    + apply elem_of_app. left. by apply list_elem_of_fmap_2.
  - split; [done|]. change (list_slice il) with b. rewrite V4, B3, Hil by done. rewrite <- (length_indirect_table 0 segs) at 1. apply decode_descriptors_bytes.
    apply indirect_table_fits; [by apply Forall_forall|done].
Qed.

Lemma req_handed r (w w' : W) : Forall seg_ok (req_segs r) → laid_out r → req_shared r w w' → handed_over r w w'.
Proof. destruct r; intros Hok Hl Hs; [by apply direct_handed|by apply indirect_handed]. Qed.

(** [r] is in the descriptor table. *)
Definition placed (table : list Descriptor) (h : Z) (r : Req) : Prop :=
  match r with
  | Direct c segs => head c = Some h ∧ chain_segs table c segs
  | Indirect h' pa il segs => h' = h ∧ il_descs il = indirect_table 0 segs ∧
      ∃ nx, index table h = Some (mkDescriptor pa (s_len (list_slice il)) DescFlags.INDIRECT nx)
  end.

Lemma req_in_placed table lists h r : req_in table lists h r → placed table h r.
Proof. destruct r; [done|]. intros (? & _ & ? & ?). done. Qed.

Lemma placed_agree table table' h r : (∀ i, i ∈ req_chain r → index table' i = index table i) →
  placed table h r → placed table' h r.
Proof.
  intros E. destruct r as [c segs|h' pa il segs]; simpl.
  - intros [Hh Hc]. split; [done|]. by apply (chain_segs_agree table).
  - intros (-> & Hil & nx & Hd). split_and!; try done. exists nx. rewrite E; [done|]. by left.
Qed.

Lemma placed_posted table (w : W) h r : placed table h r → list_seen w r → posted table w h r.
Proof.
  destruct r as [c segs|? pa il segs]; [done|]. intros (_ & Hil & Hd) [_ Hl].
  split_and!; [done|by rewrite Hil, length_indirect_table|done].
Qed.

(** What taking a request back does. *)
Record taken_back (r : Req) (w w' : W) (rest : list Res) : Prop := {
  tb_held : held w' ≡ₚ rest;
  tb_view : ∀ s, Share s ∈ rest → view w' s = view w s;
  tb_own : ∀ x, own x → (∀ s, s ∈ outs (req_segs r) → ¬ in_slice s.1.2 x) → byte_at w' x = byte_at w x;
  tb_outs : ∀ s, s ∈ outs (req_segs r) → bytes_of w' s.1.2 = view w s
}.

Lemma req_taken r (w w' : W) rest : Forall seg_ok (req_segs r) → laid_out r →
  disjoint_all (seg_slice <$> outs (req_segs r)) →
  (∀ s, s ∈ outs (req_segs r) → length (view w s) = Z.to_nat (s_len s.1.2)) →
  held w ≡ₚ req_held r ++ rest → req_unshared r w w' → taken_back r w w' rest.
Proof.
  intros Hok [Hne Hil] Hd Hl Hp Hu. destruct r as [c segs|? pa il segs];
    cbn [req_segs req_held req_unshared] in *.
  { destruct (unshared_by_view segs w w' rest), (unshared_by_rest segs w w' rest); try done. }
  destruct Hu as (w1 & w2 & E1 & Hs & E3). set (b := list_slice il) in *.
  set (bx := Boxed (il_ptr il) (s_len b)) in *.
  assert (s_len b ≠ 0) as Hlb.
  { unfold b, list_slice. rewrite Hil, length_indirect_table. destruct segs; [done|]. unfold DESCRIPTOR_SIZE. simpl. lia. }
  assert (held w ≡ₚ Share (pa, b, DriverToDevice) :: (Share <$> segs) ++ bx :: rest) as Hp'
    by (rewrite Hp; solve_Permutation).
  destruct (unshare_spec pa b DriverToDevice w _ Hlb Hp') as (w1' & E1' & P1). rewrite E1 in E1'. injection E1' as <-.
  destruct (unshare_own pa b DriverToDevice w _ w1 Hp') as [M1 V1]; [right; rewrite Hp; left|done|].
  assert (∀ s, s ∈ outs segs → view w1 s = view w s) as Hv.
  { intros s [_ Hin]%list_elem_of_filter. apply V1, elem_of_app. left. by apply list_elem_of_fmap_2. }
  destruct (unshared_by_view segs w1 w2 (bx :: rest)) as [M2 B2]; try done.
  { intros s Hin. rewrite Hv by done. by apply Hl. }
  destruct (unshared_by_rest segs w1 w2 (bx :: rest)) as [P2 V2]; try done.
  destruct (box_drop_spec _ _ _ _ P2) as (w3 & E3' & P3). rewrite E3 in E3'. injection E3' as <-.
  destruct (box_drop_view _ _ _ _ _ P2 E3) as [M3 V3]. rewrite Forall_forall in Hok.
  split; cbn [req_segs]; try done.
  - intros s Hin. rewrite V3, V2, V1; try done; set_solver.
  - intros x Hx Hn. rewrite M3, M2, M1 by done. by rewrite decide_False by naive_solver.
  - intros s Hin. rewrite <- Hv, <- B2 by done. apply bytes_of_ext. intros x Hx. apply M3.
    apply list_elem_of_filter in Hin as [_ Hin]. by apply (Hok s Hin).
Qed.
End calls.

(** The local variables of a function: they are disjoint, in [frame], the part of the program's
    memory that its callers leave free for it, and hold their values; the frame of a function has
    less than 2^33 bytes. *)
Class StackSpec (W : Type) `{DmaSpec W} `{Stack W} := {
  frame : Z → Prop;
  frame_own : ∀ x, frame x → own x;
  stack_slots_spec : ∀ vars (w : W), Z.of_nat (length (mjoin vars)) < 2 ^ 33 → ∃ bs w', stack_slots vars w = (Val bs, w') ∧
    s_len <$> bs = Z.of_nat ∘ length <$> vars ∧ bytes_of w' <$> bs = vars ∧ disjoint_all bs ∧
    (∀ b x, b ∈ bs → in_slice b x → frame x) ∧ held w' ≡ₚ held w ∧
    (∀ x, own x → ¬ frame x → byte_at w' x = byte_at w x)
}.

(** ** The device *)

(** A device that speaks a protocol on queue [idx] within [N] steps: [serve] is what it makes of
    the contents of the buffers it may read, given the lengths of those it may write. *)
Class Server (SIZE : Z) (N : nat) (idx : Z) (T W D : Type) `{StackSpec W} `{Device W} `{Transport T W} := {
  dstate : W → D;
  serve : D → list (list Z) → list Z → D * list (list Z) * Z;
  serve_lengths : ∀ d rs ls, length <$> (serve d rs ls).1.2 = Z.to_nat <$> ls;
  tok : T → Prop;
  notify_quiet : ∀ t (w : W), tok t → ∃ t' w', notify idx (t, w) = (Val tt, (t', w')) ∧ tok t' ∧
    held w' ≡ₚ held w ∧ dstate w' = dstate w ∧ (∀ x, own x → byte_at w' x = byte_at w x) ∧
    (∀ s, Share s ∈ held w → view w' s = view w s);
  hal_quiet : ∀ b d pa (w : W),
    (∀ x w', share b d w = (x, w') → dstate w' = dstate w) ∧
    (∀ x w', unshare pa b d w = (x, w') → dstate w' = dstate w);
  box_quiet : ∀ p n l (w : W),
    (∀ x w', box_new n w = (x, w') → dstate w' = dstate w) ∧
    (∀ x w', box_write p l w = (x, w') → dstate w' = dstate w) ∧
    (∀ x w', box_drop p n w = (x, w') → dstate w' = dstate w);
  write_quiet : ∀ a l (w : W) x w', mem_write a l w = (x, w') → dstate w' = dstate w ∧ held w' ≡ₚ held w;
  stack_quiet : ∀ vars (w : W) x w', stack_slots vars w = (x, w') → dstate w' = dstate w;
  answers : ∀ sh (w : W) h r, let segs := req_segs r in shared_ok SIZE sh → 0 ≤ h < SIZE →
    posted (sh_desc sh) w h r → segs ≠ [] → Z.of_nat (length segs) ≤ SIZE →
    Forall seg_ok segs → (∀ s, Share s ∈ req_held r → Share s ∈ held w) → disjoint_all (seg_slice <$> outs segs) →
    av_idx (sh_avail sh) = wrapping_add 16 (us_idx (sh_used sh)) 1 →
    index (av_ring (sh_avail sh)) (us_idx (sh_used sh) mod SIZE) = Some h →
    ∃ n, (n ≤ N)%nat ∧
    (∀ m, (m < n)%nat → us_idx (sh_used (device_steps idx m sh w).1) = us_idx (sh_used sh)) ∧
    let '(sh', w') := device_steps idx n sh w in
    let '(d', written, len) :=
      serve (dstate w) (view w <$> ins segs) (s_len <$> (seg_slice <$> outs segs)) in
    us_idx (sh_used sh') = wrapping_add 16 (us_idx (sh_used sh)) 1 ∧
    index (us_ring (sh_used sh')) (us_idx (sh_used sh) mod SIZE) = Some (mkUsedElem h len) ∧
    shared_ok SIZE sh' ∧ held w' ≡ₚ held w ∧ dstate w' = d' ∧ view w' <$> outs segs = written ∧
    (∀ x, own x → (∀ s, s ∈ outs segs → ¬ in_slice s.1.2 x) → byte_at w' x = byte_at w x)
}.

Section serve.
Context {SIZE : Z} {N : nat} {idx : Z} {T W D : Type} `{Server SIZE N idx T W D} `{Profile}.
Context (HS : SIZE_OK SIZE = true).

(** Buffers that [add] accepts, in memory of the program, with the writable ones disjoint. *)
Definition buffers_ok (inputs outputs : list Slice) : Prop :=
  Forall item_ok (io_items inputs outputs) ∧ (1 ≤ length (inputs ++ outputs))%nat ∧
  Z.of_nat (length (inputs ++ outputs)) ≤ SIZE ∧ disjoint_all outputs ∧
  ∀ b x, b ∈ inputs ++ outputs → in_slice b x → own x.

Lemma io_item_dir inputs outputs b d : (b, d) ∈ io_items inputs outputs →
  b ∈ inputs ++ outputs ∧ d ≠ Both.
Proof.
  rewrite io_items_eq. rewrite elem_of_app, !list_elem_of_fmap.
  intros [(x & [= -> ->] & Hx)|(x & [= -> ->] & Hx)]; split; try done; set_solver.
Qed.

(** The segments of a request, split by direction, are its inputs and its outputs. *)
Lemma ins_cons s segs : ins (s :: segs) = if seg_out s then ins segs else s :: ins segs.
Proof. unfold ins. rewrite filter_cons. destruct (seg_out s) eqn:E; by case_decide. Qed.

Lemma segs_views segs inputs outputs : seg_item <$> segs = io_items inputs outputs →
  seg_slice <$> ins segs = inputs ∧ seg_slice <$> outs segs = outputs.
Proof.
  rewrite io_items_eq. revert inputs.
  assert (∀ segs, seg_item <$> segs = ((λ b, (b, DeviceToDriver)) <$> outputs) →
    ins segs = [] ∧ seg_slice <$> outs segs = outputs) as Hout.
  { clear segs. induction outputs as [|o outputs IH]; intros [|[[pa b] d] segs] E; try done.
    rewrite !fmap_cons in E. injection E as -> -> E. rewrite ins_cons, outs_cons. simpl. destruct (IH segs E) as [-> <-]. done. }
  intros inputs. revert segs. induction inputs as [|i inputs IH]; intros segs E.
  { simpl in E. destruct (Hout segs E) as [-> ->]. done. }
  destruct segs as [|[[pa b] d] segs]; [done|]. rewrite !fmap_cons in E. simpl in E.
  injection E as -> -> E. rewrite ins_cons, outs_cons. simpl. destruct (IH segs E) as [<- <-]. done.
Qed.

Lemma segs_ok segs inputs outputs : buffers_ok inputs outputs →
  seg_item <$> segs = io_items inputs outputs → Forall seg_ok segs.
Proof.
  intros (Hok & _ & _ & _ & Hown) E. apply Forall_forall. intros [[pa b] d] Hs.
  assert ((b, d) ∈ io_items inputs outputs) as Hin.
  { rewrite <- E. apply list_elem_of_fmap. by exists (pa, b, d). }
  rewrite Forall_forall in Hok. destruct (Hok _ Hin) as (Hl & Hf & Hb). unfold fits in Hf. simpl in Hl, Hf. split_and!; simpl; [lia|lia|done|].
  intros x Hx. apply (Hown b); [|done]. by apply io_item_dir in Hin as [? _].
Qed.

Lemma calls_dstate segs (w w' : W) :
  (shared_by segs w w' → dstate w' = dstate w) ∧ (unshared_by segs w w' → dstate w' = dstate w).
Proof.
  revert w. induction segs as [|[[pa b] d] segs IH]; intros w.
  { by split; intros ->. }
  split; intros (w1 & E & Hs); destruct (hal_quiet b d pa w) as [Q1 Q2], (IH w1) as [I1 I2].
  - rewrite I1 by done. by eapply Q1.
  - rewrite I2 by done. by eapply Q2.
Qed.

Lemma req_dstate r (w w' : W) :
  (req_shared r w w' → dstate w' = dstate w) ∧ (req_unshared r w w' → dstate w' = dstate w).
Proof.
  destruct r as [c segs|? pa il segs]; [apply calls_dstate|]. set (b := list_slice il).
  split; [intros (w1 & w2 & w3 & E1 & Hs & E2 & E3)|intros (w1 & w2 & E1 & Hs & E2)].
  - rewrite (proj1 (hal_quiet b DriverToDevice pa w3) _ _ E3),
      (proj1 (proj2 (box_quiet (il_ptr il) 0 _ w2)) _ _ E2), (proj1 (calls_dstate segs w1 w2) Hs).
    by apply (box_quiet 0 (s_len b) [] w) in E1.
  - rewrite (proj2 (proj2 (box_quiet (il_ptr il) _ [] w2)) _ _ E2), (proj2 (calls_dstate segs w1 w2) Hs).
    by apply (hal_quiet b DriverToDevice pa w) in E1.
Qed.

Lemma req_laid_out table lists h r : req_in table lists h r → req_items r ≠ [] → laid_out r.
Proof. intros Hr Hn. split; [by destruct (req_segs r) eqn:E; [unfold req_items in Hn; rewrite E in Hn|]|]. by destruct r; [|apply Hr]. Qed.

Lemma idle_held (q : VirtQueue) (w w' : W) rest : held w' ≡ₚ held w → idle SIZE q w rest → idle SIZE q w' rest.
Proof. intros Hp [[fl I] ? ?]. split; try done. exists fl. by apply (inv_world _ _ w). Qed.

Lemma buffers_add inputs outputs (ind : bool) : buffers_ok inputs outputs →
  spec_add_error SIZE ind ∅ (io_items inputs outputs) = None.
Proof.
  intros (_ & Hn & Hs & _). rewrite length_app in Hn, Hs. unfold spec_add_error.
  assert (Z.of_nat (slots ind (io_items inputs outputs)) ≤ SIZE) as Hsl
    by (unfold slots; rewrite length_io_items; case_match; lia).
  rewrite io_items_nil, length_io_items.
  assert (bool_decide (inputs = []) && bool_decide (outputs = []) = false) as ->.
  { destruct inputs, outputs; simpl in *; try done; lia. }
  change (used_slots ind ∅) with 0. by rewrite Z.add_0_l, !(proj2 (Z.ltb_ge SIZE _)) by lia.
Qed.

(** What the caller of a blocking request sees of the protocol: the device's new state, the
    contents of the outputs and the length it gave. *)
Definition answered (w : W) (inputs outputs : list Slice) (w' : W) (len : Z) : Prop :=
  serve (dstate w) (bytes_of w <$> inputs) (s_len <$> outputs) =
    (dstate w', bytes_of w' <$> outputs, len) ∧
  ∀ x, own x → (∀ b, b ∈ outputs → ¬ in_slice b x) → byte_at w' x = byte_at w x.

Lemma ins_views (w w0 : W) segs : Forall seg_ok segs →
  (∀ s, s ∈ segs → s.2 = DriverToDevice → view w s = bytes_of w0 s.1.2) →
  view w <$> ins segs = bytes_of w0 <$> (seg_slice <$> ins segs).
Proof.
  intros Hok Hv. rewrite <- list_fmap_compose. apply list_fmap_ext. intros i s Hs.
  apply list_elem_of_lookup_2, list_elem_of_filter in Hs as [Hout Hs]. apply Hv; [done|].
  rewrite Forall_forall in Hok. destruct (Hok s Hs) as (_ & Hb & _). by destruct s as [[] []].
Qed.

Lemma answered_intro (w0 w1 w' : W) r rest inputs written len : let segs := req_segs r in
  Forall seg_ok segs → laid_out r → disjoint_all (seg_slice <$> outs segs) → held w1 ≡ₚ req_held r ++ rest →
  req_unshared r w1 w' → view w1 <$> outs segs = written →
  serve (dstate w0) (bytes_of w0 <$> inputs) (s_len <$> (seg_slice <$> outs segs)) =
    (dstate w1, written, len) →
  (∀ x, own x → (∀ s, s ∈ outs segs → ¬ in_slice s.1.2 x) → byte_at w1 x = byte_at w0 x) →
  answered w0 inputs (seg_slice <$> outs segs) w' len.
Proof.
  intros segs Hok Hlo Hd Hp Hcalls <- Es Hmem.
  assert (∀ s, s ∈ outs segs → length (view w1 s) = Z.to_nat (s_len s.1.2)) as Hl.
  { intros s [i Hi]%list_elem_of_lookup_1.
    pose proof (serve_lengths (dstate w0) (bytes_of w0 <$> inputs) (s_len <$> (seg_slice <$> outs segs))) as L.
    rewrite Es in L. simpl in L. apply (f_equal (lookup i)) in L.
    rewrite !list_lookup_fmap, Hi in L. simpl in L. by injection L. }
  destruct (req_taken r w1 w' rest Hok Hlo Hd Hl Hp Hcalls) as [_ _ M B]. fold segs in M, B. split.
  - rewrite Es, (proj2 (req_dstate r w1 w')) by done. f_equal. f_equal.
    rewrite <- list_fmap_compose. apply list_fmap_ext. intros i s Hs. symmetry. apply B.
    by eapply list_elem_of_lookup_2.
  - intros x Hx Hn. assert (∀ s, s ∈ outs segs → ¬ in_slice s.1.2 x) as Hn'.
    { intros s Hs. apply Hn, list_elem_of_fmap. by exists s. }
    by rewrite M, Hmem.
Qed.

(** The device answers the request that is published, and popping it delivers the answer. *)
Lemma answer_run fuel q (w0 w : W) h r rest inputs outputs :
  (N < fuel)%nat → queue_idx q = idx → buffers_ok inputs outputs →
  waiting SIZE q w h r rest → laid_out r → posted (desc q) w h r →
  req_items r = io_items inputs outputs →
  dstate w = dstate w0 → (∀ x, own x → byte_at w x = byte_at w0 x) →
  (∀ s, s ∈ req_segs r → s.2 = DriverToDevice → view w s = bytes_of w0 s.1.2) →
  ∃ len q1 w1 q' w', wait_can_pop fuel (q, w) = (Val tt, (q1, w1)) ∧
    pop_used SIZE h inputs outputs (q1, w1) = (Val (Ok len), (q', w')) ∧ idle SIZE q' w' rest ∧
    indirect q' = indirect q ∧ queue_idx q' = queue_idx q ∧ answered w0 inputs outputs w' len.
Proof.
  intros Hfuel Hidx Hb [[fl I] Hu Ha Hi Hs] Hlo Hpo Hit Hds Hmem Hview. set (segs := req_segs r) in *.
  pose proof (segs_ok segs inputs outputs Hb Hit) as Hok. destruct (segs_views segs _ _ Hit) as [Ein Eout].
  assert (0 ≤ h < SIZE) as Hh by (by apply (inv_token SIZE I h r), lookup_singleton_eq).
  assert (held w ≡ₚ req_held r ++ rest) as Hheld.
  { rewrite (inv_held _ _ _ _ _ _ I). unfold live_held. rewrite map_to_list_singleton. simpl.
    by rewrite app_nil_r. }
  destruct (answers (shared q) w h r) as (n & Hn & Hm & Hdone); try done.
  { apply I. }
  { apply Hlo. }
  { rewrite <- (length_fmap seg_item). fold (req_items r). rewrite Hit, length_io_items, <- length_app. apply Hb. }
  { intros s Hin. rewrite Hheld, elem_of_app. by left. }
  { fold segs. rewrite Eout. apply Hb. } { by etrans; [exact Hi|]. }
  pose proof (wait_run n fuel q w) as Hwait. rewrite Hidx in Hwait. fold segs in Hdone.
  rewrite (ins_views w w0 segs), Ein, Eout, Hds in Hdone by done.
  destruct (device_steps idx n (shared q) w) as [sh1 w1].
  destruct (serve (dstate w0) (bytes_of w0 <$> inputs) (s_len <$> outputs)) as [[d' written] len] eqn:Es.
  destruct Hdone as (D1 & D2 & D3 & D4 & D5 & D6 & D7). simpl in Hwait.
  destruct (pop_only_run SIZE HS (set_shared sh1 q) w1 fl rest h r len inputs outputs)
    as (q' & w' & Hpop & Hidle & Hind & Hqi & Hcalls); try done.
  { apply (inv_world _ _ w); [|done]. destruct I. by split. }
  { etrans; [exact D1|]. simpl. by rewrite Hu. }
  { simpl. by rewrite Hu. }
  { simpl. rewrite Ha. symmetry. exact D1. }
  exists len, (set_shared sh1 q), w1, q', w'. split_and!; try done.
  { apply Hwait; [lia| |rewrite D1, Hu; by apply wrap_succ_ne]. intros m Hmn. rewrite Hu. by apply Hm. }
  rewrite <- Eout. apply (answered_intro w0 w1 w' r rest inputs written len); try done; fold segs.
  - rewrite Eout. apply Hb.
  - by rewrite D4.
  - by rewrite Eout, Es, D5.
  - intros x Hx Hn'. by rewrite D7, Hmem.
Qed.

(** A blocking request on an idle queue: it returns the length the device gave, with the device's
    answer to the inputs in the outputs and no other memory changed; the queue is idle again. *)
Lemma serve_run fuel q t (w : W) rest inputs outputs :
  (N < fuel)%nat → queue_idx q = idx → tok t → idle SIZE q w rest → buffers_ok inputs outputs →
  ∃ len q' t' w',
    add_notify_wait_pop SIZE fuel inputs outputs (q, (t, w)) = (Val (Ok len), (q', (t', w'))) ∧
    idle SIZE q' w' rest ∧ tok t' ∧ indirect q' = indirect q ∧ queue_idx q' = idx ∧
    answered w inputs outputs w' len.
Proof.
  intros Hfuel Hidx Ht Hid Hb.
  destruct (add_idle_run SIZE HS q w rest inputs outputs)
    as (h & r & q1 & w1 & Hadd & Hit & Hwt & Hqi & Hin1 & Hri & Hdir & Hcalls);
    [done|apply Hb|by apply buffers_add|].
  assert (laid_out r) as Hlo.
  { apply (req_laid_out _ _ _ _ Hri). rewrite Hit, io_items_eq. destruct Hb as (_ & Hb & _). by destruct inputs, outputs. }
  pose proof (req_handed r w w1 (segs_ok (req_segs r) inputs outputs Hb Hit) Hlo Hcalls) as Hho.
  pose proof (placed_posted _ w1 h r (req_in_placed _ _ _ _ Hri) (ho_list _ _ _ Hho)) as Hpo. destruct Hho as [Hp1 M1 _ V1 _].
  assert (∃ t2 w2, (if should_notify q1 then on_snd (notify (queue_idx q1)) else mret tt) (q1, (t, w1)) =
    (Val tt, (q1, (t2, w2))) ∧ tok t2 ∧ held w2 ≡ₚ held w1 ∧ dstate w2 = dstate w1 ∧
    (∀ x, own x → byte_at w2 x = byte_at w1 x) ∧ (∀ s, Share s ∈ held w1 → view w2 s = view w1 s))
    as (t2 & w2 & Hn & Ht2 & Hp2 & Hd2 & M2 & V2).
  { destruct (should_notify q1); [|by exists t, w1]. rewrite Hqi, Hidx.
    destruct (notify_quiet t w1 Ht) as (t2 & w2 & E & R). exists t2, w2. split; [by apply on_snd_val|done]. }
  destruct (answer_run fuel q1 w w2 h r rest inputs outputs)
    as (len & q3 & w3 & q' & w' & Hwait & Hpop & Hidle & Hin & Hqi' & Hans); try done.
  { by rewrite Hqi. }
  { destruct Hwt as [[fl I] ? ? ? ?]. split; try done. exists fl. by apply (inv_world _ _ w1). }
  { apply (posted_view _ w1); [|done]. intros s Hs. apply V2. rewrite Hp1, elem_of_app. by left. }
  { rewrite Hd2. by apply (proj1 (req_dstate r w w1)). }
  { intros x Hx. by rewrite M2, M1. }
  { intros s Hs Hsd. rewrite V2, V1; [done..|]. rewrite Hp1, elem_of_app. left.
    by apply segs_held. }
  exists len, q', t2, w'. split; [|split_and!; congruence || done]. unfold add_notify_wait_pop.
  erewrite try_ok by (apply zoom_val; exact Hadd). mstep. cbn.
  erewrite bind_val by (apply zoom_val; exact Hwait). cbn.
  etrans; [apply zoom_val; exact Hpop|done].
Qed.

(** ** Requests with local variables *)

(** A buffer the caller passes. *)
Definition user_buffer (b : Slice) : Prop :=
  0 < s_len b < 2 ^ 32 ∧ ∀ x, in_slice b x → own x ∧ ¬ frame x.

Lemma disjoint_app bs cs : disjoint_all bs → disjoint_all cs →
  (∀ b c, b ∈ bs → c ∈ cs → disjoint b c) → disjoint_all (bs ++ cs).
Proof.
  induction bs as [|b bs IH]; intros Hb Hc Hd; [done|]. destruct Hb as [Hb Hbs]. split.
  - apply Forall_app. split; [done|]. apply Forall_forall. intros c Hin. apply Hd; [by left|done].
  - apply IH; [done..|]. intros; apply Hd; [by right|done].
Qed.

Lemma buffers_ok_intro (ins_ outs_ : list Slice) :
  Forall (λ b, 0 < s_len b < 2 ^ 32) (ins_ ++ outs_) → ins_ ++ outs_ ≠ [] →
  Z.of_nat (length (ins_ ++ outs_)) ≤ SIZE → disjoint_all outs_ →
  (∀ b x, b ∈ ins_ ++ outs_ → in_slice b x → own x) → buffers_ok ins_ outs_.
Proof.
  intros Hl Hne Hn Hd Ho. split_and!; try done.
  - apply Forall_forall. intros [b d] Hin. apply io_item_dir in Hin as [Hin Hb].
    rewrite Forall_forall in Hl. specialize (Hl b Hin). split_and!; simpl; [lia|unfold fits; lia|done].
  - destruct (ins_ ++ outs_); [done|simpl; lia].
Qed.

(** A request of the program's buffers. *)
Lemma user_run fuel q t (w : W) rest inputs outputs :
  (N < fuel)%nat → queue_idx q = idx → tok t → idle SIZE q w rest →
  Forall user_buffer (inputs ++ outputs) → inputs ++ outputs ≠ [] → disjoint_all outputs →
  Z.of_nat (length (inputs ++ outputs)) ≤ SIZE →
  ∃ len q' t' w',
    add_notify_wait_pop SIZE fuel inputs outputs (q, (t, w)) = (Val (Ok len), (q', (t', w'))) ∧
    idle SIZE q' w' rest ∧ tok t' ∧ indirect q' = indirect q ∧ queue_idx q' = idx ∧
    answered w inputs outputs w' len.
Proof.
  intros Hf Hq Ht Hid Hu Hne Hd Hn. apply serve_run; try done. rewrite Forall_forall in Hu.
  apply buffers_ok_intro; try done; [apply Forall_forall; intros b Hb; by apply Hu|].
  intros b x Hb Hx. by apply (Hu b Hb).
Qed.

(** A request whose first input and last output are local variables. *)
Lemma call_run fuel q t (w : W) rest va vb reads writes :
  (N < fuel)%nat → queue_idx q = idx → tok t → idle SIZE q w rest →
  0 < Z.of_nat (length va) < 2 ^ 32 → 0 < Z.of_nat (length vb) < 2 ^ 32 →
  Forall user_buffer (reads ++ writes) → disjoint_all writes →
  2 + Z.of_nat (length (reads ++ writes)) ≤ SIZE →
  ∃ a b w0 len q' t' w', stack_slot2 va vb w = (Val (a, b), w0) ∧
    add_notify_wait_pop SIZE fuel (a :: reads) (writes ++ [b]) (q, (t, w0)) =
      (Val (Ok len), (q', (t', w'))) ∧
    idle SIZE q' w' rest ∧ tok t' ∧ indirect q' = indirect q ∧ queue_idx q' = idx ∧
    serve (dstate w) (va :: (bytes_of w <$> reads)) ((s_len <$> writes) ++ [Z.of_nat (length vb)]) =
      (dstate w', (bytes_of w' <$> writes) ++ [bytes_of w' b], len) ∧
    (∀ x, own x → ¬ frame x → (∀ b, b ∈ writes → ¬ in_slice b x) → byte_at w' x = byte_at w x).
Proof.
  intros Hf Hq Ht Hid Ha Hb Hu Hd Hn.
  destruct (stack_slots_spec [va; vb] w ltac:(simpl; rewrite !length_app; simpl; lia)) as (bs & w0 & E & L & B & Dj & F & P & Q).
  destruct bs as [|a [|b [|]]]; try done. injection L as La Lb. injection B as Ba Bb.
  destruct Dj as [Dab _]. apply Forall_singleton in Dab. simpl in La, Lb.
  rewrite Forall_app in Hu. destruct Hu as [Hur Huw]. rewrite Forall_forall in Hur, Huw.
  rewrite length_app in Hn.
  assert (∀ c x, c ∈ a :: reads ++ writes ++ [b] → in_slice c x → own x) as Hown.
  { intros c x. rewrite elem_of_cons, !elem_of_app, list_elem_of_singleton.
    intros [->|[Hc|[Hc| ->]]] Hx;
      [by apply frame_own, (F a); [left|]|by apply (Hur c)|by apply (Huw c)|].
    by apply frame_own, (F b); [right; left|]. }
  destruct (serve_run fuel q t w0 rest (a :: reads) (writes ++ [b]))
    as (len & q' & t' & w' & Hrun & Hidle & Ht' & Hi' & Hq' & Es & Hmem); try done.
  { destruct Hid as [[fl I] ? ?]. split; try done. exists fl. by apply (inv_world _ _ w). }
  { apply buffers_ok_intro.
    - rewrite Forall_forall. intros c. simpl. rewrite elem_of_cons, !elem_of_app, list_elem_of_singleton.
      intros [->|[Hc|[Hc| ->]]]; [lia|by apply Hur|by apply Huw|lia].
    - done.
    - simpl. rewrite !length_app. simpl. lia.
    - apply disjoint_app; [done|split; [constructor|done]|]. intros c c' Hc ->%list_elem_of_singleton x X1 X2.
      apply (proj2 (Huw c Hc) x X1). by apply (F b); [right; left|].
    - exact Hown. }
  exists a, b, w0, len, q', t', w'. split; [unfold stack_slot2; by erewrite bind_val by exact E|].
  split_and!; try done.
  - rewrite (stack_quiet _ _ _ _ E), !fmap_app in Es. simpl in Es. rewrite Ba, Lb in Es. rewrite <- Es.
    do 2 f_equal. apply list_fmap_ext. intros i c Hc%list_elem_of_lookup_2. symmetry.
    apply bytes_of_ext. intros x Hx. destruct (proj2 (Hur c Hc) x Hx). by apply Q.
  - intros x Hx Hnf Hnw. rewrite Hmem; [by apply Q|done|]. intros c. rewrite elem_of_app, list_elem_of_singleton.
    intros [Hc| ->] Hin; [by apply (Hnw c)|]. apply Hnf, (F b x); [by right; left|done].
Qed.

(** A request whose first input is a local variable. *)
Lemma slot_run fuel q t (w : W) rest va reads writes :
  (N < fuel)%nat → queue_idx q = idx → tok t → idle SIZE q w rest →
  0 < Z.of_nat (length va) < 2 ^ 32 → Forall user_buffer (reads ++ writes) → disjoint_all writes →
  1 + Z.of_nat (length (reads ++ writes)) ≤ SIZE →
  ∃ a w0 len q' t' w', stack_slot va w = (Val a, w0) ∧
    add_notify_wait_pop SIZE fuel (a :: reads) writes (q, (t, w0)) = (Val (Ok len), (q', (t', w'))) ∧
    idle SIZE q' w' rest ∧ tok t' ∧ indirect q' = indirect q ∧ queue_idx q' = idx ∧
    serve (dstate w) (va :: (bytes_of w <$> reads)) (s_len <$> writes) = (dstate w', bytes_of w' <$> writes, len) ∧
    (∀ x, own x → ¬ frame x → (∀ b, b ∈ writes → ¬ in_slice b x) → byte_at w' x = byte_at w x).
Proof.
  intros Hf Hq Ht Hid Ha Hu Hd Hn.
  destruct (stack_slots_spec [va] w ltac:(simpl; rewrite app_nil_r; lia)) as (bs & w0 & E & L & B & Dj & F & P & Q).
  destruct bs as [|a [|]]; try done. injection L as La. injection B as Ba. simpl in La.
  assert (∀ c, c ∈ reads ++ writes → user_buffer c) as Hu' by (by apply Forall_forall).
  destruct (serve_run fuel q t w0 rest (a :: reads) writes)
    as (len & q' & t' & w' & Hrun & Hidle & Ht' & Hi' & Hq' & Es & Hmem); try done.
  { destruct Hid as [[fl I] ? ?]. split; try done. exists fl. by apply (inv_world _ _ w). }
  { apply buffers_ok_intro; simpl; try done; [|lia|].
    - constructor; [lia|]. apply Forall_forall. intros c Hc. by apply Hu'.
    - intros c x [->|Hc]%elem_of_cons Hx; [by apply frame_own, (F a); [left|]|by apply (Hu' c)]. }
  exists a, w0, len, q', t', w'. split; [unfold stack_slot; by erewrite bind_val by exact E|].
  split_and!; try done.
  - rewrite (stack_quiet _ _ _ _ E) in Es. simpl in Es. rewrite Ba in Es. rewrite <- Es. do 2 f_equal.
    apply list_fmap_ext. intros i c Hc%list_elem_of_lookup_2. symmetry. apply bytes_of_ext. intros x Hx.
    destruct (proj2 (Hu' c ltac:(apply elem_of_app; by left)) x Hx). by apply Q.
  - intros x Hx Hnf Hnw. rewrite Hmem by done. by apply Q.
Qed.
End serve.
