(* ===== verification/Single.v ===== *)
(** * Requests of one buffer

    The runs of [VirtQueue::add] and [VirtQueue::pop_used] on a request of a single buffer, with
    the calls of the HAL they make. Several drivers keep such requests outstanding. *)

From S2P Require Import Prelude Base Transport QueueData Queue QueueInv QueueLemmas QueueSpec QueueWait.
Import VirtQueue.

Section single.
Context `{Profile} {W : Type} `{HalSpec W} (SIZE : Z) (HS : SIZE_OK SIZE = true).

(** The arguments [inputs] and [outputs] for a buffer of a direction. *)
Definition one_in (d : BufferDirection) (b : Slice) : list Slice :=
  match d with DeviceToDriver => [] | _ => [b] end.
Definition one_out (d : BufferDirection) (b : Slice) : list Slice :=
  match d with DeviceToDriver => [b] | _ => [] end.

Lemma io_items_one d b : d ≠ Both → io_items (one_in d b) (one_out d b) = [(b, d)].
Proof. by destruct d. Qed.

Lemma slots_single ind (x : Item) : slots ind [x] = 1%nat.
Proof. unfold slots. simpl. by rewrite andb_false_r. Qed.

(** What [add] and [pop_used] leave of a queue. *)
Definition same_queue (q q' : VirtQueue) : Prop :=
  queue_idx q' = queue_idx q ∧ indirect q' = indirect q ∧ event_idx q' = event_idx q ∧
  layout q' = layout q ∧ used q' = used q.

(** A single buffer can be added when a descriptor is free, and takes the first free one. *)
Lemma add_single_run q (w : W) i fl infl rest b d :
  inv SIZE q w (i :: fl) infl rest → item_ok (b, d) →
  ∃ pa q' w', add SIZE (one_in d b) (one_out d b) (q, w) = (Val (Ok i), (q', w')) ∧
    infl !! i = None ∧ inv SIZE q' w' fl (<[i := Direct [i] [(pa, b, d)]]> infl) rest ∧
    share b d w = (Val pa, w') ∧ same_queue q q' ∧ last_used_idx q' = last_used_idx q.
Proof.
  intros I Hok. pose proof (SIZE_OK_eq _ HS) as (k & _ & _ & HSr).
  assert (free_head q = i) as Hfh by (by destruct (inv_free _ _ _ _ _ _ I)).
  destruct (add_ok_run SIZE q w (i :: fl) infl rest (one_in d b) (one_out d b))
    as (r & q0 & w' & fl' & Hrun & Ha & Hn & I'); [done|done| | |].
  { rewrite io_items_one by apply Hok. by constructor. }
  { rewrite io_items_one by apply Hok. unfold spec_add_error. rewrite slots_single, <- (inv_num_used SIZE I) by lia.
    pose proof (inv_num _ _ _ _ _ _ I) as Hnum. simpl length in *.
    rewrite bool_decide_eq_false_2 by done.
    rewrite (proj2 (Z.ltb_ge SIZE _)), (proj2 (Z.ltb_ge SIZE _)) by lia. done. }
  destruct Ha as (Hit & Hfl & Hk & Hro & _ & _ & _ & _ & _ & lists & _ & Hq0 & Hri & Hcalls).
  rewrite io_items_one in Hit by apply Hok. rewrite Hfh in *.
  assert (req_indirect r = false) as Hdir by (rewrite Hri; destruct d; simpl; apply andb_false_r).
  destruct r as [c segs|]; [|done]. destruct Hro as [Hc _].
  destruct segs as [|[[pa b'] d'] [|]]; try done. injection Hit as -> ->.
  unfold slots in Hk. simpl in Hk. rewrite andb_false_r in Hk. destruct c as [|c0 [|]]; try done. injection Hc as ->. injection Hfl as <-.
  destruct Hcalls as (w1 & Hsh & ->). exists pa, (publish SIZE i q0), w1. split_and!; try done;
    rewrite Hq0; [repeat split|]; done.
Qed.

(** The request of a single buffer is popped when the device has used it. *)
Lemma pop_single_run q (w : W) fl infl rest pa b d e :
  inv SIZE q w fl infl rest → next_used SIZE q = Some e →
  infl !! (wrap 16 (ue_id e)) = Some (Direct [wrap 16 (ue_id e)] [(pa, b, d)]) →
  ∃ q' w', pop_used SIZE (wrap 16 (ue_id e)) (one_in d b) (one_out d b) (q, w) =
      (Val (Ok (ue_len e)), (q', w')) ∧
    inv SIZE q' w' (wrap 16 (ue_id e) :: fl) (delete (wrap 16 (ue_id e)) infl) rest ∧
    unshare pa b d w = (Val tt, w') ∧ same_queue q q' ∧
    last_used_idx q' = wrapping_add 16 (last_used_idx q) 1.
Proof.
  intros I Hu Hr. pose proof (inv_items _ _ _ _ _ _ I _ _ Hr) as Hit. apply Forall_cons in Hit as [Hit _].
  destruct (pop_ok_run SIZE q w fl infl rest (wrap 16 (ue_id e)) (Direct [wrap 16 (ue_id e)] [(pa, b, d)])
    (ue_len e) (one_in d b) (one_out d b)) as (q0 & w' & Hrun & I' & (sh & de & lists & Hq0 & _) & Hcalls); try done.
  { rewrite io_items_one by apply Hit. done. }
  { unfold spec_pop. rewrite Hu. by rewrite Z.eqb_refl. }
  destruct Hcalls as (w1 & Hun & ->). exists (consume q0), w1. split_and!; try done.
  - rewrite Hq0. unfold consume. destruct (event_idx _) eqn:E; repeat split; done.
  - rewrite Hq0. unfold consume. by destruct (event_idx _).
Qed.

Lemma peek_run q (w : W) : shared_ok SIZE (shared q) →
  peek_used SIZE (q, w) = (Val ((λ e, wrap 16 (ue_id e)) <$> next_used SIZE q), (q, w)).
Proof.
  intros Hsh. unfold peek_used. mstep. cbn [fst snd]. destruct (can_pop q) eqn:Hp.
  - destruct (next_used_can_pop SIZE q) as (e & -> & He); try done.
    mstep. cbn [fst snd]. by rewrite He.
  - unfold next_used. by rewrite Hp.
Qed.

Lemma live_held_singleton h r : live_held {[h := r]} = req_held r.
Proof. unfold live_held. rewrite map_to_list_singleton. simpl. apply app_nil_r. Qed.

(** With nothing in flight all descriptors are free. *)
Lemma inv_empty_free q (w : W) fl rest : inv SIZE q w fl ∅ rest → ∃ i fl', fl = i :: fl'.
Proof.
  intros I. pose proof (SIZE_OK_eq _ HS) as (k & _ & _ & HSr).
  pose proof (inv_length SIZE I). change (owned ∅) with (@nil Z) in *. simpl in *.
  destruct fl; [simpl in *; lia|eauto].
Qed.
End single.

(** ** Notifications

    The part of a transport that a driver with outstanding requests relies on: notifying the
    device of queue [idx] returns, and shares or frees nothing. *)
Class Notifier (idx : Z) (T W : Type) `{HalSpec W} `{Transport T W} := {
  ready : T → Prop;
  notify_ready : ∀ t (w : W), ready t →
    ∃ t' w', notify idx (t, w) = (Val tt, (t', w')) ∧ ready t' ∧ held w' ≡ₚ held w
}.

Lemma notify_if_run {idx : Z} {T W : Type} `{Notifier idx T W} (b : bool) t (w : W) : ready t →
  ∃ t' w', (if b then notify idx else mret tt) (t, w) = (Val tt, (t', w')) ∧ ready t' ∧ held w' ≡ₚ held w.
Proof. intros Ht. destruct b; [by apply notify_ready|by exists t, w]. Qed.

(** A conditional call on a part of the state. *)
Lemma if_zoom_val {S A B} (l : lens S (A * B)) (b : bool) (x : M B unit) s y :
  (if b then x else mret tt) (Prelude.view l s).2 = (Val tt, y) → update l (Prelude.view l s) s = s →
  (if b then zoom l (on_snd x) else mret tt) s = (Val tt, update l ((Prelude.view l s).1, y) s).
Proof.
  intros E Hl. destruct b.
  - apply zoom_val. destruct (Prelude.view l s). by apply on_snd_val.
  - injection E as <-. by rewrite <- surjective_pairing, Hl.
Qed.
