(* ===== verification/Pipeline.v ===== *)
(** * Several requests in flight

    A driver that keeps requests outstanding on a queue and pops them in the order in which it
    added them: what [VirtQueue::add] and [VirtQueue::pop_used] do to the list of the outstanding
    requests, and a device that takes the chains from the available ring in order. *)

From S2P Require Import Prelude Base Transport QueueData Queue QueueInv QueueLemmas QueueSpec QueueWait Serve.
Import VirtQueue.

(** A request that is outstanding: its token, and its descriptors and buffers. *)
Record Out := mkOut { o_token : Z; out_req : Req }.
Definition o_segs (o : Out) : list Seg := req_segs (out_req o).
Definition out_map (l : list Out) : gmap Z Req := list_to_map ((λ o, (o_token o, out_req o)) <$> l).

Lemma out_keys l : ((λ o, (o_token o, out_req o)) <$> l).*1 = o_token <$> l.
Proof. by rewrite <- list_fmap_compose. Qed.

Lemma out_map_lookup l o : NoDup (o_token <$> l) → o ∈ l → out_map l !! o_token o = Some (out_req o).
Proof.
  intros Hn Ho. apply elem_of_list_to_map; [by rewrite out_keys|]. apply list_elem_of_fmap. by exists o.
Qed.

Lemma out_map_snoc l o : o_token o ∉ o_token <$> l → out_map (l ++ [o]) = <[o_token o := out_req o]> (out_map l).
Proof. intros Ho. unfold out_map. rewrite fmap_app. apply list_to_map_snoc. by rewrite out_keys. Qed.

Lemma out_map_tail l o : o_token o ∉ o_token <$> l → delete (o_token o) (out_map (o :: l)) = out_map l.
Proof.
  intros Ho. unfold out_map. rewrite fmap_cons. cbn [list_to_map foldr]. apply delete_insert_id.
  apply not_elem_of_list_to_map_1. by rewrite out_keys.
Qed.

Lemma out_map_none l h : out_map l !! h = None → h ∉ o_token <$> l.
Proof. intros Hh. rewrite <- out_keys. by apply not_elem_of_list_to_map_2. Qed.

Section pipe.
Context `{Profile} {W : Type} `{HalSpec W} (SIZE : Z) (HS : SIZE_OK SIZE = true).
Implicit Types (q : VirtQueue) (w : W) (l : list Out).

(** The place in the rings of the [i]-th outstanding request. *)
Definition slot q (i : nat) : Z := (last_used_idx q + Z.of_nat i) mod SIZE.

(** [l] are the outstanding requests, the oldest first; the device has used the first [u]. *)
Record pipe q w l (u : nat) (rest : list Res) : Prop := {
  pp_inv : ∃ fl, inv SIZE q w fl (out_map l) rest;
  pp_nodup : NoDup (o_token <$> l);
  pp_chains : Forall (λ o, placed (desc q) (o_token o) (out_req o)) l;
  pp_idx : av_idx (avail q) = avail_idx q;
  pp_avail : avail_idx q = wrap 16 (last_used_idx q + Z.of_nat (length l));
  pp_used : us_idx (used q) = wrap 16 (last_used_idx q + Z.of_nat u);
  pp_served : (u ≤ length l)%nat;
  pp_ring : ∀ i o, (u ≤ i)%nat → l !! i = Some o → index (av_ring (avail q)) (slot q i) = Some (o_token o);
  pp_done : ∀ i o, (i < u)%nat → l !! i = Some o →
    ∃ len, index (us_ring (used q)) (slot q i) = Some (mkUsedElem (o_token o) len)
}.

Lemma wrap_slot x : wrap 16 x mod SIZE = x mod SIZE.
Proof.
  destruct (SIZE_OK_eq _ HS) as (k & Hk & -> & HSr). unfold wrap. apply Z.mod_mod_divide.
  assert (k < 16) by (apply (Z.pow_lt_mono_r_iff 2); lia). exists (2 ^ (16 - k)). rewrite <- Z.pow_add_r by lia. f_equal. lia.
Qed.

Lemma wrap_apart a i j : i < j → j - i < 2 ^ 16 → wrap 16 (a + i) ≠ wrap 16 (a + j).
Proof.
  unfold wrap. intros Hij Hd E. assert ((j - i) mod 2 ^ 16 = 0) as Hz.
  { replace (j - i) with ((a + j) - (a + i)) by lia. rewrite Zminus_mod, E, Z.sub_diag. apply Z.mod_0_l. lia. }
  rewrite Z.mod_small in Hz; lia.
Qed.

Lemma slot_range q i : 0 ≤ slot q i < SIZE.
Proof. pose proof (SIZE_OK_eq _ HS) as (k & _ & _ & HSr). apply Z.mod_pos_bound. lia. Qed.

Lemma slot_ne q i j : (i < j)%nat → Z.of_nat j - Z.of_nat i < SIZE → slot q i ≠ slot q j.
Proof.
  intros Hij Hs E. pose proof (SIZE_OK_eq _ HS) as (k & _ & _ & HSr). unfold slot in E.
  assert ((Z.of_nat j - Z.of_nat i) mod SIZE = 0) as Hz.
  { replace (Z.of_nat j - Z.of_nat i) with ((last_used_idx q + Z.of_nat j) - (last_used_idx q + Z.of_nat i)) by lia.
    rewrite Zminus_mod, E, Z.sub_diag. apply Z.mod_0_l. lia. }
  rewrite Z.mod_small in Hz; lia.
Qed.

Lemma pipe_idle q w rest : idle SIZE q w rest → av_idx (avail q) = avail_idx q → pipe q w [] 0 rest.
Proof.
  intros [[fl I] Hu Ha] Hav. pose proof (inv_last_used _ _ _ _ _ _ I) as Hf.
  assert (us_idx (used q) = wrap 16 (last_used_idx q + Z.of_nat 0)) as E by (rewrite Z.add_0_r, wrap_small, Hu; done).
  split; try done; [by exists fl|apply NoDup_nil_2|by rewrite Ha, E].
Qed.

Lemma idle_pipe q w rest : pipe q w [] 0 rest → idle SIZE q w rest ∧ av_idx (avail q) = avail_idx q.
Proof.
  intros [[fl I] _ _ Hi Ha Hu _ _ _]. simpl in Ha, Hu. rewrite Z.add_0_r in Ha, Hu.
  rewrite wrap_small in Ha, Hu by apply I. split; [|done]. split; [by exists fl|done|]. by rewrite Ha, Hu.
Qed.

(** Every request has a descriptor. *)
Lemma pipe_length q w l u rest fl : pipe q w l u rest → inv SIZE q w fl (out_map l) rest →
  Z.of_nat (length fl) + Z.of_nat (length l) ≤ SIZE.
Proof.
  intros P I. pose proof (SIZE_OK_eq _ HS) as (k & _ & _ & HSr). pose proof (inv_length SIZE I ltac:(lia)) as Hl.
  assert (length l ≤ length (owned (out_map l)))%nat; [|lia].
  unfold owned, out_map. rewrite map_to_list_to_map by (rewrite out_keys; apply P).
  pose proof (pp_chains _ _ _ _ _ P) as Hc. clear -Hc. induction Hc as [|o l Ho _ IH]; [done|].
  rewrite !fmap_cons. etrans; [|eapply Nat.eq_le_incl; symmetry; apply length_app]. cbn [snd length].
  destruct (out_req o) as [[|]|]; [by destruct Ho|..]; simpl; apply le_n_S;
    (etrans; [exact IH|apply Nat.le_add_l || done]).
Qed.

Lemma pipe_num_used q w l u rest : pipe q w l u rest →
  num_used q = Z.of_nat (sum_list ((λ o, slots (indirect q) (req_items (out_req o))) <$> l)).
Proof.
  intros P. pose proof (SIZE_OK_eq _ HS) as (k & _ & _ & HSr). destruct (pp_inv _ _ _ _ _ P) as [fl I].
  rewrite (inv_num_used SIZE I) by lia. unfold used_slots, pending, out_map. f_equal.
  rewrite map_to_list_fmap, map_to_list_to_map by (rewrite out_keys; apply P).
  rewrite <- !list_fmap_compose. f_equal.
Qed.

Lemma pipe_can_pop q w l u rest : pipe q w l u rest → can_pop q = negb (u =? 0)%nat.
Proof.
  intros P. pose proof (SIZE_OK_eq _ HS) as (k & _ & _ & HSr). destruct (pp_inv _ _ _ _ _ P) as [fl I].
  pose proof (pipe_length q w l u rest fl P I) as Hl. pose proof (pp_served _ _ _ _ _ P) as Hu.
  unfold can_pop. rewrite (pp_used _ _ _ _ _ P). f_equal. pose proof (inv_last_used _ _ _ _ _ _ I) as Hf.
  destruct (Nat.eqb_spec u 0) as [->|Hne]; [rewrite Z.add_0_r, wrap_small by done; apply Z.eqb_refl|].
  apply Z.eqb_neq. rewrite <- (wrap_small 16 (last_used_idx q)) at 1 by done. rewrite <- (Z.add_0_r (last_used_idx q)) at 1.
  apply wrap_apart; lia.
Qed.

(** Another request is added behind the others. *)
Lemma pipe_add q w l u rest inputs outputs : pipe q w l u rest →
  Forall item_ok (io_items inputs outputs) → inputs ++ outputs ≠ [] →
  Z.of_nat (length inputs + length outputs) ≤ SIZE →
  num_used q + Z.of_nat (slots (indirect q) (io_items inputs outputs)) ≤ SIZE →
  ∃ o q' w', add SIZE inputs outputs (q, w) = (Val (Ok (o_token o)), (q', w')) ∧
    pipe q' w' (l ++ [o]) u rest ∧ seg_item <$> o_segs o = io_items inputs outputs ∧
    req_shared (out_req o) w w' ∧ queue_idx q' = queue_idx q ∧ indirect q' = indirect q.
Proof.
  intros P Hok Hne Hmax Hfit. pose proof (SIZE_OK_eq _ HS) as (k & _ & _ & HSr). destruct (pp_inv _ _ _ _ _ P) as [fl I].
  pose proof (inv_num_used SIZE I ltac:(lia)) as Hnum.
  assert (0 ≤ num_used q) as Hnn by (rewrite Hnum; unfold used_slots; lia).
  destruct (add_ok_run SIZE q w fl (out_map l) rest inputs outputs) as (r & q0 & w' & fl' & Hrun & Ha & Hn & I'); try done.
  { unfold spec_add_error. rewrite io_items_nil, <- Hnum, length_io_items.
    rewrite !(proj2 (Z.ltb_ge SIZE _)) by lia.
    destruct inputs, outputs; try done; by rewrite bool_decide_eq_false_2. }
  destruct Ha as (Hit & Hfl & Hk & Hro & Hri & _ & _ & Hat & _ & lists & Hlists & Hq0 & Hind & Hcalls).
  set (h := free_head q) in *. set (o := mkOut h r). apply req_in_placed in Hri.
  assert (avail q0 = avail q ∧ avail_idx q0 = avail_idx q ∧ used q0 = used q ∧ last_used_idx q0 = last_used_idx q ∧
    queue_idx q0 = queue_idx q ∧ indirect q0 = indirect q) as (Ea & Ei & Eu & El & Eq & Eind) by (by rewrite Hq0).
  assert (∀ i, slot (publish SIZE h q0) i = slot q i) as Hslot by (intros i; unfold slot; simpl; by rewrite El).
  assert (length l < Z.to_nat SIZE)%nat as Hlen.
  { pose proof (pipe_length q w l u rest fl P I). destruct fl; [|simpl in *; lia].
    by destruct r as [[|]|]; [destruct Hri|..]. }
  pose proof (out_map_none _ _ Hn) as Hh. pose proof (slot_range q) as Hsr.
  exists o, (publish SIZE h q0), w'. split_and!; try done. destruct P as [_ Hnd Hc Hix Hav Hus Hu Hr Hd]. split.
  - exists fl'. rewrite out_map_snoc by done. done.
  - rewrite fmap_app. apply NoDup_app. split_and!; [done| |by apply NoDup_singleton].
    intros x Hx ->%list_elem_of_singleton. done.
  - apply Forall_app. split; [|by constructor]. apply Forall_forall. intros o' Ho'. rewrite Forall_forall in Hc.
    apply (placed_agree (desc q)); [|by apply Hc].
    intros i Hic. destruct (inv_chain SIZE I (o_token o') (out_req o') i) as [Hio Hir]; [by apply out_map_lookup|done|].
    apply Hat; [lia|]. intros Hic'. apply (inv_disjoint SIZE I i); [|done]. rewrite Hfl. set_solver.
  - done.
  - simpl. rewrite Ei, El, Hav, length_app. unfold wrapping_add, wrap. rewrite Zplus_mod_idemp_l. f_equal. simpl. lia.
  - change (used (publish SIZE h q0)) with (used q0). simpl. by rewrite Eu, El.
  - rewrite length_app. lia.
  - intros i o' Hi' Ho'. rewrite Hslot. simpl. rewrite Ei, Ea, Hav, wrap_slot. fold (slot q (length l)).
    apply lookup_snoc_Some in Ho' as [[Hlt Ho']|[-> <-]].
    + rewrite index_insert_ne; [by apply Hr|apply Hsr|apply Hsr|]. apply not_eq_sym, slot_ne; lia.
    + apply index_insert_eq, (index_lt _ SIZE); [apply I|apply Hsr].
  - intros i o' Hi' Ho'. rewrite Hslot. change (used (publish SIZE h q0)) with (used q0). rewrite Eu.
    apply (Hd i); [done|]. by rewrite lookup_app_l in Ho' by lia.
Qed.

(** The oldest request is popped once the device has used it. *)
Lemma pipe_pop q w o l u rest inputs outputs : pipe q w (o :: l) (S u) rest →
  seg_item <$> o_segs o = io_items inputs outputs →
  ∃ len q' w', pop_used SIZE (o_token o) inputs outputs (q, w) = (Val (Ok len), (q', w')) ∧
    pipe q' w' l u rest ∧ req_unshared (out_req o) w w' ∧ queue_idx q' = queue_idx q ∧ indirect q' = indirect q.
Proof.
  intros P Hit. pose proof (SIZE_OK_eq _ HS) as (k & _ & _ & HSr). destruct (pp_inv _ _ _ _ _ P) as [fl I].
  pose proof (pipe_can_pop _ _ _ _ _ P) as Hcan. destruct P as [_ Hnd Hc Hix Hav Hus Hu Hr Hd].
  assert (out_map (o :: l) !! o_token o = Some (out_req o)) as Ho by (apply out_map_lookup; [done|by left]).
  destruct (inv_token SIZE I _ _ Ho) as [_ Hor].
  destruct (Hd 0%nat o ltac:(lia) eq_refl) as [len Hel]. unfold slot in Hel. rewrite Z.add_0_r in Hel.
  destruct (pop_ok_run SIZE q w fl (out_map (o :: l)) rest (o_token o) (out_req o) len inputs outputs)
    as (q0 & w' & Hrun & I' & (sh & de & lists & Hq0 & Hat) & Hcalls); try done.
  { unfold spec_pop, next_used. rewrite Hcan. cbn [negb Nat.eqb]. rewrite Hel. simpl.
    rewrite wrap_small by (unfold fits; lia). by rewrite Z.eqb_refl. }
  rewrite fmap_cons in Hnd. apply NoDup_cons in Hnd as [Hn Hnd].
  assert (avail_idx (consume q0) = avail_idx q ∧ av_idx (avail (consume q0)) = av_idx (avail q) ∧
    av_ring (avail (consume q0)) = av_ring (avail q) ∧ used (consume q0) = used q ∧ desc (consume q0) = de ∧
    last_used_idx (consume q0) = wrapping_add 16 (last_used_idx q) 1 ∧ queue_idx (consume q0) = queue_idx q ∧
    indirect (consume q0) = indirect q) as (Ea & Ei & Er & Eu & Ed & El & Eq & Eind).
  { rewrite Hq0. unfold consume. by destruct (event_idx _). }
  assert (∀ n, wrap 16 (last_used_idx (consume q0) + Z.of_nat n) = wrap 16 (last_used_idx q + Z.of_nat (S n))) as Hw.
  { intros n. rewrite El. unfold wrapping_add, wrap. rewrite Zplus_mod_idemp_l. f_equal. lia. }
  assert (∀ i, slot (consume q0) i = slot q (S i)) as Hslot.
  { intros i. unfold slot. rewrite <- wrap_slot, Hw. apply wrap_slot. }
  exists len, (consume q0), w'. split_and!; try done. split.
  - exists (req_chain (out_req o) ++ fl). rewrite out_map_tail in I' by done. done.
  - done.
  - rewrite Ed. apply Forall_cons in Hc as [_ Hc]. apply Forall_forall. intros o' Ho'. rewrite Forall_forall in Hc.
    apply (placed_agree (desc q)); [|by apply Hc].
    assert (out_map l !! o_token o' = Some (out_req o')) as Hl by (by apply out_map_lookup).
    rewrite out_map_tail in I' by done. intros i Hic.
    destruct (inv_chain SIZE I' (o_token o') (out_req o') i Hl Hic) as [Hio Hir]. apply Hat; [lia|].
    intros Hic'. apply (inv_disjoint SIZE I' i); [|done]. set_solver.
  - by rewrite Ei, Ea.
  - by rewrite Ea, Hav, Hw.
  - by rewrite Eu, Hus, Hw.
  - simpl in Hu. lia.
  - intros i o' Hi' Ho'. rewrite Hslot, Er. by apply Hr; [lia|].
  - intros i o' Hi' Ho'. rewrite Hslot, Eu. by apply (Hd (S i)); [lia|].
Qed.
End pipe.

(** ** A device that serves in order

    A step of the device serves the next chain of the available ring, or is a [pause] of the
    device, of which there are at most [N] in a row. *)
Class InOrder (SIZE : Z) (N : nat) (idx : Z) (T W D : Type) `{Server SIZE N idx T W D} := {
  pause : D → option D;
  lag : D → nat;
  pause_lag : ∀ d d', pause d = Some d' → (lag d' < lag d)%nat;
  lag_bound : ∀ d, (lag d ≤ N)%nat;
  step_empty : ∀ sh (w : W), shared_ok SIZE sh → av_idx (sh_avail sh) = us_idx (sh_used sh) →
    device_step idx sh w = (sh, w);
  step_next : ∀ sh (w : W) h r, let segs := req_segs r in shared_ok SIZE sh → 0 ≤ h < SIZE →
    posted (sh_desc sh) w h r → segs ≠ [] → Z.of_nat (length segs) ≤ SIZE →
    Forall seg_ok segs → (∀ s, Share s ∈ req_held r → Share s ∈ held w) → disjoint_all (seg_slice <$> outs segs) →
    av_idx (sh_avail sh) ≠ us_idx (sh_used sh) →
    index (av_ring (sh_avail sh)) (us_idx (sh_used sh) mod SIZE) = Some h →
    let '(sh', w') := device_step idx sh w in
    match pause (dstate w) with
    | Some d' => sh' = sh ∧ held w' ≡ₚ held w ∧ dstate w' = d' ∧ (∀ x, own x → byte_at w' x = byte_at w x) ∧
        (∀ s, Share s ∈ held w → view w' s = view w s)
    | None =>
        let '(d', written, len) :=
          serve (dstate w) (view w <$> ins segs) (s_len <$> (seg_slice <$> outs segs)) in
        sh_desc sh' = sh_desc sh ∧ sh_avail sh' = sh_avail sh ∧
        us_idx (sh_used sh') = wrapping_add 16 (us_idx (sh_used sh)) 1 ∧
        us_ring (sh_used sh') = <[Z.to_nat (us_idx (sh_used sh) mod SIZE) := mkUsedElem h len]> (us_ring (sh_used sh)) ∧
        held w' ≡ₚ held w ∧ dstate w' = d' ∧ view w' <$> outs segs = written ∧
        (∀ x, own x → (∀ s, s ∈ outs segs → ¬ in_slice s.1.2 x) → byte_at w' x = byte_at w x) ∧
        (∀ s, Share s ∈ held w → (∀ o, o ∈ outs segs → disjoint s.1.2 o.1.2) → view w' s = view w s)
    end
}.

Section steps.
Context {SIZE : Z} {N : nat} {idx : Z} {T W D : Type} `{InOrder SIZE N idx T W D} `{Profile}.
Context (HS : SIZE_OK SIZE = true).
Implicit Types (q : VirtQueue) (w : W) (l : list Out).

Lemma pipe_holds q w l u rest o x : pipe SIZE q w l u rest → o ∈ l → x ∈ req_held (out_req o) → x ∈ held w.
Proof.
  intros P Ho Hx. destruct (pp_inv _ _ _ _ _ _ P) as [fl I]. rewrite (inv_held _ _ _ _ _ _ I), elem_of_app. left.
  rewrite (live_held_delete _ _ _ (out_map_lookup l o (pp_nodup _ _ _ _ _ _ P) Ho)), elem_of_app. by left.
Qed.

Lemma pipe_held q w l u rest o s : pipe SIZE q w l u rest → o ∈ l → s ∈ o_segs o → Share s ∈ held w.
Proof.
  intros P Ho Hs. apply (pipe_holds q w l u rest o); try done. by apply segs_held.
Qed.

Lemma pipe_laid q w l u rest o : pipe SIZE q w l u rest → o ∈ l → o_segs o ≠ [] → laid_out (out_req o).
Proof.
  intros P Ho Hne. split; [done|]. pose proof (pp_chains _ _ _ _ _ _ P) as Hc. rewrite Forall_forall in Hc.
  specialize (Hc o Ho). by destruct (out_req o); [|apply Hc].
Qed.

(** The world changes, and the memory shared with the device does not. *)
Lemma pipe_world q w w' l u rest : pipe SIZE q w l u rest → held w' ≡ₚ held w → pipe SIZE q w' l u rest.
Proof. intros [[fl I] ? ? ? ? ? ? ? ?] Hp. split; try done. exists fl. by apply (inv_world _ _ w). Qed.

(** With nothing left to serve the device rests. *)
Lemma pipe_rest q w l rest : queue_idx q = idx → pipe SIZE q w l (length l) rest → spin (q, w) = (Val tt, (q, w)).
Proof.
  intros Hq P. destruct (pp_inv _ _ _ _ _ _ P) as [fl I]. unfold spin. rewrite Hq, step_empty; [by destruct q|apply I|].
  etrans; [apply (pp_idx _ _ _ _ _ _ P)|]. etrans; [apply (pp_avail _ _ _ _ _ _ P)|]. symmetry. apply (pp_used _ _ _ _ _ _ P).
Qed.

(** What a step of the device does to the oldest request it has not used. *)
Definition stepped w (o : Out) (u : nat) (u' : nat) w' : Prop :=
  match pause (dstate w) with
  | Some d' => u' = u ∧ dstate w' = d' ∧ (∀ x, own x → byte_at w' x = byte_at w x) ∧
      (∀ s, Share s ∈ held w → view w' s = view w s)
  | None => u' = S u ∧ (∃ len, serve (dstate w) (view w <$> ins (o_segs o)) (s_len <$> (seg_slice <$> outs (o_segs o))) =
        (dstate w', view w' <$> outs (o_segs o), len)) ∧
      (∀ x, own x → (∀ s, s ∈ outs (o_segs o) → ¬ in_slice s.1.2 x) → byte_at w' x = byte_at w x) ∧
      (∀ s, Share s ∈ held w → (∀ s', s' ∈ outs (o_segs o) → disjoint s.1.2 s'.1.2) → view w' s = view w s)
  end.

Lemma pipe_serve q w l u o rest sh' w' len : pipe SIZE q w l u rest → l !! u = Some o →
  sh_desc sh' = desc q → sh_avail sh' = avail q → us_idx (sh_used sh') = wrapping_add 16 (us_idx (used q)) 1 →
  us_ring (sh_used sh') = <[Z.to_nat (slot SIZE q u) := mkUsedElem (o_token o) len]> (us_ring (used q)) →
  held w' ≡ₚ held w → pipe SIZE (set_shared sh' q) w' l (S u) rest.
Proof.
  intros P Ho Ed Ea Ei Er Hh. pose proof (SIZE_OK_eq _ HS) as (k & _ & _ & HSr).
  destruct (pp_inv _ _ _ _ _ _ P) as [fl I]. pose proof (pipe_length SIZE HS q w l u rest fl P I) as Hlen.
  pose proof (lookup_lt_Some _ _ _ Ho) as Hul. destruct P as [_ Hnd Hc Hix Hav Hus Hu Hr Hdn]. split; try done.
  - exists fl. apply (inv_world _ _ w); [|done]. destruct I as [[Hd1 Hd2 Hd3]]. split; try done.
    split; cbn [shared set_shared]; [by rewrite Ed|by rewrite Ea|]. by rewrite Er, length_insert.
  - change (desc (set_shared sh' q)) with (sh_desc sh'). by rewrite Ed.
  - change (avail (set_shared sh' q)) with (sh_avail sh'). by rewrite Ea.
  - change (used (set_shared sh' q)) with (sh_used sh'). rewrite Ei, Hus. unfold wrapping_add, wrap. simpl.
    rewrite Zplus_mod_idemp_l. f_equal. lia.
  - intros i o' Hi Ho'. change (avail (set_shared sh' q)) with (sh_avail sh'). rewrite Ea. by apply Hr; [lia|].
  - intros i o' Hi Ho'. change (used (set_shared sh' q)) with (sh_used sh'). rewrite Er.
    change (slot SIZE (set_shared sh' q) i) with (slot SIZE q i). pose proof (slot_range SIZE HS q) as Hsr.
    destruct (decide (i = u)) as [->|Hne].
    + exists len. rewrite Ho in Ho'. injection Ho' as <-. apply index_insert_eq, (index_lt _ SIZE); [apply I|apply Hsr].
    + destruct (Hdn i o') as [len' Hl]; [lia|done|]. exists len'.
      rewrite index_insert_ne; [done|apply Hsr|apply Hsr|]. apply not_eq_sym, (slot_ne SIZE HS); lia.
Qed.

Lemma pipe_step q w l u o rest : queue_idx q = idx → pipe SIZE q w l u rest → l !! u = Some o →
  Forall seg_ok (o_segs o) → disjoint_all (seg_slice <$> outs (o_segs o)) → list_seen w (out_req o) →
  o_segs o ≠ [] → Z.of_nat (length (o_segs o)) ≤ SIZE →
  ∃ u' q' w', spin (q, w) = (Val tt, (q', w')) ∧ pipe SIZE q' w' l u' rest ∧ stepped w o u u' w' ∧
    held w' ≡ₚ held w ∧ queue_idx q' = queue_idx q ∧ indirect q' = indirect q ∧ num_used q' = num_used q.
Proof.
  intros Hq P Ho Hok Hdis Hls Hnil Hcl. pose proof (SIZE_OK_eq _ HS) as (k & _ & _ & HSr).
  destruct (pp_inv _ _ _ _ _ _ P) as [fl I]. pose proof (pipe_length SIZE HS q w l u rest fl P I) as Hlen.
  pose proof (lookup_lt_Some _ _ _ Ho) as Hul. pose proof (list_elem_of_lookup_2 _ _ _ Ho) as Hin.
  pose proof (pp_chains _ _ _ _ _ _ P) as Hc. rewrite Forall_forall in Hc. specialize (Hc o Hin).
  pose proof (out_map_lookup l o (pp_nodup _ _ _ _ _ _ P) Hin) as Hm. destruct (inv_token SIZE I _ _ Hm) as [_ Hor].
  assert (slot SIZE q u = us_idx (used q) mod SIZE) as Hsl by (rewrite (pp_used _ _ _ _ _ _ P); by rewrite (wrap_slot SIZE HS)).
  pose proof (step_next (shared q) w (o_token o) (out_req o)) as Hst. cbv zeta in Hst. fold (o_segs o) in Hst.
  specialize (Hst (inv_shared _ _ _ _ _ _ I) Hor (placed_posted _ _ _ _ Hc Hls) Hnil Hcl Hok
    (λ s, pipe_holds q w l u rest o (Share s) P Hin) Hdis).
  assert (av_idx (sh_avail (shared q)) ≠ us_idx (sh_used (shared q))) as Hne.
  { change (av_idx (avail q) ≠ us_idx (used q)). rewrite (pp_idx _ _ _ _ _ _ P), (pp_avail _ _ _ _ _ _ P), (pp_used _ _ _ _ _ _ P).
    apply not_eq_sym, wrap_apart; lia. }
  specialize (Hst Hne). rewrite <- (pp_ring _ _ _ _ _ _ P u o) in Hst by done. rewrite Hsl in Hst. specialize (Hst eq_refl).
  unfold stepped, spin. rewrite Hq. destruct (device_step idx (shared q) w) as [sh' w'].
  destruct (pause (dstate w)) as [d'|].
  - destruct Hst as (-> & Hh & Hd & Hm' & Hv). exists u, q, w'. split_and!; try done; [by destruct q|by apply (pipe_world q w)].
  - destruct (serve _ _ _) as [[d' written] len]. destruct Hst as (S1 & S2 & S3 & S4 & Hh & Hd & Hw & Hm' & Hv).
    exists (S u), (set_shared sh' q), w'. split_and!; try done.
    + apply (pipe_serve q w l u o rest sh' w' len); try done. by rewrite Hsl.
    + exists len. by rewrite Hd, Hw.
Qed.
End steps.
