(* ===== verification/DeviceQueue.v ===== *)
(** * The device side of a virtqueue

    [src/src/queue.rs], [DeviceVirtQueue]: popping descriptor chains from the available ring,
    mapping their buffers, returning them through the used ring. The state of an operation is
    the queue (with the memory it shares with the driver, as seen at that point) and the world
    of the device's hardware abstraction layer. *)

From S2P Require Import Prelude Base Transport QueueData.

Module DeviceVirtQueue.

Record MappedDescriptor := mkMapped { desc_copy : Descriptor; md_dma : DeviceDma }.

(** [PartialEq]: the descriptor, and the mapping without its client. *)
Definition MappedDescriptor_eq (a b : MappedDescriptor) : bool :=
  bool_decide (desc_copy a = desc_copy b) && DeviceDma.eq (md_dma a) (md_dma b).

Record DescriptorBuffers := mkBuffers {
  read_buffers : list Slice;
  write_buffers : list Slice;
  db_head : Z
}.

Record DeviceVirtQueue := mkDeviceVirtQueue {
  layout : VirtQueueLayout DeviceDma;
  shared : Shared;
  queue_idx : Z;
  avail_idx : Z;
  last_used_idx : Z;
  desc_mapped : list (option MappedDescriptor);
  client_id : Z
}.

Definition set_shared (v : Shared) (q : DeviceVirtQueue) : DeviceVirtQueue :=
  mkDeviceVirtQueue (layout q) v (queue_idx q) (avail_idx q) (last_used_idx q)
    (desc_mapped q) (client_id q).
Definition set_avail_idx (v : Z) (q : DeviceVirtQueue) : DeviceVirtQueue :=
  mkDeviceVirtQueue (layout q) (shared q) (queue_idx q) v (last_used_idx q)
    (desc_mapped q) (client_id q).
Definition set_last_used_idx (v : Z) (q : DeviceVirtQueue) : DeviceVirtQueue :=
  mkDeviceVirtQueue (layout q) (shared q) (queue_idx q) (avail_idx q) v
    (desc_mapped q) (client_id q).
Definition set_desc_mapped (v : list (option MappedDescriptor)) (q : DeviceVirtQueue)
    : DeviceVirtQueue :=
  mkDeviceVirtQueue (layout q) (shared q) (queue_idx q) (avail_idx q) (last_used_idx q)
    v (client_id q).
Definition set_used (v : UsedRing) (q : DeviceVirtQueue) : DeviceVirtQueue :=
  set_shared (mkShared (sh_desc (shared q)) (sh_avail (shared q)) v) q.

Definition desc (q : DeviceVirtQueue) : list Descriptor := sh_desc (shared q).
Definition avail (q : DeviceVirtQueue) : AvailRing := sh_avail (shared q).
Definition used (q : DeviceVirtQueue) : UsedRing := sh_used (shared q).

Section device.
Context `{Profile} {W : Type} `{DeviceHal W}.
Context (SIZE : Z).

Abbreviation St := (DeviceVirtQueue * W)%type.

Definition getd {A} (f : DeviceVirtQueue → A) : M St A := gets (λ s, f s.1).
Definition modd (f : DeviceVirtQueue → DeviceVirtQueue) : M St unit :=
  modify (λ s, (f s.1, s.2)).

(** [MappedDescriptor::map_buf]. *)
Definition map_buf (d : Descriptor) (client_id : Z) : M W (Result MappedDescriptor) :=
  let direction :=
    if contains (d_flags d) DescFlags.WRITE then DeviceToDriver else DriverToDevice in
  dma ←? DeviceDma.new (d_addr d) (pages (d_len d)) direction client_id;
  mret (Ok (mkMapped d dma)).

(** The contents of the shared memory when the queue is created are the driver's: [sh]. *)
Definition new {T} `{DeviceTransport T W} (idx : Z) (sh : Shared)
    : M (T * W) (Result DeviceVirtQueue) :=
  max ← dt_max_queue_size idx;
  if negb (max =? SIZE) then mret (Err InvalidParam) else
  client_id ← dt_get_client_id;
  '(paddr, _, used_paddr) ← dt_queue_get idx;
  legacy ← dt_requires_legacy_layout;
  layout ←? on_snd (if legacy : bool then map_legacy SIZE paddr client_id
                    else map_flexible SIZE paddr used_paddr client_id);
  _ ← descriptors_vaddr layout;
  _ ← avail_vaddr layout;
  _ ← used_vaddr layout;
  mret (Ok (mkDeviceVirtQueue layout sh idx 0 0 (replicate (Z.to_nat SIZE) None) client_id)).

Definition can_pop (q : DeviceVirtQueue) : bool := negb (avail_idx q =? av_idx (avail q)).

Definition peek_avail : M St (option Z) :=
  b ← getd can_pop;
  if b : bool then
    h ← getd (λ q, index (av_ring (avail q)) (Z.land (avail_idx q) (SIZE - 1)));
    h ← unwrap h;
    mret (Some h)
  else mret None.

Definition should_notify (q : DeviceVirtQueue) : bool := Z.land (av_flags (avail q)) 1 =? 0.

Definition read_desc (i : Z) : M St (Result Descriptor) :=
  d ← getd (λ q, index (desc q) i);
  mret (match d with Some d => Ok d | None => Err WrongToken end).

(** Replacing [desc_mapped[token]] drops the old mapping. *)
Definition store_mapped (token : Z) (old : option MappedDescriptor) (new_desc : MappedDescriptor)
    : M St unit :=
  modd (λ q, set_desc_mapped (<[Z.to_nat token := Some new_desc]> (desc_mapped q)) q);;
  match old with
  | Some old => on_snd (DeviceDma.drop (md_dma old))
  | None => mret tt
  end.

(** One iteration of the loop of [pop_avail]: the next token and the buffers so far. *)
Definition pop_avail_step (token : Z) (reads writes : list Slice)
    : M St (Result (option Z * list Slice * list Slice)) :=
  d ←? read_desc token;
  let avail_len := d_len d in
  let write := contains (d_flags d) DescFlags.WRITE in
  assert (negb (contains (d_flags d) DescFlags.INDIRECT));;
  let next_token := if contains (d_flags d) DescFlags.NEXT then Some (d_next d) else None in
  slot ← getd (λ q, index (desc_mapped q) token);
  match slot with
  | None => mret (Err WrongToken)
  | Some prev =>
    cid ← getd client_id;
    new_desc ←? on_snd (map_buf d cid);
    let changed :=
      match prev with Some p => negb (MappedDescriptor_eq p new_desc) | None => true end in
    (if changed then store_mapped token prev new_desc else mret tt);;
    let cur := match prev with
               | Some p => if changed then new_desc else p
               | None => new_desc end in
    buffer ← raw_slice (md_dma cur);
    assert (avail_len <=? s_len buffer);;
    let b := mkSlice (s_ptr buffer) avail_len in
    if write then mret (Ok (next_token, reads, writes ++ [b]))
    else if negb (bool_decide (writes = [])) then mret (Err InvalidDescriptor)
    else mret (Ok (next_token, reads ++ [b], writes))
  end.

Fixpoint pop_avail_loop (fuel : nat) (next_token : option Z) (reads writes : list Slice)
    : M St (Result (list Slice * list Slice)) :=
  match next_token with
  | None => mret (Ok (reads, writes))
  | Some token =>
    match fuel with
    | O => hang
    | S fuel =>
      '(next_token, reads, writes) ←? pop_avail_step token reads writes;
      pop_avail_loop fuel next_token reads writes
    end
  end.

Definition pop_avail (fuel : nat) : M St (Result (option DescriptorBuffers)) :=
  h ← peek_avail;
  match h with
  | None => mret (Ok None)
  | Some head =>
    '(reads, writes) ←? pop_avail_loop fuel (Some head) [] [];
    modd (λ q, set_avail_idx (wrapping_add 16 (avail_idx q) 1) q);;
    mret (Ok (Some (mkBuffers reads writes head)))
  end.

Definition add_used (head head_len : Z) : M St unit :=
  slot ← getd (λ q, Z.land (last_used_idx q) (SIZE - 1));
  u ← getd used;
  _ ← unwrap (index (us_ring u) slot);
  modd (set_used (mkUsedRing (us_flags u) (us_idx u)
    (<[Z.to_nat slot := mkUsedElem head (wrap 32 head_len)]> (us_ring u)) (us_avail_event u)));;
  l ← getd last_used_idx;
  let l' := wrapping_add 16 l 1 in
  modd (set_last_used_idx l');;
  modd (λ q, let u := used q in
    set_used (mkUsedRing (us_flags u) l' (us_ring u) (us_avail_event u)) q).

(** *** The two ways a device serves the queue *)
Context `{Mem W}.

(** What the driver does to the shared memory while the device spins. *)
Context (driver_step : Shared → W → Shared * W).

Definition spin : M St unit := λ '(q, w),
  let '(sh, w') := driver_step (shared q) w in (Val tt, (set_shared sh q, w')).

Fixpoint wait_can_pop (fuel : nat) : M St unit :=
  match fuel with
  | O => hang
  | S fuel => b ← getd can_pop; if b : bool then mret tt else spin;; wait_can_pop fuel
  end.

(** Copying the inputs one after the other into [out_buf]; the result is [copied]. *)
Fixpoint copy_inputs (out_buf : Slice) (copied : Z) (inputs : list (list Z)) : M St Z :=
  match inputs with
  | [] => mret copied
  | in_buf :: inputs =>
    e ← add_u 64 copied (Z.of_nat (length in_buf));
    assert (e <=? s_len out_buf);;
    on_snd (mem_write (s_ptr out_buf + copied) in_buf);;
    copy_inputs out_buf e inputs
  end.

Definition device_lens {T} : lens (DeviceVirtQueue * (T * W)) (DeviceVirtQueue * W) :=
  {| view := λ s, (s.1, s.2.2); update := λ a s, (a.1, (s.2.1, a.2)) |}.

Definition notify_driver {T} `{DeviceTransport T W} : M (DeviceVirtQueue * (T * W)) unit :=
  q ← gets fst;
  if should_notify q then on_snd (dt_notify (queue_idx q)) else mret tt.

Definition wait_pop_add_notify {T} `{DeviceTransport T W} (fuel : nat) (inputs : list (list Z))
    : M (DeviceVirtQueue * (T * W)) (Result unit) :=
  zoom device_lens (wait_can_pop fuel);;
  p ←? zoom device_lens (pop_avail fuel);
  popped ← unwrap p;
  match write_buffers popped with
  | [] => mret (Err NotReady)
  | out_buf :: _ =>
    if negb (bool_decide (read_buffers popped = [])) then mret (Err Unsupported) else
    copied ← zoom device_lens (copy_inputs out_buf 0 inputs);
    zoom device_lens (add_used (db_head popped) copied);;
    notify_driver;;
    mret (Ok tt)
  end.

(** The contents of the buffers, one after the other. *)
Fixpoint read_all (buffers : list Slice) : M W (list Z) :=
  match buffers with
  | [] => mret []
  | b :: buffers => x ← mem_read b; y ← read_all buffers; mret (x ++ y)
  end.

(** [C] is the state the handler captures. *)
Definition poll {T A C} `{DeviceTransport T W} (fuel : nat)
    (handler : list Z → M C (Result (option A)))
    : M (C * (DeviceVirtQueue * (T * W))) (Result (option A)) :=
  p ←? on_snd (zoom device_lens (pop_avail fuel));
  match p with
  | None => mret (Ok None)
  | Some popped =>
    if negb (bool_decide (write_buffers popped = [])) then mret (Err Unsupported) else
    tmp ← on_snd (on_snd (on_snd (read_all (read_buffers popped))));
    result ← on_fst (handler tmp);
    on_snd (zoom device_lens (add_used (db_head popped) 0));;
    on_snd notify_driver;;
    mret result
  end.

End device.
End DeviceVirtQueue.
