(* ===== verification/DeviceQueueSpec.v ===== *)
(** * The device's view of a chain of descriptors

    Popping a chain that the driver built gives the buffers of the request, in order; errors
    and panics on malformed chains. *)

From S2P Require Import Prelude Base Transport QueueData Queue QueueInv QueueLemmas DeviceQueue.
Import DeviceVirtQueue.

(** ** What the device queue relies on

    [DeviceHal::dma_map] maps a region of physical memory that the client can share at
    [translate], inside the address space; [dma_unmap] succeeds. *)
Class DeviceHalSpec (W : Type) `{DeviceHal W} := {
  translate : Z → Z;
  mappable : Z → Z → Prop;
  mappable_range : ∀ pa n, mappable pa n →
    0 < translate pa ∧ translate pa + n * PAGE_SIZE < 2 ^ 64;
  dma_map_spec : ∀ pa n d cid w, mappable pa n →
    ∃ w', dma_map pa n d cid w = (Val (Ok (translate pa)), w');
  dma_unmap_spec : ∀ pa va n w, ∃ w', dma_unmap pa va n w = (Val 0, w')
}.

Section pop.
Context `{Profile} {W : Type} `{DeviceHalSpec W}.
Context (SIZE : Z).
Implicit Types (q : DeviceVirtQueue) (w : W).

(** The buffer of a descriptor, as the device sees it. *)
Definition seg_buffer (s : Seg) : Slice := mkSlice (translate s.1.1) (s_len s.1.2).

(** A buffer the device can use: not empty, of a length that fits in 32 bits, mappable. *)
Definition seg_mappable (s : Seg) : Prop :=
  0 < s_len s.1.2 < 2 ^ 32 ∧ mappable s.1.1 (pages (s_len s.1.2)) ∧ s.2 ≠ Both.

Definition is_read (s : Seg) : bool :=
  match s.2 with DeviceToDriver => false | _ => true end.

(** Buffers that the device reads come before those it writes. *)
Fixpoint reads_first (segs : list Seg) : Prop :=
  match segs with
  | [] => True
  | s :: segs => (is_read s = true ∨ Forall (λ s, is_read s = false) segs) ∧ reads_first segs
  end.

Definition seg_reads (segs : list Seg) : list Slice :=
  seg_buffer <$> filter (λ s, is_read s = true) segs.
Definition seg_writes (segs : list Seg) : list Slice :=
  seg_buffer <$> filter (λ s, is_read s = false) segs.

(** ** One step *)
Lemma map_buf_run d cid w :
  mappable (d_addr d) (pages (d_len d)) →
  ∃ w', map_buf d cid w = (Val (Ok (mkMapped d
    (DeviceDma.mkDeviceDma (d_addr d) (translate (d_addr d)) (pages (d_len d)) cid))), w').
Proof.
  intros Hm. destruct (dma_map_spec (d_addr d) (pages (d_len d))
    (if contains (d_flags d) DescFlags.WRITE then DeviceToDriver else DriverToDevice) cid w Hm)
    as (w' & Hw).
  exists w'. unfold map_buf, DeviceDma.new. erewrite try_ok; [done|].
  by erewrite try_ok by exact Hw.
Qed.

Lemma raw_slice_run {S} (d : DeviceDma) (s : S) :
  0 < DeviceDma.dma_pages d → 0 < DeviceDma.dma_vaddr d →
  DeviceDma.dma_vaddr d + DeviceDma.dma_pages d * PAGE_SIZE < 2 ^ 64 →
  raw_slice d s =
    (Val (mkSlice (DeviceDma.dma_vaddr d) (DeviceDma.dma_pages d * PAGE_SIZE)), s).
Proof.
  intros Hp Hv Hr. unfold raw_slice, DeviceDma_memory, DeviceDma.raw_slice.
  assert (fits 64 (DeviceDma.dma_pages d * PAGE_SIZE)) as Hf by (unfold fits, PAGE_SIZE in *; lia).
  erewrite bind_val; [by erewrite bind_val by by apply arith_fits|].
  unfold DeviceDma.vaddr, mul_u, add_u. erewrite bind_val by by apply arith_fits.
  rewrite (proj2 (Z.ltb_lt _ _)) by (unfold PAGE_SIZE; lia). mstep. rewrite Z.add_0_r.
  erewrite bind_val by (apply arith_fits; unfold fits, PAGE_SIZE in *; lia).
  by rewrite (proj2 (Z.eqb_neq _ _)) by lia.
Qed.

Lemma store_mapped_run token old new_desc q w :
  ∃ w', store_mapped token old new_desc (q, w) =
    (Val tt, (set_desc_mapped (<[Z.to_nat token := Some new_desc]> (desc_mapped q)) q, w')).
Proof.
  unfold store_mapped. mstep. destruct old as [old|]; [|by exists w].
  destruct (dma_unmap_spec (DeviceDma.dma_paddr (md_dma old)) (DeviceDma.dma_vaddr (md_dma old))
    (DeviceDma.dma_pages (md_dma old)) w) as (w' & Hw).
  exists w'. apply on_snd_val. unfold DeviceDma.drop. by erewrite bind_val by exact Hw.
Qed.

(** Mapping the buffer of a descriptor, whether or not it was mapped before. *)
Lemma remap_run token prev d q w cid :
  0 < d_len d → mappable (d_addr d) (pages (d_len d)) →
  ∃ new_desc w1 m w2,
    map_buf d cid w = (Val (Ok new_desc), w1) ∧
    let changed := match prev with Some p => negb (MappedDescriptor_eq p new_desc) | None => true end in
    (if changed then store_mapped token prev new_desc else mret tt) (q, w1)
      = (Val tt, (set_desc_mapped m q, w2)) ∧
    length m = length (desc_mapped q) ∧
    let cur := match prev with
               | Some p => if changed then new_desc else p
               | None => new_desc end in
    ∀ s : DeviceVirtQueue * W, raw_slice (md_dma cur) s =
      (Val (mkSlice (translate (d_addr d)) (pages (d_len d) * PAGE_SIZE)), s).
Proof.
  intros Hl Hm. destruct (map_buf_run d cid w Hm) as (w1 & Hmap).
  pose proof (pages_bounds (d_len d)) as Hpb. destruct (mappable_range _ _ Hm) as [R1 R2].
  set (nd := mkMapped d _) in Hmap. exists nd, w1.
  assert (∀ s : DeviceVirtQueue * W, raw_slice (md_dma nd) s =
    (Val (mkSlice (translate (d_addr d)) (pages (d_len d) * PAGE_SIZE)), s)) as Hraw.
  { intros s. apply (raw_slice_run (md_dma nd)); simpl; unfold PAGE_SIZE in *; lia. }
  destruct (store_mapped_run token prev nd q w1) as (w2 & Hst).
  destruct prev as [p|]; [destruct (MappedDescriptor_eq p nd) eqn:E|].
  - exists (desc_mapped q), w1. cbv zeta. cbn [negb].
    split; [done|]. split; [by destruct q|]. split; [done|]. intros s. unfold MappedDescriptor_eq, DeviceDma.eq in E.
    apply andb_true_iff in E as [_ E]. apply andb_true_iff in E as [E E3].
    apply andb_true_iff in E as [E1 E2].
    apply Z.eqb_eq in E1, E2, E3. simpl in E1, E2, E3.
    rewrite <- (Hraw s). rewrite (raw_slice_run (md_dma p)); rewrite ?E1, ?E2, ?E3.
    2-4: unfold PAGE_SIZE in *; lia. symmetry. apply Hraw.
  - eexists _, w2. cbv zeta. cbn [negb]. split_and!; [done|exact Hst|apply length_insert|done].
  - eexists _, w2. cbv zeta. split_and!; [done|exact Hst|apply length_insert|done].
Qed.

Lemma seg_desc_flags more nx s : s.2 ≠ Both →
  contains (d_flags (seg_desc more nx s)) DescFlags.WRITE = negb (is_read s) ∧
  contains (d_flags (seg_desc more nx s)) DescFlags.INDIRECT = false ∧
  contains (d_flags (seg_desc more nx s)) DescFlags.NEXT = more.
Proof. destruct s as [[? ?] []], more; done. Qed.

Lemma pop_avail_step_run token more nx s reads writes q w :
  index (desc q) token = Some (seg_desc more nx s) → seg_mappable s →
  is_Some (index (desc_mapped q) token) → (is_read s = true → writes = []) →
  ∃ m w', pop_avail_step token reads writes (q, w) =
    (Val (Ok (if more then Some nx else None,
              if is_read s then reads ++ [seg_buffer s] else reads,
              if is_read s then writes else writes ++ [seg_buffer s])),
     (set_desc_mapped m q, w')) ∧ length m = length (desc_mapped q).
Proof.
  intros Hd (Hl & Hm & Hb) [prev Hprev] Hw.
  destruct (seg_desc_flags more nx s Hb) as (F1 & F2 & F3).
  pose proof (pages_bounds (s_len s.1.2)) as Hpb.
  destruct (remap_run token prev (seg_desc more nx s) q w (client_id q))
    as (nd & w1 & m & w2 & Hmap & Hst & Hlen & Hraw); simpl; [lia|done|].
  exists m, w2. split; [|done]. unfold pop_avail_step, read_desc.
  erewrite try_ok by (mstep; cbn [fst snd]; rewrite Hd; reflexivity).
  rewrite F1, F2, F3. mstep. cbn [fst snd]. rewrite Hprev. mstep.
  erewrite try_ok by (apply on_snd_val; exact Hmap).
  cbv zeta in Hst, Hraw. erewrite bind_val by exact Hst.
  erewrite bind_val by apply Hraw.
  rewrite (proj2 (Z.leb_le _ _)) by (simpl; lia). mstep. cbn [s_ptr].
  change (mkSlice _ (d_len _)) with (seg_buffer s).
  destruct (is_read s); cbn [negb]; [|done]. by rewrite bool_decide_eq_true_2 by auto.
Qed.

Lemma chain_next sh c segs i s :
  chain_segs sh (i :: c) (s :: segs) →
  ∃ nx, index sh i = Some (seg_desc (nonempty c) nx s) ∧
    (if nonempty c then Some nx else None) = head c ∧ chain_segs sh c segs.
Proof.
  intros [(nx & Hd & Hn) Hc]. exists nx. split_and!; try done.
  destruct c as [|j c]; [done|]. simpl. f_equal. by apply Hn.
Qed.

Lemma pop_avail_loop_run c : ∀ fuel segs reads writes q w,
  chain_segs (desc q) c segs → Forall seg_mappable segs → reads_first segs →
  (Forall (λ s, is_read s = false) segs ∨ writes = []) →
  (∀ i, i ∈ c → is_Some (index (desc_mapped q) i)) → (length c ≤ fuel)%nat →
  ∃ m w', pop_avail_loop fuel (head c) reads writes (q, w) =
    (Val (Ok (reads ++ seg_reads segs, writes ++ seg_writes segs)), (set_desc_mapped m q, w')) ∧
    length m = length (desc_mapped q).
Proof.
  induction c as [|i c IH]; intros fuel segs reads writes q w Hc Hm Hrf Hw Hs Hf.
  { destruct segs; [|done]. exists (desc_mapped q), w. split; [|done].
    unfold seg_reads, seg_writes. simpl. rewrite !app_nil_r. destruct q, fuel; done. }
  destruct segs as [|s segs]; [done|]. destruct fuel as [|fuel]; [simpl in Hf; lia|].
  destruct (chain_next _ _ _ _ _ Hc) as (nx & Hd & Hnx & Hc').
  apply Forall_cons in Hm as [Hm1 Hm]. destruct Hrf as [Hr1 Hrf].
  destruct (pop_avail_step_run i (nonempty c) nx s reads writes q w)
    as (m & w1 & Hstep & Hlen); try done; [apply Hs; set_solver| |].
  { intros Hrd. destruct Hw as [Hw|Hw]; [|done]. apply Forall_cons in Hw as [Hw _]. congruence. }
  cbn [head pop_avail_loop]. erewrite try_ok by exact Hstep. rewrite Hnx. cbn beta iota.
  edestruct (IH fuel segs (if is_read s then reads ++ [seg_buffer s] else reads)
    (if is_read s then writes else writes ++ [seg_buffer s]) (set_desc_mapped m q) w1) as (m' & w' & Hrun & Hlen');
    [exact Hc'|done|done| | |simpl in Hf; lia|].
  3:{ exists m', w'. rewrite Hrun. split; [|simpl in Hlen'; congruence].
      unfold seg_reads, seg_writes. destruct (is_read s) eqn:E.
      - rewrite filter_cons_True, filter_cons_False by congruence. by rewrite <- app_assoc.
      - rewrite filter_cons_False, filter_cons_True by congruence. by rewrite <- app_assoc. }
  - destruct (is_read s) eqn:E.
    + right. destruct Hw as [Hw|Hw]; [|done]. apply Forall_cons in Hw as [Hw _]. congruence.
    + left. by destruct Hr1.
  - intros j Hj. apply lookup_lt_is_Some. simpl. rewrite Hlen.
    apply lookup_lt_is_Some, Hs. set_solver.
Qed.

(** [pop_avail] on an available chain. *)
Lemma pop_avail_run fuel c segs h q w :
  SIZE_OK SIZE = true → shared_ok SIZE (shared q) → length (desc_mapped q) = Z.to_nat SIZE →
  can_pop q = true → index (av_ring (avail q)) (avail_idx q mod SIZE) = Some h →
  head c = Some h → chain_segs (desc q) c segs → (∀ i, i ∈ c → 0 ≤ i < SIZE) →
  Forall seg_mappable segs → reads_first segs → (length c ≤ fuel)%nat →
  ∃ m w', pop_avail SIZE fuel (q, w) =
    (Val (Ok (Some (mkBuffers (seg_reads segs) (seg_writes segs) h))),
     (set_avail_idx (wrapping_add 16 (avail_idx q) 1) (set_desc_mapped m q), w')) ∧
    length m = Z.to_nat SIZE.
Proof.
  intros HS Hsh Hlen Hcp Hav Hh Hc Hr Hm Hrf Hf.
  destruct (pop_avail_loop_run c fuel segs [] [] q w) as (m & w' & Hrun & Hlen'); auto.
  { intros i Hi. apply (index_lt _ SIZE); auto. }
  exists m, w'. split; [|congruence]. unfold pop_avail.
  erewrite bind_val.
  2:{ unfold peek_avail. mstep. cbn [fst snd]. rewrite Hcp. mstep. cbn [fst snd].
      destruct (mask_slot SIZE (avail_idx q) HS) as [-> _]. rewrite Hav. done. }
  rewrite Hh in Hrun. cbv beta iota. by erewrite try_ok by exact Hrun.
Qed.
End pop.
