(* ===== verification/DeviceQueueProps.v ===== *)
(** * Properties of the device side of a virtqueue, and of the two sides together *)

From S2P Require Import Prelude Base Transport QueueData Queue QueueInv QueueLemmas QueueSpec.
From S2P Require Import DeviceQueue DeviceQueueSpec Layout QueueNew FakeHal FakeTransport Bench.

Module VQ := Queue.VirtQueue.
Module DQ := DeviceQueue.DeviceVirtQueue.

(** ** The segments of a request *)
Section segs.
Context {W : Type} `{DeviceHalSpec W}.

Lemma segs_split segs inputs outputs :
  seg_item <$> segs = io_items inputs outputs →
  ∃ s1 s2, segs = s1 ++ s2 ∧
    seg_item <$> s1 = (λ b, (b, DriverToDevice)) <$> inputs ∧
    seg_item <$> s2 = (λ b, (b, DeviceToDriver)) <$> outputs.
Proof. rewrite io_items_eq. intros (s1 & s2 & ? & ? & ?)%fmap_app_inv. eauto. Qed.

Lemma seg_item_dir (d : BufferDirection) s1 (bs : list Slice) :
  seg_item <$> s1 = (λ b, (b, d)) <$> bs →
  Forall (λ s, s.2 = d) s1 ∧ (λ s, s_len s.1.2) <$> s1 = s_len <$> bs.
Proof.
  revert bs. induction s1 as [|s s1 IH]; intros [|b bs]; try done.
  rewrite !fmap_cons. intros [= E1 E2 E3]. destruct (IH bs E3) as [IH1 IH2].
  split; [by constructor|]. by rewrite IH2, E1.
Qed.

Lemma reads_first_app s1 s2 :
  Forall (λ s, is_read s = true) s1 → Forall (λ s, is_read s = false) s2 → reads_first (s1 ++ s2).
Proof.
  intros H1 H2. induction H1 as [|s s1 Hs H1 IH]; simpl; [|by auto].
  induction H2; simpl; auto.
Qed.

Lemma filter_all (b : bool) (segs : list Seg) :
  Forall (λ s, is_read s = b) segs →
  filter (λ s, is_read s = b) segs = segs ∧ filter (λ s, is_read s = negb b) segs = [].
Proof.
  induction 1 as [|s segs Hs _ [IH1 IH2]]; [done|].
  rewrite filter_cons_True, filter_cons_False, IH1, IH2 by (done || by rewrite Hs; destruct b).
  done.
Qed.

(** The inputs are the buffers the device reads, the outputs those it writes. *)
Lemma io_segs segs inputs outputs :
  seg_item <$> segs = io_items inputs outputs →
  reads_first segs ∧ Forall (λ s, s.2 ≠ Both) segs ∧
  s_len <$> seg_reads segs = s_len <$> inputs ∧ s_len <$> seg_writes segs = s_len <$> outputs.
Proof.
  intros (s1 & s2 & -> & [D1 L1]%seg_item_dir & [D2 L2]%seg_item_dir)%segs_split.
  assert (Forall (λ s, is_read s = true) s1) as R1
    by (eapply Forall_impl; [exact D1|]; unfold is_read; by intros ? ->).
  assert (Forall (λ s, is_read s = false) s2) as R2
    by (eapply Forall_impl; [exact D2|]; unfold is_read; by intros ? ->).
  destruct (filter_all _ _ R1) as [E1 E2], (filter_all _ _ R2) as [E3 E4]. simpl in E2, E4.
  split_and!.
  - by apply reads_first_app.
  - apply Forall_app. split; eapply Forall_impl; [exact D1| |exact D2|]; by intros ? ->.
  - unfold seg_reads. rewrite filter_app, E1, E4, app_nil_r, <- L1.
    by rewrite <- list_fmap_compose.
  - unfold seg_writes. rewrite filter_app, E2, E3, <- L2. simpl.
    by rewrite <- list_fmap_compose.
Qed.
End segs.

(** ** From the driver to the device *)
Section handover.
Context `{Profile} {W DW : Type} `{HalSpec W} `{DeviceHalSpec DW}.
Context (SIZE : Z).

(** C6. What the driver adds is what the device pops. After the driver has added [inputs] and
    [outputs] without indirect descriptors, a device queue on the same memory that is at the
    driver's previous available index pops, with as much fuel as there are buffers, a chain
    with the driver's token as its head. It reads the inputs and writes the outputs, in order,
    each mapped from the address at which the driver shared it and with its length, and it is
    then at the driver's available index. *)
Theorem driver_add_device_pop q (w : W) fl infl rest inputs outputs h q' w' dq (dw : DW) fuel :
  SIZE_OK SIZE = true → inv SIZE q w fl infl rest →
  Forall item_ok (io_items inputs outputs) → VQ.indirect q = false →
  VQ.add SIZE inputs outputs (q, w) = (Val (Ok h), (q', w')) →
  DQ.shared dq = VQ.shared q' → length (DQ.desc_mapped dq) = Z.to_nat SIZE →
  DQ.avail_idx dq = VQ.avail_idx q →
  (∀ pa b d, Share (pa, b, d) ∈ held w' → mappable pa (pages (s_len b))) →
  (length inputs + length outputs ≤ fuel)%nat →
  ∃ segs bufs dq' dw', DQ.pop_avail SIZE fuel (dq, dw) = (Val (Ok (Some bufs)), (dq', dw')) ∧
    seg_item <$> segs = io_items inputs outputs ∧ (∀ s, s ∈ segs → Share s ∈ held w') ∧
    bufs = DQ.mkBuffers (seg_reads segs) (seg_writes segs) h ∧
    s_len <$> seg_reads segs = s_len <$> inputs ∧
    s_len <$> seg_writes segs = s_len <$> outputs ∧
    DQ.avail_idx dq' = VQ.avail_idx q' ∧ DQ.shared dq' = VQ.shared q'.
Proof.
  intros HS I Hok Hind Hadd Hsh Hlen Hidx Hmap Hfuel.
  pose proof Hadd as Hadd'. rewrite (add_unfold SIZE q w fl infl rest) in Hadd' by done.
  destruct (spec_add_error _ _ _ _) eqn:Herr; [done|]. clear Hadd'.
  destruct (add_ok_run SIZE q w fl infl rest inputs outputs)
    as (r & q0 & w1 & fl' & Hrun & Ha & Hn & I'); try done.
  rewrite Hadd in Hrun. injection Hrun as Eh Eq Ew.
  destruct Ha as (Hit & Hfl & Hk & _ & Hri & _ & _ & _ & Hheld & lists & _ & Hq0 & Hri' & _).
  rewrite Hind in Hk, Hri'. unfold slots in Hk. simpl in Hk. rewrite Hit, length_io_items in Hk.
  destruct r as [c segs|h' pa il segs]; [|done]. simpl in Hk.
  assert (VQ.avail q0 = VQ.avail q ∧ VQ.avail_idx q0 = VQ.avail_idx q) as [Ea Ei] by (by rewrite Hq0).
  assert (∀ s, s ∈ segs → Share s ∈ held w') as Hsh'.
  { intros s Hs. rewrite Ew, Hheld. simpl. apply elem_of_app. left. apply list_elem_of_fmap. eauto. }
  destruct (io_segs segs inputs outputs Hit) as (Hrf & Hdir & Hlr & Hlw).
  pose proof (SIZE_OK_eq _ HS) as (k & _ & _ & HSr).
  destruct (pop_avail_run SIZE fuel c segs h dq dw)
    as (m & dw' & Hpop & Hlen'); try done.
  { rewrite Hsh, Eq. apply I'. }
  { unfold DQ.can_pop, DQ.avail. rewrite Hsh, Hidx, Eq. simpl. rewrite Ei.
    rewrite (proj2 (Z.eqb_neq _ _)); [done|]. apply not_eq_sym. by apply wrap_succ_ne. }
  { unfold DQ.avail. rewrite Hsh, Hidx, Eq. simpl. rewrite Ei, Ea, <- Eh.
    apply index_insert_eq, (index_lt _ SIZE); [apply I|apply Z.mod_pos_bound; lia]. }
  { rewrite Eh. apply Hri. }
  { unfold DQ.desc. rewrite Hsh, Eq. apply Hri. }
  { intros i Hi. apply (inv_range SIZE I). rewrite Hfl. set_solver. }
  { apply Forall_forall. intros s Hs.
    assert (item_ok (seg_item s)) as (Hn0 & Hf32 & Hb).
    { rewrite <- Hit in Hok. apply (proj1 (Forall_forall _ _) Hok), list_elem_of_fmap. eauto. }
    simpl in *. unfold fits in Hf32. split; [lia|]. split; [|done].
    apply (Hmap _ _ s.2). destruct s as [[pa b] d]. by apply Hsh'. }
  { lia. }
  exists segs. do 3 eexists. split; [exact Hpop|]. split_and!; try done.
  simpl. rewrite Hidx, Eq. simpl. by rewrite Ei.
Qed.

(** ** From the device back to the driver *)

(** The device queue after it has returned chain [h]. *)
Definition returned (h len : Z) (dq : DQ.DeviceVirtQueue) : DQ.DeviceVirtQueue :=
  let u := DQ.used dq in
  let l' := wrapping_add 16 (DQ.last_used_idx dq) 1 in
  DQ.set_used (mkUsedRing (us_flags u) l'
      (<[Z.to_nat (DQ.last_used_idx dq mod SIZE) := mkUsedElem h (wrap 32 len)]> (us_ring u))
      (us_avail_event u))
    (DQ.set_last_used_idx l' dq).

Lemma add_used_run h len dq (dw : DW) : SIZE_OK SIZE = true → shared_ok SIZE (DQ.shared dq) →
  DQ.add_used SIZE h len (dq, dw) = (Val tt, (returned h len dq, dw)).
Proof.
  intros HS Hsh. pose proof (SIZE_OK_eq _ HS) as (k & _ & _ & HSr).
  unfold DQ.add_used. mstep. cbn [fst snd].
  destruct (mask_slot SIZE (DQ.last_used_idx dq) HS) as [-> _].
  destruct (index_lt (us_ring (DQ.used dq)) SIZE (DQ.last_used_idx dq mod SIZE)) as [e He];
    [apply Hsh|apply Z.mod_pos_bound; lia|].
  rewrite He. done.
Qed.

Lemma shared_ok_returned h len dq :
  shared_ok SIZE (DQ.shared dq) → shared_ok SIZE (DQ.shared (returned h len dq)).
Proof. intros []. split; simpl; rewrite ?length_insert; done. Qed.

(** The driver finds the chain the device returned. *)
Lemma spec_pop_returned q h len dq :
  SIZE_OK SIZE = true → shared_ok SIZE (DQ.shared dq) →
  DQ.last_used_idx dq = VQ.last_used_idx q → 0 ≤ h < SIZE →
  spec_pop SIZE (VQ.set_shared (DQ.shared (returned h len dq)) q) h = Ok (wrap 32 len).
Proof.
  intros HS Hsh Hl Hh. pose proof (SIZE_OK_eq _ HS) as (k & _ & _ & HSr).
  unfold spec_pop, next_used, VQ.can_pop, VQ.used. simpl. rewrite Hl.
  rewrite (proj2 (Z.eqb_neq _ _)) by (apply not_eq_sym; by apply wrap_succ_ne). cbn [negb].
  rewrite index_insert_eq.
  - simpl. rewrite wrap_small by (unfold fits; lia). by rewrite Z.eqb_refl.
  - apply (index_lt _ SIZE); [apply Hsh|apply Z.mod_pos_bound; lia].
Qed.

(** C10. What the device returns is what the driver pops. When both sides agree on the used
    index and the device returns a chain that is in flight, the driver's next [pop_used] with
    that token succeeds with the length the device gave (its low 32 bits), the token is free
    again, and the two sides still agree on the used index. *)
Theorem device_return_driver_pop q (w : W) fl infl rest token r len inputs outputs dq (dw : DW) :
  SIZE_OK SIZE = true → inv SIZE q w fl infl rest →
  infl !! token = Some r → req_items r = io_items inputs outputs →
  shared_ok SIZE (DQ.shared dq) → DQ.last_used_idx dq = VQ.last_used_idx q →
  ∃ dq' q' w',
    DQ.add_used SIZE token len (dq, dw) = (Val tt, (dq', dw)) ∧
    VQ.pop_used SIZE token inputs outputs (VQ.set_shared (DQ.shared dq') q, w)
      = (Val (Ok (wrap 32 len)), (q', w')) ∧
    inv SIZE q' w' (req_chain r ++ fl) (delete token infl) rest ∧
    DQ.last_used_idx dq' = VQ.last_used_idx q'.
Proof.
  intros HS I Hr Hit Hsh Hl. destruct (inv_token SIZE I token r Hr) as [_ Ht].
  set (q1 := VQ.set_shared (DQ.shared (returned token len dq)) q).
  assert (inv SIZE q1 w fl infl rest) as I1.
  { pose proof (shared_ok_returned token len dq Hsh). destruct I. by split. }
  destruct (pop_ok_run SIZE q1 w fl infl rest token r (wrap 32 len) inputs outputs)
    as (q0 & w' & Hpop & I' & (sh & de & lists & Hq0 & _) & _); try done.
  { by apply spec_pop_returned. }
  exists (returned token len dq), (consume q0), w'. split_and!; try done.
  - by apply add_used_run.
  - rewrite Hq0. unfold consume. simpl. rewrite Hl. by destruct (VQ.event_idx q).
Qed.
End handover.

(** ** Serving requests *)

Section serve.
Context `{Profile} {DW : Type} `{DeviceHalSpec DW} `{MemorySpec DW}.
Context {T : Type} `{DeviceTransport T DW}.
Context (SIZE : Z).
Implicit Types (dq : DQ.DeviceVirtQueue) (dw : DW) (t : T).

Lemma read_all_run bs dw : DQ.read_all bs dw = (Val (bs ≫= bytes_of dw), dw).
Proof.
  induction bs as [|b bs IH]; [done|]. simpl.
  erewrite bind_val by apply mem_read_spec. by erewrite bind_val by exact IH.
Qed.

(** Notifying the driver of queue [idx] works and leaves the device's world alone. *)
Definition notifies (idx : Z) t : Prop :=
  ∀ dw, ∃ t', dt_notify idx (t, dw) = (Val tt, (t', dw)).

Lemma notify_driver_run dq t dw : notifies (DQ.queue_idx dq) t →
  ∃ t', DQ.notify_driver (dq, (t, dw)) = (Val tt, (dq, (t', dw))).
Proof.
  intros Hn. unfold DQ.notify_driver. mstep. cbn [fst snd].
  destruct (DQ.should_notify dq); [|by exists t].
  destruct (Hn dw) as (t' & E). exists t'. by apply on_snd_val.
Qed.

(** C29. [poll] on a device queue whose next chain has only buffers to read calls the handler
    with the bytes of the buffers, one after the other, returns the chain with length 0, and
    gives back the handler's result; the chain is consumed on both rings. *)
Theorem poll_serves {A C} fuel c segs h dq t dw (handler : list Z → M C (Result (option A))) :
  SIZE_OK SIZE = true → shared_ok SIZE (DQ.shared dq) →
  length (DQ.desc_mapped dq) = Z.to_nat SIZE → DQ.can_pop dq = true →
  index (av_ring (DQ.avail dq)) (DQ.avail_idx dq mod SIZE) = Some h →
  head c = Some h → chain_segs (DQ.desc dq) c segs → (∀ i, i ∈ c → 0 ≤ i < SIZE) →
  Forall seg_mappable segs → Forall (λ s, is_read s = true) segs → (length c ≤ fuel)%nat →
  notifies (DQ.queue_idx dq) t →
  ∃ dw1 dq' t',
    (∀ x r x', handler ((seg_buffer <$> segs) ≫= bytes_of dw1) x = (Val r, x') →
      DQ.poll SIZE fuel handler (x, (dq, (t, dw))) = (Val r, (x', (dq', (t', dw1))))) ∧
    DQ.avail_idx dq' = wrapping_add 16 (DQ.avail_idx dq) 1 ∧
    DQ.last_used_idx dq' = wrapping_add 16 (DQ.last_used_idx dq) 1 ∧
    us_idx (DQ.used dq') = DQ.last_used_idx dq' ∧
    us_ring (DQ.used dq') =
      <[Z.to_nat (DQ.last_used_idx dq mod SIZE) := mkUsedElem h 0]> (us_ring (DQ.used dq)) ∧
    DQ.desc dq' = DQ.desc dq ∧ DQ.avail dq' = DQ.avail dq.
Proof.
  intros HS Hsh Hlen Hcp Hav Hh Hc Hr Hm Hrd Hf Hnot.
  destruct (filter_all true segs Hrd) as [E1 E2]. simpl in E2.
  destruct (pop_avail_run SIZE fuel c segs h dq dw) as (m & dw1 & Hpop & Hlen'); try done.
  { rewrite <- (app_nil_r segs). by apply reads_first_app. }
  set (dq1 := DQ.set_avail_idx _ _) in Hpop.
  destruct (notify_driver_run (returned SIZE h 0 dq1) t dw1) as (t' & Hn); [done|].
  exists dw1, (returned SIZE h 0 dq1), t'. split; [|by split_and!].
  intros x r x' Hx. unfold DQ.poll.
  erewrite try_ok by (apply on_snd_val, zoom_val; exact Hpop). cbv beta iota.
  cbn [DQ.write_buffers DQ.read_buffers DQ.db_head]. unfold seg_writes, seg_reads.
  rewrite E1, E2. cbn [fmap list_fmap]. rewrite bool_decide_eq_true_2 by done. cbn [negb].
  erewrite bind_val by (apply on_snd_val, on_snd_val, on_snd_val; apply read_all_run).
  erewrite bind_val by (apply on_fst_val; exact Hx).
  erewrite bind_val by (apply on_snd_val, zoom_val; apply add_used_run; [done|exact Hsh]).
  cbn. by erewrite bind_val by (apply on_snd_val; exact Hn).
Qed.

Definition total (inputs : list (list Z)) : Z := Z.of_nat (length (mjoin inputs)).

Lemma copy_inputs_run out inputs : ∀ copied dq dw,
  0 ≤ copied → copied + total inputs ≤ s_len out → s_len out < 2 ^ 64 →
  ∃ dw', DQ.copy_inputs out copied inputs (dq, dw) =
      (Val (copied + total inputs), (dq, dw')) ∧
    ∀ x, byte_at dw' x =
      (if decide (s_ptr out + copied ≤ x < s_ptr out + copied + total inputs)
       then default 0 (mjoin inputs !! Z.to_nat (x - (s_ptr out + copied))) else byte_at dw x).
Proof.
  unfold total. induction inputs as [|l inputs IH]; intros copied dq dw Hc Ht Hs.
  { exists dw. simpl in *. split; [by rewrite Z.add_0_r|]. intros x. case_decide; [lia|done]. }
  simpl in *. rewrite length_app, Nat2Z.inj_add in Ht.
  unfold add_u. erewrite bind_val by (apply arith_fits; unfold fits; lia).
  rewrite (proj2 (Z.leb_le _ _)) by lia. mstep.
  destruct (mem_write_spec (s_ptr out + copied) l dw) as (dw1 & Hw & Hb).
  erewrite bind_val by (apply on_snd_val; exact Hw).
  destruct (IH (copied + Z.of_nat (length l)) dq dw1) as (dw' & Hrun & Hb'); try lia.
  exists dw'. rewrite Hrun. split; [do 2 f_equal; rewrite length_app; lia|].
  intros x. rewrite Hb', Hb, length_app, Nat2Z.inj_add.
  repeat case_decide; try lia; try done.
  - rewrite lookup_app_r by lia. do 2 f_equal. lia.
  - by rewrite lookup_app_l by lia.
Qed.

Lemma bytes_of_written out inputs dw :
  (∀ x, s_ptr out ≤ x < s_ptr out + total inputs →
    byte_at dw x = default 0 (mjoin inputs !! Z.to_nat (x - s_ptr out))) →
  bytes_of dw (mkSlice (s_ptr out) (total inputs)) = mjoin inputs.
Proof.
  intros Hb. unfold bytes_of, total in *. simpl. apply list_eq. intros i.
  rewrite list_lookup_fmap. destruct (decide (i < length (mjoin inputs))%nat) as [Hi|Hi].
  - rewrite lookup_seqZ_lt by lia. simpl. rewrite Hb by lia.
    destruct (lookup_lt_is_Some_2 _ _ Hi) as [z Hz].
    replace (Z.to_nat (s_ptr out + Z.of_nat i - s_ptr out)) with i by lia. by rewrite Hz.
  - rewrite lookup_seqZ_ge by lia. symmetry. apply lookup_ge_None. lia.
Qed.

(** C30. [wait_pop_add_notify] on a device queue whose next chain has only buffers to write, the
    first of which is large enough: the inputs are in that buffer, one after the other, and
    the chain is returned with their total length. *)
Theorem wait_pop_add_notify_serves step fuel c s0 segs h dq t dw inputs :
  SIZE_OK SIZE = true → shared_ok SIZE (DQ.shared dq) →
  length (DQ.desc_mapped dq) = Z.to_nat SIZE → DQ.can_pop dq = true →
  index (av_ring (DQ.avail dq)) (DQ.avail_idx dq mod SIZE) = Some h →
  head c = Some h → chain_segs (DQ.desc dq) c (s0 :: segs) → (∀ i, i ∈ c → 0 ≤ i < SIZE) →
  Forall seg_mappable (s0 :: segs) → Forall (λ s, is_read s = false) (s0 :: segs) →
  (length c ≤ fuel)%nat → notifies (DQ.queue_idx dq) t → total inputs ≤ s_len s0.1.2 →
  ∃ dw' dq' t', DQ.wait_pop_add_notify SIZE step fuel inputs (dq, (t, dw)) =
      (Val (Ok tt), (dq', (t', dw'))) ∧
    bytes_of dw' (mkSlice (s_ptr (seg_buffer s0)) (total inputs)) = mjoin inputs ∧
    DQ.avail_idx dq' = wrapping_add 16 (DQ.avail_idx dq) 1 ∧
    us_idx (DQ.used dq') = wrapping_add 16 (DQ.last_used_idx dq) 1 ∧
    us_ring (DQ.used dq') =
      <[Z.to_nat (DQ.last_used_idx dq mod SIZE) := mkUsedElem h (total inputs)]>
        (us_ring (DQ.used dq)).
Proof.
  intros HS Hsh Hlen Hcp Hav Hh Hc Hr Hm Hwr Hf Hnot Htot.
  destruct (filter_all false (s0 :: segs) Hwr) as [E1 E2]. cbn [negb] in E2.
  destruct (pop_avail_run SIZE fuel c (s0 :: segs) h dq dw) as (m & dw1 & Hpop & Hlen'); try done.
  { apply (reads_first_app []); [by constructor|done]. }
  set (dq1 := DQ.set_avail_idx _ _) in Hpop.
  assert (0 ≤ total inputs) as Ht0 by (unfold total; lia).
  apply Forall_cons in Hm as [(Hl0 & _ & _) _].
  destruct (copy_inputs_run (seg_buffer s0) inputs 0 dq1 dw1) as (dw2 & Hcopy & Hb); simpl; try lia.
  destruct (notify_driver_run (returned SIZE h (total inputs) dq1) t dw2) as (t' & Hn); [done|].
  exists dw2, (returned SIZE h (total inputs) dq1), t'. split; [|split_and!; try done].
  - unfold DQ.wait_pop_add_notify.
    destruct fuel as [|fuel]; [destruct c; simpl in *; [done|lia]|].
    erewrite bind_val.
    2:{ apply zoom_val. simpl. mstep. cbn [fst snd]. rewrite Hcp. reflexivity. }
    erewrite try_ok by (apply zoom_val; exact Hpop). cbn [unwrap]. mstep.
    cbn [DQ.write_buffers DQ.read_buffers DQ.db_head]. unfold seg_writes, seg_reads.
    rewrite E1, E2. cbn [fmap list_fmap]. rewrite bool_decide_eq_true_2 by done. cbn [negb].
    erewrite bind_val by (apply zoom_val; exact Hcopy). cbn.
    erewrite bind_val by (apply zoom_val; apply add_used_run; [done|exact Hsh]).
    cbn. by erewrite bind_val by exact Hn.
  - apply (bytes_of_written (seg_buffer s0)). intros x Hx. rewrite Hb. simpl in Hx |- *. rewrite Z.add_0_r.
    by rewrite decide_True by lia.
  - simpl. rewrite wrap_small by (unfold fits; lia). done.
Qed.

(** ** Chains the driver should not send *)

Lemma peek_avail_run h dq dw : SIZE_OK SIZE = true → DQ.can_pop dq = true →
  index (av_ring (DQ.avail dq)) (DQ.avail_idx dq mod SIZE) = Some h →
  DQ.peek_avail SIZE (dq, dw) = (Val (Some h), (dq, dw)).
Proof.
  intros HS Hcp Hav. unfold DQ.peek_avail. mstep. cbn [fst snd]. rewrite Hcp. mstep. cbn [fst snd].
  destruct (mask_slot SIZE (DQ.avail_idx dq) HS) as [-> _]. by rewrite Hav.
Qed.

(** A chain that loops makes the device loop: when the head descriptor leads to itself,
    [pop_avail] does not return, however much fuel it is given. *)
Theorem pop_avail_cycle h s dq dw :
  SIZE_OK SIZE = true → DQ.can_pop dq = true →
  index (av_ring (DQ.avail dq)) (DQ.avail_idx dq mod SIZE) = Some h →
  index (DQ.desc dq) h = Some (seg_desc true h s) → seg_mappable s → is_read s = true →
  is_Some (index (DQ.desc_mapped dq) h) →
  ∀ fuel, ∃ st, DQ.pop_avail SIZE fuel (dq, dw) = (Hang, st).
Proof.
  intros HS Hcp Hav Hd Hm Hrd Hs fuel. unfold DQ.pop_avail.
  erewrite bind_val by by apply peek_avail_run. cbv beta iota.
  assert (∀ fuel reads dq dw, index (DQ.desc dq) h = Some (seg_desc true h s) →
    is_Some (index (DQ.desc_mapped dq) h) →
    ∃ st, DQ.pop_avail_loop fuel (Some h) reads [] (dq, dw) = (Hang, st)) as Hloop.
  { clear -Hm Hrd H1. intros fuel. induction fuel as [|fuel IH]; intros reads dq dw Hd Hs; [by eexists|].
    destruct (pop_avail_step_run h true h s reads [] dq dw) as (m & w1 & Hst & Hlen); try done.
    cbn [DQ.pop_avail_loop]. erewrite try_ok by exact Hst. rewrite Hrd. cbn beta iota.
    apply IH; [done|]. apply lookup_lt_is_Some. simpl. rewrite Hlen. by apply lookup_lt_is_Some. }
  destruct (Hloop fuel [] dq dw Hd Hs) as [st Hst]. exists st.
  by apply try_hang.
Qed.

(** A driver can make the device panic: with a head descriptor that has the [INDIRECT] flag,
    and with an empty one. *)
Theorem pop_avail_panics h d dq dw fuel :
  SIZE_OK SIZE = true → DQ.can_pop dq = true →
  index (av_ring (DQ.avail dq)) (DQ.avail_idx dq mod SIZE) = Some h →
  index (DQ.desc dq) h = Some d → index (DQ.desc_mapped dq) h = Some None →
  contains (d_flags d) DescFlags.INDIRECT = true ∨
    (d_len d = 0 ∧ mappable (d_addr d) 0) →
  ∃ st, DQ.pop_avail SIZE (S fuel) (dq, dw) = (Panic, st).
Proof.
  intros HS Hcp Hav Hd Hs Hbad. unfold DQ.pop_avail.
  erewrite bind_val by by apply peek_avail_run. cbv beta iota. cbn [DQ.pop_avail_loop].
  enough (∃ st, DQ.pop_avail_step h [] [] (dq, dw) = (Panic, st)) as [st Hst].
  { exists st. by apply try_panic, try_panic. }
  unfold DQ.pop_avail_step, DQ.read_desc.
  erewrite try_ok by (mstep; cbn [fst snd]; rewrite Hd; reflexivity).
  destruct (contains (d_flags d) DescFlags.INDIRECT) eqn:Ei; cbn [negb]; [by eexists|].
  destruct Hbad as [?|[Hl Hm]]; [done|]. mstep. cbn [fst snd]. rewrite Hs. mstep.
  destruct (map_buf_run d (DQ.client_id dq) dw) as (dw1 & Hmap); [by rewrite Hl|].
  erewrite try_ok by (apply on_snd_val; exact Hmap). mstep.
  eexists. apply bind_panic. unfold raw_slice, DeviceDma_memory, DeviceDma.raw_slice.
  apply bind_panic. unfold DeviceDma.vaddr. cbn. rewrite Hl. done.
Qed.

(** A chain can get lost: when the next chain has only buffers to read,
    [wait_pop_add_notify] returns [NotReady] after it has taken the chain off the available
    ring, and does not return it on the used ring. *)
Theorem wait_pop_add_notify_loses step fuel c segs h dq t dw inputs :
  SIZE_OK SIZE = true → shared_ok SIZE (DQ.shared dq) →
  length (DQ.desc_mapped dq) = Z.to_nat SIZE → DQ.can_pop dq = true →
  index (av_ring (DQ.avail dq)) (DQ.avail_idx dq mod SIZE) = Some h →
  head c = Some h → chain_segs (DQ.desc dq) c segs → (∀ i, i ∈ c → 0 ≤ i < SIZE) →
  Forall seg_mappable segs → Forall (λ s, is_read s = true) segs → (length c ≤ fuel)%nat →
  ∃ dw' dq', DQ.wait_pop_add_notify SIZE step fuel inputs (dq, (t, dw)) =
      (Val (Err NotReady), (dq', (t, dw'))) ∧
    DQ.avail_idx dq' = wrapping_add 16 (DQ.avail_idx dq) 1 ∧ DQ.shared dq' = DQ.shared dq ∧
    DQ.last_used_idx dq' = DQ.last_used_idx dq.
Proof.
  intros HS Hsh Hlen Hcp Hav Hh Hc Hr Hm Hrd Hf.
  destruct (filter_all true segs Hrd) as [_ E2]. cbn [negb] in E2.
  destruct (pop_avail_run SIZE fuel c segs h dq dw) as (m & dw1 & Hpop & Hlen'); try done.
  { rewrite <- (app_nil_r segs). by apply reads_first_app. }
  exists dw1. eexists. split.
  { unfold DQ.wait_pop_add_notify.
    destruct fuel as [|fuel]; [destruct c; simpl in *; [done|lia]|].
    erewrite bind_val.
    2:{ apply zoom_val. simpl. mstep. cbn [fst snd]. rewrite Hcp. reflexivity. }
    erewrite try_ok by (apply zoom_val; exact Hpop). cbn [unwrap]. mstep.
    cbn [DQ.write_buffers]. unfold seg_writes. by rewrite E2. }
  done.
Qed.
End serve.

(** ** Concrete instances *)

(** [FakeHal] maps the identity, in the whole address space. *)
#[global] Program Instance fake_device_hal_spec : DeviceHalSpec FakeHal.World := {|
  translate := λ pa, pa;
  mappable := λ pa n, 0 < pa ∧ pa + n * PAGE_SIZE < 2 ^ 64
|}.
Next Obligation. done. Qed.
Next Obligation.
  intros pa n d cid w [Hpa _]. exists w. simpl. unfold FakeHal.dma_map.
  by rewrite (proj2 (Z.eqb_neq _ _)) by lia.
Qed.
Next Obligation. intros pa va n w. by exists w. Qed.

Section witnesses.
Import Bench.

(** The driver's memory after an [add], and a device queue on the same memory. *)
Definition added_state (i o : list Slice) : VQ.VirtQueue * FakeHal.World :=
  (VQ.add 4 i o (q0, w0)).2.
Definition device_on (sh : Shared) : DQ.DeviceVirtQueue :=
  DQ.mkDeviceVirtQueue (Modern (DeviceDma.mkDeviceDma 4096 4096 1 0)
    (DeviceDma.mkDeviceDma 8192 8192 1 0) (desc_bytes 4)) sh 0 0 0 (replicate 4 None) 0.

Lemma added_state_mappable pa b d :
  Share (pa, b, d) ∈ held (added_state [in1; in2] [out1]).2 → mappable pa (pages (s_len b)).
Proof.
  assert (held (added_state [in1; in2] [out1]).2 =
    [Share (FakeHal.addr 3, out1, DeviceToDriver); Share (FakeHal.addr 2, in2, DriverToDevice);
     Share (FakeHal.addr 1, in1, DriverToDevice)]) as -> by (vm_compute; reflexivity).
  rewrite !elem_of_cons, elem_of_nil. intros Hin. simpl. unfold PAGE_SIZE.
  destruct Hin as [Hin|[Hin|[Hin|[]]]]; injection Hin as -> -> _; vm_compute; split; congruence.
Qed.

Lemma driver_add_device_pop_witness : ∃ bufs st,
  DQ.pop_avail 4 3 (device_on (VQ.shared (added_state [in1; in2] [out1]).1), w0)
    = (Val (Ok (Some bufs)), st) ∧ DQ.db_head bufs = 0.
Proof.
  destruct (driver_add_device_pop 4 q0 w0 (seqZ 0 4) ∅ [] [in1; in2] [out1] 0
    (added_state [in1; in2] [out1]).1 (added_state [in1; in2] [out1]).2
    (device_on (VQ.shared (added_state [in1; in2] [out1]).1)) w0 3 eq_refl q0_inv items_ok eq_refl)
    as (segs & bufs & dq' & dw' & Hpop & _ & _ & Hb & _).
  - vm_compute. reflexivity.
  - reflexivity.
  - reflexivity.
  - reflexivity.
  - exact added_state_mappable.
  - simpl. lia.
  - exists bufs, (dq', dw'). split; [exact Hpop|]. rewrite Hb. reflexivity.
Defined.

Lemma device_return_driver_pop_witness : ∃ dq' q' w',
  DQ.add_used 4 0 8 (device_on (VQ.shared q2), w0) = (Val tt, (dq', w0)) ∧
  VQ.pop_used 4 0 [in1; in2] [out1] (VQ.set_shared (DQ.shared dq') q2, s1.2)
    = (Val (Ok 8), (q', w')).
Proof.
  destruct q2_inv as (fl & r & I & Hit).
  destruct (device_return_driver_pop 4 q2 s1.2 fl {[0 := r]} [] 0 r 8 [in1; in2] [out1]
    (device_on (VQ.shared q2)) w0 eq_refl I (lookup_singleton_eq 0 r) Hit
    (inv_shared _ _ _ _ _ _ I) eq_refl) as (dq' & q' & w' & Hret & Hpop & _).
  exists dq', q', w'. split; [exact Hret|exact Hpop].
Defined.

(** The segments of two requests: one the device reads, one it writes. *)
Definition read_segs : list Seg :=
  [(FakeHal.addr 1, in1, DriverToDevice); (FakeHal.addr 2, in2, DriverToDevice)].
Definition write_seg : Seg := (FakeHal.addr 1, out1, DeviceToDriver).
Definition dq_read : DQ.DeviceVirtQueue := device_on (VQ.shared (added_state [in1; in2] []).1).
Definition dq_write : DQ.DeviceVirtQueue := device_on (VQ.shared (added_state [] [out1]).1).

Lemma read_chain : chain_segs (DQ.desc dq_read) [0; 1] read_segs.
Proof.
  split; [exists 1|split; [exists 2|done]]; (split; [vm_compute; reflexivity|]); by intros ? [= <-].
Qed.

Lemma write_chain : chain_segs (DQ.desc dq_write) [0] [write_seg].
Proof. split; [exists 1|done]. split; [vm_compute; reflexivity|done]. Qed.

Lemma dq_shared_ok : shared_ok 4 (DQ.shared dq_read) ∧ shared_ok 4 (DQ.shared dq_write).
Proof. split; split; vm_compute; reflexivity. Qed.

Lemma read_segs_ok : Forall seg_mappable read_segs ∧ Forall (λ s, is_read s = true) read_segs.
Proof.
  split; repeat constructor; try done; vm_compute; congruence.
Qed.

Lemma write_seg_ok : Forall seg_mappable [write_seg] ∧ Forall (λ s, is_read s = false) [write_seg].
Proof. split; repeat constructor; try done; vm_compute; congruence. Qed.

Lemma t0_notifies : notifies (DW := FakeHal.World) 0 t0.
Proof. intros w. by eexists. Qed.

Lemma chain_range c : (c = [0; 1] ∨ c = [0]) → ∀ i, i ∈ c → 0 ≤ i < 4.
Proof. intros [-> | ->] i; set_unfold; lia. Qed.

Lemma poll_serves_witness : ∃ b dq' t' w',
  DQ.poll 4 2 (λ b, mret (Ok (Some b))) (tt, (dq_read, (t0, w0))) = (Val (Ok (Some b)), (tt, (dq', (t', w')))).
Proof.
  destruct (poll_serves 4 2 [0; 1] read_segs 0 dq_read t0 w0 (λ b, mret (M := M unit) (Ok (Some b))) eq_refl
    (proj1 dq_shared_ok) eq_refl eq_refl eq_refl eq_refl read_chain (chain_range _ (or_introl eq_refl))
    (proj1 read_segs_ok) (proj2 read_segs_ok) (le_n _) t0_notifies)
    as (w1 & dq' & t' & Hrun & _).
  do 4 eexists. apply Hrun. reflexivity.
Defined.

Lemma wait_pop_add_notify_serves_witness : ∃ dq' t' w',
  DQ.wait_pop_add_notify 4 pair 1 [[1; 2]; [3]] (dq_write, (t0, w0)) = (Val (Ok tt), (dq', (t', w')))
  ∧ bytes_of w' (mkSlice (FakeHal.addr 1) 3) = [1; 2; 3].
Proof.
  destruct (wait_pop_add_notify_serves 4 pair 1 [0] write_seg [] 0 dq_write t0 w0 [[1; 2]; [3]] eq_refl
    (proj2 dq_shared_ok) eq_refl eq_refl eq_refl eq_refl write_chain (chain_range _ (or_intror eq_refl))
    (proj1 write_seg_ok) (proj2 write_seg_ok) (le_n _) t0_notifies)
    as (w' & dq' & t' & Hrun & Hb & _); [vm_compute; congruence|].
  exists dq', t', w'. split; [exact Hrun|exact Hb].
Defined.

(** A chain of one descriptor that leads to itself. *)
Definition dq_cycle : DQ.DeviceVirtQueue :=
  device_on (mkShared (<[0%nat := seg_desc true 0 (FakeHal.addr 1, in1, DriverToDevice)]>
      (DQ.desc dq_read)) (DQ.avail dq_read) (DQ.used dq_read)).

Lemma pop_avail_cycle_witness : ∃ st, DQ.pop_avail 4 1000 (dq_cycle, w0) = (Hang, st).
Proof.
  apply (pop_avail_cycle 4 0 (FakeHal.addr 1, in1, DriverToDevice) dq_cycle w0 eq_refl).
  - vm_compute. reflexivity.
  - vm_compute. reflexivity.
  - vm_compute. reflexivity.
  - exact (Forall_inv (proj1 read_segs_ok)).
  - reflexivity.
  - eexists. reflexivity.
Defined.

(** The device on a driver's queue with indirect descriptors. *)
Lemma pop_avail_panics_witness : ∃ st,
  DQ.pop_avail 4 2 (device_on (VQ.shared (VQ.add 4 [in1; in2] [] (qi, w0)).2.1), w0) = (Panic, st).
Proof.
  eapply (pop_avail_panics 4 0); [reflexivity|vm_compute; reflexivity|vm_compute; reflexivity
    |vm_compute; reflexivity|reflexivity|left; reflexivity].
Defined.

Lemma wait_pop_add_notify_loses_witness : ∃ dq' w',
  DQ.wait_pop_add_notify 4 pair 2 [[1]] (dq_read, (t0, w0)) = (Val (Err NotReady), (dq', (t0, w')))
  ∧ us_idx (DQ.used dq') = 0.
Proof.
  destruct (wait_pop_add_notify_loses 4 pair 2 [0; 1] read_segs 0 dq_read t0 w0 [[1]] eq_refl
    (proj1 dq_shared_ok) eq_refl eq_refl eq_refl eq_refl read_chain (chain_range _ (or_introl eq_refl))
    (proj1 read_segs_ok) (proj2 read_segs_ok) (le_n _))
    as (w' & dq' & Hrun & _ & Hsh & _).
  exists dq', w'. split; [exact Hrun|]. unfold DQ.used. rewrite Hsh. vm_compute. reflexivity.
Defined.
End witnesses.
