(* ===== verification/Owning.v ===== *)
(** * A queue that owns its buffers

    [src/src/queue/owning.rs], [OwningQueue]: a virtqueue all of whose descriptors stand for
    receive buffers it allocated; a used buffer is passed to a handler and put back. *)

From S2P Require Import Prelude Base Transport QueueData Queue.
Module VQ := Queue.VirtQueue.

Module OwningQueue.

Record OwningQueue := mkOwningQueue { queue : VQ.VirtQueue; buffers : list Z }.

Definition set_queue (v : VQ.VirtQueue) (o : OwningQueue) : OwningQueue :=
  mkOwningQueue v (buffers o).

Section owning.
Context `{Profile} {W : Type} `{Hal W} `{Allocator W} `{Mem W}.
Context (SIZE BUFFER_SIZE : Z).

(** Dropping a virtqueue frees its DMA regions. *)
Definition drop_queue (q : VQ.VirtQueue) : M W unit :=
  match VQ.layout q with
  | Legacy dma _ _ => Dma.drop dma
  | Modern d1 d2 _ => Dma.drop d1;; Dma.drop d2
  end.

(** The loop of [new], from buffer [i] on, with [n] buffers left. When [add] fails, the buffer
    of this round and the queue are dropped; the buffers of the rounds before are not. *)
Fixpoint new_loop (n : nat) (i : Z) (bufs : list Z) : M (VQ.VirtQueue * W) (Result (list Z)) :=
  match n with
  | O => mret (Ok bufs)
  | S n =>
    box ← on_snd (box_new BUFFER_SIZE);
    buffer ← unwrap box;
    r ← VQ.add SIZE [] [mkSlice buffer BUFFER_SIZE];
    match r with
    | Err e =>
        on_snd (box_drop buffer BUFFER_SIZE);;
        q ← gets fst;
        on_snd (drop_queue q);;
        mret (Err e)
    | Ok token =>
        assert (i =? token);;
        new_loop n (i + 1) (bufs ++ [buffer])
    end
  end.

(** [NonNull::new(ptr).unwrap()] for each pointer. *)
Definition nonnull (bufs : list Z) : M (VQ.VirtQueue * W) unit :=
  assert (forallb (λ p, negb (p =? 0)) bufs).

(** The queue is moved into [new] and into the result. *)
Definition new : M (VQ.VirtQueue * W) (Result OwningQueue) :=
  bufs ←? new_loop (Z.to_nat SIZE) 0 [];
  nonnull bufs;;
  q ← gets fst;
  mret (Ok (mkOwningQueue q bufs)).

Definition should_notify (o : OwningQueue) : bool := VQ.should_notify (queue o).

(** An operation of the inner queue. *)
Definition owning_lens {A} : lens (OwningQueue * A) (VQ.VirtQueue * A) :=
  {| view := λ s, (queue s.1, s.2); update := λ a s, (set_queue a.1 s.1, a.2) |}.
Definition inner {A B} (c : M (VQ.VirtQueue * A) B) : M (OwningQueue * A) B :=
  zoom owning_lens c.

Definition set_dev_notify (enable : bool) : M (OwningQueue * W) unit :=
  inner (VQ.set_dev_notify enable).

(** The slice [&buffer[0..len]] and the token. *)
Definition pop : M (OwningQueue * W) (Result (option (Slice * Z))) :=
  t ← inner (VQ.peek_used SIZE);
  match t with
  | None => mret (Ok None)
  | Some token =>
    bufs ← gets (λ s, buffers s.1);
    buffer ← unwrap (index bufs token);
    len ←? inner (VQ.pop_used SIZE token [] [mkSlice buffer BUFFER_SIZE]);
    assert (len <=? BUFFER_SIZE);;
    mret (Ok (Some (mkSlice buffer len, token)))
  end.

Definition world_lens {T} : lens (OwningQueue * (T * W)) (OwningQueue * W) :=
  {| view := λ s, (s.1, s.2.2); update := λ a s, (a.1, (s.2.1, a.2)) |}.

Definition add_buffer_to_queue {T} `{Transport T W} (i : Z)
    : M (OwningQueue * (T * W)) (Result unit) :=
  bufs ← gets (λ s, buffers s.1);
  match index bufs i with
  | None => mret (Err WrongToken)
  | Some buffer =>
    new_token ←? zoom world_lens (inner (VQ.add SIZE [] [mkSlice buffer BUFFER_SIZE]));
    assert (new_token =? i);;
    o ← gets fst;
    (if should_notify o then on_snd (notify (VQ.queue_idx (queue o))) else mret tt);;
    mret (Ok tt)
  end.

(** [C] is the state the handler captures. *)
Definition poll {T A C} `{Transport T W} (handler : list Z → M C (Result (option A)))
    : M (C * (OwningQueue * (T * W))) (Result (option A)) :=
  p ←? on_snd (zoom world_lens pop);
  match p with
  | None => mret (Ok None)
  | Some (buffer, token) =>
    bytes ← on_snd (on_snd (on_snd (mem_read buffer)));
    result ← on_fst (handler bytes);
    _ ←? on_snd (add_buffer_to_queue token);
    mret result
  end.

(** [Drop]: the buffers, then the queue. *)
Fixpoint drop_buffers (bufs : list Z) : M W unit :=
  match bufs with
  | [] => mret tt
  | b :: bufs => box_drop b BUFFER_SIZE;; drop_buffers bufs
  end.
Definition drop (o : OwningQueue) : M W unit :=
  drop_buffers (buffers o);; drop_queue (queue o).

End owning.
End OwningQueue.
