(* ===== verification/Driver.v ===== *)
(** * What the drivers share

    The construction of the queues of a driver: a queue that is not yet part of a driver, and
    the queues an early return of a constructor drops; boxed pages and vectors. *)

From S2P Require Import Prelude Base Transport QueueData Queue DeviceQueue Owning.

Section driver.
Context {W T : Type} `{Hal W}.

(** Runs [c] on a queue that is not yet part of a driver. *)
Definition with_queue {A} (q : VQ.VirtQueue) (c : M (VQ.VirtQueue * W) A) : M (T * W) A :=
  λ '(t, w), let '(o, (_, w)) := c (q, w) in (o, (t, w)).

(** The same, keeping the queue as [c] leaves it. *)
Definition with_queue_mut {A} (q : VQ.VirtQueue) (c : M (VQ.VirtQueue * W) A)
    : M (T * W) (A * VQ.VirtQueue) :=
  λ '(t, w), let '(o, (q, w)) := c (q, w) in
  (match o with Val a => Val (a, q) | Panic => Panic | Hang => Hang end, (t, w)).

(** An early return drops the queues created before, in reverse order. *)
Definition or_drop {A B} (c : M (T * W) (Result A)) (created : list VQ.VirtQueue)
    (k : A → M (T * W) (Result B)) : M (T * W) (Result B) :=
  r ← c;
  match r with
  | Ok a => k a
  | Err e =>
    foldr (λ q rest, on_snd (OwningQueue.drop_queue q);; rest) (mret tt) created;; mret (Err e)
  end.
End driver.

Section memory.
Context {W : Type} `{Allocator W} `{Mem W}.

(** A boxed page of zeros ([Box::new([0; PAGE_SIZE])], or
    [FromZeros::new_box_zeroed_with_elems(PAGE_SIZE).unwrap()]); without memory the program ends. *)
Definition new_page {T} : M (T * W) Z :=
  p ← on_snd (box_new PAGE_SIZE);
  p ← unwrap p;
  on_snd (mem_write p (replicate (Z.to_nat PAGE_SIZE) 0));;
  mret p.

(** A vector of [n] bytes with the given contents; an empty one is not allocated. *)
Definition vec_new (align : Z) (bytes : list Z) : M W Slice :=
  let n := Z.of_nat (length bytes) in
  if n =? 0 then mret (mkSlice align 0) else
  p ← box_new n;
  p ← unwrap p;
  mem_write p bytes;;
  mret (mkSlice p n).

Definition vec_drop (v : Slice) : M W unit :=
  if s_len v =? 0 then mret tt else box_drop (s_ptr v) (s_len v).
End memory.
