(* ===== verification/Lab.v ===== *)
(** * A laboratory

    A concrete world in which the hypotheses of the drivers' theorems hold: memory shared in
    place, and a device that takes the chains of its queues in order and answers them by a given
    protocol. *)

From S2P Require Import Prelude Base Transport QueueData Queue QueueInv QueueLemmas QueueSpec QueueWait.
From S2P Require Import Serve Single Pipeline FakeTransport QueueNew Layout.
Import VirtQueue.

Module Lab.

Record Lab (D : Type) := mkLab {
  lmem : Z → Z;
  lheld : list Res;
  ldev : D
}.
Arguments mkLab {D} _ _ _.
Arguments lmem {D} _.
Arguments lheld {D} _.
Arguments ldev {D} _.

#[export] Instance Res_eq_dec : EqDecision Res.
Proof. solve_decision. Defined.

Fixpoint remove_one (r : Res) (l : list Res) : list Res :=
  match l with
  | [] => []
  | x :: l => if decide (x = r) then l else x :: remove_one r l
  end.

Lemma remove_one_perm r l l' : l ≡ₚ r :: l' → remove_one r l ≡ₚ l'.
Proof.
  intros Hp. apply (Permutation_cons_inv (a := r)). rewrite <- Hp.
  assert (r ∈ l) as Hr by (rewrite Hp; set_solver). clear Hp l'.
  induction l as [|x l IH]; [set_solver|]. simpl. case_decide as E; [by subst|].
  rewrite Permutation_swap, IH; [done|]. apply elem_of_cons in Hr as [->|]; done.
Qed.

(** Memory is shared in place: the address of a share is that of its buffer. *)
Definition in_place (r : Res) : Res :=
  match r with Share (_, b, d) => Share (s_ptr b, b, d) | r => r end.

Lemma in_place_remove r l : in_place <$> remove_one r (in_place <$> l) = remove_one r (in_place <$> l).
Proof.
  induction l as [|x l IH]; [done|]. rewrite fmap_cons. cbn [remove_one]. case_decide.
  - rewrite <- list_fmap_compose. apply list_fmap_ext. intros i [[[pa b] d]|] _; done.
  - rewrite fmap_cons, IH. f_equal. by destruct x as [[[pa b] d]|].
Qed.

Definition store (a : Z) (l : list Z) (m : Z → Z) : Z → Z := λ x,
  if decide (a ≤ x < a + Z.of_nat (length l)) then default 0 (l !! Z.to_nat (x - a)) else m x.

(** Boxes are allocated one above the other, above the memory of the program. *)
Definition HEAP : Z := 2 ^ 60.
Definition heap_top (l : list Res) : Z :=
  foldr (λ r m, match r with Boxed p n => Z.max m (p + n) | Share _ => m end) HEAP l.

Lemma heap_top_above l : HEAP ≤ heap_top l ∧ ∀ p n, Boxed p n ∈ l → p + n ≤ heap_top l.
Proof.
  induction l as [|r l [IH1 IH2]]; [split; [done|]; intros p n Hp; by apply not_elem_of_nil in Hp|].
  split; [destruct r; simpl; lia|]. intros p n [<-|Hp]%elem_of_cons; simpl; [lia|].
  specialize (IH2 p n Hp). destruct r; lia.
Qed.

Lemma in_place_boxed p n (l : list Res) : Boxed p n ∈ in_place <$> l → Boxed p n ∈ l.
Proof. intros (r & E & Hr)%list_elem_of_fmap. by destruct r as [[[pa b] d]|]; [|injection E as -> ->]. Qed.

Lemma store_bytes p l m : store p l m <$> seqZ p (Z.of_nat (length l)) = l.
Proof.
  apply list_eq. intros i. rewrite list_lookup_fmap. destruct (decide (i < length l)%nat) as [Hi|Hi].
  - rewrite lookup_seqZ_lt by lia. simpl. unfold store. rewrite decide_True by lia.
    replace (Z.to_nat (p + Z.of_nat i - p)) with i by lia. destruct (lookup_lt_is_Some_2 l i Hi) as [y ->]. done.
  - rewrite lookup_seqZ_ge by lia. symmetry. apply lookup_ge_None. lia.
Qed.

Section lab.
Context {D : Type}.
Abbreviation World := (Lab D).

Definition set_held (f : list Res → list Res) : M World unit :=
  modify (λ w, mkLab (lmem w) (f (lheld w)) (ldev w)).
#[global] Instance lab_hal : Hal World := {|
  dma_alloc n _ := mret (2 ^ 40, 2 ^ 40);
  dma_dealloc _ _ _ := mret 0;
  mmio_phys_to_virt pa _ := mret pa;
  share b d := set_held (cons (Share (s_ptr b, b, d)));; mret (s_ptr b);
  unshare pa b d := set_held (λ l, remove_one (Share (pa, b, d)) (in_place <$> l))
|}.
#[global] Instance lab_allocator : Allocator World := {|
  box_new n := λ w, (Val (Some (heap_top (lheld w))),
    mkLab (lmem w) (Boxed (heap_top (lheld w)) n :: lheld w) (ldev w));
  box_write p l := modify (λ w, mkLab (store p l (lmem w)) (lheld w) (ldev w));
  box_drop p n := set_held (λ l, remove_one (Boxed p n) (in_place <$> l))
|}.

#[global] Instance lab_mem : Mem World := {|
  mem_read b := gets (λ w, lmem w <$> seqZ (s_ptr b) (s_len b));
  mem_write a l := modify (λ w, mkLab (store a l (lmem w)) (lheld w) (ldev w))
|}.

(** Local variables are placed one after the other at the end of the memory. *)
Definition FRAME : Z := 2 ^ 48.
Fixpoint place (a : Z) (vars : list (list Z)) : list Slice :=
  match vars with
  | [] => []
  | v :: vars => mkSlice a (Z.of_nat (length v)) :: place (a + Z.of_nat (length v)) vars
  end.
Fixpoint store_all (bs : list Slice) (vars : list (list Z)) (m : Z → Z) : Z → Z :=
  match bs, vars with
  | b :: bs, v :: vars => store (s_ptr b) v (store_all bs vars m)
  | _, _ => m
  end.
#[global] Instance lab_stack : Stack World := λ vars w,
  (Val (place FRAME vars),
   mkLab (store_all (place FRAME vars) vars (lmem w)) (lheld w) (ldev w)).

#[global, refine] Instance lab_hal_spec : HalSpec World := {| held w := in_place <$> lheld w |}.
Proof.
  - intros b d w _ _. by eexists _, _.
  - intros pa b d w l _ Hp. eexists. split; [done|]. simpl. rewrite in_place_remove. by apply remove_one_perm.
  - intros n w. eexists _, _. split; [|done]. pose proof (heap_top_above (lheld w)) as [Ht _]. unfold HEAP in Ht. lia.
  - intros p l w _. by eexists.
  - intros p n w l Hp. eexists. split; [done|]. simpl. rewrite in_place_remove. by apply remove_one_perm.
Defined.

#[global, refine] Instance lab_memory : MemorySpec World := {| byte_at := lmem |}.
Proof.
  - done.
  - intros a l w. by eexists.
Defined.

#[global, refine] Instance lab_dma : DmaSpec World := {|
  own x := 0 ≤ x < HEAP;
  view w s := bytes_of w s.1.2
|}.
Proof.
  - intros b d w pa w' _ _ _ [= <- <-]. split_and!; done.
  - intros b d w pa w' Hl Ho [= <- <-]. destruct (Ho (s_ptr b)); [unfold in_slice; lia|].
    unfold fits, HEAP in *. lia.
  - intros pa b d w l w' _ _ [= <-]. split; [|done]. intros x _. simpl.
    case_decide as Hx; [|done]. destruct Hx as [_ Hx]. unfold in_slice in Hx. unfold bytes_of.
    rewrite list_lookup_fmap, lookup_seqZ_lt by lia. simpl. f_equal. lia.
  - intros n w p w' [= <- <-]. destruct (heap_top_above (lheld w)) as [Ht1 Ht2]. split_and!; try done.
    + unfold in_slice. simpl. lia.
    + intros p' n' Hp%in_place_boxed x. unfold in_slice. simpl. specialize (Ht2 p' n' Hp). lia.
  - intros p l w w' b _ [= <-]. split_and!; [apply store_bytes| |].
    + intros x _ Hx. simpl. unfold store. by rewrite decide_False.
    + intros s _ Hd. apply bytes_of_ext. intros x Hx. simpl. unfold store. rewrite decide_False; [done|].
      intros Hin. by apply (Hd x).
  - by intros p n w l w' _ [= <-].
Defined.

Lemma store_all_spec bs : ∀ vars m, disjoint_all bs → s_len <$> bs = Z.of_nat ∘ length <$> vars →
  let m' := store_all bs vars m in
  (λ b, m' <$> seqZ (s_ptr b) (s_len b)) <$> bs = vars ∧
  (∀ x, (∀ b, b ∈ bs → ¬ in_slice b x) → m' x = m x).
Proof.
  induction bs as [|b bs IH]; intros [|v vars] m Hd Hl; try done.
  destruct Hd as [Hd Hds]. rewrite !fmap_cons in Hl. injection Hl as Hl Hls.
  destruct (IH vars m Hds Hls) as [B U]. clear IH. cbv zeta. rewrite fmap_cons. simpl. split.
  - f_equal.
    + apply list_eq. intros i. rewrite list_lookup_fmap. destruct (decide (i < length v)%nat) as [Hi|Hi].
      * rewrite lookup_seqZ_lt by (simpl in Hl; lia). simpl. unfold store.
        rewrite decide_True by (simpl in Hl; lia). replace (Z.to_nat (_ - _)) with i by lia.
        destruct (lookup_lt_is_Some_2 v i Hi) as [y ->]. done.
      * rewrite lookup_seqZ_ge by (simpl in Hl; lia). symmetry. apply lookup_ge_None. lia.
    + etrans; [|exact B]. apply list_fmap_ext. intros i c Hc. apply list_fmap_ext. intros j x Hx.
      apply lookup_seqZ in Hx as [-> Hx]. unfold store. rewrite decide_False; [done|]. intros Hin.
      rewrite Forall_forall in Hd. apply (Hd c (list_elem_of_lookup_2 _ _ _ Hc) (s_ptr c + Z.of_nat j));
        unfold in_slice; simpl in Hl; lia.
  - intros x Hx. unfold store. rewrite decide_False; [|intros Hin; apply (Hx b); [by left|unfold in_slice; simpl in Hl; lia]].
    apply U. intros c Hc. apply Hx. by right.
Qed.

Lemma place_spec vars : ∀ a, s_len <$> place a vars = Z.of_nat ∘ length <$> vars ∧
  (∀ b x, b ∈ place a vars → in_slice b x → a ≤ x < a + Z.of_nat (length (mjoin vars))) ∧ disjoint_all (place a vars).
Proof.
  induction vars as [|v vars IH]; intros a.
  { split_and!; try done. intros b x Hb. by apply not_elem_of_nil in Hb. }
  destruct (IH (a + Z.of_nat (length v))) as (L & F & Hd). split_and!.
  - cbn [place]. by rewrite !fmap_cons, L.
  - intros b x Hb Hx. change (mjoin (v :: vars)) with (v ++ mjoin vars). rewrite length_app.
    apply elem_of_cons in Hb as [->|Hb]; [unfold in_slice in Hx; simpl in Hx; lia|].
    specialize (F b x Hb Hx). lia.
  - simpl. split; [|done]. apply Forall_forall. intros b Hb x X1 X2. specialize (F b x Hb X2).
    unfold in_slice in X1. simpl in X1. lia.
Qed.

#[global, refine] Instance lab_stack_spec : StackSpec World := {| frame x := FRAME ≤ x < FRAME + 2 ^ 33 |}.
Proof.
  - unfold own, lab_dma, FRAME, HEAP. lia.
  - intros vars w Hv. destruct (place_spec vars FRAME) as (L & F & Hd). eexists _, _. split; [done|].
    destruct (store_all_spec (place FRAME vars) vars (lmem w) Hd L) as [B U].
    split_and!; try done; [intros b x Hb Hin; specialize (F b x Hb Hin); simpl; lia|].
    intros x _ Hx. apply U. intros b Hb Hin. apply Hx. specialize (F b x Hb Hin). simpl. lia.
Defined.

(** ** The device *)
Context (protocol : Z → D → list (list Z) → list Z → D * list (list Z) * Z).

(** The buffers of the chain that starts at [i]; a chain has at most [fuel] descriptors. *)
Fixpoint walk (fuel : nat) (table : list Descriptor) (i : Z) : list (Slice * bool) :=
  match fuel with
  | O => []
  | S fuel =>
    match index table i with
    | None => []
    | Some d => (mkSlice (d_addr d) (d_len d), contains (d_flags d) DescFlags.WRITE) ::
        if contains (d_flags d) DescFlags.NEXT then walk fuel table (d_next d) else []
    end
  end.
Definition readable (l : list (Slice * bool)) : list Slice := fst <$> filter (λ p, p.2 = false) l.
Definition writable (l : list (Slice * bool)) : list Slice := fst <$> filter (λ p, p.2 = true) l.

(** The buffers of the request whose first descriptor is [h]: if that is an indirect one, those of
    the list it points to. *)
Definition buffers_at (table : list Descriptor) (m : Z → Z) (h : Z) : list (Slice * bool) :=
  match index table h with
  | None => []
  | Some d =>
    if contains (d_flags d) DescFlags.INDIRECT then
      let n := Z.to_nat (d_len d / DESCRIPTOR_SIZE) in
      default [] ((λ l, walk n l 0) <$> decode_descriptors n (m <$> seqZ (d_addr d) (d_len d)))
    else walk (length table) table h
  end.

#[local] Instance lab_device : Device World := λ idx sh w,
  let a := sh_avail sh in
  let u := sh_used sh in
  let n := Z.of_nat (length (us_ring u)) in
  if av_idx a =? us_idx u then (sh, w)
  else match index (av_ring a) (us_idx u mod n) with
       | None => (sh, w)
       | Some h =>
         let l := buffers_at (sh_desc sh) (lmem w) h in
         let '(d, written, len) := protocol idx (ldev w) ((λ b, lmem w <$> seqZ (s_ptr b) (s_len b)) <$> readable l)
           (s_len <$> writable l) in
         (mkShared (sh_desc sh) a
            (mkUsedRing (us_flags u) (wrapping_add 16 (us_idx u) 1)
               (<[Z.to_nat (us_idx u mod n) := mkUsedElem h len]> (us_ring u))
               (us_avail_event u)),
          mkLab (store_all (writable l) written (lmem w)) (lheld w) d)
       end.

Lemma walk_chain table c : ∀ segs fuel h, chain_segs table c segs → head c = Some h →
  (length c ≤ fuel)%nat → Forall seg_ok segs → Forall (λ s, s.1.1 = s_ptr s.1.2) segs →
  walk fuel table h = (λ s, (seg_slice s, seg_out s)) <$> segs.
Proof.
  induction c as [|i c IH]; intros [|s segs] fuel h Hc Hh Hf Hok Hin; try done.
  destruct Hc as [(nx & Hd & Hnx) Hc]. injection Hh as ->. destruct fuel as [|fuel]; [simpl in Hf; lia|].
  apply Forall_cons in Hok as [(_ & Hb & _) Hok]. apply Forall_cons in Hin as [Hs Hin].
  cbn [walk]. rewrite Hd. destruct s as [[pa b] d]. simpl in Hs, Hb. subst pa.
  rewrite fmap_cons. f_equal; [by destruct b, d, c|].
  destruct c as [|j c]; [destruct segs; [by destruct d|done]|].
  rewrite (Hnx j eq_refl). rewrite <- (IH segs fuel j); [by destruct d|done|done|simpl in *; lia|done|done].
Qed.

Lemma walk_split segs : let l := (λ s, (seg_slice s, seg_out s)) <$> segs in
  readable l = seg_slice <$> ins segs ∧ writable l = seg_slice <$> outs segs.
Proof.
  unfold readable, writable. induction segs as [|s segs [IH1 IH2]]; [done|].
  rewrite ins_cons, outs_cons, fmap_cons, !filter_cons. simpl. destruct (seg_out s).
  - rewrite decide_False by done. rewrite decide_True by done. rewrite !fmap_cons. by rewrite IH1, IH2.
  - rewrite decide_True by done. rewrite decide_False by done. rewrite !fmap_cons. by rewrite IH1, IH2.
Qed.

Lemma held_in_place (w : World) s : Share s ∈ held w → s.1.1 = s_ptr s.1.2.
Proof.
  intros (r & E & _)%list_elem_of_fmap. destruct r as [[[pa b] d]|]; [|done]. by injection E as ->.
Qed.

Lemma indirect_chain segs : ∀ pre, Z.of_nat (length pre + length segs) ≤ 2 ^ 16 →
  chain_segs (pre ++ indirect_table (Z.of_nat (length pre)) segs)
    (seqZ (Z.of_nat (length pre)) (Z.of_nat (length segs))) segs.
Proof.
  induction segs as [|s segs IH]; intros pre Hl; [done|]. simpl length in *.
  rewrite seqZ_cons by lia. rewrite Nat2Z.inj_succ, Z.pred_succ. cbn [chain_segs indirect_table].
  set (d := seg_desc (nonempty segs) (wrap 16 (Z.of_nat (length pre) + 1)) s). split.
  - exists (wrap 16 (Z.of_nat (length pre) + 1)). split.
    + unfold index. rewrite Nat2Z.id, (list_lookup_middle _ _ _ _ eq_refl).
      destruct segs; [done|]. simpl length. by rewrite (seqZ_cons (Z.succ _)) by lia.
    + intros j Hj. destruct segs; [done|]. simpl length in *. rewrite seqZ_cons in Hj by lia. injection Hj as <-.
      rewrite wrap_small by (unfold fits; lia). lia.
  - specialize (IH (pre ++ [d])). rewrite length_app in IH. simpl length in IH.
    rewrite <- app_assoc in IH. replace (Z.of_nat (length pre) + 1) with (Z.of_nat (length pre + 1)) by lia.
    replace (Z.succ (Z.of_nat (length pre))) with (Z.of_nat (length pre + 1)) by lia. apply IH. lia.
Qed.

(** The device finds the buffers of a request that is posted. *)
Lemma buffers_posted table (w : World) h r : let segs := req_segs r in
  posted table w h r → segs ≠ [] → (length segs ≤ length table)%nat → Z.of_nat (length segs) ≤ 2 ^ 16 → Forall seg_ok segs →
  (∀ s, Share s ∈ req_held r → s.1.1 = s_ptr s.1.2) →
  buffers_at table (lmem w) h = (λ s, (seg_slice s, seg_out s)) <$> segs.
Proof.
  intros segs Hpo Hne Hl Hl16 Hok Hin. assert (Forall (λ s : Seg, s.1.1 = s_ptr s.1.2) segs) as Hin'.
  { apply Forall_forall. intros s Hs. by apply Hin, segs_held. }
  unfold buffers_at. destruct r as [c segs'|h' pa il segs']; simpl in segs; subst segs.
  - destruct Hpo as [Hh Hc]. pose proof (chain_segs_length _ _ _ Hc) as Hlc.
    destruct c as [|i c], segs' as [|s segs']; try done. injection Hh as ->. pose proof Hc as [(nx & Hd & _) _]. rewrite Hd.
    apply Forall_cons in Hok as [(? & Hb & ?) Hok].
    replace (contains (d_flags _) DescFlags.INDIRECT) with false by (destruct s as [[] []], c; done).
    apply (walk_chain table (h :: c)); try done; [by rewrite Hlc|by constructor].
  - destruct Hpo as ((nx & Hd) & Hil & Hdec). rewrite Hd. cbn [d_flags d_len d_addr].
    change (contains DescFlags.INDIRECT DescFlags.INDIRECT) with true. cbv iota zeta.
    assert (Z.to_nat (s_len (list_slice il) / DESCRIPTOR_SIZE) = length segs') as ->.
    { unfold list_slice, DESCRIPTOR_SIZE. cbn [s_len]. rewrite Hil, Z.mul_comm, Z.div_mul by lia. lia. }
    assert (pa = s_ptr (list_slice il)) as -> by (apply (Hin (pa, list_slice il, DriverToDevice)); simpl; right; left).
    change (lmem w <$> seqZ (s_ptr (list_slice il)) (s_len (list_slice il)))
      with (Serve.view w (s_ptr (list_slice il), list_slice il, DriverToDevice)).
    rewrite Hdec. cbn [fmap option_fmap option_map default].
    apply (walk_chain _ (seqZ 0 (Z.of_nat (length segs')))); try done.
    + by apply (indirect_chain segs' []).
    + destruct segs'; [done|]. simpl length. by rewrite seqZ_cons by lia.
    + rewrite length_seqZ. lia.
Qed.

(** A step of the device answers the next chain by its protocol. *)
Lemma lab_step SIZE idx sh (w : World) h r : let segs := req_segs r in
  SIZE_OK SIZE = true → (∀ d rs ls, length <$> (protocol idx d rs ls).1.2 = Z.to_nat <$> ls) →
  shared_ok SIZE sh → 0 ≤ h < SIZE → posted (sh_desc sh) w h r → segs ≠ [] →
  Z.of_nat (length segs) ≤ SIZE → Forall seg_ok segs → (∀ s, Share s ∈ req_held r → Share s ∈ held w) → disjoint_all (seg_slice <$> outs segs) →
  av_idx (sh_avail sh) ≠ us_idx (sh_used sh) →
  index (av_ring (sh_avail sh)) (us_idx (sh_used sh) mod SIZE) = Some h →
  let '(sh', w') := device_step idx sh w in
  let '(d', written, len) :=
    protocol idx (ldev w) (Serve.view w <$> ins segs) (s_len <$> (seg_slice <$> outs segs)) in
  sh_desc sh' = sh_desc sh ∧ sh_avail sh' = sh_avail sh ∧
  us_idx (sh_used sh') = wrapping_add 16 (us_idx (sh_used sh)) 1 ∧
  us_ring (sh_used sh') = <[Z.to_nat (us_idx (sh_used sh) mod SIZE) := mkUsedElem h len]> (us_ring (sh_used sh)) ∧
  held w' ≡ₚ held w ∧ ldev w' = d' ∧ Serve.view w' <$> outs segs = written ∧
  (∀ x, (∀ s, s ∈ outs segs → ¬ in_slice s.1.2 x) → byte_at w' x = byte_at w x).
Proof.
  intros segs HS Hlen [Hd Ha Hu] Hh Hpo Hne Hn Hok Hheld Hdis Hav Hslot.
  pose proof (SIZE_OK_eq _ HS) as (k & _ & _ & HSr).
  unfold device_step, lab_device. rewrite (proj2 (Z.eqb_neq _ _)) by done.
  rewrite Hu, Z2Nat.id, Hslot by lia.
  rewrite (buffers_posted (sh_desc sh) w h r); [fold segs|done|done|fold segs; lia|fold segs; lia|done|].
  2:{ intros s Hs. by eapply held_in_place, Hheld. }
  destruct (walk_split segs) as [-> ->].
  assert ((λ b, lmem w <$> seqZ (s_ptr b) (s_len b)) <$> (seg_slice <$> ins segs) = Serve.view w <$> ins segs)
    as -> by (by rewrite <- list_fmap_compose).
  specialize (Hlen (ldev w) (Serve.view w <$> ins segs) (s_len <$> (seg_slice <$> outs segs))).
  destruct (protocol _ _ _ _) as [[d' written] len]. simpl in Hlen.
  destruct (store_all_spec (seg_slice <$> outs segs) written (lmem w) Hdis) as [B U].
  { apply list_eq. intros i. apply (f_equal (lookup i)) in Hlen. rewrite !list_lookup_fmap in *.
    destruct (outs segs !! i) as [s|] eqn:Es, (written !! i); try done. simpl in *. injection Hlen as Hlen.
    rewrite Forall_forall in Hok. apply list_elem_of_lookup_2, list_elem_of_filter in Es as [_ Es].
    destruct (Hok s Es) as (Hl & _). f_equal. unfold seg_slice in *. simpl. lia. }
  split_and!; try done.
  - rewrite <- list_fmap_compose in B. exact B.
  - intros x Hx. apply U. intros b (s & -> & Hs)%list_elem_of_fmap. by apply Hx.
Qed.

Definition nqueues (t : FakeTransport.FakeTransport) : Z :=
  Z.of_nat (length (FakeTransport.st_queues (FakeTransport.ft_state t))).

Lemma lab_notify `{Profile} idx t (w : World) : 0 ≤ idx → idx < nqueues t →
  ∃ t', notify idx (t, w) = (Val tt, (t', w)) ∧ nqueues t' = nqueues t.
Proof.
  unfold nqueues. intros Hi Ht.
  destruct (lookup_lt_is_Some_2 (FakeTransport.st_queues (FakeTransport.ft_state t)) (Z.to_nat idx)) as [q Hq]; [lia|].
  assert (FakeTransport.get_queue idx (t, w) = (Val q, (t, w))) as Hg.
  { unfold FakeTransport.get_queue. mstep. unfold index. simpl. by rewrite Hq. }
  eexists. split.
  - unfold notify, FakeTransport.fake_transport, FakeTransport.notify, FakeTransport.put_queue.
    erewrite bind_val by exact Hg. reflexivity.
  - simpl. by rewrite length_alter.
Qed.

#[local, refine] Instance lab_notifier `{Profile} idx (Hi : 0 ≤ idx) :
    Notifier idx FakeTransport.FakeTransport World := {| ready t := idx < nqueues t |}.
Proof. intros t w Ht. destruct (lab_notify idx t w Hi Ht) as (t' & Hn & Hl). exists t', w. by rewrite Hl. Defined.

#[local, refine] Instance lab_server `{Profile} SIZE idx (HS : SIZE_OK SIZE = true) (Hi : 0 ≤ idx)
    (Hl : ∀ d rs ls, length <$> (protocol idx d rs ls).1.2 = Z.to_nat <$> ls) :
    Server SIZE 1 idx FakeTransport.FakeTransport World D := {|
  dstate := ldev;
  serve := protocol idx;
  tok t := idx < nqueues t
|}.
Proof.
  - exact Hl.
  - intros t w Ht. destruct (lab_notify idx t w Hi Ht) as (t' & Hn & Hl'). exists t', w. by rewrite Hl'.
  - intros b d pa w. split; by intros x w' [= <- <-].
  - intros p n l w. split_and!; by intros x w' [= <- <-].
  - by intros a l w x w' [= <- <-].
  - by intros vars w x w' [= <- <-].
  - intros sh w h r segs Hsh Hh Hpo Hnil Hn Hok Hheld Hdis Hav Hslot. exists 1%nat. split; [lia|]. split.
    { intros m Hm. by assert (m = 0)%nat as -> by lia. }
    assert (av_idx (sh_avail sh) ≠ us_idx (sh_used sh)) as Hne by (rewrite Hav; by apply wrap_succ_ne).
    pose proof (lab_step SIZE idx sh w h r HS Hl Hsh Hh Hpo Hnil Hn Hok Hheld Hdis Hne Hslot) as A. fold segs in A.
    unfold device_steps. simpl. destruct (device_step idx sh w) as [sh' w'].
    destruct (protocol _ _ _ _) as [[d' written] len]. destruct A as (A1 & A2 & A3 & A4 & ? & ? & ? & A).
    pose proof (SIZE_OK_eq _ HS) as (k & _ & _ & HSr). split_and!; try done.
    + rewrite A4. apply index_insert_eq, (index_lt _ SIZE); [apply Hsh|]. apply Z.mod_pos_bound. lia.
    + destruct Hsh. split; [by rewrite A1|by rewrite A2|]. by rewrite A4, length_insert.
    + intros x _ Hx. by apply A.
Defined.

(** The device never pauses. *)
#[local, refine] Instance lab_in_order `{Profile} SIZE idx (HS : SIZE_OK SIZE = true) (Hi : 0 ≤ idx)
    (Hl : ∀ d rs ls, length <$> (protocol idx d rs ls).1.2 = Z.to_nat <$> ls) :
    @InOrder SIZE 1 idx FakeTransport.FakeTransport World D _ _ _ _ _ _ _ _ _ _ (lab_server SIZE idx HS Hi Hl) := {|
  pause _ := None;
  lag _ := 0%nat
|}.
Proof.
  - done.
  - intros _. lia.
  - intros sh w Hsh Hav. unfold device_step, lab_device. by rewrite Hav, Z.eqb_refl.
  - intros sh w h r segs Hsh Hh Hpo Hnil Hn Hok Hheld Hdis Hne Hslot.
    pose proof (lab_step SIZE idx sh w h r HS Hl Hsh Hh Hpo Hnil Hn Hok Hheld Hdis Hne Hslot) as A. fold segs in A.
    destruct (device_step idx sh w) as [sh' w']. simpl. destruct (protocol _ _ _ _) as [[d' written] len].
    destruct A as (A1 & A2 & A3 & A4 & A5 & A6 & A7 & A). split_and!; try done.
    + intros x _ Hx. by apply A.
    + intros s Hs Hd. apply bytes_of_ext. intros x Hx. apply A. intros o Ho Hin. by apply (Hd o Ho x).
Defined.

(** Initially nothing is shared; a new queue is idle. *)
Definition lab0 (d : D) : World := mkLab (λ x, x mod 256) [] d.
Definition layout0 : VirtQueueLayout Dma := Modern (Dma.mkDma 4096 4096 1) (Dma.mkDma 8192 8192 1) 4096.
Definition queue0 (SIZE idx : Z) : VirtQueue := initial_queue SIZE layout0 idx false false.

(** A new queue that uses indirect descriptors. *)
Definition indirect0 (SIZE idx : Z) : VirtQueue := initial_queue SIZE layout0 idx true false.

Lemma queue0_idle SIZE idx d : SIZE_OK SIZE = true →
  idle SIZE (queue0 SIZE idx) (lab0 d) [] ∧ idle SIZE (indirect0 SIZE idx) (lab0 d) [].
Proof.
  intros HS. split; (split; [|done..]); exists (seqZ 0 SIZE);
    [exact (initial_inv SIZE HS layout0 idx false false (lab0 d))|exact (initial_inv SIZE HS layout0 idx true false (lab0 d))].
Qed.

Lemma low_user b : 0 < s_len b → 0 ≤ s_ptr b → s_ptr b + s_len b < 2 ^ 32 → user_buffer (W := World) b.
Proof. intros. split; [lia|]. intros x Hx. unfold own, frame, in_slice in *. simpl. unfold FRAME, HEAP. lia. Qed.
End lab.

(** The transport of a device with [n] queues. *)
Definition transport0 (type : DeviceType) (n : nat) : FakeTransport.FakeTransport :=
  FakeTransport.mkFakeTransport type 64 0
    (FakeTransport.State_new (replicate n FakeTransport.QueueStatus_default) []).
End Lab.
