(* ===== verification/OwningProps.v ===== *)
(** * Properties of the queue that owns its buffers *)

From S2P Require Import Prelude Base Transport QueueData Queue QueueInv QueueLemmas QueueSpec.
From S2P Require Import Layout QueueNew QueueWait Serve Single Owning FakeHal FakeTransport Bench Lab.
Import OwningQueue.

Section owning.
Context `{Profile} {W : Type} `{HalSpec W} `{MemorySpec W}.
Context (SIZE BUFFER_SIZE : Z).
Context (HS : SIZE_OK SIZE = true) (HB : 0 < BUFFER_SIZE < 2 ^ 32).

(** The buffer at [p], shared with the device at [pa]. *)
Definition buffer_seg (pa p : Z) : Seg := (pa, mkSlice p BUFFER_SIZE, DeviceToDriver).

(** Token [i] stands for buffer [p], alone. *)
Definition holds (infl : gmap Z Req) (i p : Z) : Prop :=
  ∃ pa, infl !! i = Some (Direct [i] [buffer_seg pa p]).

(** Every descriptor is in flight for the buffer at its index, or only those before [k] are. *)
Record owns (q : VQ.VirtQueue) (w : W) (k : Z) (bufs : list Z) (infl : gmap Z Req)
    (rest : list Res) : Prop := {
  owns_inv : inv SIZE q w (seqZ k (SIZE - k)) infl rest;
  owns_len : length bufs = Z.to_nat k;
  owns_buf : ∀ i p, 0 ≤ i → index bufs i = Some p → holds infl i p;
  owns_nonnull : Forall (λ p, p ≠ 0) bufs;
  owns_boxed : Forall (λ p, Boxed p BUFFER_SIZE ∈ rest) bufs
}.

Definition owning_ok (o : OwningQueue) (w : W) (rest : list Res) : Prop :=
  ∃ infl, owns (queue o) w SIZE (buffers o) infl rest.

Lemma buffer_ok p : item_ok (mkSlice p BUFFER_SIZE, DeviceToDriver).
Proof. unfold item_ok, fits. simpl. split_and!; lia || done. Qed.

(** ** Construction *)
Lemma inv_hold q (w w' : W) fl infl rest x :
  inv SIZE q w fl infl rest → held w' ≡ₚ x :: held w → inv SIZE q w' fl infl (x :: rest).
Proof. intros [] Hp. split; try done. rewrite Hp, inv_held. solve_Permutation. Qed.

Lemma new_loop_run n : ∀ i bufs q (w : W) infl rest,
  0 ≤ i → i + Z.of_nat n = SIZE → owns q w i bufs infl rest →
  ∃ q' w' bufs' infl' new, new_loop SIZE BUFFER_SIZE n i bufs (q, w) = (Val (Ok bufs'), (q', w')) ∧
    owns q' w' SIZE bufs' infl' (((λ p, Boxed p BUFFER_SIZE) <$> new) ++ rest) ∧
    bufs' ≡ₚ new ++ bufs.
Proof.
  induction n as [|n IH]; intros i bufs q w infl rest Hi Hn Ho.
  { exists q, w, bufs, infl, []. replace SIZE with i by lia. done. }
  destruct Ho as [I Hlen Hbuf Hnn Hbx]. rewrite seqZ_cons in I by lia.
  destruct (box_new_spec BUFFER_SIZE w) as (p & w1 & Hp0 & Hbox & Hp1).
  pose proof (inv_hold _ _ _ _ _ _ _ I Hp1) as I1.
  destruct (add_single_run SIZE HS q w1 i _ infl _ _ _ I1 (buffer_ok p)) as (pa & q2 & w2 & Hadd & Hni & I2 & _).
  replace (Z.pred (SIZE - i)) with (SIZE - (i + 1)) in I2 by lia.
  replace (Z.succ i) with (i + 1) in I2 by lia.
  destruct (IH (i + 1) (bufs ++ [p]) q2 w2 (<[i:=Direct [i] [buffer_seg pa p]]> infl) (Boxed p BUFFER_SIZE :: rest))
    as (q' & w' & bufs' & infl' & new & Hrun & Ho' & Hperm); [lia|lia| |].
  { split; [done| | | |].
    - rewrite length_app. simpl. lia.
    - intros j pj Hj Hpj. unfold index in Hpj. apply lookup_app_Some in Hpj as [Hpj|[Hge Hpj]].
      + assert (j ≠ i) by (apply lookup_lt_Some in Hpj; lia).
        destruct (Hbuf j pj Hj Hpj) as (pa' & Hr'). exists pa'.
        by rewrite lookup_insert_ne by done.
      + apply list_lookup_singleton_Some in Hpj as [Hz <-]. exists pa.
        replace j with i by lia. by rewrite lookup_insert_eq.
    - apply Forall_app. split; [done|]. by constructor.
    - apply Forall_app. split; [|by repeat constructor].
      eapply Forall_impl; [done|]. intros x Hx. by right. }
  exists q', w', bufs', infl', (new ++ [p]). split_and!.
  - cbn [new_loop]. erewrite bind_val by (apply on_snd_val; exact Hbox).
    cbn [unwrap]. mstep. cbv beta iota. rewrite Z.eqb_refl. mstep. done.
  - rewrite fmap_app, <- app_assoc. done.
  - rewrite Hperm, <- app_assoc. solve_Permutation.
Qed.

Lemma owning_new_run q (w : W) rest :
  inv SIZE q w (seqZ 0 SIZE) ∅ rest →
  ∃ o q' w' ps, new SIZE BUFFER_SIZE (q, w) = (Val (Ok o), (q', w')) ∧
    owning_ok o w' (((λ p, Boxed p BUFFER_SIZE) <$> ps) ++ rest) ∧ buffers o ≡ₚ ps.
Proof.
  intros I. pose proof (SIZE_OK_eq _ HS) as (k & _ & _ & HSr).
  destruct (new_loop_run (Z.to_nat SIZE) 0 [] q w ∅ rest)
    as (q' & w' & bufs & infl & new & Hrun & Ho & Hperm); [lia|lia| |].
  { split; [by rewrite Z.sub_0_r|done|by intros i p _ ?|done|done]. }
  rewrite app_nil_r in Hperm.
  exists (mkOwningQueue q' bufs), q', w', new. split_and!; [|by exists infl|done].
  unfold OwningQueue.new. erewrite try_ok by exact Hrun. unfold nonnull.
  assert (forallb (λ p, negb (p =? 0)) bufs = true) as ->; [|done].
  apply forallb_forall. intros p Hp%list_elem_of_In.
  destruct Ho as [_ _ _ Hnn _]. rewrite Forall_forall in Hnn.
  by rewrite (proj2 (Z.eqb_neq _ _)) by auto.
Qed.

(** ** Polling *)
Lemma set_queue_id o : set_queue (queue o) o = o.
Proof. by destruct o. Qed.

Lemma owns_token o (w : W) rest t : owning_ok o w rest → 0 ≤ t < SIZE →
  ∃ p, index (buffers o) t = Some p.
Proof.
  intros (infl & [_ Hlen _ _ _]) Ht.
  destruct (index_lt (buffers o) SIZE t Hlen Ht) as [p Hp]. eauto.
Qed.

(** The buffer at [p] is taken back from the device, [w'] being the world after [w]. *)
Definition taken_back (p : Z) (w w' : W) : Prop :=
  ∃ pa, Share (buffer_seg pa p) ∈ held w ∧
    unshare pa (mkSlice p BUFFER_SIZE) DeviceToDriver w = (Val tt, w').

(** Popping the used buffer [t]: the other tokens are as before, and only [t] is free. *)
Lemma pop_inner_run o (w : W) rest e p :
  owning_ok o w rest → next_used SIZE (queue o) = Some e →
  index (buffers o) (wrap 16 (ue_id e)) = Some p →
  ∃ infl q' w', VQ.pop_used SIZE (wrap 16 (ue_id e)) [] [mkSlice p BUFFER_SIZE] (queue o, w)
      = (Val (Ok (ue_len e)), (q', w')) ∧ taken_back p w w' ∧
    inv SIZE q' w' [wrap 16 (ue_id e)] infl rest ∧
    (∀ i pi, 0 ≤ i → i ≠ wrap 16 (ue_id e) → index (buffers o) i = Some pi → holds infl i pi) ∧
    VQ.queue_idx q' = VQ.queue_idx (queue o).
Proof.
  intros (infl & [I Hlen Hbuf Hnn _]) Hu Hp. set (t := wrap 16 (ue_id e)) in *.
  rewrite Z.sub_diag in I.
  assert (0 ≤ t) as Ht by (apply (wrap_fits 16); lia).
  destruct (Hbuf t p Ht Hp) as (pa & Hr).
  destruct (pop_single_run SIZE HS (queue o) w [] infl rest pa (mkSlice p BUFFER_SIZE) DeviceToDriver e I Hu Hr)
    as (q' & w' & Hrun & I' & Hun & (Hqi & _) & _).
  exists (delete t infl), q', w'. split_and!; try done.
  - exists pa. split; [|done]. rewrite (inv_held _ _ _ _ _ _ I), (live_held_delete _ _ _ Hr). by left.
  - intros i pi Hi Hne Hpi. destruct (Hbuf i pi Hi Hpi) as (pai & Hri).
    exists pai. by rewrite lookup_delete_ne by done.
Qed.

(** Putting buffer [t] back. *)
Lemma put_back_run o q' (w : W) rest infl t p :
  length (buffers o) = Z.to_nat SIZE → Forall (λ p, p ≠ 0) (buffers o) →
  Forall (λ p, Boxed p BUFFER_SIZE ∈ rest) (buffers o) →
  inv SIZE q' w [t] infl rest → index (buffers o) t = Some p →
  (∀ i pi, 0 ≤ i → i ≠ t → index (buffers o) i = Some pi → holds infl i pi) →
  ∃ q'' w'', VQ.add SIZE [] [mkSlice p BUFFER_SIZE] (q', w) = (Val (Ok t), (q'', w'')) ∧
    owning_ok (set_queue q'' o) w'' rest ∧ VQ.queue_idx q'' = VQ.queue_idx q'.
Proof.
  intros Hlen Hnn Hbx I Hp Hbuf.
  destruct (add_single_run SIZE HS q' w t [] infl rest _ _ I (buffer_ok p))
    as (pa & q2 & w2 & Hadd & Hni & I2 & _ & (Hqi & _) & _).
  exists q2, w2. split_and!; try done. exists (<[t:=Direct [t] [buffer_seg pa p]]> infl).
  split; try done.
  - by rewrite Z.sub_diag.
  - simpl. intros i pi Hi Hpi. destruct (decide (i = t)) as [->|Hne].
    + exists pa. rewrite lookup_insert_eq. congruence.
    + destruct (Hbuf i pi Hi Hne Hpi) as (pai & Hri). exists pai.
      by rewrite lookup_insert_ne by done.
Qed.

Context {T : Type} `{Transport T W}.

Lemma pop_run o (t : T) (w : W) rest e p :
  owning_ok o w rest → next_used SIZE (queue o) = Some e →
  index (buffers o) (wrap 16 (ue_id e)) = Some p →
  ∃ infl q' w', taken_back p w w' ∧ inv SIZE q' w' [wrap 16 (ue_id e)] infl rest ∧
    (∀ i pi, 0 ≤ i → i ≠ wrap 16 (ue_id e) → index (buffers o) i = Some pi → holds infl i pi) ∧
    VQ.queue_idx q' = VQ.queue_idx (queue o) ∧
    zoom world_lens (pop SIZE BUFFER_SIZE) (o, (t, w)) =
      (if ue_len e <=? BUFFER_SIZE
       then (Val (Ok (Some (mkSlice p (ue_len e), wrap 16 (ue_id e)))), (set_queue q' o, (t, w')))
       else (Panic, (set_queue q' o, (t, w')))).
Proof.
  intros Ho Hu Hp. destruct (pop_inner_run o w rest e p Ho Hu Hp)
    as (infl & q' & w' & Hrun & Hun & I & Hbuf & Hqi).
  exists infl, q', w'. split_and!; try done.
  unfold zoom. cbn [view world_lens fst snd]. unfold pop, inner.
  assert (shared_ok SIZE (VQ.shared (queue o))) as Hsh by (destruct Ho as (? & [I0 _ _ _ _]); apply I0).
  erewrite bind_val by (apply zoom_val; cbn; by apply peek_run). rewrite Hu. cbn.
  rewrite set_queue_id. mstep. cbn [fst snd]. rewrite Hp. mstep.
  erewrite try_ok by (apply zoom_val; exact Hrun).
  by destruct (ue_len e <=? BUFFER_SIZE).
Qed.

Lemma poll_run o (t : T) (w : W) rest e p :
  owning_ok o w rest → next_used SIZE (queue o) = Some e →
  index (buffers o) (wrap 16 (ue_id e)) = Some p → ue_len e ≤ BUFFER_SIZE →
  notify_ok (W := W) (VQ.queue_idx (queue o)) t →
  ∃ q' t' w1 w', taken_back p w w1 ∧ owning_ok (set_queue q' o) w' rest ∧ VQ.queue_idx q' = VQ.queue_idx (queue o) ∧
    ∀ A C (handler : list Z → M C (Result (option A))) c r c',
      handler (bytes_of w1 (mkSlice p (ue_len e))) c = (Val r, c') →
      poll SIZE BUFFER_SIZE handler (c, (o, (t, w))) = (Val r, (c', (set_queue q' o, (t', w')))).
Proof.
  intros Ho Hu Hp Hlen Hnot. pose proof Ho as (infl0 & [_ Hlb _ Hnn Hbx]).
  destruct (pop_run o t w rest e p Ho Hu Hp) as (infl & q1 & w1 & Hun & I1 & Hbuf & Hqi & Hpop).
  rewrite (proj2 (Z.leb_le _ _)) in Hpop by done.
  destruct (put_back_run o q1 w1 rest infl (wrap 16 (ue_id e)) p)
    as (q2 & w2 & Hadd & Ho2 & Hqi2); try done.
  assert (notify_ok (W := W) (VQ.queue_idx q2) t) as Hnot2 by (by rewrite Hqi2, Hqi).
  destruct (notify_run (VQ.should_notify q2) (VQ.queue_idx q2) (set_queue q2 o) t w2 Hnot2) as (t3 & w3 & Hnr & Hp3).
  exists q2, t3, w1, w3. split_and!; [done| |congruence|].
  - destruct Ho2 as (infl2 & [I2 ? ? ? ?]). exists infl2. split; try done. by apply (inv_world _ _ w2).
  - intros A C handler c r c' Hh. unfold poll. erewrite try_ok by (apply on_snd_val; exact Hpop). cbv beta iota.
    erewrite bind_val by (apply on_snd_val, on_snd_val, on_snd_val; apply mem_read_spec).
    erewrite bind_val by (apply on_fst_val; exact Hh).
    unfold add_buffer_to_queue. erewrite try_ok; [done|]. apply on_snd_val.
    mstep. cbn [fst snd buffers set_queue]. rewrite Hp.
    erewrite try_ok by (apply zoom_val, zoom_val; exact Hadd). cbn.
    rewrite Z.eqb_refl. mstep. reflexivity.
Qed.

(** Nothing used, and a used element whose token is no index. *)
Lemma poll_none {A C} (handler : list Z → M C (Result (option A))) o (t : T) (w : W) rest c :
  owning_ok o w rest → next_used SIZE (queue o) = None →
  poll SIZE BUFFER_SIZE handler (c, (o, (t, w))) = (Val (Ok None), (c, (o, (t, w)))).
Proof.
  intros (infl & [I _ _ _ _]) Hu. pose proof (inv_shared _ _ _ _ _ _ I) as Hsh.
  assert (zoom world_lens (pop SIZE BUFFER_SIZE) (o, (t, w)) = (Val (Ok None), (o, (t, w))))
    as Hpop; [|unfold poll; by erewrite try_ok by (apply on_snd_val; exact Hpop)].
  unfold zoom. cbn [view world_lens fst snd]. unfold pop, inner.
  erewrite bind_val by (apply zoom_val; cbn; by apply peek_run). rewrite Hu. cbn.
  by rewrite set_queue_id.
Qed.

Lemma poll_bad_token {A C} (handler : list Z → M C (Result (option A))) o (t : T) (w : W) rest e c :
  owning_ok o w rest → next_used SIZE (queue o) = Some e → SIZE ≤ wrap 16 (ue_id e) →
  ∃ st, poll SIZE BUFFER_SIZE handler (c, (o, (t, w))) = (Panic, st).
Proof.
  intros (infl & [I Hlb _ _ _]) Hu Hge. pose proof (inv_shared _ _ _ _ _ _ I) as Hsh.
  eexists. unfold poll. apply try_panic, on_snd_panic.
  unfold zoom. cbn [view world_lens fst snd]. unfold pop, inner.
  erewrite bind_val by (apply zoom_val; cbn; by apply peek_run). rewrite Hu. cbn.
  mstep. cbn [fst snd]. rewrite set_queue_id.
  assert (index (buffers o) (wrap 16 (ue_id e)) = None) as ->; [|reflexivity].
  apply lookup_ge_None. lia.
Qed.
End owning.

(** ** Theorems *)
Section theorems.
Context `{Profile} {W : Type} `{HalSpec W} `{MemorySpec W}.
Context (SIZE BUFFER_SIZE : Z).

(** [OwningQueue::new] on a new queue succeeds: the token of the [i]-th buffer is [i], so
    that the assertion holds, all descriptors are in flight, each for the buffer at its index,
    and the queue holds one box per buffer. *)
Theorem owning_new q (w : W) rest :
  SIZE_OK SIZE = true → 0 < BUFFER_SIZE < 2 ^ 32 → inv SIZE q w (seqZ 0 SIZE) ∅ rest →
  ∃ o q' w' ps, new SIZE BUFFER_SIZE (q, w) = (Val (Ok o), (q', w')) ∧
    owning_ok SIZE BUFFER_SIZE o w' (((λ p, Boxed p BUFFER_SIZE) <$> ps) ++ rest) ∧
    buffers o ≡ₚ ps.
Proof. intros. by apply owning_new_run. Qed.

End theorems.

Section received.
Context `{Profile} {W : Type} `{DmaSpec W}.
Context (SIZE BUFFER_SIZE : Z).

(** The first [n] bytes that the device has written to the shared buffer [s]. *)
Definition written (w : W) (s : Seg) (n : Z) : list Z :=
  (λ i, default 0 (view w s !! Z.to_nat i)) <$> seqZ 0 n.

(** A buffer that was taken back has what the device wrote. *)
Lemma taken_back_written o (w w1 : W) rest p n t :
  0 < BUFFER_SIZE → owning_ok SIZE BUFFER_SIZE o w rest → index (buffers o) t = Some p → n ≤ BUFFER_SIZE →
  taken_back BUFFER_SIZE p w w1 →
  ∃ pa, Share (buffer_seg BUFFER_SIZE pa p) ∈ held w ∧
    bytes_of w1 (mkSlice p n) = written w (buffer_seg BUFFER_SIZE pa p) n.
Proof.
  intros HB (infl & [I _ _ _ Hbx]) Hp Hn (pa & Hs & Hun). exists pa. split; [done|].
  apply elem_of_Permutation in Hs as [l Hl].
  destruct (unshare_bytes pa (mkSlice p BUFFER_SIZE) w l w1 Hl) as [Hb _]; [|done|].
  { right. rewrite Forall_forall in Hbx. rewrite (inv_held _ _ _ _ _ _ I). apply elem_of_app. right.
    apply Hbx. by eapply list_elem_of_lookup_2. }
  unfold bytes_of, written in *. simpl in *. apply list_eq. intros i. rewrite !list_lookup_fmap.
  destruct (decide (Z.of_nat i < n)) as [Hi|Hi]; [|by rewrite !lookup_seqZ_ge by lia].
  assert ((byte_at w1 <$> seqZ p BUFFER_SIZE) !! i = ((λ i, default 0 (view w (buffer_seg BUFFER_SIZE pa p) !! Z.to_nat i))
    <$> seqZ 0 BUFFER_SIZE) !! i) as E by (by rewrite Hb).
  rewrite !list_lookup_fmap, !lookup_seqZ_lt in E by lia. by rewrite !lookup_seqZ_lt by lia.
Qed.

(** C21. [OwningQueue::poll], whatever the device wrote to the used ring. Without a used element
    it returns [None] and changes nothing. With one whose token is below the queue size and
    whose length is at most the buffer size, the handler gets that many bytes of what the device
    has written to the buffer of the token, the buffer is put back under the same token, so that
    the assertion holds and all buffers are in flight again, and the handler's result is
    returned. Any other used element makes it panic. *)
Theorem owning_poll {T A C} `{Transport T W} o (t : T) (w : W) rest
    (handler : list Z → M C (Result (option A))) :
  SIZE_OK SIZE = true → 0 < BUFFER_SIZE < 2 ^ 32 → owning_ok SIZE BUFFER_SIZE o w rest →
  notify_ok (W := W) (VQ.queue_idx (queue o)) t →
  match next_used SIZE (queue o) with
  | None => ∀ c, poll SIZE BUFFER_SIZE handler (c, (o, (t, w))) = (Val (Ok None), (c, (o, (t, w))))
  | Some e =>
    if (wrap 16 (ue_id e) <? SIZE) && (ue_len e <=? BUFFER_SIZE) then
      ∃ p pa o' t' w', index (buffers o) (wrap 16 (ue_id e)) = Some p ∧
        Share (buffer_seg BUFFER_SIZE pa p) ∈ held w ∧
        owning_ok SIZE BUFFER_SIZE o' w' rest ∧ buffers o' = buffers o ∧
        ∀ c r c', handler (written w (buffer_seg BUFFER_SIZE pa p) (ue_len e)) c = (Val r, c') →
          poll SIZE BUFFER_SIZE handler (c, (o, (t, w))) = (Val r, (c', (o', (t', w'))))
    else ∀ c, ∃ st, poll SIZE BUFFER_SIZE handler (c, (o, (t, w))) = (Panic, st)
  end.
Proof.
  intros HS HB Ho Hnot. pose proof (SIZE_OK_eq _ HS) as (k & _ & _ & HSr).
  destruct (next_used SIZE (queue o)) as [e|] eqn:Hu; [|intros c; by eapply poll_none].
  assert (0 ≤ wrap 16 (ue_id e)) as Ht by (apply (wrap_fits 16); lia).
  destruct (Z.ltb_spec (wrap 16 (ue_id e)) SIZE) as [Hlt|Hge]; simpl; [|intros c; by eapply poll_bad_token].
  destruct (owns_token SIZE BUFFER_SIZE o w rest (wrap 16 (ue_id e)) Ho) as [p Hp]; [lia|].
  destruct (Z.leb_spec (ue_len e) BUFFER_SIZE) as [Hle|Hgt].
  - destruct (poll_run SIZE BUFFER_SIZE HS HB o t w rest e p)
      as (q' & t' & w1 & w' & Hun & Ho' & _ & Hrun); try done.
    destruct (taken_back_written o w w1 rest p (ue_len e) _ (proj1 HB) Ho Hp Hle Hun) as (pa & Hs & Hb).
    exists p, pa, (set_queue q' o), t', w'. rewrite <- Hb. split_and!; try done. apply Hrun.
  - destruct (pop_run SIZE BUFFER_SIZE HS o t w rest e p Ho Hu Hp)
      as (infl & q1 & w1 & _ & _ & _ & _ & Hpop).
    rewrite (proj2 (Z.leb_gt _ _)) in Hpop by done.
    intros c. eexists. unfold poll. apply try_panic, on_snd_panic. exact Hpop.
Qed.
End received.

Section witnesses.
Import Bench.

Lemma owning_new_witness : ∃ o s, new 4 64 (q0, w0) = (Val (Ok o), s) ∧ length (buffers o) = 4%nat.
Proof.
  destruct (owning_new 4 64 q0 w0 []) as (o & q' & w' & ps & Hrun & (infl & Ho) & _);
    [reflexivity|lia|exact q0_inv|].
  exists o, (q', w'). split; [exact Hrun|]. rewrite (owns_len _ _ _ _ _ _ _ _ Ho). reflexivity.
Defined.

(** The queue once the device has used the first buffer for 5 bytes. *)
Definition use_first (o : OwningQueue) : OwningQueue :=
  set_queue (VQ.set_shared (mkShared (VQ.desc (queue o)) (VQ.avail (queue o))
    (mkUsedRing 0 1 (<[0%nat := mkUsedElem 0 5]> (us_ring (VQ.used (queue o)))) 0)) (queue o)) o.

Lemma use_first_ok {W} `{HalSpec W} SIZE B o (w : W) rest :
  owning_ok SIZE B o w rest → owning_ok SIZE B (use_first o) w rest.
Proof.
  intros (infl & [I Hlen Hbuf Hnn Hbx]). exists infl. split; try done. simpl.
  assert (shared_ok SIZE (VQ.shared (queue (use_first o)))) as Hsh.
  { destruct (inv_shared _ _ _ _ _ _ I). split; simpl; rewrite ?length_insert; done. }
  destruct I. by split.
Qed.

(** A queue with its buffers in a world whose memory the device and the driver see alike. *)
Definition made : outcome (Result OwningQueue) * (VQ.VirtQueue * Lab.Lab unit) :=
  new 4 64 (Lab.queue0 4 0, Lab.lab0 tt).
Definition o2 : OwningQueue :=
  use_first (match made.1 with Val (Ok o) => o | _ => mkOwningQueue (Lab.queue0 4 0) [] end).

Lemma o2_ok : ∃ rest, owning_ok 4 64 o2 made.2.2 rest.
Proof.
  destruct (owning_new_run 4 64 eq_refl ltac:(lia) (Lab.queue0 4 0) (Lab.lab0 tt) [])
    as (o & q' & w' & ps & Hrun & Ho & _).
  { exact (initial_inv 4 eq_refl Lab.layout0 0 false false (Lab.lab0 tt)). }
  eexists. apply use_first_ok. unfold made. rewrite Hrun. exact Ho.
Qed.

Lemma owning_poll_witness : ∃ p pa s',
  index (buffers o2) 0 = Some p ∧ Share (buffer_seg 64 pa p) ∈ held made.2.2 ∧
  poll 4 64 (λ b, mret (Ok (Some b))) (tt, (o2, (t0, made.2.2))) =
    (Val (Ok (Some (written made.2.2 (buffer_seg 64 pa p) 5))), s').
Proof.
  destruct o2_ok as (rest & Ho).
  assert (VQ.queue_idx (queue o2) = 0) as Ei by (vm_compute; reflexivity).
  assert (next_used 4 (queue o2) = Some (mkUsedElem 0 5)) as E by (vm_compute; reflexivity).
  revert Ho Ei E. generalize o2 made.2.2. intros o w Ho Ei E.
  pose proof (owning_poll 4 64 o t0 w rest (C := unit) (λ b, mret (Ok (Some b))) eq_refl ltac:(lia) Ho) as Hp.
  rewrite Ei in Hp. specialize (Hp ltac:(intros x; by do 2 eexists)).
  rewrite E in Hp. destruct Hp as (p & pa & o' & t' & w' & Hi & Hs & _ & _ & Hrun).
  exists p, pa, (tt, (o', (t', w'))). split; [exact Hi|]. split; [exact Hs|]. apply Hrun. reflexivity.
Defined.
End witnesses.
