(* ===== verification/Blk.v ===== *)
(** * The block device driver

    [src/src/device/blk.rs]: [VirtIOBlk], requests and responses. A buffer that the caller passes
    is the slice of its memory; a request or response of the driver's own is a local variable. *)

From S2P Require Import Prelude Base Transport QueueData Queue DeviceQueue Owning Bytes Driver.

Module Blk.

Definition QUEUE : Z := 0.
Definition QUEUE_SIZE : Z := 16.
Definition SECTOR_SIZE : Z := 512.

Module BlkFeature.
Definition BARRIER : Z := Z.shiftl 1 0.
Definition SIZE_MAX : Z := Z.shiftl 1 1.
Definition SEG_MAX : Z := Z.shiftl 1 2.
Definition GEOMETRY : Z := Z.shiftl 1 4.
Definition RO : Z := Z.shiftl 1 5.
Definition BLK_SIZE : Z := Z.shiftl 1 6.
Definition SCSI : Z := Z.shiftl 1 7.
Definition FLUSH : Z := Z.shiftl 1 9.
Definition TOPOLOGY : Z := Z.shiftl 1 10.
Definition CONFIG_WCE : Z := Z.shiftl 1 11.
Definition MQ : Z := Z.shiftl 1 12.
Definition DISCARD : Z := Z.shiftl 1 13.
Definition WRITE_ZEROES : Z := Z.shiftl 1 14.
Definition LIFETIME : Z := Z.shiftl 1 15.
Definition SECURE_ERASE : Z := Z.shiftl 1 16.
Definition all : Z := foldr Z.lor Feature.all
  [BARRIER; SIZE_MAX; SEG_MAX; GEOMETRY; RO; BLK_SIZE; SCSI; FLUSH; TOPOLOGY; CONFIG_WCE; MQ;
   DISCARD; WRITE_ZEROES; LIFETIME; SECURE_ERASE].
End BlkFeature.

Definition SUPPORTED_FEATURES : Z :=
  foldr Z.lor 0 [BlkFeature.RO; BlkFeature.FLUSH; Feature.RING_INDIRECT_DESC;
                 Feature.RING_EVENT_IDX; Feature.VERSION_1].

(** ** Requests and responses *)
Inductive ReqType := In | Out | Flush | GetId | GetLifetime | Discard | WriteZeroes | SecureErase.

Definition ReqType_as_u32 (t : ReqType) : Z :=
  match t with
  | In => 0 | Out => 1 | Flush => 4 | GetId => 8 | GetLifetime => 10 | Discard => 11
  | WriteZeroes => 13 | SecureErase => 14
  end.

Record BlkReq := mkBlkReq { type_ : ReqType; reserved : Z; sector : Z }.
Definition BlkReq_default : BlkReq := mkBlkReq In 0 0.
Definition BlkReq_widths : list nat := [4; 4; 8]%nat.
Definition BlkReq_as_bytes (r : BlkReq) : list Z :=
  encode_fields BlkReq_widths [ReqType_as_u32 (type_ r); reserved r; sector r].

(** [BlkResp] is one byte, the [RespStatus]. *)
Module RespStatus.
Definition OK : Z := 0.
Definition IO_ERR : Z := 1.
Definition UNSUPPORTED : Z := 2.
Definition NOT_READY : Z := 3.
End RespStatus.

Definition RespStatus_into (status : Z) : Result unit :=
  if status =? RespStatus.OK then Ok tt
  else if status =? RespStatus.IO_ERR then Err IoError
  else if status =? RespStatus.UNSUPPORTED then Err Unsupported
  else if status =? RespStatus.NOT_READY then Err NotReady
  else Err IoError.

Definition BlkResp_default : list Z := [RespStatus.NOT_READY].
Definition BlkResp_from (bytes : list Z) : Z := of_le bytes.

(** The widths of the fields of [BlkConfig], from [capacity_low] to [opt_io_size]. *)
Definition BlkConfig : list nat := [4; 4; 4; 4; 2; 1; 1; 4; 1; 1; 2; 4]%nat.
Definition capacity_low : Z := field_offset BlkConfig 0.
Definition capacity_high : Z := field_offset BlkConfig 1.

(** ** The driver *)
Record VirtIOBlk (T : Type) := mkVirtIOBlk {
  transport : T;
  queue : VQ.VirtQueue;
  blk_capacity : Z;
  negotiated_features : Z
}.
Arguments mkVirtIOBlk {T} _ _ _ _.
Arguments transport {T} _.
Arguments queue {T} _.
Arguments blk_capacity {T} _.
Arguments negotiated_features {T} _.

Section blk.
Context `{Profile} {W T : Type} `{Hal W} `{Allocator W} `{Mem W} `{Stack W} `{Device W}.
Context `{Transport T W}.
Context (fuel : nat).
Abbreviation St := (VirtIOBlk T * W)%type.

Definition blk_lens : lens St (VQ.VirtQueue * (T * W)) :=
  {| view := λ s, (queue s.1, (transport s.1, s.2));
     update := λ a s, (mkVirtIOBlk a.2.1 a.1 (blk_capacity s.1) (negotiated_features s.1), a.2.2) |}.

Definition read_capacity : M (T * W) (Result Z) :=
  low ←? read_config 4 capacity_low;
  high ←? read_config 4 capacity_high;
  mret (Ok (Z.lor low (wrap 64 (Z.shiftl high 32)))).

Definition new : M (T * W) (Result (VirtIOBlk T)) :=
  negotiated_features ←? begin_init BlkFeature.all SUPPORTED_FEATURES;
  capacity ←? read_consistent fuel read_capacity;
  queue ←? VQ.new QUEUE_SIZE QUEUE (contains negotiated_features Feature.RING_INDIRECT_DESC)
             (contains negotiated_features Feature.RING_EVENT_IDX);
  finish_init;;
  t ← gets fst;
  mret (Ok (mkVirtIOBlk t queue capacity negotiated_features)).

Definition capacity (b : VirtIOBlk T) : Z := blk_capacity b.
Definition readonly (b : VirtIOBlk T) : bool := contains (negotiated_features b) BlkFeature.RO.
Definition virt_queue_size : Z := QUEUE_SIZE.

Definition ack_interrupt : M St Z := zoom blk_lens (on_snd Transport.ack_interrupt).
Definition enable_interrupts : M St unit :=
  zoom blk_lens (zoom VQ.queue_lens (VQ.set_dev_notify true)).
Definition disable_interrupts : M St unit :=
  zoom blk_lens (zoom VQ.queue_lens (VQ.set_dev_notify false)).

(** [request], [request_read] and [request_write]: the buffers around the request and the
    response differ. *)
Definition request_with (req : BlkReq) (reads writes : list Slice) : M St (Result unit) :=
  '(r, resp) ← on_snd (stack_slot2 (BlkReq_as_bytes req) BlkResp_default);
  _ ←? zoom blk_lens (VQ.add_notify_wait_pop QUEUE_SIZE fuel (r :: reads) (writes ++ [resp]));
  status ← on_snd (mem_read resp);
  mret (RespStatus_into (BlkResp_from status)).

Definition request (req : BlkReq) : M St (Result unit) := request_with req [] [].
Definition request_read (req : BlkReq) (data : Slice) : M St (Result unit) :=
  request_with req [] [data].
Definition request_write (req : BlkReq) (data : Slice) : M St (Result unit) :=
  request_with req [data] [].

Definition flush : M St (Result unit) :=
  b ← gets fst;
  if contains (negotiated_features b) BlkFeature.FLUSH
  then request (mkBlkReq Flush 0 0)
  else mret (Ok tt).

(** [id] is the slice of an array of 20 bytes. *)
Definition device_id (id : Slice) : M St (Result Z) :=
  _ ←? request_read (mkBlkReq GetId 0 0) id;
  bytes ← on_snd (mem_read id);
  mret (Ok (match list_find (λ x, x = 0) bytes with
            | Some (i, _) => Z.of_nat i
            | None => 20 end)).

(** The two assertions on the length of a buffer. *)
Definition check_len (buf : Slice) : M St unit :=
  assert (negb (s_len buf =? 0));; assert (s_len buf mod SECTOR_SIZE =? 0).

Definition read_blocks (block_id : Z) (buf : Slice) : M St (Result unit) :=
  check_len buf;;
  request_read (mkBlkReq In 0 block_id) buf.

Definition write_blocks (block_id : Z) (buf : Slice) : M St (Result unit) :=
  check_len buf;;
  request_write (mkBlkReq Out 0 block_id) buf.

(** *** Requests that do not block *)

(** The request is stored in [req], added, and the device notified if it asks for it. *)
Definition submit (r : BlkReq) (req : Slice) (reads writes : list Slice) : M St (Result Z) :=
  on_snd (mem_write (s_ptr req) (BlkReq_as_bytes r));;
  zoom blk_lens (
    token ←? zoom VQ.queue_lens (VQ.add QUEUE_SIZE (req :: reads) writes);
    q ← gets fst;
    (if VQ.should_notify q then on_snd (notify QUEUE) else mret tt);;
    mret (Ok token)).

Definition read_blocks_nb (block_id : Z) (req buf resp : Slice) : M St (Result Z) :=
  check_len buf;;
  submit (mkBlkReq In 0 block_id) req [] [buf; resp].

Definition write_blocks_nb (block_id : Z) (req buf resp : Slice) : M St (Result Z) :=
  check_len buf;;
  submit (mkBlkReq Out 0 block_id) req [buf] [resp].

Definition complete (token : Z) (inputs outputs : list Slice) (resp : Slice) : M St (Result unit) :=
  _ ←? zoom blk_lens (zoom VQ.queue_lens (VQ.pop_used QUEUE_SIZE token inputs outputs));
  status ← on_snd (mem_read resp);
  mret (RespStatus_into (BlkResp_from status)).

Definition complete_read_blocks (token : Z) (req buf resp : Slice) : M St (Result unit) :=
  complete token [req] [buf; resp] resp.
Definition complete_write_blocks (token : Z) (req buf resp : Slice) : M St (Result unit) :=
  complete token [req; buf] [resp] resp.

Definition peek_used : M St (option Z) := zoom blk_lens (zoom VQ.queue_lens (VQ.peek_used QUEUE_SIZE)).

(** [Drop], then that of the queue. *)
Definition drop (b : VirtIOBlk T) : M (T * W) unit :=
  queue_unset QUEUE;; on_snd (OwningQueue.drop_queue (queue b)).
End blk.
End Blk.
