(* ===== verification/BlkProps.v ===== *)
(** * Properties of the block device driver

    Against a device that speaks the block protocol of the VirtIO specification (section 5.2.6),
    [VirtIOBlk] reads and writes its sectors. *)

From S2P Require Import Prelude Base Transport QueueData Queue QueueInv QueueWait Serve DeviceQueue Owning Bytes Driver Blk.
From S2P Require Import QueueNew FakeTransport Lab Bench.
Import Blk.

(** ** The block protocol *)
Record Disk := mkDisk {
  d_bytes : Z → Z;
  d_sectors : Z;
  d_ro : bool;
  d_id : list Z
}.

(** The data in the buffers before the last, the status in the last. *)
Fixpoint blk_answer (ls : list Z) (data : list Z) (status : Z) : list (list Z) :=
  match ls with
  | [] => []
  | [n] => [fit n [status]]
  | n :: ls => fit n data :: blk_answer ls (skipn (Z.to_nat n) data) status
  end.

Definition in_range (d : Disk) (sector n : Z) : bool :=
  (n mod SECTOR_SIZE =? 0) && (sector + n / SECTOR_SIZE <=? d_sectors d).

(** Bytes from the start of a sector. *)
Definition disk_read (d : Disk) (sector n : Z) : list Z :=
  d_bytes d <$> seqZ (SECTOR_SIZE * sector) n.
Definition disk_write (d : Disk) (sector : Z) (l : list Z) : Disk :=
  mkDisk (λ x, if decide (SECTOR_SIZE * sector ≤ x < SECTOR_SIZE * sector + Z.of_nat (length l))
               then default 0 (l !! Z.to_nat (x - SECTOR_SIZE * sector)) else d_bytes d x)
    (d_sectors d) (d_ro d) (d_id d).

Lemma disk_read_write d sec l : disk_read (disk_write d sec l) sec (Z.of_nat (length l)) = l.
Proof.
  unfold disk_read. apply list_eq. intros i. rewrite list_lookup_fmap.
  destruct (decide (i < length l)%nat) as [Hi|Hi].
  - rewrite lookup_seqZ_lt by lia. simpl. rewrite decide_True by lia.
    replace (SECTOR_SIZE * sec + Z.of_nat i - SECTOR_SIZE * sec) with (Z.of_nat i) by lia. rewrite Nat2Z.id.
    destruct (lookup_lt_is_Some_2 l i Hi) as [x Hx]. by rewrite Hx.
  - rewrite lookup_seqZ_ge by lia. by rewrite lookup_ge_None_2 by lia.
Qed.

(** The type and the sector of a request. *)
Definition req_type (hdr : list Z) : Z := of_le (take 4 hdr).
Definition req_sector (hdr : list Z) : Z := of_le (take 8 (skipn 8 hdr)).

Definition sum_Z (l : list Z) : Z := foldr Z.add 0 l.

Definition blk_serve (d : Disk) (rs : list (list Z)) (ls : list Z) : Disk * list (list Z) * Z :=
  match rs with
  | [] => (d, blk_answer ls [] RespStatus.UNSUPPORTED, 0)
  | hdr :: data =>
    let n := sum_Z ls - 1 in
    let payload := mjoin data in
    if req_type hdr =? 0 then
      if in_range d (req_sector hdr) n
      then (d, blk_answer ls (disk_read d (req_sector hdr) n) RespStatus.OK, n + 1)
      else (d, blk_answer ls [] RespStatus.IO_ERR, 1)
    else if req_type hdr =? 1 then
      if negb (d_ro d) && in_range d (req_sector hdr) (Z.of_nat (length payload))
      then (disk_write d (req_sector hdr) payload, blk_answer ls [] RespStatus.OK, 1)
      else (d, blk_answer ls [] RespStatus.IO_ERR, 1)
    else if req_type hdr =? 4 then (d, blk_answer ls [] RespStatus.OK, 1)
    else if req_type hdr =? 8 then (d, blk_answer ls (d_id d) RespStatus.OK, n + 1)
    else (d, blk_answer ls [] RespStatus.UNSUPPORTED, 1)
  end.

Lemma blk_answer_length ls data st : length <$> blk_answer ls data st = Z.to_nat <$> ls.
Proof.
  revert data. induction ls as [|n ls IH]; intros data; [done|].
  destruct ls as [|m ls]; [by cbn; rewrite fit_length|].
  change (blk_answer (n :: m :: ls) data st)
    with (fit n data :: blk_answer (m :: ls) (skipn (Z.to_nat n) data) st).
  rewrite !(fmap_cons _ _ (_ :: _)), fmap_cons, fit_length. by rewrite IH.
Qed.

Lemma blk_serve_lengths d rs ls : length <$> (blk_serve d rs ls).1.2 = Z.to_nat <$> ls.
Proof. unfold blk_serve. repeat case_match; apply blk_answer_length. Qed.

(** ** The driver *)
Section blk.
Context {N : nat} {T W : Type} `{Server QUEUE_SIZE N QUEUE T W Disk} `{Profile} (fuel : nat).
Implicit Types (b : VirtIOBlk T) (w : W).

(** The driver between requests: its queue is idle. *)
Record blk_ok b w (rest : list Res) : Prop := {
  bk_idle : idle QUEUE_SIZE (queue b) w rest;
  bk_idx : VQ.queue_idx (queue b) = QUEUE;
  bk_tok : tok (transport b)
}.

(** Two drivers that differ only in the state of their queue and transport. *)
Definition same_driver b b' : Prop :=
  blk_capacity b' = blk_capacity b ∧ negotiated_features b' = negotiated_features b.

Lemma req_bytes_length r : length (BlkReq_as_bytes r) = 16%nat.
Proof. unfold BlkReq_as_bytes. by rewrite encode_fields_length. Qed.

(** A request: the device gets the header and the data, the caller the status. *)
Lemma blk_request_run req reads writes b w rest : (N < fuel)%nat → blk_ok b w rest →
  Forall user_buffer (reads ++ writes) → disjoint_all writes →
  (length (reads ++ writes) ≤ 1)%nat → ∃ status len b' w',
  request_with fuel req reads writes (b, w) = (Val (RespStatus_into (of_le status)), (b', w')) ∧
  blk_ok b' w' rest ∧ same_driver b b' ∧
  serve (dstate w) (BlkReq_as_bytes req :: (bytes_of w <$> reads)) ((s_len <$> writes) ++ [1]) =
    (dstate w', (bytes_of w' <$> writes) ++ [status], len) ∧
  (∀ x, own x → ¬ frame x → (∀ c, c ∈ writes → ¬ in_slice c x) → byte_at w' x = byte_at w x).
Proof.
  intros Hf [Hid Hix Htk] Hu Hd Hn.
  destruct (call_run (SIZE := QUEUE_SIZE) eq_refl fuel (queue b) (transport b) w rest (BlkReq_as_bytes req)
    BlkResp_default reads writes) as (a & c & w0 & len & q' & t' & w' & E0 & E & Hid' & Htk' & _ & Hix' & Es & Hm);
    rewrite ?req_bytes_length; try done; [unfold QUEUE_SIZE; lia|].
  exists (bytes_of w' c), len, (mkVirtIOBlk t' q' (blk_capacity b) (negotiated_features b)), w'.
  split_and!; try done. unfold request_with. erewrite bind_val by (apply on_snd_val; exact E0). cbv beta iota.
  erewrite try_ok by (apply zoom_val; exact E). cbn.
  by erewrite bind_val by (apply on_snd_val; apply mem_read_spec).
Qed.

Lemma req_decode t sec : fits 64 sec →
  req_type (BlkReq_as_bytes (mkBlkReq t 0 sec)) = ReqType_as_u32 t ∧
  req_sector (BlkReq_as_bytes (mkBlkReq t 0 sec)) = sec.
Proof.
  intros Hs. pose proof (decode_encode BlkReq_widths [ReqType_as_u32 t; 0; sec] []) as E.
  rewrite app_nil_r in E. unfold BlkReq_as_bytes. cbn [type_ reserved sector].
  revert E. generalize (encode_fields BlkReq_widths [ReqType_as_u32 t; 0; sec]). intros l E.
  cbn [decode_fields BlkReq_widths] in E. rewrite skipn_skipn in E. unfold req_type, req_sector.
  assert (fields_ok BlkReq_widths [ReqType_as_u32 t; 0; sec]) as F.
  { unfold fields_ok, BlkReq_widths. rewrite !Forall2_cons. repeat split; try apply Hs; try constructor; try (by destruct t); lia. }
  specialize (E F). split; [by apply (f_equal (λ l, nth 0 l 0)) in E|by apply (f_equal (λ l, nth 2 l 0)) in E].
Qed.

Context (Hproto : ∀ d rs ls, serve d rs ls = blk_serve d rs ls) (Hfuel : (N < fuel)%nat).

(** A buffer of whole sectors. *)
Definition sectors (buf : Slice) : Prop := user_buffer buf ∧ s_len buf mod SECTOR_SIZE = 0.

Lemma check_run buf b w : sectors buf → check_len buf (b, w) = (Val tt, (b, w)).
Proof.
  intros [[Hl _] Hm]. unfold check_len. rewrite (proj2 (Z.eqb_neq (s_len buf) 0)) by lia. by rewrite Hm.
Qed.

Lemma disk_read_length d sec n : 0 ≤ n → Z.of_nat (length (disk_read d sec n)) = n.
Proof. intros. unfold disk_read. rewrite length_fmap, length_seqZ. lia. Qed.

Lemma in_range_sectors d sec buf : sectors buf →
  in_range d sec (s_len buf) = (sec + s_len buf / SECTOR_SIZE <=? d_sectors d).
Proof. intros [_ Hm]. unfold in_range. by rewrite Hm. Qed.

(** *** What the driver promises: a disk *)
Inductive op :=
  | OpRead (sec : Z) (buf : Slice)
  | OpWrite (sec : Z) (buf : Slice)
  | OpFlush.

Definition exec (o : op) : M (VirtIOBlk T * W) (Result unit) :=
  match o with
  | OpRead sec buf => read_blocks fuel sec buf
  | OpWrite sec buf => write_blocks fuel sec buf
  | OpFlush => flush fuel
  end.

Definition op_ok (o : op) : Prop :=
  match o with
  | OpRead sec buf | OpWrite sec buf => fits 64 sec ∧ sectors buf
  | OpFlush => True
  end.

(** The memory of the program: what is neither the driver's nor the queue's. *)
Definition user (x : Z) : Prop := own x ∧ ¬ frame x.
Definition mem_bytes (m : Z → Z) (buf : Slice) : list Z := m <$> seqZ (s_ptr buf) (s_len buf).
Definition unchanged (m m' : Z → Z) : Prop := ∀ x, user x → m' x = m x.
Definition unchanged_but (buf : Slice) (m m' : Z → Z) : Prop :=
  ∀ x, user x → ¬ in_slice buf x → m' x = m x.

Definition fits_disk (d : Disk) (sec : Z) (buf : Slice) : Prop :=
  sec + s_len buf / SECTOR_SIZE ≤ d_sectors d.

Inductive disk_step : op → Disk * (Z → Z) → Result unit → Disk * (Z → Z) → Prop :=
  | step_read d m m' sec buf : fits_disk d sec buf →
      mem_bytes m' buf = disk_read d sec (s_len buf) → unchanged_but buf m m' →
      disk_step (OpRead sec buf) (d, m) (Ok tt) (d, m')
  | step_read_fails d m m' sec buf : ¬ fits_disk d sec buf → unchanged_but buf m m' →
      disk_step (OpRead sec buf) (d, m) (Err IoError) (d, m')
  | step_write d m m' sec buf : d_ro d = false → fits_disk d sec buf → unchanged m m' →
      disk_step (OpWrite sec buf) (d, m) (Ok tt) (disk_write d sec (mem_bytes m buf), m')
  | step_write_fails d m m' sec buf : d_ro d = true ∨ ¬ fits_disk d sec buf → unchanged m m' →
      disk_step (OpWrite sec buf) (d, m) (Err IoError) (d, m')
  | step_flush d m m' : unchanged m m' → disk_step OpFlush (d, m) (Ok tt) (d, m').

Definition simulates (o : op) b w rest : Prop := ∃ r b' w',
  exec o (b, w) = (Val r, (b', w')) ∧ blk_ok b' w' rest ∧ same_driver b b' ∧
  disk_step o (dstate w, byte_at w) r (dstate w', byte_at w').

Lemma read_simulates sec buf b w rest : blk_ok b w rest → fits 64 sec → sectors buf →
  simulates (OpRead sec buf) b w rest.
Proof.
  intros Hb Hsec Hs. destruct (req_decode In sec Hsec) as [Ht Hsc]. pose proof Hs as [Hu Hm].
  destruct (blk_request_run (mkBlkReq In 0 sec) [] [buf] b w rest Hfuel Hb)
    as (status & len & b' & w' & E & Hb' & Hsame & Es & Hmem); [by constructor|by split|simpl; lia|].
  assert (unchanged_but buf (byte_at w) (byte_at w')) as Hun.
  { intros x [Ho Hf] Hx. apply Hmem; try done. by intros c ->%list_elem_of_singleton. }
  rewrite Hproto in Es. unfold blk_serve in Es. rewrite Ht, Hsc in Es. simpl in Es.
  replace (s_len buf + (1 + 0) - 1) with (s_len buf) in Es by lia. rewrite in_range_sectors in Es by done.
  assert (∀ r, RespStatus_into (of_le status) = r → exec (OpRead sec buf) (b, w) = (Val r, (b', w'))) as He.
  { intros r <-. simpl. unfold read_blocks. erewrite bind_val by (by apply check_run). exact E. }
  destruct (Z.leb_spec (sec + s_len buf / SECTOR_SIZE) (d_sectors (dstate w))) as [Hle|Hgt].
  - injection Es as Ed Eb Est El. rewrite fit_exact in Eb by (apply disk_read_length; destruct Hu; lia).
    exists (Ok tt), b', w'. split_and!; try done; [apply He; by rewrite <- Est|]. rewrite <- Ed. by constructor.
  - injection Es as Ed Eb Est El.
    exists (Err IoError), b', w'. split_and!; try done; [apply He; by rewrite <- Est|].
    rewrite <- Ed. constructor; [|done]. unfold fits_disk. lia.
Qed.

Lemma write_simulates sec buf b w rest : blk_ok b w rest → fits 64 sec → sectors buf →
  simulates (OpWrite sec buf) b w rest.
Proof.
  intros Hb Hsec Hs. destruct (req_decode Out sec Hsec) as [Ht Hsc]. pose proof Hs as [Hu Hm].
  destruct (blk_request_run (mkBlkReq Out 0 sec) [buf] [] b w rest Hfuel Hb)
    as (status & len & b' & w' & E & Hb' & Hsame & Es & Hmem); [by constructor|done|simpl; lia|].
  assert (unchanged (byte_at w) (byte_at w')) as Hun.
  { intros x [Ho Hf]. apply Hmem; try done. by intros c ?%elem_of_nil. }
  rewrite Hproto in Es. unfold blk_serve in Es. rewrite Ht, Hsc in Es. simpl in Es. rewrite app_nil_r in Es.
  rewrite bytes_of_length, Z2Nat.id in Es by (destruct Hu; lia). rewrite in_range_sectors in Es by done.
  assert (∀ r, RespStatus_into (of_le status) = r → exec (OpWrite sec buf) (b, w) = (Val r, (b', w'))) as He.
  { intros r <-. simpl. unfold write_blocks. erewrite bind_val by (by apply check_run). exact E. }
  destruct (d_ro (dstate w)) eqn:Ero; cbn [negb andb] in Es;
    [|destruct (Z.leb_spec (sec + s_len buf / SECTOR_SIZE) (d_sectors (dstate w))) as [Hle|Hgt]];
    injection Es as Ed Est El.
  - exists (Err IoError), b', w'. split_and!; try done; [apply He; by rewrite <- Est|]. rewrite <- Ed.
    apply step_write_fails; [by left|done].
  - exists (Ok tt), b', w'. split_and!; try done; [apply He; by rewrite <- Est|]. rewrite <- Ed. by constructor.
  - exists (Err IoError), b', w'. split_and!; try done; [apply He; by rewrite <- Est|]. rewrite <- Ed.
    apply step_write_fails; [right; unfold fits_disk; lia|done].
Qed.

Lemma flush_simulates b w rest : blk_ok b w rest → simulates OpFlush b w rest.
Proof.
  intros Hb. unfold simulates. simpl. unfold flush. mstep.
  destruct (contains _ _); [|exists (Ok tt), b, w; split_and!; try done; by constructor].
  destruct (req_decode Flush 0) as [Ht Hsc]; [done|].
  destruct (blk_request_run (mkBlkReq Flush 0 0) [] [] b w rest Hfuel Hb)
    as (status & len & b' & w' & E & Hb' & Hsame & Es & Hmem); [by constructor|done|simpl; lia|].
  rewrite Hproto in Es. unfold blk_serve in Es. rewrite Ht in Es. simpl in Es. injection Es as Ed Est El.
  exists (Ok tt), b', w'. split_and!; try done; [unfold request; rewrite E; by rewrite <- Est|].
  rewrite <- Ed. constructor. intros x [Ho Hf]. apply Hmem; try done. by intros c ?%elem_of_nil.
Qed.

Lemma exec_simulates o b w rest : blk_ok b w rest → op_ok o → simulates o b w rest.
Proof.
  intros Hb Ho. destruct o; [destruct Ho; by apply read_simulates|destruct Ho; by apply write_simulates|].
  by apply flush_simulates.
Qed.

Fixpoint exec_all (os : list op) : M (VirtIOBlk T * W) (list (Result unit)) :=
  match os with
  | [] => mret []
  | o :: os => r ← exec o; rs ← exec_all os; mret (r :: rs)
  end.

Inductive disk_steps : list op → Disk * (Z → Z) → list (Result unit) → Disk * (Z → Z) → Prop :=
  | steps_nil s : disk_steps [] s [] s
  | steps_cons o os s s' s'' r rs : disk_step o s r s' → disk_steps os s' rs s'' →
      disk_steps (o :: os) s (r :: rs) s''.

(** C7. Any sequence of blocking reads, writes and flushes terminates without a panic, with the
    results, the disk and the memory of the abstract disk; the driver is again ready afterwards. *)
Theorem blk_refines_disk os b w rest : blk_ok b w rest → Forall op_ok os → ∃ rs b' w',
  exec_all os (b, w) = (Val rs, (b', w')) ∧ blk_ok b' w' rest ∧ same_driver b b' ∧
  disk_steps os (dstate w, byte_at w) rs (dstate w', byte_at w').
Proof.
  intros Hb Hos. revert b w Hb. induction Hos as [|o os Ho _ IH]; intros b w Hb.
  { exists [], b, w. split_and!; try done. constructor. }
  destruct (exec_simulates o b w rest Hb Ho) as (r & b1 & w1 & E1 & Hb1 & [S1 S2] & D1).
  destruct (IH b1 w1 Hb1) as (rs & b' & w' & E2 & Hb' & [S3 S4] & D2).
  exists (r :: rs), b', w'. split_and!; try done.
  - simpl. erewrite bind_val by exact E1. by erewrite bind_val by exact E2.
  - split; congruence.
  - by econstructor.
Qed.

(** What was written is read back: a write of whole sectors to a disk that is not read-only,
    followed by a read of as many sectors into another buffer, puts the written bytes there. *)
Theorem blk_write_read sec src dst b w rest : blk_ok b w rest → fits 64 sec → sectors src → sectors dst →
  s_len dst = s_len src → d_ro (dstate w) = false → fits_disk (dstate w) sec src → ∃ b1 w1 b2 w2,
  write_blocks fuel sec src (b, w) = (Val (Ok tt), (b1, w1)) ∧
  read_blocks fuel sec dst (b1, w1) = (Val (Ok tt), (b2, w2)) ∧
  bytes_of w2 dst = bytes_of w src ∧ blk_ok b2 w2 rest.
Proof.
  intros Hb Hsec Hs Hd Hl Hro Hfit.
  destruct (write_simulates sec src b w rest Hb Hsec Hs) as (r & b1 & w1 & E1 & Hb1 & _ & D1).
  destruct (read_simulates sec dst b1 w1 rest Hb1 Hsec Hd) as (r2 & b2 & w2 & E2 & Hb2 & _ & D2).
  inversion D1 as [| |d m m' s0 buf0 Hr Hf Hun X1 X2 X3 X4|d m m' s0 buf0 [Hr|Hf]|]; subst;
    [|congruence|done]. rewrite <- X4 in D2.
  inversion D2 as [d m m' s0 buf0 Hf2 Hm Hun2 Y1 Y2 Y3 Y4|d m m' s0 buf0 Hf2| | |]; subst.
  - exists b1, w1, b2, w2. split_and!; try done. change (mem_bytes (byte_at w2) dst = mem_bytes (byte_at w) src).
    rewrite Hm, Hl. etrans; [|apply (disk_read_write (dstate w) sec)]. f_equal. unfold mem_bytes.
    rewrite length_fmap, length_seqZ. destruct Hs as [[? _] _]. lia.
  - destruct Hf2. unfold fits_disk in *. by rewrite Hl.
Qed.

(** The length of a string that ends at its first zero. *)
Lemma first_zero (l : list Z) (n : Z) : Z.of_nat (length l) = n →
  let k := match list_find (λ x, x = 0) l with Some (i, _) => Z.of_nat i | None => n end in
  0 ≤ k ≤ n ∧ (∀ i, 0 ≤ i < k → l !! Z.to_nat i ≠ Some 0) ∧ (k < n → l !! Z.to_nat k = Some 0).
Proof.
  intros Hl. destruct (list_find _ l) as [[k x]|] eqn:E; cbv zeta.
  - apply list_find_Some in E as (Hk & -> & Hmin). pose proof (lookup_lt_Some _ _ _ Hk).
    rewrite Nat2Z.id. split_and!; [lia|lia| |done]. intros i Hi Hz. by apply (Hmin _ _ Hz); [lia|].
  - apply list_find_None in E. rewrite Forall_forall in E. split_and!; [lia|lia| |lia].
    intros i _ Hz. by apply (E 0 (list_elem_of_lookup_2 _ _ _ Hz)).
Qed.

(** The identity string of the device is stored in the array of 20 bytes, and its length is
    the position of the first zero, or 20. *)
Theorem blk_device_id id b w rest : blk_ok b w rest → user_buffer id → s_len id = 20 → ∃ n b' w',
  device_id fuel id (b, w) = (Val (Ok n), (b', w')) ∧ blk_ok b' w' rest ∧
  bytes_of w' id = fit 20 (d_id (dstate w)) ∧ 0 ≤ n ≤ 20 ∧
  (∀ i, 0 ≤ i < n → fit 20 (d_id (dstate w)) !! Z.to_nat i ≠ Some 0) ∧
  (n < 20 → fit 20 (d_id (dstate w)) !! Z.to_nat n = Some 0).
Proof.
  intros Hb Hu Hl. destruct (req_decode GetId 0) as [Ht Hsc]; [done|].
  destruct (blk_request_run (mkBlkReq GetId 0 0) [] [id] b w rest Hfuel Hb)
    as (status & len & b' & w' & E & Hb' & Hsame & Es & Hmem); [by constructor|by split|simpl; lia|].
  rewrite Hproto in Es. unfold blk_serve in Es. rewrite Ht in Es. simpl in Es. rewrite Hl in Es. simpl in Es.
  injection Es as Ed Eb Est El. unfold device_id. eexists _, b', w'. split.
  { erewrite try_ok; [|unfold request_read; rewrite E; by rewrite <- Est].
    erewrite bind_val by (apply on_snd_val, mem_read_spec). done. }
  split_and!; try done; fold (bytes_of w' id); rewrite <- Eb; apply first_zero; by rewrite fit_length.
Qed.
End blk.

(** ** A disk in the laboratory *)
Section witnesses.
Import Bench Lab FakeTransport.

Definition disk0 : Disk := mkDisk (λ x, x mod 251) 8 false [118; 100; 97].
Definition bw0 : Lab Disk := lab0 disk0.
Definition blk0 : VirtIOBlk FakeTransport :=
  mkVirtIOBlk (transport0 Block 1) (indirect0 QUEUE_SIZE QUEUE) 8 BlkFeature.FLUSH.
Definition buf0 : Slice := mkSlice 65536 1024.
Definition buf1 : Slice := mkSlice 131072 1024.

#[local] Instance disk_device : Device (Lab Disk) := lab_device (λ _, blk_serve).
#[local] Instance disk_server : Server QUEUE_SIZE 1 QUEUE FakeTransport (Lab Disk) Disk :=
  lab_server (λ _, blk_serve) QUEUE_SIZE QUEUE eq_refl (Z.le_refl _) blk_serve_lengths.

Lemma disk_serves d rs ls : serve d rs ls = blk_serve d rs ls.
Proof. done. Qed.

Lemma blk0_ok : blk_ok blk0 bw0 [].
Proof. split; try done. by apply queue0_idle. Qed.

Lemma buf0_sectors : sectors (W := Lab Disk) buf0.
Proof. split; [|done]. by apply low_user. Qed.

Lemma buf1_sectors : sectors (W := Lab Disk) buf1.
Proof. split; [|done]. by apply low_user. Qed.

Lemma blk_refines_disk_witness : ∃ rs b' w',
  exec_all 2 [OpRead 6 buf0; OpWrite 7 buf1; OpFlush] (blk0, bw0) = (Val rs, (b', w')) ∧ blk_ok b' w' [] ∧
  same_driver blk0 b' ∧
  disk_steps (W := Lab Disk) [OpRead 6 buf0; OpWrite 7 buf1; OpFlush] (disk0, lmem bw0) rs (ldev w', lmem w').
Proof.
  apply (blk_refines_disk 2 disk_serves (le_n 2) [OpRead 6 buf0; OpWrite 7 buf1; OpFlush] blk0 bw0 []).
  - exact blk0_ok.
  - apply Forall_cons_2; [split; [done|exact buf0_sectors]|].
    apply Forall_cons_2; [split; [done|exact buf1_sectors]|]. by apply Forall_cons_2.
Defined.

Lemma blk_write_read_witness : ∃ b1 w1 b2 w2,
  write_blocks 2 3 buf0 (blk0, bw0) = (Val (Ok tt), (b1, w1)) ∧
  read_blocks 2 3 buf1 (b1, w1) = (Val (Ok tt), (b2, w2)) ∧
  bytes_of w2 buf1 = bytes_of bw0 buf0 ∧ blk_ok b2 w2 [].
Proof.
  apply (blk_write_read 2 disk_serves (le_n 2) 3 buf0 buf1 blk0 bw0 []); try done;
    [exact blk0_ok|exact buf0_sectors|exact buf1_sectors].
Defined.

Lemma blk_device_id_witness : ∃ n b' w',
  device_id 2 (mkSlice 65536 20) (blk0, bw0) = (Val (Ok n), (b', w')) ∧ blk_ok b' w' [] ∧
  bytes_of w' (mkSlice 65536 20) = fit 20 [118; 100; 97] ∧ 0 ≤ n ≤ 20 ∧
  (∀ i, 0 ≤ i < n → fit 20 [118; 100; 97] !! Z.to_nat i ≠ Some 0) ∧
  (n < 20 → fit 20 [118; 100; 97] !! Z.to_nat n = Some 0).
Proof.
  apply (blk_device_id 2 disk_serves (le_n 2) (mkSlice 65536 20) blk0 bw0 []); try done;
    [exact blk0_ok|by apply low_user].
Defined.
End witnesses.
