(* ===== verification/Rng.v ===== *)
(** * The entropy device driver

    [src/src/device/rng.rs]: [VirtIORng], and what it does with a device that serves its queue. *)

From S2P Require Import Prelude Base Transport QueueData Queue DeviceQueue Owning.

Module Rng.

Definition QUEUE_IDX : Z := 0.
Definition QUEUE_SIZE : Z := 8.
Definition SUPPORTED_FEATURES : Z :=
  Z.lor (Z.lor Feature.RING_INDIRECT_DESC Feature.RING_EVENT_IDX) Feature.VERSION_1.

Record VirtIORng (T : Type) := mkVirtIORng { transport : T; queue : VQ.VirtQueue }.
Arguments mkVirtIORng {T} _ _.
Arguments transport {T} _.
Arguments queue {T} _.

Section rng.
Context `{Profile} {W T : Type} `{Hal W} `{Allocator W} `{Device W} `{Transport T W}.
Context (fuel : nat).
Abbreviation St := (VirtIORng T * W)%type.

Definition rng_lens : lens St (VQ.VirtQueue * (T * W)) :=
  {| view := λ s, (queue s.1, (transport s.1, s.2));
     update := λ a s, (mkVirtIORng a.2.1 a.1, a.2.2) |}.

Definition new : M (T * W) (Result (VirtIORng T)) :=
  feat ←? begin_init Feature.all SUPPORTED_FEATURES;
  queue ←? VQ.new QUEUE_SIZE QUEUE_IDX (contains feat Feature.RING_INDIRECT_DESC)
             (contains feat Feature.RING_EVENT_IDX);
  finish_init;;
  t ← gets fst;
  mret (Ok (mkVirtIORng t queue)).

Definition request_entropy (dst : Slice) : M St (Result Z) :=
  num ←? zoom rng_lens (VQ.add_notify_wait_pop QUEUE_SIZE fuel [] [dst]);
  mret (Ok num).

Definition enable_interrupts : M St unit := zoom rng_lens (zoom VQ.queue_lens (VQ.set_dev_notify true)).
Definition disable_interrupts : M St unit := zoom rng_lens (zoom VQ.queue_lens (VQ.set_dev_notify false)).
Definition ack_interrupt : M St Z := zoom rng_lens (on_snd Transport.ack_interrupt).

(** [Drop], then that of the queue. *)
Definition drop (r : VirtIORng T) : M (T * W) unit :=
  queue_unset QUEUE_IDX;; on_snd (OwningQueue.drop_queue (queue r)).
End rng.
End Rng.

From S2P Require Import QueueInv QueueWait Serve FakeTransport Bench Lab.
Import Rng.

(** ** Against a device that serves its queue *)
Section props.
Context {N : nat} {T W D : Type} `{Server QUEUE_SIZE N QUEUE_IDX T W D} `{Profile} (fuel : nat).
Implicit Types (r : VirtIORng T) (w : W).

(** The driver between requests. *)
Record rng_ok r w (rest : list Res) : Prop := {
  rk_idle : idle QUEUE_SIZE (queue r) w rest;
  rk_idx : VQ.queue_idx (queue r) = QUEUE_IDX;
  rk_tok : tok (transport r)
}.

(** A request for entropy gives the buffer to the device and returns what the device wrote and
    the length it reported; nothing else in memory changes, and the driver is ready again. *)
Theorem rng_entropy r w rest dst : (N < fuel)%nat → rng_ok r w rest → user_buffer dst → ∃ len r' w',
  request_entropy fuel dst (r, w) = (Val (Ok len), (r', w')) ∧ rng_ok r' w' rest ∧
  serve (dstate w) [] [s_len dst] = (dstate w', [bytes_of w' dst], len) ∧
  (∀ x, own x → ¬ in_slice dst x → byte_at w' x = byte_at w x).
Proof.
  intros Hf [Hid Hix Htk] Hu.
  destruct (user_run (SIZE := QUEUE_SIZE) eq_refl fuel (queue r) (transport r) w rest [] [dst])
    as (len & q' & t' & w' & E & Hid' & Htk' & _ & Hix' & Es & Hm); try done;
    [by constructor|].
  exists len, (mkVirtIORng t' q'), w'. split_and!; try done.
  - unfold request_entropy. erewrite try_ok by (eapply (zoom_val rng_lens); exact E). done.
  - intros x Ho Hx. apply Hm; [done|]. by intros b ->%list_elem_of_singleton.
Qed.
End props.

(** A device that counts upwards. *)
Definition count_serve (d : Z) (rs : list (list Z)) (ls : list Z) : Z * list (list Z) * Z :=
  (d + 1, (λ n, replicate (Z.to_nat n) (d mod 256)) <$> ls, foldr Z.add 0 ls).

Lemma count_serve_lengths d rs ls : length <$> (count_serve d rs ls).1.2 = Z.to_nat <$> ls.
Proof. simpl. rewrite <- list_fmap_compose. apply list_fmap_ext. intros. simpl. by rewrite length_replicate. Qed.

Section witness.
Import Bench Lab FakeTransport.
#[local] Instance count_device : Device (Lab Z) := lab_device (λ _, count_serve).
#[local] Instance count_server : Server QUEUE_SIZE 1 QUEUE_IDX FakeTransport (Lab Z) Z :=
  lab_server (λ _, count_serve) QUEUE_SIZE QUEUE_IDX eq_refl (Z.le_refl _) count_serve_lengths.
Definition rng0 : VirtIORng FakeTransport := mkVirtIORng (transport0 EntropySource 1) (queue0 QUEUE_SIZE QUEUE_IDX).

Lemma rng_entropy_witness : ∃ len r' w',
  request_entropy 2 (mkSlice 65536 16) (rng0, lab0 7) = (Val (Ok len), (r', w')) ∧ rng_ok r' w' [] ∧
  serve (dstate (lab0 7)) [] [16] = (dstate w', [bytes_of w' (mkSlice 65536 16)], len) ∧
  (∀ x, own (W := Lab Z) x → ¬ in_slice (mkSlice 65536 16) x → byte_at w' x = byte_at (lab0 7) x).
Proof.
  apply (rng_entropy 2 rng0 (lab0 7) [] (mkSlice 65536 16)); [apply le_n| |by apply low_user].
  split; [by apply queue0_idle|done|done].
Defined.
End witness.
