(* ===== verification/Console.v ===== *)
(** * The console driver

    [src/src/device/console.rs]: [VirtIOConsole], and its [embedded_io] traits
    ([src/src/device/console/embedded_io.rs]). [queue_buf_rx] is the address of the boxed page. *)

From S2P Require Import Prelude Base Transport QueueData Queue DeviceQueue Owning Bytes Driver.

Module Console.

Definition QUEUE_RECEIVEQ_PORT_0 : Z := 0.
Definition QUEUE_TRANSMITQ_PORT_0 : Z := 1.
Definition QUEUE_SIZE : Z := 2.

Module Features.
Definition SIZE : Z := Z.shiftl 1 0.
Definition MULTIPORT : Z := Z.shiftl 1 1.
Definition EMERG_WRITE : Z := Z.shiftl 1 2.
Definition all : Z := foldr Z.lor Feature.all [SIZE; MULTIPORT; EMERG_WRITE].
End Features.

Definition SUPPORTED_FEATURES : Z :=
  foldr Z.lor 0 [Feature.RING_EVENT_IDX; Feature.RING_INDIRECT_DESC; Features.SIZE;
                 Features.EMERG_WRITE; Feature.VERSION_1].

Record Size := mkSize { columns : Z; rows : Z }.

(** The widths of the fields of [Config]. *)
Definition Config : list nat := [2; 2; 4; 4]%nat.
Definition config_cols : Z := field_offset Config 0.
Definition config_rows : Z := field_offset Config 1.
Definition config_emerg_wr : Z := field_offset Config 3.

Record VirtIOConsole (T : Type) := mkVirtIOConsole {
  transport : T;
  negotiated_features : Z;
  receiveq : VQ.VirtQueue;
  transmitq : VQ.VirtQueue;
  queue_buf_rx : Z;
  cursor : Z;
  pending_len : Z;
  receive_token : option Z
}.
Arguments mkVirtIOConsole {T} _ _ _ _ _ _ _ _.
Arguments transport {T} _.
Arguments negotiated_features {T} _.
Arguments receiveq {T} _.
Arguments transmitq {T} _.
Arguments queue_buf_rx {T} _.
Arguments cursor {T} _.
Arguments pending_len {T} _.
Arguments receive_token {T} _.

Section console.
Context `{Profile} {W T : Type} `{Hal W} `{Allocator W} `{Mem W} `{Stack W} `{Device W}.
Context `{Transport T W}.
Context (fuel : nat).
Abbreviation St := (VirtIOConsole T * W)%type.
Implicit Types (c : VirtIOConsole T).

Definition set_receive (cur len : Z) (token : option Z) c : VirtIOConsole T :=
  mkVirtIOConsole (transport c) (negotiated_features c) (receiveq c) (transmitq c)
    (queue_buf_rx c) cur len token.
Definition modc (f : VirtIOConsole T → VirtIOConsole T) : M St unit := modify (λ s, (f s.1, s.2)).
Definition getc {A} (f : VirtIOConsole T → A) : M St A := gets (λ s, f s.1).

Definition rx_lens : lens St (VQ.VirtQueue * (T * W)) :=
  {| view := λ s, (receiveq s.1, (transport s.1, s.2));
     update := λ a s, (mkVirtIOConsole a.2.1 (negotiated_features s.1) a.1 (transmitq s.1)
       (queue_buf_rx s.1) (cursor s.1) (pending_len s.1) (receive_token s.1), a.2.2) |}.
Definition tx_lens : lens St (VQ.VirtQueue * (T * W)) :=
  {| view := λ s, (transmitq s.1, (transport s.1, s.2));
     update := λ a s, (mkVirtIOConsole a.2.1 (negotiated_features s.1) (receiveq s.1) a.1
       (queue_buf_rx s.1) (cursor s.1) (pending_len s.1) (receive_token s.1), a.2.2) |}.
Definition on_transport {A} (x : M (T * W) A) : M St A := zoom rx_lens (on_snd x).

(** [self.queue_buf_rx.as_mut_slice()]. *)
Definition rx_buffer c : Slice := mkSlice (queue_buf_rx c) PAGE_SIZE.

Definition poll_retrieve : M St (Result unit) :=
  c ← gets fst;
  if bool_decide (receive_token c = None) && (cursor c =? pending_len c) then
    token ←? zoom rx_lens (zoom VQ.queue_lens (VQ.add QUEUE_SIZE [] [rx_buffer c]));
    modc (set_receive (cursor c) (pending_len c) (Some token));;
    q ← getc receiveq;
    (if VQ.should_notify q then on_transport (notify QUEUE_RECEIVEQ_PORT_0) else mret tt);;
    mret (Ok tt)
  else mret (Ok tt).

Definition finish_receive : M St (Result bool) :=
  c ← gets fst;
  match receive_token c with
  | None => mret (Ok false)
  | Some token =>
    used ← zoom rx_lens (zoom VQ.queue_lens (VQ.peek_used QUEUE_SIZE));
    if bool_decide (Some token = used) then
      len ←? zoom rx_lens (zoom VQ.queue_lens (VQ.pop_used QUEUE_SIZE token [] [rx_buffer c]));
      assert (negb (len =? 0));;
      modc (set_receive 0 len None);;
      mret (Ok true)
    else mret (Ok false)
  end.

(** [Drop], then that of the fields. *)
Definition drop c : M (T * W) unit :=
  queue_unset QUEUE_RECEIVEQ_PORT_0;;
  queue_unset QUEUE_TRANSMITQ_PORT_0;;
  on_snd (OwningQueue.drop_queue (receiveq c);; OwningQueue.drop_queue (transmitq c);;
          box_drop (queue_buf_rx c) PAGE_SIZE).

(** The console is moved into the result; when the first receive request fails it is dropped. *)
Definition start c : M (T * W) (Result (VirtIOConsole T)) := λ '(_, w),
  let '(o, (c, w)) := poll_retrieve (c, w) in
  match o with
  | Val (Ok _) => (Val (Ok c), (transport c, w))
  | Val (Err e) => (drop c;; mret (Err e)) (transport c, w)
  | Panic => (Panic, (transport c, w))
  | Hang => (Hang, (transport c, w))
  end.

Definition new : M (T * W) (Result (VirtIOConsole T)) :=
  negotiated ←? begin_init Features.all SUPPORTED_FEATURES;
  let indirect := contains negotiated Feature.RING_INDIRECT_DESC in
  let event_idx := contains negotiated Feature.RING_EVENT_IDX in
  rxq ←? VQ.new QUEUE_SIZE QUEUE_RECEIVEQ_PORT_0 indirect event_idx;
  or_drop (VQ.new QUEUE_SIZE QUEUE_TRANSMITQ_PORT_0 indirect event_idx) [rxq] (λ txq,
  page ← new_page;
  finish_init;;
  t ← gets fst;
  start (mkVirtIOConsole t negotiated rxq txq page 0 0 None)).

Definition read_size : M (T * W) (Result (option Size)) :=
  columns ←? read_config 2 config_cols;
  rows ←? read_config 2 config_rows;
  mret (Ok (Some (mkSize columns rows))).

Definition size : M St (Result (option Size)) :=
  c ← gets fst;
  if contains (negotiated_features c) Features.SIZE
  then on_transport (read_consistent fuel read_size)
  else mret (Ok None).

Definition ack_interrupt : M St (Result bool) :=
  status ← on_transport Transport.ack_interrupt;
  if negb (contains status InterruptStatus.QUEUE_INTERRUPT) then mret (Ok false)
  else finish_receive.

Definition recv (pop : bool) : M St (Result (option Z)) :=
  _ ←? finish_receive;
  c ← gets fst;
  if cursor c =? pending_len c then mret (Ok None) else
  assert (cursor c <? PAGE_SIZE);;
  ch ← on_snd (mem_read (mkSlice (queue_buf_rx c + cursor c) 1));
  ch ← unwrap (head ch);
  if pop then
    cur ← add_u 64 (cursor c) 1;
    modc (set_receive cur (pending_len c) (receive_token c));;
    _ ←? poll_retrieve;
    mret (Ok (Some ch))
  else mret (Ok (Some ch)).

Definition send_bytes (buffer : Slice) : M St (Result unit) :=
  _ ←? zoom tx_lens (VQ.add_notify_wait_pop QUEUE_SIZE fuel [buffer] []);
  mret (Ok tt).

Definition send (chr : Z) : M St (Result unit) :=
  buf ← on_snd (stack_slot [chr]);
  send_bytes buf.

(** The device runs while the loop of [wait_for_receive] does. *)
Definition device_runs : M St unit := zoom rx_lens (zoom VQ.queue_lens VQ.spin).

Fixpoint wait_loop (n : nat) : M St (Result unit) :=
  match n with
  | O => hang
  | S n =>
    c ← gets fst;
    if cursor c =? pending_len c then
      device_runs;;
      _ ←? finish_receive;
      wait_loop n
    else mret (Ok tt)
  end.

Definition wait_for_receive : M St (Result unit) :=
  _ ←? poll_retrieve;
  wait_loop fuel.

Definition emergency_write (chr : Z) : M St (Result unit) :=
  c ← gets fst;
  if contains (negotiated_features c) Features.EMERG_WRITE then
    _ ←? on_transport (write_config 4 config_emerg_wr chr);
    mret (Ok tt)
  else mret (Err Unsupported).

(** [fmt::Write::write_str]: every error is the [fmt::Error]. *)
Definition write_str (s : Slice) : M St (result unit unit) :=
  r ← send_bytes s;
  mret (match r with Ok _ => Ok tt | Err _ => Err tt end).

(** ** The [embedded_io] traits *)
Definition write (buf : Slice) : M St (Result Z) :=
  if s_len buf =? 0 then mret (Ok 0)
  else _ ←? send_bytes buf; mret (Ok (s_len buf)).

Definition flush : M St (Result unit) := mret (Ok tt).

Definition read_ready : M St (Result bool) :=
  _ ←? finish_receive;
  c ← gets fst;
  mret (Ok (negb (cursor c =? pending_len c))).

(** [&self.queue_buf_rx[start..end]]. *)
Definition rx_range (start stop : Z) : M St Slice :=
  c ← gets fst;
  assert ((start <=? stop) && (stop <=? PAGE_SIZE));;
  mret (mkSlice (queue_buf_rx c + start) (stop - start)).

Definition read (buf : Slice) : M St (Result Z) :=
  if s_len buf =? 0 then mret (Ok 0) else
  _ ←? wait_for_receive;
  c ← gets fst;
  left ← sub_u 64 (pending_len c) (cursor c);
  let read_length := Z.min (s_len buf) left in
  stop ← add_u 64 (cursor c) read_length;
  src ← rx_range (cursor c) stop;
  bytes ← on_snd (mem_read src);
  on_snd (mem_write (s_ptr buf) bytes);;
  mret (Ok read_length).

Definition fill_buf : M St (Result Slice) :=
  _ ←? wait_for_receive;
  c ← gets fst;
  r ← rx_range (cursor c) (pending_len c);
  mret (Ok r).

Definition consume (amt : Z) : M St unit :=
  c ← gets fst;
  cur ← add_u 64 (cursor c) amt;
  assert (cur <=? pending_len c);;
  modc (set_receive cur (pending_len c) (receive_token c)).
End console.
End Console.
