(* ===== verification/ConsoleProps.v ===== *)
(** * Properties of the console driver *)

From S2P Require Import Prelude Base Transport QueueData Queue DeviceQueue Owning QueueInv QueueSpec QueueWait.
From S2P Require Import Serve Single Console FakeTransport Bench Lab.
Import Console.

Abbreviation RX := QUEUE_RECEIVEQ_PORT_0.
Abbreviation TX := QUEUE_TRANSMITQ_PORT_0.

Lemma console_size : SIZE_OK QUEUE_SIZE = true.
Proof. done. Qed.

Section console.
Context `{Profile} {T W : Type} `{DmaSpec W} `{Transport T W} `{!Notifier RX T W}.
Implicit Types (c : VirtIOConsole T) (w : W).

Definition rx_seg (pa : Z) c : Seg := (pa, rx_buffer c, DeviceToDriver).

(** The receive queue has one request for the page outstanding, or none; in the first case all
    that was received before has been read. *)
Definition rx_ok c w (rest : list Res) : Prop := ∃ fl,
  match receive_token c with
  | Some t => cursor c = pending_len c ∧
      ∃ pa, inv QUEUE_SIZE (receiveq c) w fl {[t := Direct [t] [rx_seg pa c]]} rest
  | None => inv QUEUE_SIZE (receiveq c) w fl ∅ rest
  end.

Record con_ok c w (rest : list Res) : Prop := {
  ck_rx : rx_ok c w rest;
  ck_cursor : 0 ≤ cursor c ≤ pending_len c;
  ck_pending : pending_len c ≤ PAGE_SIZE;
  ck_page : ∀ x, in_slice (rx_buffer c) x → own x;
  ck_ready : ready (idx := RX) (transport c)
}.

(** The bytes received and not yet read. *)
Definition unread c w : list Z :=
  bytes_of w (mkSlice (queue_buf_rx c + cursor c) (pending_len c - cursor c)).

(** The length the device gave for the outstanding request, if it has used it. *)
Definition arrived c : option Z :=
  match receive_token c, next_used QUEUE_SIZE (receiveq c) with
  | Some t, Some e => if wrap 16 (ue_id e) =? t then Some (ue_len e) else None
  | _, _ => None
  end.

(** The length is that of a part of the page that is not empty. *)
Definition length_ok c : Prop := ∀ n, arrived c = Some n → 0 < n ≤ PAGE_SIZE.

Lemma console_eta c : mkVirtIOConsole (transport c) (negotiated_features c) (receiveq c) (transmitq c)
  (queue_buf_rx c) (cursor c) (pending_len c) (receive_token c) = c.
Proof. by destruct c. Qed.

Lemma rx_shared_ok c w rest : rx_ok c w rest → shared_ok QUEUE_SIZE (VQ.shared (receiveq c)).
Proof. intros (fl & R). destruct (receive_token c); [destruct R as (_ & pa & I)|]; eapply inv_shared; eauto. Qed.

Lemma page_item c : item_ok (rx_buffer c, DeviceToDriver).
Proof. by repeat split. Qed.

(** What [finish_receive] does when the device has used the request. *)
Definition received c w c' w' (n : Z) : Prop :=
  cursor c' = 0 ∧ pending_len c' = n ∧ receive_token c' = None ∧ queue_buf_rx c' = queue_buf_rx c ∧
  ∃ pa, Share (rx_seg pa c) ∈ held w ∧
    ∀ x, own x → byte_at w' x = if decide (in_slice (rx_buffer c) x)
      then default 0 (view w (rx_seg pa c) !! Z.to_nat (x - queue_buf_rx c)) else byte_at w x.

(** The device has used the outstanding request. *)
Lemma finish_used_run c w rest t e : con_ok c w rest → receive_token c = Some t →
  next_used QUEUE_SIZE (receiveq c) = Some e → wrap 16 (ue_id e) = t → 0 < ue_len e ≤ PAGE_SIZE →
  ∃ c' w', finish_receive (c, w) = (Val (Ok true), (c', w')) ∧ con_ok c' w' rest ∧
    received c w c' w' (ue_len e).
Proof.
  intros Hc Et Hu He Hl. pose proof (rx_shared_ok _ _ _ (ck_rx _ _ _ Hc)) as Hsh.
  destruct (ck_rx _ _ _ Hc) as (fl & R). rewrite Et in R. destruct R as (Hcur & pa & I). subst t.
  destruct (pop_single_run QUEUE_SIZE console_size (receiveq c) w fl _ rest pa (rx_buffer c) DeviceToDriver e I Hu)
    as (q' & w' & Hpop & I' & Hun & _); [apply lookup_singleton_eq|]. rewrite delete_singleton_eq in I'.
  eexists _, w'. split; [|split].
  - unfold finish_receive. mstep. cbn [fst]. rewrite Et.
    erewrite bind_val by (apply zoom_val, zoom_val; cbn; by apply (peek_run QUEUE_SIZE)). cbn.
    rewrite console_eta, Hu. simpl. rewrite bool_decide_eq_true_2 by done.
    erewrite try_ok by (apply zoom_val, zoom_val; exact Hpop). cbn.
    rewrite (proj2 (Z.eqb_neq (ue_len e) 0)) by lia. reflexivity.
  - destruct Hc as [_ ? ? Hown Hready]. split; simpl; try done; [|lia|lia]. eexists. exact I'.
  - split_and!; try done. exists pa. split.
    + rewrite (inv_held _ _ _ _ _ _ I). rewrite live_held_singleton. by left.
    + intros x Hx. destruct (unshare_own pa (rx_buffer c) DeviceToDriver w rest w') as [M _]; [|left; apply Hc|done|].
      * rewrite (inv_held _ _ _ _ _ _ I). by rewrite live_held_singleton.
      * rewrite M by done. destruct (decide (in_slice (rx_buffer c) x)) as [Hin|Hin].
        -- by rewrite decide_True by done.
        -- by rewrite decide_False by (by intros [_ ?]).
Qed.

Lemma finish_run c w rest : con_ok c w rest → length_ok c → ∃ c' w',
  finish_receive (c, w) = (Val (Ok (bool_decide (is_Some (arrived c)))), (c', w')) ∧ con_ok c' w' rest ∧
  match arrived c with Some n => received c w c' w' n | None => c' = c ∧ w' = w end.
Proof.
  intros Hc Hl. pose proof (rx_shared_ok _ _ _ (ck_rx _ _ _ Hc)) as Hsh. unfold length_ok, arrived in *.
  destruct (receive_token c) as [t|] eqn:Et.
  2:{ exists c, w. split; [|done]. unfold finish_receive. mstep. cbn [fst]. by rewrite Et. }
  destruct (next_used QUEUE_SIZE (receiveq c)) as [e|] eqn:Hu;
    [destruct (Z.eqb_spec (wrap 16 (ue_id e)) t) as [He|He]|].
  { by apply (finish_used_run c w rest t e); auto. }
  all: exists c, w; split; [|done]; unfold finish_receive; mstep; cbn [fst]; rewrite Et;
    erewrite bind_val by (apply zoom_val, zoom_val; cbn; by apply (peek_run QUEUE_SIZE)); cbn;
    rewrite console_eta, Hu; rewrite bool_decide_eq_false_2 by (simpl; congruence); done.
Qed.

(** [poll_retrieve] asks for data when there is none left and none asked for. *)
Lemma retrieve_run c w rest : con_ok c w rest → ∃ c' w',
  poll_retrieve (c, w) = (Val (Ok tt), (c', w')) ∧ con_ok c' w' rest ∧
  cursor c' = cursor c ∧ pending_len c' = pending_len c ∧ queue_buf_rx c' = queue_buf_rx c ∧
  (if cursor c =? pending_len c then is_Some (receive_token c') else c' = c ∧ w' = w).
Proof.
  intros Hc. unfold poll_retrieve. mstep. cbn [fst].
  destruct (Z.eqb_spec (cursor c) (pending_len c)) as [Hcp|Hcp].
  2:{ rewrite andb_false_r. exists c, w. done. }
  rewrite andb_true_r. destruct (receive_token c) as [t|] eqn:Et.
  { exists c, w. rewrite Et. done. }
  rewrite bool_decide_eq_true_2 by done.
  destruct (ck_rx _ _ _ Hc) as (fl & I). rewrite Et in I.
  destruct (inv_empty_free QUEUE_SIZE console_size _ _ _ _ I) as (i & fl' & ->).
  destruct (add_single_run QUEUE_SIZE console_size (receiveq c) w i fl' ∅ rest (rx_buffer c) DeviceToDriver I (page_item c))
    as (pa & q' & w1 & Hadd & _ & I' & Hsh & Hsq & Hlu).
  destruct (notify_if_run (idx := RX) (VQ.should_notify q') (transport c) w1 (ck_ready _ _ _ Hc)) as (t' & w' & Hn & Ht' & Hp).
  exists (mkVirtIOConsole t' (negotiated_features c) q' (transmitq c) (queue_buf_rx c) (cursor c) (pending_len c)
    (Some i)), w'. split; [|split].
  - erewrite try_ok by (apply zoom_val, zoom_val; exact Hadd). cbn. mstep. cbn.
    unfold on_transport. by erewrite bind_val by (apply (if_zoom_val rx_lens); [exact Hn|done]).
  - destruct Hc as [_ ? ? Hown _]. split; try done. exists fl'. cbn. split; [done|]. exists pa.
    by apply (inv_world _ _ w1).
  - done.
Qed.

(** The bytes of the buffer between two positions. *)
Lemma bytes_of_cons w p n : 0 < n → bytes_of w (mkSlice p n) = byte_at w p :: bytes_of w (mkSlice (p + 1) (n - 1)).
Proof.
  intros Hn. unfold bytes_of. simpl. rewrite seqZ_cons by done. rewrite fmap_cons. do 3 f_equal; lia.
Qed.

Lemma bytes_of_nil w p n : n ≤ 0 → bytes_of w (mkSlice p n) = [].
Proof. intros Hn. unfold bytes_of. simpl. by rewrite seqZ_nil. Qed.

(** What is there to read after [finish_receive]: what was there, or what the device has sent. *)
Definition available c w c1 w1 : Prop :=
  match arrived c with
  | None => unread c1 w1 = unread c w
  | Some n => ∃ pa, Share (rx_seg pa c) ∈ held w ∧ cursor c = pending_len c ∧
      unread c1 w1 = (λ i, default 0 (view w (rx_seg pa c) !! Z.to_nat i)) <$> seqZ 0 n
  end.

Lemma finish_available c w rest : con_ok c w rest → length_ok c → ∃ c1 w1,
  finish_receive (c, w) = (Val (Ok (bool_decide (is_Some (arrived c)))), (c1, w1)) ∧ con_ok c1 w1 rest ∧
  available c w c1 w1.
Proof.
  intros Hc Hl. destruct (finish_run c w rest Hc Hl) as (c1 & w1 & E & Hc1 & R). exists c1, w1.
  split_and!; try done. unfold available. pose proof (Hl : length_ok c) as Hl'. unfold length_ok in Hl'.
  destruct (arrived c) as [n|] eqn:Ea; [|destruct R as [-> ->]; done].
  destruct R as (Hcur & Hpend & Htok & Hbuf & pa & Hsh & Hm). exists pa. specialize (Hl' n eq_refl).
  split_and!; [done| |].
  - destruct (ck_rx _ _ _ Hc) as (fl & R). unfold arrived in Ea. destruct (receive_token c); [by destruct R|done].
  - unfold unread. rewrite Hcur, Hpend, Hbuf. unfold bytes_of. simpl.
    apply list_eq. intros i. rewrite !list_lookup_fmap.
    destruct (decide (Z.of_nat i < n)) as [Hi|Hi].
    + rewrite !lookup_seqZ_lt by lia. simpl. f_equal.
      assert (in_slice (rx_buffer c) (queue_buf_rx c + 0 + Z.of_nat i)) as Hin by (unfold in_slice; simpl; lia).
      rewrite Hm by (by apply (ck_page _ _ _ Hc)). rewrite decide_True by done. do 2 f_equal. lia.
    + rewrite !lookup_seqZ_ge by lia. done.
Qed.

(** Moving the cursor over unread bytes. *)
Lemma advance_ok c w rest n : con_ok c w rest → 0 ≤ n → cursor c + n ≤ pending_len c → cursor c ≠ pending_len c →
  con_ok (set_receive (cursor c + n) (pending_len c) (receive_token c) c) w rest.
Proof.
  intros [(fl & R) Hcur ? ? ?] Hn Hle Hne. split; try done; [|simpl; lia]. exists fl. simpl.
  destruct (receive_token c); [by destruct R|done].
Qed.

Lemma advance_unread c w n : 0 ≤ n → cursor c + n ≤ pending_len c →
  unread (set_receive (cursor c + n) (pending_len c) (receive_token c) c) w = skipn (Z.to_nat n) (unread c w).
Proof.
  intros Hn Hle. unfold unread, bytes_of. simpl. apply list_eq. intros i.
  rewrite lookup_drop, !list_lookup_fmap. destruct (decide (Z.of_nat i < pending_len c - (cursor c + n))) as [Hi|Hi].
  - rewrite !lookup_seqZ_lt by lia. simpl. do 2 f_equal. lia.
  - by rewrite !lookup_seqZ_ge by lia.
Qed.

(** Receiving from the console. [recv] first takes what the device has sent, if anything. It
    then returns the first unread byte and, when told to, removes it and asks for more once all
    bytes are read; without unread bytes it returns [None]. It never panics when the device
    reports a length within the page. *)
Lemma recv_run (pop : bool) c w rest : con_ok c w rest → length_ok c → ∃ c1 w1 c' w',
  finish_receive (c, w) = (Val (Ok (bool_decide (is_Some (arrived c)))), (c1, w1)) ∧ available c w c1 w1 ∧
  recv pop (c, w) = (Val (Ok (head (unread c1 w1))), (c', w')) ∧ con_ok c' w' rest ∧
  unread c' w' = (if pop then tail (unread c1 w1) else unread c1 w1) ∧
  (pop = true → tail (unread c1 w1) = [] → head (unread c1 w1) ≠ None → is_Some (receive_token c')).
Proof.
  intros Hc Hl. destruct (finish_available c w rest Hc Hl) as (c1 & w1 & E & Hc1 & Hav).
  pose proof (ck_cursor _ _ _ Hc1) as Hcur. pose proof (ck_pending _ _ _ Hc1) as Hpend.
  unfold recv. exists c1, w1. erewrite try_ok by exact E. mstep. cbn [fst].
  destruct (Z.eqb_spec (cursor c1) (pending_len c1)) as [Hcp|Hcp].
  { exists c1, w1. unfold unread. rewrite bytes_of_nil by lia. split_and!; try done. by destruct pop. }
  rewrite (proj2 (Z.ltb_lt (cursor c1) PAGE_SIZE)) by lia. mstep.
  erewrite bind_val by (apply on_snd_val, mem_read_spec). 
  assert (unread c1 w1 = byte_at w1 (queue_buf_rx c1 + cursor c1) ::
    bytes_of w1 (mkSlice (queue_buf_rx c1 + cursor c1 + 1) (pending_len c1 - cursor c1 - 1))) as Hun.
  { unfold unread. by rewrite bytes_of_cons by lia. }
  cbn [s_ptr s_len]. mstep. destruct pop.
  2:{ exists c1, w1. rewrite Hun. split_and!; done. }
  unfold add_u. erewrite bind_val by (apply arith_fits; unfold fits, PAGE_SIZE in *; lia). mstep. cbn [fst snd].
  set (c2 := set_receive (cursor c1 + 1) (pending_len c1) (receive_token c1) c1).
  assert (con_ok c2 w1 rest) as Hc2 by (apply advance_ok; [done|lia..]).
  assert (unread c2 w1 = tail (unread c1 w1)) as Hu2.
  { unfold c2. rewrite advance_unread by lia. by destruct (unread c1 w1). }
  destruct (retrieve_run c2 w1 rest Hc2) as (c' & w' & E' & Hc' & Hcu & Hpe & Hbu & Hif).
  exists c', w'. erewrite try_ok by exact E'. split_and!; try done; [by rewrite Hun| |].
  - rewrite <- Hu2. destruct (Z.eqb_spec (cursor c2) (pending_len c2)) as [Heq|Hne];
      [|destruct Hif as [-> ->]; done].
    unfold unread. rewrite Hcu, Hpe. by rewrite !bytes_of_nil by lia.
  - intros _ Ht _. rewrite <- Hu2 in Ht. destruct (Z.eqb_spec (cursor c2) (pending_len c2)) as [Heq|Hne]; [done|].
    unfold unread in Ht. simpl in Ht. rewrite bytes_of_cons in Ht; [done|]. simpl in *. lia.
Qed.

(** *** The stream of bytes *)

(** The device writes to the memory of the receive queue; it writes to the page only while a
    request for it is outstanding. *)
Definition device_writes c (sh : Shared) : VirtIOConsole T :=
  mkVirtIOConsole (transport c) (negotiated_features c) (VQ.set_shared sh (receiveq c)) (transmitq c)
    (queue_buf_rx c) (cursor c) (pending_len c) (receive_token c).

(** Steps of the program and of the device, with the bytes that arrive and those that the program
    takes. *)
Inductive con_step : VirtIOConsole T * W → list Z → list Z → VirtIOConsole T * W → Prop :=
  | step_recv pop c w b c1 w1 r s : length_ok c → finish_receive (c, w) = (Val (Ok b), (c1, w1)) →
      recv pop (c, w) = (Val (Ok r), s) →
      con_step (c, w) (if b then unread c1 w1 else []) (if pop then option_list r else []) s
  | step_ready c w b c1 w1 r s : length_ok c → finish_receive (c, w) = (Val (Ok b), (c1, w1)) →
      read_ready (c, w) = (Val (Ok r), s) →
      con_step (c, w) (if b then unread c1 w1 else []) [] s
  | step_consume amt c w s : 0 < amt ≤ pending_len c - cursor c → consume amt (c, w) = (Val tt, s) →
      con_step (c, w) [] (take (Z.to_nat amt) (unread c w)) s
  | step_device c w sh w' : shared_ok QUEUE_SIZE sh → held w' ≡ₚ held w →
      (receive_token c = None → ∀ x, in_slice (rx_buffer c) x → byte_at w' x = byte_at w x) →
      con_step (c, w) [] [] (device_writes c sh, w').

Inductive con_steps : VirtIOConsole T * W → list Z → list Z → VirtIOConsole T * W → Prop :=
  | con_nil s : con_steps s [] [] s
  | con_cons s l k s' l' k' s'' : con_step s l k s' → con_steps s' l' k' s'' → con_steps s (l ++ l') (k ++ k') s''.

Lemma available_eq c w c1 w1 rest b : con_ok c w rest → available c w c1 w1 →
  b = bool_decide (is_Some (arrived c)) → unread c1 w1 = unread c w ++ (if b then unread c1 w1 else []).
Proof.
  intros Hc Hav ->. unfold available in Hav. destruct (arrived c) as [n|].
  - rewrite bool_decide_eq_true_2 by eauto. destruct Hav as (pa & _ & Heq & _).
    unfold unread at 2. by rewrite bytes_of_nil by lia.
  - rewrite bool_decide_eq_false_2 by (by intros []). by rewrite app_nil_r.
Qed.

Lemma con_step_stream s l k s' rest : con_step s l k s' → con_ok s.1 s.2 rest →
  con_ok s'.1 s'.2 rest ∧ k ++ unread s'.1 s'.2 = unread s.1 s.2 ++ l.
Proof.
  intros Hs Hc. destruct Hs as [pop c w b c1 w1 r s Hl E E2|c w b c1 w1 r s Hl E E2|amt c w s Ha E|c w sh w' Hsh Hp Hm];
    simpl in Hc.
  - destruct (recv_run pop c w rest Hc Hl) as (c1' & w1' & c' & w' & E' & Hav & E2' & Hc' & Hu & _).
    rewrite E in E'. injection E' as Hb <- <-. rewrite E2 in E2'. injection E2' as -> ->. simpl.
    split; [done|]. rewrite <- (available_eq c w c1 w1 rest b) by done. rewrite Hu.
    destruct pop; [|done]. by destruct (unread c1 w1).
  - destruct (finish_available c w rest Hc Hl) as (c1' & w1' & E' & Hc1 & Hav). rewrite E in E'.
    injection E' as Hb <- <-. unfold read_ready in E2. erewrite try_ok in E2 by exact E. injection E2 as _ <-.
    simpl. split; [done|]. by apply (available_eq c w c1 w1 rest b).
  - pose proof (ck_cursor _ _ _ Hc). pose proof (ck_pending _ _ _ Hc). unfold consume in E.
    erewrite bind_val in E by reflexivity. unfold add_u in E. cbn [fst] in E.
    erewrite bind_val in E by (apply arith_fits; unfold fits, PAGE_SIZE in *; lia).
    rewrite (proj2 (Z.leb_le _ _)) in E by lia. injection E as <-. cbn [fst snd].
    split; [by apply advance_ok; [|lia..]|]. rewrite advance_unread by lia. by rewrite app_nil_r, take_drop.
  - cbn [fst snd]. split.
    + destruct Hc as [(fl & R) ? ? ? ?]. split; try done. exists fl. simpl.
      destruct (receive_token c); [destruct R as (? & pa & I); split; [done|]; exists pa|rename R into I];
        (by apply (inv_world _ _ w); [destruct I; split|]).
    + rewrite app_nil_r. simpl. destruct Hc as [(fl & R) Hcur Hpe ? ?]. unfold unread. cbn [device_writes queue_buf_rx cursor pending_len].
      destruct (decide (cursor c = pending_len c)) as [Heq|Hne]; [by rewrite !bytes_of_nil by lia|].
      apply bytes_of_ext. intros x Hx. apply Hm; [|unfold in_slice in *; simpl in *; lia].
      destruct (receive_token c); [by destruct R|done].
Qed.

(** C11. The console delivers the bytes the device sends, in order, each once: over any sequence of
    steps of the program and of the device, what the program has taken and what is unread are what
    was unread and what has arrived. A further [recv] returns the next byte, or [None]. *)
Theorem console_stream s l k s' rest : con_steps s l k s' → con_ok s.1 s.2 rest →
  con_ok s'.1 s'.2 rest ∧ k ++ unread s'.1 s'.2 = unread s.1 s.2 ++ l ∧
  (length_ok s'.1 → ∃ c1 w1 s'', recv true s' = (Val (Ok (head (unread c1 w1))), s'') ∧
    available s'.1 s'.2 c1 w1 ∧ unread s''.1 s''.2 = tail (unread c1 w1)).
Proof.
  intros Hs Hc. assert (con_ok s'.1 s'.2 rest ∧ k ++ unread s'.1 s'.2 = unread s.1 s.2 ++ l) as [Hc' Hu].
  { induction Hs as [s|s l k s1 l' k' s2 Hs _ IH]; [by rewrite app_nil_r|].
    destruct (con_step_stream _ _ _ _ rest Hs Hc) as [Hc1 Hu1]. destruct (IH Hc1) as [Hc2 Hu2].
    split; [done|]. rewrite <- app_assoc, Hu2, app_assoc, Hu1. by rewrite app_assoc. }
  split_and!; try done. intros Hl. destruct s' as [c' w'].
  destruct (recv_run true c' w' rest Hc' Hl) as (c1 & w1 & c2 & w2 & _ & Hav & E & _ & Hu2 & _).
  by exists c1, w1, (c2, w2).
Qed.
End console.

(** ** The [embedded_io] traits *)
Section embedded.
Context `{Profile} {T W : Type} `{DmaSpec W} `{Device W} `{Transport T W} `{!Notifier RX T W} (fuel : nat).
Implicit Types (c : VirtIOConsole T) (w : W).

(** [Read::read] copies unread bytes but does not move the cursor: the bytes it has returned are
    still unread, and the next [read] returns them again. *)
Lemma embedded_read_repeats buf c w rest n : con_ok c w rest → cursor c ≠ pending_len c → 0 < s_len buf →
  (∀ x, in_slice buf x → ¬ in_slice (rx_buffer c) x) → n = Z.min (s_len buf) (pending_len c - cursor c) →
  ∃ w', read (S fuel) buf (c, w) = (Val (Ok n), (c, w')) ∧
    bytes_of w' (mkSlice (s_ptr buf) n) = take (Z.to_nat n) (unread c w) ∧ unread c w' = unread c w.
Proof.
  intros Hc Hne Hb Hd Hn. pose proof (ck_cursor _ _ _ Hc) as Hcur. pose proof (ck_pending _ _ _ Hc) as Hpe.
  destruct (retrieve_run c w rest Hc) as (c' & w0 & E & _ & _ & _ & _ & Hif).
  rewrite (proj2 (Z.eqb_neq _ _)) in Hif by done. destruct Hif as [-> ->].
  unfold read. rewrite (proj2 (Z.eqb_neq (s_len buf) 0)) by lia.
  assert (wait_for_receive (S fuel) (c, w) = (Val (Ok tt), (c, w))) as Ew.
  { unfold wait_for_receive. erewrite try_ok by exact E. simpl. mstep. cbn [fst].
    by rewrite (proj2 (Z.eqb_neq (cursor c) (pending_len c))) by done. }
  erewrite try_ok by exact Ew. mstep. cbn [fst]. unfold sub_u, add_u.
  erewrite bind_val by (apply arith_fits; unfold fits, PAGE_SIZE in *; lia). cbv zeta. rewrite <- Hn.
  erewrite bind_val by (apply arith_fits; unfold fits, PAGE_SIZE in *; lia). unfold rx_range.
  erewrite bind_val; [|mstep; rewrite (proj2 (Z.leb_le _ _)), (proj2 (Z.leb_le _ _)) by lia; reflexivity]. cbn [fst].
  replace (cursor c + n - cursor c) with n by lia.
  erewrite bind_val by (apply on_snd_val, mem_read_spec). cbn [s_ptr s_len].
  set (l := byte_at w <$> seqZ (queue_buf_rx c + cursor c) n).
  assert (Z.of_nat (length l) = n) as Hlen by (unfold l; rewrite length_fmap, length_seqZ; lia).
  destruct (mem_write_spec (s_ptr buf) l w) as (w' & Ew' & Hm). exists w'.
  erewrite bind_val by (apply on_snd_val; exact Ew'). split; [done|].
  assert (l = take (Z.to_nat n) (unread c w)) as Hl.
  { unfold l, unread, bytes_of. simpl. apply list_eq. intros i. rewrite lookup_take, !list_lookup_fmap.
    case_decide; [by rewrite !lookup_seqZ_lt by lia|by rewrite lookup_seqZ_ge by lia]. }
  rewrite <- Hl. split.
  - apply bytes_of_eq; [simpl; lia|]. intros x Hx. unfold in_slice in Hx. simpl in *. rewrite Hm.
    by rewrite decide_True by lia.
  - apply bytes_of_ext. intros x Hx. rewrite Hm. rewrite decide_False; [done|]. intros Hin.
    apply (Hd x); unfold in_slice in *; simpl in *; lia.
Qed.
End embedded.

(** ** Sending *)

(** A terminal: it appends what it gets to what it shows. *)
Definition term_serve (d : list Z) (rs : list (list Z)) (ls : list Z) : list Z * list (list Z) * Z :=
  (d ++ mjoin rs, (λ n, replicate (Z.to_nat n) 0) <$> ls, 0).

Lemma term_serve_lengths d rs ls : length <$> (term_serve d rs ls).1.2 = Z.to_nat <$> ls.
Proof. simpl. rewrite <- list_fmap_compose. apply list_fmap_ext. intros. simpl. by rewrite length_replicate. Qed.

Section send.
Context {N : nat} {T W : Type} `{Server QUEUE_SIZE N TX T W (list Z)} `{Profile} (fuel : nat).
Context (Hproto : ∀ d rs ls, serve d rs ls = term_serve d rs ls) (Hfuel : (N < fuel)%nat).
Implicit Types (c : VirtIOConsole T) (w : W).

Record tx_ok c w (rest : list Res) : Prop := {
  tk_idle : idle QUEUE_SIZE (transmitq c) w rest;
  tk_idx : VQ.queue_idx (transmitq c) = TX;
  tk_tok : tok (transport c)
}.

(** The receiving side of two consoles is the same. *)
Definition same_receiver c c' : Prop :=
  receiveq c' = receiveq c ∧ queue_buf_rx c' = queue_buf_rx c ∧ cursor c' = cursor c ∧
  pending_len c' = pending_len c ∧ receive_token c' = receive_token c.

Lemma send_bytes_run buf c w rest : tx_ok c w rest → user_buffer buf → ∃ c' w',
  send_bytes fuel buf (c, w) = (Val (Ok tt), (c', w')) ∧ tx_ok c' w' rest ∧ same_receiver c c' ∧
  dstate w' = dstate w ++ bytes_of w buf ∧ (∀ x, own x → byte_at w' x = byte_at w x).
Proof.
  intros [Hid Hix Htk] Hu.
  destruct (user_run (SIZE := QUEUE_SIZE) eq_refl fuel (transmitq c) (transport c) w rest [buf] [])
    as (len & q' & t' & w' & E & Hid' & Htk' & _ & Hix' & Es & Hm); try done; [by constructor|].
  rewrite Hproto in Es. injection Es as Ed _. rewrite app_nil_r in Ed.
  exists (mkVirtIOConsole t' (negotiated_features c) (receiveq c) q' (queue_buf_rx c) (cursor c) (pending_len c)
    (receive_token c)), w'. split_and!; try done.
  - unfold send_bytes. by erewrite try_ok by (eapply (zoom_val tx_lens); exact E).
  - intros x Hx. apply Hm; [done|]. by intros b ?%elem_of_nil.
Qed.

Lemma send_run chr c w rest : tx_ok c w rest → ∃ c' w',
  send fuel chr (c, w) = (Val (Ok tt), (c', w')) ∧ tx_ok c' w' rest ∧ same_receiver c c' ∧
  dstate w' = dstate w ++ [chr] ∧ (∀ x, own x → ¬ frame x → byte_at w' x = byte_at w x).
Proof.
  intros [Hid Hix Htk].
  destruct (slot_run (SIZE := QUEUE_SIZE) eq_refl fuel (transmitq c) (transport c) w rest [chr] [] [])
    as (a & w0 & len & q' & t' & w' & E0 & E & Hid' & Htk' & _ & Hix' & Es & Hm); try done.
  rewrite Hproto in Es. injection Es as Ed _.
  exists (mkVirtIOConsole t' (negotiated_features c) (receiveq c) q' (queue_buf_rx c) (cursor c) (pending_len c)
    (receive_token c)), w'. split_and!; try done.
  - unfold send. erewrite bind_val by (apply on_snd_val; exact E0). unfold send_bytes.
    by erewrite try_ok by (eapply (zoom_val tx_lens); exact E).
  - intros x Hx Hf. apply Hm; try done. by intros b ?%elem_of_nil.
Qed.

(** One character after the other. *)
Fixpoint send_all (l : list Z) : M (VirtIOConsole T * W) (Result unit) :=
  match l with
  | [] => mret (Ok tt)
  | chr :: l => _ ←? send fuel chr; send_all l
  end.

(** What the program sends is what the terminal shows: sending characters one after the other
    and sending a buffer both append the bytes to the output, change no other memory of the
    program and leave the receiving side of the driver alone. *)
Theorem console_sends l buf c w rest : tx_ok c w rest → user_buffer buf → ∃ c1 w1 c2 w2,
  send_all l (c, w) = (Val (Ok tt), (c1, w1)) ∧ send_bytes fuel buf (c1, w1) = (Val (Ok tt), (c2, w2)) ∧
  tx_ok c2 w2 rest ∧ same_receiver c c2 ∧
  dstate w2 = dstate w ++ l ++ bytes_of w buf ∧ (∀ x, own x → ¬ frame x → byte_at w2 x = byte_at w x).
Proof.
  intros Hc Hu. assert (∃ c1 w1, send_all l (c, w) = (Val (Ok tt), (c1, w1)) ∧ tx_ok c1 w1 rest ∧
    same_receiver c c1 ∧ dstate w1 = dstate w ++ l ∧ (∀ x, own x → ¬ frame x → byte_at w1 x = byte_at w x))
    as (c1 & w1 & E1 & Hc1 & R1 & D1 & M1).
  { clear Hu buf. revert c w Hc. induction l as [|chr l IH]; intros c w Hc.
    { exists c, w. by rewrite app_nil_r. }
    destruct (send_run chr c w rest Hc) as (c1 & w1 & E1 & Hc1 & R1 & D1 & M1).
    destruct (IH c1 w1 Hc1) as (c2 & w2 & E2 & Hc2 & R2 & D2 & M2). exists c2, w2. split_and!; try done.
    - simpl. by erewrite try_ok by exact E1.
    - unfold same_receiver in *. naive_solver congruence.
    - by rewrite D2, D1, <- app_assoc.
    - intros x Hx Hf. by rewrite M2, M1. }
  destruct (send_bytes_run buf c1 w1 rest Hc1 Hu) as (c2 & w2 & E2 & Hc2 & R2 & D2 & M2).
  exists c1, w1, c2, w2. split_and!; try done.
  - unfold same_receiver in *. naive_solver congruence.
  - rewrite D2, D1, <- app_assoc. do 2 f_equal. apply bytes_of_ext. intros x Hx. apply M1; by apply Hu.
  - intros x Hx Hf. by rewrite M2, M1.
Qed.
End send.

(** ** A console in the laboratory *)
Section witnesses.
Import Bench Lab FakeTransport.
Abbreviation Term := (Lab (list Z)).

#[local] Instance term_device : Device Term := lab_device (λ _, term_serve).
#[local] Instance term_server : Server QUEUE_SIZE 1 TX FakeTransport Term (list Z) :=
  lab_server (λ _, term_serve) QUEUE_SIZE TX eq_refl Z.le_0_1 term_serve_lengths.
#[local] Instance term_notifier : Notifier RX FakeTransport Term := lab_notifier RX (Z.le_refl _).

Lemma term_serves d rs ls : serve d rs ls = term_serve d rs ls.
Proof. done. Qed.

Definition term0 : Term := lab0 [62; 32].
(** A console that has received three bytes. *)
Definition con0 : VirtIOConsole FakeTransport :=
  mkVirtIOConsole (transport0 Console 2) 0 (queue0 QUEUE_SIZE RX) (queue0 QUEUE_SIZE TX) 65536 0 3 None.

Lemma con0_ok : con_ok con0 term0 [].
Proof.
  destruct (queue0_idle QUEUE_SIZE RX [62; 32] eq_refl) as [[[fl I] _ _] _]. split; try done; [by exists fl|].
  intros x. unfold own, in_slice. simpl. unfold HEAP, PAGE_SIZE. lia.
Qed.

Lemma console_stream_witness : ∃ s', con_steps (con0, term0) [] [0] s' ∧ con_ok s'.1 s'.2 [] ∧
  [0] ++ unread s'.1 s'.2 = unread con0 term0.
Proof.
  assert (con_steps (con0, term0) ([] ++ []) ([0] ++ []) (recv true (con0, term0)).2) as Hs.
  { eapply con_cons; [|apply con_nil].
    eapply (step_recv true con0 term0 false con0 term0 (Some 0)); [by intros n|reflexivity|reflexivity]. }
  exists (recv true (con0, term0)).2. split; [exact Hs|].
  destruct (console_stream _ _ _ _ [] Hs con0_ok) as (Hc & Hu & _). split; [exact Hc|].
  rewrite app_nil_r in Hu. exact Hu.
Defined.

Lemma console_sends_witness : ∃ c1 w1 c2 w2,
  send_all 2 [72; 105] (con0, term0) = (Val (Ok tt), (c1, w1)) ∧
  send_bytes 2 (mkSlice 131072 4) (c1, w1) = (Val (Ok tt), (c2, w2)) ∧ tx_ok c2 w2 [] ∧ same_receiver con0 c2 ∧
  dstate w2 = [62; 32] ++ [72; 105] ++ bytes_of term0 (mkSlice 131072 4) ∧
  (∀ x, own (W := Term) x → ¬ frame (W := Term) x → byte_at w2 x = byte_at term0 x).
Proof.
  apply (console_sends 2 term_serves (le_n 2) [72; 105] (mkSlice 131072 4) con0 term0 []);
    [|by apply low_user]. split; [by apply queue0_idle|done|done].
Defined.
End witnesses.
