(* ===== verification/Net.v ===== *)
(** * The network device drivers

    [src/src/device/net/mod.rs] (constants, configuration, packet headers), [dev_raw.rs]
    ([VirtIONetRaw], which works on the caller's buffers), [net_buf.rs] ([TxBuffer], [RxBuffer])
    and [dev.rs] ([VirtIONet], which owns its receive buffers). A vector is the slice of its
    elements' bytes. *)

From S2P Require Import Prelude Base Transport QueueData Queue DeviceQueue Owning Bytes Driver.

Module Net.

Definition MAX_BUFFER_LEN : Z := 65535.
Definition MIN_BUFFER_LEN : Z := 1526.
Definition QUEUE_RECEIVE : Z := 0.
Definition QUEUE_TRANSMIT : Z := 1.

Module Features.
Definition CSUM : Z := Z.shiftl 1 0.
Definition GUEST_CSUM : Z := Z.shiftl 1 1.
Definition CTRL_GUEST_OFFLOADS : Z := Z.shiftl 1 2.
Definition MTU : Z := Z.shiftl 1 3.
Definition MAC : Z := Z.shiftl 1 5.
Definition GSO : Z := Z.shiftl 1 6.
Definition GUEST_TSO4 : Z := Z.shiftl 1 7.
Definition GUEST_TSO6 : Z := Z.shiftl 1 8.
Definition GUEST_ECN : Z := Z.shiftl 1 9.
Definition GUEST_UFO : Z := Z.shiftl 1 10.
Definition HOST_TSO4 : Z := Z.shiftl 1 11.
Definition HOST_TSO6 : Z := Z.shiftl 1 12.
Definition HOST_ECN : Z := Z.shiftl 1 13.
Definition HOST_UFO : Z := Z.shiftl 1 14.
Definition MRG_RXBUF : Z := Z.shiftl 1 15.
Definition STATUS : Z := Z.shiftl 1 16.
Definition CTRL_VQ : Z := Z.shiftl 1 17.
Definition CTRL_RX : Z := Z.shiftl 1 18.
Definition CTRL_VLAN : Z := Z.shiftl 1 19.
Definition CTRL_RX_EXTRA : Z := Z.shiftl 1 20.
Definition GUEST_ANNOUNCE : Z := Z.shiftl 1 21.
Definition MQ : Z := Z.shiftl 1 22.
Definition CTL_MAC_ADDR : Z := Z.shiftl 1 23.
Definition all : Z := foldr Z.lor 0
  [CSUM; GUEST_CSUM; CTRL_GUEST_OFFLOADS; MTU; MAC; GSO; GUEST_TSO4; GUEST_TSO6; GUEST_ECN;
   GUEST_UFO; HOST_TSO4; HOST_TSO6; HOST_ECN; HOST_UFO; MRG_RXBUF; STATUS; CTRL_VQ; CTRL_RX;
   CTRL_VLAN; CTRL_RX_EXTRA; GUEST_ANNOUNCE; MQ; CTL_MAC_ADDR; Feature.RING_INDIRECT_DESC;
   Feature.RING_EVENT_IDX; Feature.VERSION_1].
End Features.

Definition SUPPORTED_FEATURES : Z :=
  foldr Z.lor 0 [Features.MAC; Features.STATUS; Feature.RING_EVENT_IDX;
                 Feature.RING_INDIRECT_DESC; Feature.VERSION_1].

(** The widths of the fields of [Config]. *)
Definition Config : list nat := [6; 2; 2; 2]%nat.
Definition config_mac : Z := field_offset Config 0.
Definition config_status : Z := field_offset Config 1.

(** ** Packet headers *)
Record VirtioNetHdr := mkVirtioNetHdr {
  flags : Z;
  gso_type : Z;
  hdr_len : Z;
  gso_size : Z;
  csum_start : Z;
  csum_offset : Z;
  num_buffers : Z
}.
Definition VirtioNetHdr_widths : list nat := [1; 1; 2; 2; 2; 2; 2]%nat.
(** [VirtioNetHdrLegacy] lacks the last field. *)
Definition VirtioNetHdrLegacy_widths : list nat := [1; 1; 2; 2; 2; 2]%nat.

Definition hdr_widths (legacy : bool) : list nat :=
  if legacy then VirtioNetHdrLegacy_widths else VirtioNetHdr_widths.
Definition hdr_size (legacy : bool) : Z := Z.of_nat (struct_size (hdr_widths legacy)).

(** [as_bytes] of the default header of either kind. *)
Definition default_header (legacy : bool) : list Z :=
  encode_fields (hdr_widths legacy) (replicate (length (hdr_widths legacy)) 0).

(** [ref_from_prefix], and the conversion of a legacy header. *)
Definition decode_header (legacy : bool) (bytes : list Z) : option VirtioNetHdr :=
  if hdr_size legacy <=? Z.of_nat (length bytes) then
    match decode_fields (hdr_widths legacy) bytes with
    | [f; g; h; s; cs; co] => Some (mkVirtioNetHdr f g h s cs co 0)
    | [f; g; h; s; cs; co; n] => Some (mkVirtioNetHdr f g h s cs co n)
    | _ => None
    end
  else None.

(** ** The raw driver *)
Module Raw.

Record VirtIONetRaw (T : Type) := mkVirtIONetRaw {
  transport : T;
  mac : list Z;
  recv_queue : VQ.VirtQueue;
  send_queue : VQ.VirtQueue;
  legacy_header : bool
}.
Arguments mkVirtIONetRaw {T} _ _ _ _ _.
Arguments transport {T} _.
Arguments mac {T} _.
Arguments recv_queue {T} _.
Arguments send_queue {T} _.
Arguments legacy_header {T} _.

Section raw.
Context `{Profile} {W T : Type} `{Hal W} `{Allocator W} `{Mem W} `{Stack W} `{Device W}.
Context `{Transport T W}.
Context (QUEUE_SIZE : Z) (fuel : nat).
Abbreviation St := (VirtIONetRaw T * W)%type.

Definition rx_lens : lens St (VQ.VirtQueue * (T * W)) :=
  {| view := λ s, (recv_queue s.1, (transport s.1, s.2));
     update := λ a s,
       (mkVirtIONetRaw a.2.1 (mac s.1) a.1 (send_queue s.1) (legacy_header s.1), a.2.2) |}.
Definition tx_lens : lens St (VQ.VirtQueue * (T * W)) :=
  {| view := λ s, (send_queue s.1, (transport s.1, s.2));
     update := λ a s,
       (mkVirtIONetRaw a.2.1 (mac s.1) (recv_queue s.1) a.1 (legacy_header s.1), a.2.2) |}.
Definition on_rx {A} (c : M (VQ.VirtQueue * W) A) : M St A := zoom rx_lens (zoom VQ.queue_lens c).
Definition on_tx {A} (c : M (VQ.VirtQueue * W) A) : M St A := zoom tx_lens (zoom VQ.queue_lens c).
Definition on_transport {A} (c : M (T * W) A) : M St A := zoom rx_lens (on_snd c).

Definition new : M (T * W) (Result (VirtIONetRaw T)) :=
  negotiated ←? begin_init Features.all SUPPORTED_FEATURES;
  mac ←? read_consistent fuel (read_config_space 6 1 config_mac);
  _status ←? read_config_space 2 2 config_status;
  let indirect := contains negotiated Feature.RING_INDIRECT_DESC in
  let event_idx := contains negotiated Feature.RING_EVENT_IDX in
  txq ←? VQ.new QUEUE_SIZE QUEUE_TRANSMIT indirect event_idx;
  or_drop (VQ.new QUEUE_SIZE QUEUE_RECEIVE indirect event_idx) [txq] (λ rxq,
  finish_init;;
  t ← gets fst;
  mret (Ok (mkVirtIONetRaw t mac rxq txq
    (negb (contains negotiated Feature.VERSION_1) && negb (contains negotiated Features.MRG_RXBUF))))).

Definition ack_interrupt : M St Z := on_transport Transport.ack_interrupt.
Definition disable_interrupts : M St unit :=
  on_tx (VQ.set_dev_notify false);; on_rx (VQ.set_dev_notify false).
Definition enable_interrupts : M St unit :=
  on_tx (VQ.set_dev_notify true);; on_rx (VQ.set_dev_notify true).
Definition mac_address (r : VirtIONetRaw T) : list Z := mac r.

Definition can_send : M St bool :=
  n ← on_tx (VQ.available_desc QUEUE_SIZE);
  mret (2 <=? n).

Definition check_rx_buf_len (rx_buf : Slice) : Result unit :=
  if s_len rx_buf <? MIN_BUFFER_LEN then Err InvalidParam else Ok tt.
Definition check_tx_buf_len (r : VirtIONetRaw T) (tx_buf : Slice) : Result unit :=
  if s_len tx_buf <? hdr_size (legacy_header r) then Err InvalidParam else Ok tt.

Definition fill_buffer_header (buffer : Slice) : M St (Result Z) :=
  r ← gets fst;
  if s_len buffer <? hdr_size (legacy_header r) then mret (Err InvalidParam) else
  on_snd (mem_write (s_ptr buffer) (default_header (legacy_header r)));;
  mret (Ok (hdr_size (legacy_header r))).

Definition transmit_begin (tx_buf : Slice) : M St (Result Z) :=
  r ← gets fst;
  _ ←? mret (check_tx_buf_len r tx_buf);
  token ←? on_tx (VQ.add QUEUE_SIZE [tx_buf] []);
  q ← gets (λ s, send_queue s.1);
  (if VQ.should_notify q then zoom tx_lens (on_snd (notify QUEUE_TRANSMIT)) else mret tt);;
  mret (Ok token).

Definition poll_transmit : M St (option Z) := on_tx (VQ.peek_used QUEUE_SIZE).

Definition transmit_complete (token : Z) (tx_buf : Slice) : M St (Result Z) :=
  len ←? on_tx (VQ.pop_used QUEUE_SIZE token [tx_buf] []);
  mret (Ok len).

Definition receive_begin (rx_buf : Slice) : M St (Result Z) :=
  _ ←? mret (check_rx_buf_len rx_buf);
  token ←? on_rx (VQ.add QUEUE_SIZE [] [rx_buf]);
  q ← gets (λ s, recv_queue s.1);
  (if VQ.should_notify q then zoom rx_lens (on_snd (notify QUEUE_RECEIVE)) else mret tt);;
  mret (Ok token).

Definition poll_receive : M St (option Z) := on_rx (VQ.peek_used QUEUE_SIZE).

Definition receive_complete (token : Z) (rx_buf : Slice) : M St (Result (Z * Z)) :=
  len ←? on_rx (VQ.pop_used QUEUE_SIZE token [] [rx_buf]);
  r ← gets fst;
  let hdr := hdr_size (legacy_header r) in
  match checked_sub len hdr with
  | None => mret (Err IoError)
  | Some packet_len => mret (Ok (hdr, packet_len))
  end.

Definition send (tx_buf : Slice) : M St (Result unit) :=
  r ← gets fst;
  header ← on_snd (stack_slot (default_header (legacy_header r)));
  _ ←? (if s_len tx_buf =? 0
        then zoom tx_lens (VQ.add_notify_wait_pop QUEUE_SIZE fuel [header] [])
        else zoom tx_lens (VQ.add_notify_wait_pop QUEUE_SIZE fuel [header; tx_buf] []));
  mret (Ok tt).

(** The loop of [receive_wait]; in every round the device may act. *)
Fixpoint wait_receive (n : nat) : M St unit :=
  match n with
  | O => hang
  | S n =>
    p ← poll_receive;
    match p with
    | None => on_rx VQ.spin;; wait_receive n
    | Some _ => mret tt
    end
  end.

Definition receive_wait (rx_buf : Slice) : M St (Result (Z * Z)) :=
  token ←? receive_begin rx_buf;
  wait_receive fuel;;
  receive_complete token rx_buf.

(** [Drop], then that of the queues. *)
Definition drop (r : VirtIONetRaw T) : M (T * W) unit :=
  queue_unset QUEUE_RECEIVE;;
  queue_unset QUEUE_TRANSMIT;;
  on_snd (OwningQueue.drop_queue (recv_queue r);; OwningQueue.drop_queue (send_queue r)).
End raw.
End Raw.

(** ** Buffers *)

(** [TxBuffer]: the slice of a vector of bytes. *)
Module TxBuffer.
Record TxBuffer := mkTxBuffer { tx_vec : Slice }.

Definition from {W} `{Allocator W} `{Mem W} (buf : Slice) : M W TxBuffer :=
  bytes ← mem_read buf;
  v ← vec_new 1 bytes;
  mret (mkTxBuffer v).
Definition packet_len (b : TxBuffer) : Z := s_len (tx_vec b).
Definition packet (b : TxBuffer) : Slice := tx_vec b.
End TxBuffer.
Abbreviation TxBuffer := TxBuffer.TxBuffer.

(** [RxBuffer]; [buf] is the slice of a vector of [usize]. *)
Module RxBuffer.
Record RxBuffer := mkRxBuffer { buf : Slice; packet_len : Z; idx : Z; legacy_header : bool }.

Section rx.
Context {W : Type} `{Allocator W} `{Mem W}.

(** [idx.try_into().unwrap()] to a [u16]. *)
Definition new (idx buf_len : Z) (legacy : bool) : M W RxBuffer :=
  v ← vec_new 8 (replicate (Z.to_nat (8 * (buf_len / 8))) 0);
  assert (idx <? 2 ^ 16);;
  mret (mkRxBuffer v 0 idx legacy).

Definition set_packet_len (packet_len : Z) (b : RxBuffer) : RxBuffer :=
  mkRxBuffer (buf b) packet_len (idx b) (legacy_header b).
Definition set_idx (idx : Z) (b : RxBuffer) : RxBuffer :=
  mkRxBuffer (buf b) (packet_len b) idx (legacy_header b).

Definition as_bytes (b : RxBuffer) : Slice := buf b.

Definition header (b : RxBuffer) : M W VirtioNetHdr :=
  bytes ← mem_read (as_bytes b);
  unwrap (decode_header (legacy_header b) bytes).

(** [&self.buf.as_bytes()[hdr_size..hdr_size + self.packet_len]]. *)
Definition packet `{Profile} (b : RxBuffer) : M W Slice :=
  let start := hdr_size (legacy_header b) in
  stop ← add_u 64 start (packet_len b);
  assert ((start <=? stop) && (stop <=? s_len (as_bytes b)));;
  mret (mkSlice (s_ptr (as_bytes b) + start) (stop - start)).

Definition drop (b : RxBuffer) : M W unit := vec_drop (buf b).
End rx.
End RxBuffer.
Abbreviation RxBuffer := RxBuffer.RxBuffer.

(** ** The driver that owns its buffers *)
Record VirtIONet (T : Type) := mkVirtIONet {
  inner : Raw.VirtIONetRaw T;
  rx_buffers : list (option RxBuffer)
}.
Arguments mkVirtIONet {T} _ _.
Arguments inner {T} _.
Arguments rx_buffers {T} _.

Section net.
Context `{Profile} {W T : Type} `{Hal W} `{Allocator W} `{Mem W} `{Stack W} `{Device W}.
Context `{Transport T W}.
Context (QUEUE_SIZE : Z) (fuel : nat).
Abbreviation St := (VirtIONet T * W)%type.

Definition inner_lens : lens St (Raw.VirtIONetRaw T * W) :=
  {| view := λ s, (inner s.1, s.2); update := λ a s, (mkVirtIONet a.1 (rx_buffers s.1), a.2) |}.
Definition on_inner {A} (c : M (Raw.VirtIONetRaw T * W) A) : M St A := zoom inner_lens c.
Definition set_rx_buffer (i : Z) (b : option RxBuffer) : M St unit :=
  modify (λ s, (mkVirtIONet (inner s.1) (<[Z.to_nat i := b]> (rx_buffers s.1)), s.2)).

Fixpoint drop_rx_buffers (l : list (option RxBuffer)) : M W unit :=
  match l with
  | [] => mret tt
  | Some b :: l => RxBuffer.drop b;; drop_rx_buffers l
  | None :: l => drop_rx_buffers l
  end.

(** The loop of [new] from place [i] on, with [n] places left; [bufs] are the places filled. An
    early return drops the buffer of this round, the places and the inner driver. *)
Fixpoint new_loop (n : nat) (i buf_len : Z) (bufs : list (option RxBuffer))
    : M (Raw.VirtIONetRaw T * W) (Result (list (option RxBuffer))) :=
  match n with
  | O => mret (Ok bufs)
  | S n =>
    legacy ← gets (λ s, Raw.legacy_header s.1);
    rx_buf ← on_snd (RxBuffer.new i buf_len legacy);
    r ← Raw.receive_begin QUEUE_SIZE (RxBuffer.as_bytes rx_buf);
    match r with
    | Err e =>
        on_snd (RxBuffer.drop rx_buf;; drop_rx_buffers bufs);;
        mret (Err e)
    | Ok token =>
        assert (token =? wrap 16 i);;
        new_loop n (i + 1) buf_len (bufs ++ [Some rx_buf])
    end
  end.

Definition new (buf_len : Z) : M (T * W) (Result (VirtIONet T)) :=
  raw ←? Raw.new QUEUE_SIZE fuel;
  λ '(_, w),
    let '(o, (raw, w)) := new_loop (Z.to_nat QUEUE_SIZE) 0 buf_len [] (raw, w) in
    match o with
    | Val (Ok bufs) => (Val (Ok (mkVirtIONet raw bufs)), (Raw.transport raw, w))
    | Val (Err e) => (Raw.drop raw;; mret (Err e)) (Raw.transport raw, w)
    | Panic => (Panic, (Raw.transport raw, w))
    | Hang => (Hang, (Raw.transport raw, w))
    end.

Definition ack_interrupt : M St Z := on_inner Raw.ack_interrupt.
Definition disable_interrupts : M St unit := on_inner Raw.disable_interrupts.
Definition enable_interrupts : M St unit := on_inner Raw.enable_interrupts.
Definition mac_address (n : VirtIONet T) : list Z := Raw.mac_address (inner n).
Definition can_send : M St bool := on_inner (Raw.can_send QUEUE_SIZE).
Definition can_recv : M St bool :=
  p ← on_inner (Raw.poll_receive QUEUE_SIZE);
  mret (bool_decide (is_Some p)).

(** A buffer that was taken and is not returned is dropped. *)
Definition receive : M St (Result RxBuffer) :=
  p ← on_inner (Raw.poll_receive QUEUE_SIZE);
  match p with
  | None => mret (Err NotReady)
  | Some token =>
    bufs ← gets (λ s, rx_buffers s.1);
    place ← unwrap (index bufs token);
    set_rx_buffer token None;;
    match place with
    | None => mret (Err WrongToken)
    | Some rx_buf =>
      if negb (token =? RxBuffer.idx rx_buf)
      then on_snd (RxBuffer.drop rx_buf);; mret (Err WrongToken)
      else
        r ← on_inner (Raw.receive_complete QUEUE_SIZE token (RxBuffer.as_bytes rx_buf));
        match r with
        | Err e => on_snd (RxBuffer.drop rx_buf);; mret (Err e)
        | Ok (_, pkt_len) => mret (Ok (RxBuffer.set_packet_len pkt_len rx_buf))
        end
    end
  end.

(** [rx_buf] is moved in: it is dropped when it is not put into its place. *)
Definition recycle_rx_buffer (rx_buf : RxBuffer) : M St (Result unit) :=
  r ← on_inner (Raw.receive_begin QUEUE_SIZE (RxBuffer.as_bytes rx_buf));
  match r with
  | Err e => on_snd (RxBuffer.drop rx_buf);; mret (Err e)
  | Ok new_token =>
    bufs ← gets (λ s, rx_buffers s.1);
    place ← unwrap (index bufs new_token);
    match place with
    | Some _ => on_snd (RxBuffer.drop rx_buf);; mret (Err WrongToken)
    | None =>
      set_rx_buffer new_token (Some (RxBuffer.set_idx new_token rx_buf));;
      mret (Ok tt)
    end
  end.

Definition new_tx_buffer (buf_len : Z) : M St TxBuffer :=
  v ← on_snd (vec_new 1 (replicate (Z.to_nat buf_len) 0));
  mret (TxBuffer.mkTxBuffer v).

(** The buffer is moved in and dropped at the end. *)
Definition send (tx_buf : TxBuffer) : M St (Result unit) :=
  r ← on_inner (Raw.send QUEUE_SIZE fuel (TxBuffer.packet tx_buf));
  on_snd (vec_drop (TxBuffer.tx_vec tx_buf));;
  mret r.

(** The fields in order: the inner driver, then the buffers. *)
Definition drop (n : VirtIONet T) : M (T * W) unit :=
  Raw.drop (inner n);; on_snd (drop_rx_buffers (rx_buffers n)).
End net.
End Net.
