(* ===== verification/NetProps.v ===== *)
(** * Properties of the network device drivers *)

From S2P Require Import Prelude Base Transport QueueData Queue DeviceQueue Owning QueueInv QueueLemmas QueueSpec QueueWait.
From S2P Require Import Serve Single Bytes Driver Net FakeTransport Bench Lab.
Import Net.

(** ** The receive buffers *)
Section receive.
Context `{Profile} {T W : Type} `{DmaSpec W} `{Transport T W} `{!Notifier QUEUE_RECEIVE T W}.
Context (SIZE : Z) (HS : SIZE_OK SIZE = true).
Implicit Types (n : VirtIONet T) (w : W) (b : RxBuffer) (l : list (option RxBuffer)).

Abbreviation rxq n := (Raw.recv_queue (inner n)).
Definition rx_seg (pa : Z) b : Seg := (pa, RxBuffer.buf b, DeviceToDriver).
Definition box b : Res := Boxed (s_ptr (RxBuffer.buf b)) (s_len (RxBuffer.buf b)).
Definition boxes l : list Res := box <$> omap id l.

(** A buffer the driver can give to the device. *)
Definition buf_ok b : Prop :=
  MIN_BUFFER_LEN ≤ s_len (RxBuffer.buf b) < 2 ^ 32 ∧ ∀ x, in_slice (RxBuffer.buf b) x → own x.

(** The places with a buffer are the tokens in flight, each for its own buffer. *)
Record net_inv n w (fl : list Z) (infl : gmap Z Req) (rest : list Res) : Prop := {
  nk_inv : inv SIZE (rxq n) w fl infl (boxes (rx_buffers n) ++ rest);
  nk_len : length (rx_buffers n) = Z.to_nat SIZE;
  nk_place : ∀ i b, 0 ≤ i → index (rx_buffers n) i = Some (Some b) →
    RxBuffer.idx b = i ∧ buf_ok b ∧ ∃ pa, infl !! i = Some (Direct [i] [rx_seg pa b]);
  nk_infl : ∀ i r, infl !! i = Some r → ∃ b, index (rx_buffers n) i = Some (Some b);
  nk_ready : ready (idx := QUEUE_RECEIVE) (Raw.transport (inner n))
}.
Definition net_ok n w rest : Prop := ∃ fl infl, net_inv n w fl infl rest.

Lemma boxes_insert_Some l i b : l !! i = Some None → boxes (<[i := Some b]> l) ≡ₚ box b :: boxes l.
Proof.
  revert i. induction l as [|x l IH]; intros [|i] Hi; simplify_eq/=; [done|].
  destruct x; unfold boxes in *; simpl; rewrite IH by done; solve_Permutation.
Qed.

Lemma boxes_insert_None l i b : l !! i = Some (Some b) → boxes l ≡ₚ box b :: boxes (<[i := None]> l).
Proof.
  revert i. induction l as [|x l IH]; intros [|i] Hi; simplify_eq/=; [done|].
  destruct x; unfold boxes in *; simpl; rewrite (IH i) by done; solve_Permutation.
Qed.

Lemma buf_item b : buf_ok b → item_ok (RxBuffer.buf b, DeviceToDriver).
Proof. intros [Hl _]. unfold MIN_BUFFER_LEN in Hl. split_and!; simpl; [lia|unfold fits; lia|done]. Qed.

Lemma net_eta n : mkVirtIONet (inner n) (rx_buffers n) = n.
Proof. by destruct n. Qed.

Lemma raw_eta (r : Raw.VirtIONetRaw T) : Raw.mkVirtIONetRaw (Raw.transport r) (Raw.mac r) (Raw.recv_queue r)
  (Raw.send_queue r) (Raw.legacy_header r) = r.
Proof. by destruct r. Qed.

Lemma poll_receive_run n w : shared_ok SIZE (VQ.shared (rxq n)) →
  on_inner (Raw.poll_receive SIZE) (n, w) =
  (Val ((λ e, wrap 16 (ue_id e)) <$> next_used SIZE (rxq n)), (n, w)).
Proof.
  intros Hsh. unfold on_inner, Raw.poll_receive, Raw.on_rx.
  erewrite zoom_val; [|apply zoom_val, zoom_val; cbn; by apply peek_run]. cbn. by rewrite raw_eta, net_eta.
Qed.

(** The driver with another receive queue. *)
Definition set_rxq (q : VQ.VirtQueue) (t : T) n : VirtIONet T :=
  mkVirtIONet (Raw.mkVirtIONetRaw t (Raw.mac (inner n)) q (Raw.send_queue (inner n)) (Raw.legacy_header (inner n)))
    (rx_buffers n).

(** Taking the buffer of a used request out of its place. *)
Lemma receive_complete_run n w fl infl rest e b pa : net_inv n w fl infl rest → next_used SIZE (rxq n) = Some e →
  infl !! (wrap 16 (ue_id e)) = Some (Direct [wrap 16 (ue_id e)] [rx_seg pa b]) →
  ∃ q' w', inv SIZE q' w' (wrap 16 (ue_id e) :: fl) (delete (wrap 16 (ue_id e)) infl) (boxes (rx_buffers n) ++ rest) ∧
    unshare pa (RxBuffer.buf b) DeviceToDriver w = (Val tt, w') ∧
    ∀ l, on_inner (Raw.receive_complete SIZE (wrap 16 (ue_id e)) (RxBuffer.as_bytes b)) (mkVirtIONet (inner n) l, w) =
      (Val (let hdr := hdr_size (Raw.legacy_header (inner n)) in
            if hdr <=? ue_len e then Ok (hdr, ue_len e - hdr) else Err IoError),
       (mkVirtIONet (inner (set_rxq q' (Raw.transport (inner n)) n)) l, w')).
Proof.
  intros Hn Hu Hr. destruct (pop_single_run SIZE HS (rxq n) w fl infl _ pa (RxBuffer.buf b) DeviceToDriver e
    (nk_inv _ _ _ _ _ Hn) Hu Hr) as (q' & w' & Hpop & I & Hun & _).
  exists q', w'. split_and!; try done. intros l. unfold on_inner.
  erewrite (zoom_val inner_lens _ _ _ (inner (set_rxq q' (Raw.transport (inner n)) n), w')); [reflexivity|].
  cbn. unfold Raw.receive_complete, Raw.on_rx.
  erewrite try_ok by (apply zoom_val, zoom_val; exact Hpop). cbn. mstep. cbn. unfold checked_sub.
  by destruct (_ <=? ue_len e).
Qed.

(** What the device has written to a buffer is in it once it is taken out of the queue. *)
Definition filled b w w' : Prop := ∃ pa, Share (rx_seg pa b) ∈ held w ∧
  ∀ x, own x → byte_at w' x = if decide (in_slice (RxBuffer.buf b) x)
    then default 0 (view w (rx_seg pa b) !! Z.to_nat (x - s_ptr (RxBuffer.buf b))) else byte_at w x.

Lemma unshare_filled b pa w w' infl rest t : live_held infl ++ rest ≡ₚ held w →
  infl !! t = Some (Direct [t] [rx_seg pa b]) → buf_ok b →
  unshare pa (RxBuffer.buf b) DeviceToDriver w = (Val tt, w') → filled b w w'.
Proof.
  intros Hp Hr Hb Hun. rewrite (live_held_delete _ _ _ Hr) in Hp. simpl in Hp. exists pa. split.
  - rewrite <- Hp. by left.
  - intros x Hx. destruct (unshare_own pa (RxBuffer.buf b) DeviceToDriver w (live_held (delete t infl) ++ rest) w')
      as [M _]; [done|left; apply Hb|done|]. rewrite M by done.
    destruct (decide (in_slice (RxBuffer.buf b) x)); [by rewrite decide_True|by rewrite decide_False by naive_solver].
Qed.

Lemma take_place n w fl infl rest t b q' w' : net_inv n w fl infl rest → 0 ≤ t →
  index (rx_buffers n) t = Some (Some b) →
  inv SIZE q' w' (t :: fl) (delete t infl) (boxes (rx_buffers n) ++ rest) →
  net_inv (mkVirtIONet (inner (set_rxq q' (Raw.transport (inner n)) n)) (<[Z.to_nat t := None]> (rx_buffers n)))
    w' (t :: fl) (delete t infl) (box b :: rest).
Proof.
  intros [I Hl Hpl Hin Hr] Ht Hb I'. split; simpl; try done.
  - destruct I'; split; try done. rewrite inv_held. rewrite (boxes_insert_None _ _ _ Hb). solve_Permutation.
  - by rewrite length_insert.
  - intros i c Hi Hc. unfold index in Hc. destruct (decide (i = t)) as [->|Hne].
    { rewrite list_lookup_insert_eq in Hc; [done|]. by eapply lookup_lt_Some. }
    rewrite list_lookup_insert_ne in Hc by lia. destruct (Hpl i c Hi Hc) as (? & ? & pa & ?).
    split_and!; try done. exists pa. by rewrite lookup_delete_ne.
  - intros i r [Hne Hri]%lookup_delete_Some. destruct (Hin i r Hri) as (c & Hc). exists c.
    assert (0 ≤ i) by (eapply (inv_token SIZE I); eauto).
    unfold index in *. by rewrite list_lookup_insert_ne by lia.
Qed.

Lemma drop_box_run b n w fl infl rest : buf_ok b → net_inv n w fl infl (box b :: rest) →
  ∃ w', RxBuffer.drop b w = (Val tt, w') ∧ net_inv n w' fl infl rest.
Proof.
  intros [Hl _] [I ? ? ? ?]. unfold RxBuffer.drop, vec_drop. unfold MIN_BUFFER_LEN in Hl.
  rewrite (proj2 (Z.eqb_neq _ 0)) by lia.
  destruct (box_drop_spec (s_ptr (RxBuffer.buf b)) (s_len (RxBuffer.buf b)) w (live_held infl ++ boxes (rx_buffers n) ++ rest))
    as (w' & E & Hp).
  { rewrite (inv_held _ _ _ _ _ _ I). unfold box. solve_Permutation. }
  exists w'. split; [done|]. split; try done. by destruct I; split.
Qed.

(** What [receive] does, whatever the device wrote to the used ring. *)
Lemma receive_run n w rest : net_ok n w rest →
  match next_used SIZE (rxq n) with
  | None => receive SIZE (n, w) = (Val (Err NotReady), (n, w))
  | Some e =>
    let t := wrap 16 (ue_id e) in
    let hdr := hdr_size (Raw.legacy_header (inner n)) in
    match index (rx_buffers n) t with
    | None => ∃ s, receive SIZE (n, w) = (Panic, s)
    | Some None => receive SIZE (n, w) = (Val (Err WrongToken), (n, w))
    | Some (Some b) => ∃ n' w',
        receive SIZE (n, w) = (Val (if hdr <=? ue_len e then Ok (RxBuffer.set_packet_len (ue_len e - hdr) b)
                                    else Err IoError), (n', w')) ∧
        rx_buffers n' = <[Z.to_nat t := None]> (rx_buffers n) ∧
        Raw.legacy_header (inner n') = Raw.legacy_header (inner n) ∧
        (if hdr <=? ue_len e
         then net_ok n' w' (box b :: rest) ∧ filled b w w' ∧
              (∃ fl infl, net_inv n' w' (t :: fl) infl (box b :: rest))
         else net_ok n' w' rest)
    end
  end.
Proof.
  intros (fl & infl & Hn). pose proof (nk_inv _ _ _ _ _ Hn) as I. pose proof (inv_shared _ _ _ _ _ _ I) as Hsh.
  unfold receive. erewrite bind_val by (by apply poll_receive_run).
  destruct (next_used SIZE (rxq n)) as [e|] eqn:Hu; [|done]. cbn [fmap option_fmap option_map]. cbv zeta.
  assert (0 ≤ wrap 16 (ue_id e)) as Ht by (apply (wrap_fits 16); lia).
  set (t := wrap 16 (ue_id e)) in *. mstep. cbn [fst].
  destruct (index (rx_buffers n) t) as [[b|]|] eqn:Hb; [| |eexists; by apply bind_panic].
  2:{ mstep. cbn [fst snd]. rewrite list_insert_id by exact Hb. by rewrite net_eta. }
  mstep. cbn [fst snd]. destruct (nk_place _ _ _ _ _ Hn t b Ht Hb) as (Hidx & Hbok & pa & Hr).
  rewrite Hidx, Z.eqb_refl. cbn [negb].
  destruct (receive_complete_run n w fl infl rest e b pa Hn Hu Hr) as (q' & w' & I' & Hun & Hrun).
  pose proof (take_place n w fl infl rest t b q' w' Hn Ht Hb I') as Hn'.
  erewrite bind_val by (apply Hrun). cbv zeta.
  destruct (hdr_size (Raw.legacy_header (inner n)) <=? ue_len e) eqn:Hle.
  - eexists _, w'. split; [reflexivity|]. split_and!; try done; [by eexists _, _| |by eexists _, _].
    eapply unshare_filled; try done. symmetry. apply I.
  - destruct (drop_box_run b _ w' _ _ _ Hbok Hn') as (w2 & E2 & Hn2).
    erewrite bind_val by (apply on_snd_val; exact E2). eexists _, w2. split; [reflexivity|].
    split_and!; try done. by eexists _, _.
Qed.

(** *** Recycling *)
Lemma put_place n w fl infl rest i b q' t' w' pa : net_inv n w (i :: fl) infl (box b :: rest) → buf_ok b →
  infl !! i = None → inv SIZE q' w' fl (<[i := Direct [i] [rx_seg pa b]]> infl) (boxes (rx_buffers n) ++ box b :: rest) →
  ready (idx := QUEUE_RECEIVE) t' →
  index (rx_buffers n) i = Some None ∧
  net_inv (mkVirtIONet (inner (set_rxq q' t' n)) (<[Z.to_nat i := Some (RxBuffer.set_idx i b)]> (rx_buffers n)))
    w' fl (<[i := Direct [i] [rx_seg pa b]]> infl) rest.
Proof.
  intros [I Hl Hpl Hin Hr] Hb Hni I' Ht'.
  assert (0 ≤ i < SIZE) as Hi by (apply (inv_range SIZE I); set_solver).
  assert (index (rx_buffers n) i = Some None) as Hp.
  { destruct (index_lt (rx_buffers n) SIZE i Hl Hi) as [[c|] Hc]; [|done].
    destruct (Hpl i c (proj1 Hi) Hc) as (_ & _ & pa' & ?). congruence. }
  split; [done|]. split; simpl; try done.
  - destruct I'; split; try done. rewrite inv_held. rewrite (boxes_insert_Some _ _ _ Hp).
    change (box (RxBuffer.set_idx i b)) with (box b). solve_Permutation.
  - by rewrite length_insert.
  - intros j c Hj Hc. unfold index in Hc. destruct (decide (j = i)) as [->|Hne].
    + rewrite list_lookup_insert_eq in Hc by (by eapply lookup_lt_Some). injection Hc as <-.
      split_and!; try done. exists pa. by rewrite lookup_insert_eq.
    + rewrite list_lookup_insert_ne in Hc by lia. destruct (Hpl j c Hj Hc) as (? & ? & pa' & ?).
      split_and!; try done. exists pa'. by rewrite lookup_insert_ne.
  - intros j r [[<- <-]|[Hne Hrj]]%lookup_insert_Some.
    + exists (RxBuffer.set_idx i b). unfold index. rewrite list_lookup_insert_eq; [done|]. by eapply lookup_lt_Some.
    + destruct (Hin j r Hrj) as (c & Hc). exists c. assert (0 ≤ j) by (eapply (inv_token SIZE I); eauto).
      unfold index in *. by rewrite list_lookup_insert_ne by lia.
Qed.

(** A free descriptor exists exactly when a place is empty. *)
Lemma free_place n w fl infl rest : net_inv n w fl infl rest →
  (fl = [] ↔ ∀ i, 0 ≤ i < SIZE → index (rx_buffers n) i ≠ Some None).
Proof.
  intros [I Hl Hpl Hin Hr]. split.
  - intros -> i Hi Hp. pose proof (inv_parts _ _ _ _ _ _ I) as Hp'. simpl in Hp'.
    assert (i ∈ owned infl) as Hio by (rewrite Hp'; by apply elem_of_seqZ).
    apply list_elem_of_join in Hio as (c & Hic & (p & -> & Hm)%list_elem_of_fmap). destruct p as [h r]. simpl in *.
    apply elem_of_map_to_list in Hm. destruct (Hin h r Hm) as (b & Hb).
    assert (0 ≤ h) by (eapply (inv_token SIZE I); eauto). destruct (Hpl h b ltac:(lia) Hb) as (_ & _ & pa & Hr').
    rewrite Hr' in Hm. injection Hm as <-. apply list_elem_of_singleton in Hic as ->. congruence.
  - intros Hfull. destruct fl as [|i fl]; [done|]. exfalso.
    assert (0 ≤ i < SIZE) as Hi by (apply (inv_range SIZE I); set_solver).
    destruct (index_lt (rx_buffers n) SIZE i Hl Hi) as [[c|] Hc]; [|by apply (Hfull i Hi)].
    destruct (Hpl i c (proj1 Hi) Hc) as (_ & _ & pa & Hri).
    assert (i ∈ owned infl) as Hio by (eapply (inv_chain SIZE I); [exact Hri|by left]).
    by apply (inv_disjoint SIZE I i); [left|].
Qed.

Lemma recycle_place_run n w i fl infl rest b : net_inv n w (i :: fl) infl (box b :: rest) → buf_ok b → ∃ n' w' infl',
  recycle_rx_buffer SIZE b (n, w) = (Val (Ok tt), (n', w')) ∧ net_inv n' w' fl infl' rest ∧
  index (rx_buffers n) i = Some None ∧ rx_buffers n' = <[Z.to_nat i := Some (RxBuffer.set_idx i b)]> (rx_buffers n).
Proof.
  intros Hn Hb. pose proof (nk_inv _ _ _ _ _ Hn) as I.
  destruct (add_single_run SIZE HS (rxq n) w i fl infl _ (RxBuffer.buf b) DeviceToDriver I (buf_item b Hb))
    as (pa & q' & w1 & Hadd & Hni & I' & _ & _ & _).
  destruct (notify_if_run (idx := QUEUE_RECEIVE) (VQ.should_notify q') (Raw.transport (inner n)) w1 (nk_ready _ _ _ _ _ Hn))
    as (t' & w' & Hno & Ht' & Hp).
  pose proof (inv_world SIZE _ _ w' _ _ _ I' Hp) as I2.
  destruct (put_place n w fl infl rest i b q' t' w' pa Hn Hb Hni I2 Ht') as [Hpl Hn'].
  eexists _, w', _. split; [|split; [exact Hn'|done]].
  unfold recycle_rx_buffer, on_inner.
  erewrite bind_val.
  2:{ apply (zoom_val inner_lens _ _ _ (inner (set_rxq q' t' n), w')). cbn. unfold Raw.receive_begin, Raw.check_rx_buf_len.
    rewrite (proj2 (Z.ltb_ge _ _)) by apply Hb. mstep. unfold Raw.on_rx.
    erewrite try_ok by (apply zoom_val, zoom_val; exact Hadd). cbn. mstep. cbn [fst].
    by erewrite bind_val by (apply (if_zoom_val Raw.rx_lens); [exact Hno|done]). }
  cbn. mstep. cbn. rewrite Hpl. mstep. done.
Qed.

(** [recycle_rx_buffer] puts a buffer back when there is an empty place, and drops it with
    [QueueFull] when there is none. *)
Lemma recycle_rx_run n w rest b : net_ok n w (box b :: rest) → buf_ok b → ∃ n' w',
  (∃ i, 0 ≤ i < SIZE ∧ index (rx_buffers n) i = Some None ∧
    recycle_rx_buffer SIZE b (n, w) = (Val (Ok tt), (n', w')) ∧ net_ok n' w' rest ∧
    rx_buffers n' = <[Z.to_nat i := Some (RxBuffer.set_idx i b)]> (rx_buffers n)) ∨
  ((∀ i, 0 ≤ i < SIZE → index (rx_buffers n) i ≠ Some None) ∧
    recycle_rx_buffer SIZE b (n, w) = (Val (Err QueueFull), (n', w')) ∧ net_ok n' w' rest ∧
    rx_buffers n' = rx_buffers n).
Proof.
  intros (fl & infl & Hn) Hb. destruct fl as [|i fl].
  - destruct (drop_box_run b n w [] infl rest Hb Hn) as (w' & E & Hn'). exists n, w'. right.
    split; [by apply (free_place n w [] infl (box b :: rest))|]. split; [|split; [by exists [], infl|done]].
    unfold recycle_rx_buffer. erewrite bind_val; [|]. 2:{ unfold on_inner.
      apply (zoom_val inner_lens _ _ (Err QueueFull) (inner n, w)). cbn. unfold Raw.receive_begin, Raw.check_rx_buf_len.
      rewrite (proj2 (Z.ltb_ge _ _)) by apply Hb. mstep. unfold Raw.on_rx.
      assert (VQ.add SIZE [] [RxBuffer.as_bytes b] (rxq n, w) = (Val (Err QueueFull), (rxq n, w))) as Hadd.
      { pose proof (inv_num _ _ _ _ _ _ (nk_inv _ _ _ _ _ Hn)) as Hnum. simpl in Hnum. unfold VQ.add.
        rewrite (bool_decide_eq_false_2 ([_] = [])), andb_false_r by done. mstep. cbn [fst].
        by rewrite (proj2 (Z.ltb_lt SIZE _)) by lia. }
      erewrite try_err by (apply zoom_val, zoom_val; exact Hadd). cbn. by rewrite raw_eta. }
    cbn. rewrite net_eta. by erewrite bind_val by (apply on_snd_val; exact E).
  - destruct (recycle_place_run n w i fl infl rest b Hn Hb) as (n' & w' & infl' & E & Hn' & Hpl & Hbufs).
    assert (0 ≤ i < SIZE) as Hi by (apply (inv_range SIZE (nk_inv _ _ _ _ _ Hn)); set_solver).
    exists n', w'. left. exists i. split; [done|]. split_and!; try done. by exists fl, infl'.
Qed.

(** The device writes to the memory of the receive queue. *)
Definition device_writes n (sh : Shared) : VirtIONet T :=
  set_rxq (VQ.set_shared sh (rxq n)) (Raw.transport (inner n)) n.

Lemma device_writes_ok n w rest sh : net_ok n w rest → shared_ok SIZE sh → net_ok (device_writes n sh) w rest.
Proof. intros (fl & infl & [I ? ? ? ?]) Hsh. exists fl, infl. split; try done. simpl. by destruct I; split. Qed.

(** C24. [receive], whatever the device wrote to the used ring. Without a used request: [NotReady].
    A token that is no index of a place makes it panic; one whose place is empty gives [WrongToken].
    In both of these error returns nothing changes. Otherwise the buffer of the place is taken out,
    with what the device has written to it, and the length of the packet is the length the device
    gave minus the header; when the device gave less than a header the buffer is freed. The tokens
    in flight remain those of the places with a buffer. *)
Theorem net_receive n w rest : net_ok n w rest →
  match next_used SIZE (rxq n) with
  | None => receive SIZE (n, w) = (Val (Err NotReady), (n, w))
  | Some e =>
    let t := wrap 16 (ue_id e) in
    let hdr := hdr_size (Raw.legacy_header (inner n)) in
    match index (rx_buffers n) t with
    | None => ∃ s, receive SIZE (n, w) = (Panic, s)
    | Some None => receive SIZE (n, w) = (Val (Err WrongToken), (n, w))
    | Some (Some b) => ∃ n' w',
        receive SIZE (n, w) = (Val (if hdr <=? ue_len e then Ok (RxBuffer.set_packet_len (ue_len e - hdr) b)
                                    else Err IoError), (n', w')) ∧
        rx_buffers n' = <[Z.to_nat t := None]> (rx_buffers n) ∧
        (if hdr <=? ue_len e then net_ok n' w' (box b :: rest) ∧ filled b w w' else net_ok n' w' rest)
    end
  end.
Proof.
  intros Hn. pose proof (receive_run n w rest Hn) as R. destruct (next_used SIZE (rxq n)) as [e|]; [|done].
  cbv zeta in *. destruct (index (rx_buffers n) (wrap 16 (ue_id e))) as [[b|]|]; try done.
  destruct R as (n' & w' & E & Hb & _ & Hif). exists n', w'. split_and!; try done.
  destruct (_ <=? ue_len e); [|done]. by destruct Hif as (? & ? & _).
Qed.

(** C25. A received buffer that is recycled goes back to its own place under its own token, so that
    all requests are again in flight as before. *)
Theorem net_receive_recycle n w rest e b : net_ok n w rest → next_used SIZE (rxq n) = Some e →
  index (rx_buffers n) (wrap 16 (ue_id e)) = Some (Some b) →
  hdr_size (Raw.legacy_header (inner n)) ≤ ue_len e → ∃ b' n1 w1 n2 w2,
  receive SIZE (n, w) = (Val (Ok b'), (n1, w1)) ∧
  b' = RxBuffer.set_packet_len (ue_len e - hdr_size (Raw.legacy_header (inner n))) b ∧
  recycle_rx_buffer SIZE b' (n1, w1) = (Val (Ok tt), (n2, w2)) ∧ net_ok n2 w2 rest ∧
  rx_buffers n2 = <[Z.to_nat (wrap 16 (ue_id e)) := Some b']> (rx_buffers n).
Proof.
  intros Hn Hu Hb Hle. pose proof (receive_run n w rest Hn) as R. rewrite Hu in R. cbv zeta in R. rewrite Hb in R.
  rewrite (proj2 (Z.leb_le _ _)) in R by done. destruct R as (n1 & w1 & E & Hbufs & _ & _ & _ & fl & infl & Hn1).
  destruct Hn as (fl0 & infl0 & Hn). assert (0 ≤ wrap 16 (ue_id e)) as Ht by (apply (wrap_fits 16); lia).
  destruct (nk_place _ _ _ _ _ Hn _ b Ht Hb) as (Hidx & Hbok & _).
  destruct (recycle_place_run n1 w1 _ fl infl rest (RxBuffer.set_packet_len (ue_len e - hdr_size (Raw.legacy_header (inner n))) b) Hn1 Hbok)
    as (n2 & w2 & infl' & E2 & Hn2 & Hpl & Hbufs2).
  eexists _, n1, w1, n2, w2. split_and!; try done; [by exists fl, infl'|].
  rewrite Hbufs2, Hbufs, list_insert_insert_eq. do 2 f_equal. destruct b. unfold RxBuffer.set_idx. simpl in *. by subst.
Qed.
End receive.

(** ** Sending *)

(** A wire: it records the packets, with their headers. *)
Definition wire_serve (d : list (list Z)) (rs : list (list Z)) (ls : list Z) : list (list Z) * list (list Z) * Z :=
  (d ++ [mjoin rs], (λ n, replicate (Z.to_nat n) 0) <$> ls, 0).

Lemma wire_serve_lengths d rs ls : length <$> (wire_serve d rs ls).1.2 = Z.to_nat <$> ls.
Proof. simpl. rewrite <- list_fmap_compose. apply list_fmap_ext. intros. simpl. by rewrite length_replicate. Qed.

Section send.
Context (SIZE : Z) (HS : SIZE_OK SIZE = true) (HS2 : 2 ≤ SIZE).
Context {N : nat} {T W : Type} `{Server SIZE N QUEUE_TRANSMIT T W (list (list Z))} `{Profile} (fuel : nat).
Context (Hproto : ∀ d rs ls, serve d rs ls = wire_serve d rs ls) (Hfuel : (N < fuel)%nat).
Implicit Types (r : Raw.VirtIONetRaw T) (w : W).

Record send_ok r w (rest : list Res) : Prop := {
  sk_idle : idle SIZE (Raw.send_queue r) w rest;
  sk_idx : VQ.queue_idx (Raw.send_queue r) = QUEUE_TRANSMIT;
  sk_tok : tok (Raw.transport r)
}.

Lemma default_header_zero legacy : default_header legacy = replicate (Z.to_nat (hdr_size legacy)) 0.
Proof. by destruct legacy. Qed.

(** [send] puts one packet on the wire: the header, all zeros and of the size that was
    negotiated, and the bytes of the buffer, which may be empty. No memory of the program changes,
    and the receive queue is left alone. *)
Theorem net_sends r w rest buf : send_ok r w rest → user_buffer buf ∨ s_len buf = 0 → ∃ r' w',
  Raw.send SIZE fuel buf (r, w) = (Val (Ok tt), (r', w')) ∧ send_ok r' w' rest ∧
  Raw.recv_queue r' = Raw.recv_queue r ∧ Raw.legacy_header r' = Raw.legacy_header r ∧
  dstate w' = dstate w ++ [replicate (Z.to_nat (hdr_size (Raw.legacy_header r))) 0 ++ bytes_of w buf] ∧
  (∀ x, own x → ¬ frame x → byte_at w' x = byte_at w x).
Proof.
  intros [Hid Hix Htk] Hb. pose (reads := if s_len buf =? 0 then [] else [buf]).
  assert (Forall user_buffer (reads ++ []) ∧ 1 + Z.of_nat (length (reads ++ [])) ≤ SIZE ∧
    mjoin (bytes_of w <$> reads) = bytes_of w buf) as (Hu & Hn & Hj).
  { unfold reads. destruct (Z.eqb_spec (s_len buf) 0) as [E|E]; simpl.
    - split_and!; [by constructor|lia|]. unfold bytes_of. by rewrite E.
    - destruct Hb as [Hb|Hb]; [|done]. split_and!; [by constructor|lia|]. by rewrite app_nil_r. }
  destruct (slot_run (SIZE := SIZE) HS fuel (Raw.send_queue r) (Raw.transport r) w rest
    (default_header (Raw.legacy_header r)) reads [])
    as (a & w0 & len & q' & t' & w' & E0 & E & Hid' & Htk' & _ & Hix' & Es & Hm); try done.
  { by destruct (Raw.legacy_header r). }
  rewrite Hproto in Es. injection Es as Ed _.
  exists (Raw.mkVirtIONetRaw t' (Raw.mac r) (Raw.recv_queue r) q' (Raw.legacy_header r)), w'. split_and!; try done.
  - unfold Raw.send. mstep. cbn [fst]. erewrite bind_val by (apply on_snd_val; exact E0).
    unfold reads in E. destruct (s_len buf =? 0); by erewrite try_ok by (eapply (zoom_val Raw.tx_lens); exact E).
  - rewrite <- Ed, <- default_header_zero. simpl. by rewrite Hj.
  - intros x Hx Hf. apply Hm; try done. by intros b ?%elem_of_nil.
Qed.
End send.

(** ** A network in the laboratory *)
Section witnesses.
Import Bench Lab FakeTransport.
Abbreviation Wire := (Lab (list (list Z))).

#[local] Instance wire_device : Device Wire := lab_device (λ _, wire_serve).
#[local] Instance wire_server : Server 4 1 QUEUE_TRANSMIT FakeTransport Wire (list (list Z)) :=
  lab_server (λ _, wire_serve) 4 QUEUE_TRANSMIT eq_refl Z.le_0_1 wire_serve_lengths.
#[local] Instance wire_notifier : Notifier QUEUE_RECEIVE FakeTransport Wire := lab_notifier QUEUE_RECEIVE (Z.le_refl _).

Lemma wire_serves d rs ls : serve d rs ls = wire_serve d rs ls.
Proof. done. Qed.

Definition raw0 : Raw.VirtIONetRaw FakeTransport :=
  Raw.mkVirtIONetRaw (transport0 Network 2) [2; 0; 0; 0; 0; 1] (queue0 4 QUEUE_RECEIVE) (queue0 4 QUEUE_TRANSMIT) false.

Lemma net_sends_witness : ∃ r' w',
  Raw.send 4 2 (mkSlice 131072 60) (raw0, lab0 []) = (Val (Ok tt), (r', w')) ∧ send_ok 4 r' w' [] ∧
  Raw.recv_queue r' = Raw.recv_queue raw0 ∧ Raw.legacy_header r' = false ∧
  dstate w' = [] ++ [replicate 12 0 ++ bytes_of (lab0 [] : Wire) (mkSlice 131072 60)] ∧
  (∀ x, own (W := Wire) x → ¬ frame (W := Wire) x → byte_at w' x = byte_at (lab0 [] : Wire) x).
Proof.
  apply (net_sends 4 eq_refl ltac:(lia) 2 wire_serves (le_n 2) raw0 (lab0 []) [] (mkSlice 131072 60)).
  - split; [by apply queue0_idle|done|done].
  - left. by apply low_user.
Defined.

(** One buffer, in flight, which the device has filled with a packet of 88 bytes. *)
Definition rx0 : RxBuffer := RxBuffer.mkRxBuffer (mkSlice 65536 2048) 0 7 false.
Definition net0 : VirtIONet FakeTransport := mkVirtIONet raw0 [None; None; None; None].
Definition nw0 : Wire := mkLab (λ x, x mod 256) [box rx0] [].
Definition net1 : VirtIONet FakeTransport * Wire := (recycle_rx_buffer 4 rx0 (net0, nw0)).2.
Definition net2 : VirtIONet FakeTransport :=
  device_writes net1.1 (mkShared (VQ.desc (Raw.recv_queue (inner net1.1))) (VQ.avail (Raw.recv_queue (inner net1.1)))
    (mkUsedRing 0 1 [mkUsedElem 0 100; mkUsedElem 0 0; mkUsedElem 0 0; mkUsedElem 0 0] 0)).

Lemma rx0_ok : buf_ok (W := Wire) rx0.
Proof. split; [unfold MIN_BUFFER_LEN; simpl; lia|]. intros x. unfold own, in_slice, HEAP. simpl. unfold HEAP. lia. Qed.

Lemma net0_ok : net_ok 4 net0 nw0 [box rx0].
Proof.
  exists (seqZ 0 4), ∅. split; try done.
  - exact (QueueNew.initial_inv 4 eq_refl layout0 QUEUE_RECEIVE false false nw0).
  - intros i b Hi Hb. unfold index in Hb. simpl in Hb. by destruct (Z.to_nat i) as [|[|[|[|]]]].
Qed.

Lemma net2_ok : net_ok 4 net2 net1.2 [].
Proof.
  apply device_writes_ok; [|done].
  destruct (recycle_rx_run 4 eq_refl net0 nw0 [] rx0 net0_ok rx0_ok)
    as (n' & w' & [(i & _ & _ & E & Hok & _)|(Hfull & _)]); [|by destruct (Hfull 0)].
  unfold net1. by rewrite E.
Qed.

Lemma net_receive_witness : ∃ n' w', receive 4 (net2, net1.2) =
    (Val (Ok (RxBuffer.mkRxBuffer (mkSlice 65536 2048) 88 0 false)), (n', w')) ∧
  rx_buffers n' = [None; None; None; None] ∧ net_ok 4 n' w' [box rx0] ∧ filled rx0 net1.2 w'.
Proof. exact (net_receive 4 eq_refl net2 net1.2 [] net2_ok). Defined.

Lemma net_receive_recycle_witness : ∃ b' n1 w1 n2 w2,
  receive 4 (net2, net1.2) = (Val (Ok b'), (n1, w1)) ∧ b' = RxBuffer.mkRxBuffer (mkSlice 65536 2048) 88 0 false ∧
  recycle_rx_buffer 4 b' (n1, w1) = (Val (Ok tt), (n2, w2)) ∧ net_ok 4 n2 w2 [] ∧
  rx_buffers n2 = [Some b'; None; None; None].
Proof.
  apply (net_receive_recycle 4 eq_refl net2 net1.2 [] (mkUsedElem 0 100)
    (RxBuffer.mkRxBuffer (mkSlice 65536 2048) 0 0 false)); [exact net2_ok|reflexivity|reflexivity|by simpl].
Defined.
End witnesses.
