(* ===== verification/Input.v ===== *)
(** * The input device driver

    [src/src/device/input.rs]: [VirtIOInput]. [event_buf] is the address of the boxed array of
    events; a boxed slice or a string that a method returns is the list of its bytes. *)

From S2P Require Import Prelude Base Transport QueueData Queue DeviceQueue Owning Bytes Driver.

Module Input.

Definition QUEUE_EVENT : Z := 0.
Definition QUEUE_STATUS : Z := 1.
Definition QUEUE_SIZE : Z := 32.
Definition SUPPORTED_FEATURES : Z :=
  Z.lor (Z.lor Feature.RING_EVENT_IDX Feature.RING_INDIRECT_DESC) Feature.VERSION_1.
Definition CONFIG_DATA_MAX_LENGTH : Z := 128.

(** ** Data *)
Record InputEvent := mkInputEvent { event_type : Z; code : Z; value : Z }.
Definition InputEvent_widths : list nat := [2; 2; 4]%nat.
Definition InputEvent_size : Z := Z.of_nat (struct_size InputEvent_widths).
Definition InputEvent_from (bytes : list Z) : option InputEvent :=
  match decode_fields InputEvent_widths bytes with
  | [t; c; v] => Some (mkInputEvent t c v)
  | _ => None
  end.

Inductive InputConfigSelect := IdName | IdSerial | IdDevids | PropBits | EvBits | AbsInfo_.
Definition InputConfigSelect_as_u8 (s : InputConfigSelect) : Z :=
  match s with
  | IdName => 1 | IdSerial => 2 | IdDevids => 3 | PropBits => 16 | EvBits => 17 | AbsInfo_ => 18
  end.

(** The widths of the fields of [Config]. *)
Definition Config : list nat := [1; 1; 1; 5; 128]%nat.
Definition config_select : Z := field_offset Config 0.
Definition config_subsel : Z := field_offset Config 1.
Definition config_size : Z := field_offset Config 2.
Definition config_data : Z := field_offset Config 4.

Record AbsInfo := mkAbsInfo { abs_min : Z; abs_max : Z; abs_fuzz : Z; abs_flat : Z; abs_res : Z }.
Definition AbsInfo_widths : list nat := [4; 4; 4; 4; 4]%nat.
Definition AbsInfo_from (bytes : list Z) : option AbsInfo :=
  match decode_fields AbsInfo_widths bytes with
  | [a; b; c; d; e] => Some (mkAbsInfo a b c d e)
  | _ => None
  end.

Record DevIDs := mkDevIDs { bustype : Z; vendor : Z; product : Z; version : Z }.
Definition DevIDs_widths : list nat := [2; 2; 2; 2]%nat.
Definition DevIDs_from (bytes : list Z) : option DevIDs :=
  match decode_fields DevIDs_widths bytes with
  | [a; b; c; d] => Some (mkDevIDs a b c d)
  | _ => None
  end.

(** [core::str::from_utf8]: the well-formed sequences of the Unicode standard. *)
Definition cont (b : Z) : bool := (128 <=? b) && (b <=? 191).
Definition between (lo hi b : Z) : bool := (lo <=? b) && (b <=? hi).
Fixpoint utf8_valid (l : list Z) : bool :=
  match l with
  | [] => true
  | b :: l =>
    if b <=? 127 then utf8_valid l
    else if between 194 223 b then
      match l with b1 :: l => cont b1 && utf8_valid l | _ => false end
    else if between 224 239 b then
      match l with
      | b1 :: b2 :: l =>
        between (if b =? 224 then 160 else 128) (if b =? 237 then 159 else 191) b1 && cont b2 &&
        utf8_valid l
      | _ => false
      end
    else if between 240 244 b then
      match l with
      | b1 :: b2 :: b3 :: l =>
        between (if b =? 240 then 144 else 128) (if b =? 244 then 143 else 191) b1 && cont b2 &&
        cont b3 && utf8_valid l
      | _ => false
      end
    else false
  end.

(** ** The driver *)
Record VirtIOInput (T : Type) := mkVirtIOInput {
  transport : T;
  event_queue : VQ.VirtQueue;
  status_queue : VQ.VirtQueue;
  event_buf : Z
}.
Arguments mkVirtIOInput {T} _ _ _ _.
Arguments transport {T} _.
Arguments event_queue {T} _.
Arguments status_queue {T} _.
Arguments event_buf {T} _.

Section input.
Context `{Profile} {W T : Type} `{Hal W} `{Allocator W} `{Mem W}.
Context `{Transport T W}.
Abbreviation St := (VirtIOInput T * W)%type.

Definition event_lens : lens St (VQ.VirtQueue * (T * W)) :=
  {| view := λ s, (event_queue s.1, (transport s.1, s.2));
     update := λ a s, (mkVirtIOInput a.2.1 a.1 (status_queue s.1) (event_buf s.1), a.2.2) |}.
Definition on_events {A} (c : M (VQ.VirtQueue * W) A) : M St A :=
  zoom event_lens (zoom VQ.queue_lens c).
Definition on_transport {A} (c : M (T * W) A) : M St A := zoom event_lens (on_snd c).

Definition event_buf_size : Z := QUEUE_SIZE * InputEvent_size.
(** The bytes of [event_buf[i]]. *)
Definition event_slice (buf i : Z) : Slice := mkSlice (buf + InputEvent_size * i) InputEvent_size.

(** An early return of [new] drops the queues created before and the events. *)
Definition or_free {A B} (buf : Z) (c : M (T * W) (Result A)) (created : list VQ.VirtQueue)
    (k : A → M (T * W) (Result B)) : M (T * W) (Result B) :=
  r ← c;
  match r with
  | Ok a => k a
  | Err e =>
    foldr (λ q rest, on_snd (OwningQueue.drop_queue q);; rest) (mret tt) created;;
    on_snd (box_drop buf event_buf_size);;
    mret (Err e)
  end.

(** The loop of [new] from event [i] on, with [n] events left. *)
Fixpoint fill (buf : Z) (n : nat) (i : Z) : M (VQ.VirtQueue * W) (Result unit) :=
  match n with
  | O => mret (Ok tt)
  | S n =>
    token ←? VQ.add QUEUE_SIZE [] [event_slice buf i];
    assert (token =? wrap 16 i);;
    fill buf n (i + 1)
  end.

Definition new : M (T * W) (Result (VirtIOInput T)) :=
  p ← on_snd (box_new event_buf_size);
  buf ← unwrap p;
  on_snd (mem_write buf (replicate (Z.to_nat event_buf_size) 0));;
  or_free buf (begin_init Feature.all SUPPORTED_FEATURES) [] (λ negotiated,
  let indirect := contains negotiated Feature.RING_INDIRECT_DESC in
  let event_idx := contains negotiated Feature.RING_EVENT_IDX in
  or_free buf (VQ.new QUEUE_SIZE QUEUE_EVENT indirect event_idx) [] (λ eventq,
  or_free buf (VQ.new QUEUE_SIZE QUEUE_STATUS indirect event_idx) [eventq] (λ statusq,
  '(r, eventq) ← with_queue_mut eventq (fill buf (Z.to_nat QUEUE_SIZE) 0);
  or_free buf (mret r) [statusq; eventq] (λ _,
  (if VQ.should_notify eventq then notify QUEUE_EVENT else mret tt);;
  finish_init;;
  t ← gets fst;
  mret (Ok (mkVirtIOInput t eventq statusq buf)))))).

Definition ack_interrupt : M St Z := on_transport Transport.ack_interrupt.

Definition pop_pending_event : M St (option InputEvent) :=
  p ← on_events (VQ.peek_used QUEUE_SIZE);
  match p with
  | None => mret None
  | Some token =>
    buf ← gets (λ s, event_buf s.1);
    assert (token <? QUEUE_SIZE);;
    let event := event_slice buf token in
    r ← on_events (VQ.pop_used QUEUE_SIZE token [] [event]);
    match r with
    | Err _ => mret None
    | Ok _ =>
      bytes ← on_snd (mem_read event);
      event_saved ← unwrap (InputEvent_from bytes);
      r ← on_events (VQ.add QUEUE_SIZE [] [event]);
      match r with
      | Err _ => mret None
      | Ok new_token =>
        assert (new_token =? token);;
        q ← gets (λ s, event_queue s.1);
        (if VQ.should_notify q then on_transport (notify QUEUE_EVENT) else mret tt);;
        mret (Some event_saved)
      end
    end
  end.

(** [n] bytes of the configuration data from byte [i] on. *)
Fixpoint read_data (n : nat) (i : Z) : M (T * W) (Result (list Z)) :=
  match n with
  | O => mret (Ok [])
  | S n =>
    b ←? read_config 1 (config_data + i);
    l ←? read_data n (i + 1);
    mret (Ok (b :: l))
  end.

Definition select_config (select : InputConfigSelect) (subsel : Z) : M (T * W) (Result Z) :=
  _ ←? write_config 1 config_select (InputConfigSelect_as_u8 select);
  _ ←? write_config 1 config_subsel subsel;
  read_config 1 config_size.

(** The size, and the first bytes of [out], of the length [out_len], as far as they are written. *)
Definition query_config_select (select : InputConfigSelect) (subsel out_len : Z)
    : M St (Result (Z * list Z)) :=
  on_transport (
    size ←? select_config select subsel;
    data ←? read_data (Z.to_nat (Z.min size out_len)) 0;
    mret (Ok (size, data))).

Definition query_config_select_alloc (select : InputConfigSelect) (subsel : Z)
    : M St (Result (list Z)) :=
  on_transport (
    size ←? select_config select subsel;
    if CONFIG_DATA_MAX_LENGTH <? size then mret (Err IoError)
    else read_data (Z.to_nat size) 0).

Definition query_config_string (select : InputConfigSelect) (subsel : Z) : M St (Result (list Z)) :=
  bytes ←? query_config_select_alloc select subsel;
  mret (if utf8_valid bytes then Ok bytes else Err IoError).

Definition name : M St (Result (list Z)) := query_config_string IdName 0.
Definition serial_number : M St (Result (list Z)) := query_config_string IdSerial 0.

(** A structure of [size_of] bytes, all zero before. *)
Definition query_struct {A} (select : InputConfigSelect) (subsel : Z) (widths : list nat)
    (from : list Z → option A) : M St (Result A) :=
  '(size, data) ←? query_config_select select subsel (Z.of_nat (struct_size widths));
  if size =? Z.of_nat (struct_size widths)
  then x ← unwrap (from data); mret (Ok x)
  else mret (Err IoError).

Definition ids : M St (Result DevIDs) := query_struct IdDevids 0 DevIDs_widths DevIDs_from.
Definition prop_bits : M St (Result (list Z)) := query_config_select_alloc PropBits 0.
Definition ev_bits (event_type : Z) : M St (Result (list Z)) :=
  query_config_select_alloc EvBits event_type.
Definition abs_info (axis : Z) : M St (Result AbsInfo) :=
  query_struct AbsInfo_ axis AbsInfo_widths AbsInfo_from.

(** [Drop], then that of the fields. *)
Definition drop (s : VirtIOInput T) : M (T * W) unit :=
  queue_unset QUEUE_EVENT;;
  queue_unset QUEUE_STATUS;;
  on_snd (OwningQueue.drop_queue (event_queue s);; OwningQueue.drop_queue (status_queue s);;
          box_drop (event_buf s) event_buf_size).
End input.
End Input.
