(* ===== verification/InputProps.v ===== *)
(** * Properties of the input device driver *)

From S2P Require Import Prelude Base Transport QueueData Queue DeviceQueue Owning QueueInv QueueLemmas QueueSpec QueueWait.
From S2P Require Import Serve Single Bytes Input FakeTransport Bench Lab.
Import Input.

Lemma input_size : SIZE_OK QUEUE_SIZE = true.
Proof. done. Qed.

Section input.
Context `{Profile} {T W : Type} `{DmaSpec W} `{Transport T W} `{!Notifier QUEUE_EVENT T W}.
Implicit Types (s : VirtIOInput T) (w : W) (infl : gmap Z Req).

Definition event_seg (pa buf i : Z) : Seg := (pa, event_slice buf i, DeviceToDriver).

(** The events before [k] are in flight, each under its own index. *)
Definition in_flight infl (buf k : Z) : Prop :=
  ∀ i, 0 ≤ i < k → ∃ pa, infl !! i = Some (Direct [i] [event_seg pa buf i]).

Record input_ok s w (rest : list Res) : Prop := {
  ik_inv : ∃ infl, inv QUEUE_SIZE (event_queue s) w [] infl rest ∧ in_flight infl (event_buf s) QUEUE_SIZE;
  ik_own : ∀ i x, 0 ≤ i < QUEUE_SIZE → in_slice (event_slice (event_buf s) i) x → own x;
  ik_ready : ready (idx := QUEUE_EVENT) (transport s)
}.

Lemma event_item buf i : item_ok (event_slice buf i, DeviceToDriver).
Proof. by repeat split. Qed.

(** The loop of [new] puts all events in flight; its assertion holds. *)
Lemma fill_run buf rest n : ∀ i q w infl, 0 ≤ i → i + Z.of_nat n = QUEUE_SIZE →
  inv QUEUE_SIZE q w (seqZ i (QUEUE_SIZE - i)) infl rest → in_flight infl buf i → ∃ q' w' infl',
  fill buf n i (q, w) = (Val (Ok tt), (q', w')) ∧ inv QUEUE_SIZE q' w' [] infl' rest ∧ in_flight infl' buf QUEUE_SIZE ∧
  VQ.queue_idx q' = VQ.queue_idx q.
Proof.
  induction n as [|n IH]; intros i q w infl Hi Hn I Hf.
  { assert (i = QUEUE_SIZE) as -> by lia. rewrite Z.sub_diag in I. by exists q, w, infl. }
  rewrite seqZ_cons in I by lia.
  destruct (add_single_run QUEUE_SIZE input_size q w i _ infl rest (event_slice buf i) DeviceToDriver I (event_item buf i))
    as (pa & q1 & w1 & Hadd & Hni & I1 & _ & Hsq & _).
  replace (Z.succ i) with (i + 1) in I1 by lia. replace (Z.pred (QUEUE_SIZE - i)) with (QUEUE_SIZE - (i + 1)) in I1 by lia.
  destruct (IH (i + 1) q1 w1 (<[i := Direct [i] [event_seg pa buf i]]> infl)) as (q' & w' & infl' & E & I' & Hf' & Hix); try done; try lia.
  { intros j Hj. destruct (decide (j = i)) as [->|Hne]; [exists pa; by rewrite lookup_insert_eq|].
    rewrite lookup_insert_ne by done. apply Hf. lia. }
  exists q', w', infl'. split_and!; try done; [|rewrite Hix; apply Hsq].
  cbn [fill]. erewrite try_ok by exact Hadd. rewrite wrap_small by (unfold fits, QUEUE_SIZE in *; lia).
  rewrite Z.eqb_refl. mstep. exact E.
Qed.

Lemma input_eta s : mkVirtIOInput (transport s) (event_queue s) (status_queue s) (event_buf s) = s.
Proof. by destruct s. Qed.

Definition set_eventq (q : VQ.VirtQueue) (t : T) s : VirtIOInput T :=
  mkVirtIOInput t q (status_queue s) (event_buf s).

Lemma peek_event_run s w : shared_ok QUEUE_SIZE (VQ.shared (event_queue s)) →
  on_events (VQ.peek_used QUEUE_SIZE) (s, w) =
  (Val ((λ e, wrap 16 (ue_id e)) <$> next_used QUEUE_SIZE (event_queue s)), (s, w)).
Proof.
  intros Hsh. unfold on_events. erewrite zoom_val by (apply zoom_val; cbn; by apply peek_run). cbn.
  by rewrite input_eta.
Qed.

(** Popping and requeueing event [t]. *)
Lemma requeue_run s w rest e t : input_ok s w rest → next_used QUEUE_SIZE (event_queue s) = Some e →
  t = wrap 16 (ue_id e) → 0 ≤ t < QUEUE_SIZE → ∃ pa q1 w1 q2 w2,
  let ev := event_slice (event_buf s) t in
  Share (event_seg pa (event_buf s) t) ∈ held w ∧
  VQ.pop_used QUEUE_SIZE t [] [ev] (event_queue s, w) = (Val (Ok (ue_len e)), (q1, w1)) ∧
  bytes_of w1 ev = (λ i, default 0 (view w (event_seg pa (event_buf s) t) !! Z.to_nat i)) <$> seqZ 0 InputEvent_size ∧
  VQ.add QUEUE_SIZE [] [ev] (q1, w1) = (Val (Ok t), (q2, w2)) ∧
  ∃ infl, inv QUEUE_SIZE q2 w2 [] infl rest ∧ in_flight infl (event_buf s) QUEUE_SIZE.
Proof.
  intros [(infl & I & Hf) Hown _] Hu -> Ht. destruct (Hf _ Ht) as (pa & Hr). set (t := wrap 16 (ue_id e)) in *.
  destruct (pop_single_run QUEUE_SIZE input_size (event_queue s) w [] infl rest pa (event_slice (event_buf s) t) DeviceToDriver e I Hu Hr)
    as (q1 & w1 & Hpop & I1 & Hun & _).
  destruct (add_single_run QUEUE_SIZE input_size q1 w1 t [] _ rest (event_slice (event_buf s) t) DeviceToDriver I1 (event_item _ _))
    as (pa' & q2 & w2 & Hadd & _ & I2 & _).
  pose proof (inv_held _ _ _ _ _ _ I) as Hh. rewrite (live_held_delete _ _ _ Hr) in Hh. simpl in Hh.
  exists pa, q1, w1, q2, w2. cbv zeta. split_and!; try done.
  - rewrite Hh. by left.
  - eapply unshare_bytes; try done. left. intros x Hx. by apply (Hown t).
  - eexists. split; [exact I2|]. intros i Hi. destruct (decide (i = t)) as [->|Hne].
    + exists pa'. by rewrite lookup_insert_eq.
    + rewrite lookup_insert_ne, lookup_delete_ne by done. by apply Hf.
Qed.

Lemma event_from_some l : ∃ ev, InputEvent_from l = Some ev.
Proof. unfold InputEvent_from. simpl. eauto. Qed.

(** [pop_pending_event], whatever the device wrote to the used ring. Without a used request it
    returns [None]. A token below the size of the queue gives the event the device wrote to the
    buffer of that token, which is then in flight again under the same token: the assertion holds
    and no event buffer is lost. Any other token makes it panic. *)
Theorem input_event s w rest : input_ok s w rest →
  match next_used QUEUE_SIZE (event_queue s) with
  | None => pop_pending_event (s, w) = (Val None, (s, w))
  | Some e =>
    let t := wrap 16 (ue_id e) in
    if t <? QUEUE_SIZE then ∃ pa s' w',
      Share (event_seg pa (event_buf s) t) ∈ held w ∧ input_ok s' w' rest ∧ event_buf s' = event_buf s ∧
      pop_pending_event (s, w) = (Val (InputEvent_from ((λ i,
        default 0 (view w (event_seg pa (event_buf s) t) !! Z.to_nat i)) <$> seqZ 0 InputEvent_size)), (s', w'))
    else ∃ st, pop_pending_event (s, w) = (Panic, st)
  end.
Proof.
  intros Hs. pose proof Hs as [(infl & I & _) Hown Hrdy]. pose proof (inv_shared _ _ _ _ _ _ I) as Hsh.
  unfold pop_pending_event. erewrite bind_val by (by apply peek_event_run).
  destruct (next_used QUEUE_SIZE (event_queue s)) as [e|] eqn:Hu; [|done].
  cbn [fmap option_fmap option_map]. cbv zeta. set (t := wrap 16 (ue_id e)).
  assert (0 ≤ t) as Ht by (apply (wrap_fits 16); lia). mstep. cbn [fst].
  destruct (Z.ltb_spec t QUEUE_SIZE) as [Hlt|Hge]; [|eexists; by apply bind_panic].
  destruct (requeue_run s w rest e t Hs Hu eq_refl (conj Ht Hlt)) as (pa & q1 & w1 & q2 & w2 & Hsh' & Hpop & Hb & Hadd & I2).
  destruct (notify_if_run (idx := QUEUE_EVENT) (VQ.should_notify q2) (transport s) w2 Hrdy) as (t' & w' & Hn & Ht' & Hp).
  destruct (event_from_some (bytes_of w1 (event_slice (event_buf s) t))) as [ev Hev].
  exists pa, (set_eventq q2 t' s), w'. rewrite <- Hb. split_and!; try done.
  - split; try done. destruct I2 as (infl2 & I2 & Hf2). exists infl2. split; [by apply (inv_world _ _ w2)|done].
  - mstep. unfold on_events. erewrite bind_val by (apply zoom_val, zoom_val; exact Hpop). cbn -[InputEvent_from event_slice].
    erewrite bind_val by (apply on_snd_val, mem_read_spec). fold (bytes_of w1 (event_slice (event_buf s) t)).
    rewrite Hev. mstep. erewrite bind_val by (apply zoom_val, zoom_val; exact Hadd). cbn -[InputEvent_from event_slice].
    rewrite Z.eqb_refl. mstep. cbn [fst]. unfold on_transport.
    by erewrite bind_val by (apply (if_zoom_val event_lens); [exact Hn|done]).
Qed.
End input.

(** ** A keyboard in the laboratory *)
Section witnesses.
Import Bench Lab FakeTransport.
Abbreviation Keys := (Lab unit).
#[local] Instance keys_notifier : Notifier QUEUE_EVENT FakeTransport Keys := lab_notifier QUEUE_EVENT (Z.le_refl _).

(** All events in flight, and the device has used the sixth. *)
Definition filled0 : outcome (Result unit) * (VQ.VirtQueue * Keys) :=
  fill 65536 32 0 (queue0 QUEUE_SIZE QUEUE_EVENT, lab0 tt).
Definition eventq0 : VQ.VirtQueue :=
  VQ.set_shared (mkShared (VQ.desc filled0.2.1) (VQ.avail filled0.2.1)
    (mkUsedRing 0 1 (mkUsedElem 5 8 :: replicate 31 (mkUsedElem 0 0)) 0)) filled0.2.1.
Definition input0 : VirtIOInput FakeTransport :=
  mkVirtIOInput (transport0 Input 2) eventq0 (queue0 QUEUE_SIZE QUEUE_STATUS) 65536.

Lemma input0_ok : input_ok input0 filled0.2.2 [].
Proof.
  destruct (fill_run (W := Keys) 65536 [] 32 0 (queue0 QUEUE_SIZE QUEUE_EVENT) (lab0 tt) ∅)
    as (q' & w' & infl & E & I & Hf & _); [lia|done| |intros i Hi; lia|].
  { exact (QueueNew.initial_inv QUEUE_SIZE eq_refl layout0 QUEUE_EVENT false false (lab0 tt)). }
  assert (filled0 = (Val (Ok tt), (q', w'))) as E0 by exact E.
  unfold input0, eventq0. rewrite E0. cbn [fst snd]. clear E0 E. split; cbn [event_queue event_buf transport]; [| |done].
  2:{ intros i x Hi. unfold own, in_slice, event_slice, QUEUE_SIZE in *. simpl. change InputEvent_size with 8. unfold HEAP. lia. }
  exists infl. split; [|exact Hf]. destruct I as [[Hd Ha Hus]]. by split.
Qed.

Lemma eventq0_next : next_used QUEUE_SIZE (event_queue input0) = Some (mkUsedElem 5 8).
Proof. vm_compute. reflexivity. Qed.

Lemma input_event_witness : ∃ pa s' w',
  Share (event_seg pa 65536 5) ∈ held filled0.2.2 ∧ input_ok s' w' [] ∧ event_buf s' = 65536 ∧
  pop_pending_event (input0, filled0.2.2) = (Val (InputEvent_from ((λ i,
    default 0 (view filled0.2.2 (event_seg pa 65536 5) !! Z.to_nat i)) <$> seqZ 0 8)), (s', w')).
Proof.
  pose proof (input_event input0 filled0.2.2 [] input0_ok) as P. rewrite eventq0_next in P. exact P.
Defined.
End witnesses.
