(* ===== verification/Gpu.v ===== *)
(** * The GPU driver

    [src/src/device/gpu.rs]: [VirtIOGpu]. [queue_buf_send] and [queue_buf_recv] are the addresses
    of boxed pages. A request is its bytes; a structure that contains others is flattened into the
    list of its fields. *)

From S2P Require Import Prelude Base Transport QueueData Queue DeviceQueue Owning Bytes Driver.

Module Gpu.

Definition QUEUE_SIZE : Z := 2.
Definition QUEUE_TRANSMIT : Z := 0.
Definition QUEUE_CURSOR : Z := 1.
Definition SCANOUT_ID : Z := 0.
Definition RESOURCE_ID_FB : Z := 47806.
Definition RESOURCE_ID_CURSOR : Z := 56030.
Definition EVENT_DISPLAY : Z := Z.shiftl 1 0.
Definition GPU_FLAG_FENCE : Z := Z.shiftl 1 0.

Module Features.
Definition VIRGL : Z := Z.shiftl 1 0.
Definition EDID : Z := Z.shiftl 1 1.
Definition all : Z := foldr Z.lor Feature.all [VIRGL; EDID].
End Features.

Definition SUPPORTED_FEATURES : Z :=
  Z.lor (Z.lor Feature.RING_EVENT_IDX Feature.RING_INDIRECT_DESC) Feature.VERSION_1.

(** The widths of the fields of [Config]. *)
Definition Config : list nat := [4; 4; 4]%nat.
Definition config_events_read : Z := field_offset Config 0.
Definition config_num_scanouts : Z := field_offset Config 2.

(** ** Commands *)
Module Command.
Definition GET_DISPLAY_INFO : Z := 256.
Definition RESOURCE_CREATE_2D : Z := 257.
Definition RESOURCE_UNREF : Z := 258.
Definition SET_SCANOUT : Z := 259.
Definition RESOURCE_FLUSH : Z := 260.
Definition TRANSFER_TO_HOST_2D : Z := 261.
Definition RESOURCE_ATTACH_BACKING : Z := 262.
Definition RESOURCE_DETACH_BACKING : Z := 263.
Definition GET_CAPSET_INFO : Z := 264.
Definition GET_CAPSET : Z := 265.
Definition GET_EDID : Z := 266.
Definition UPDATE_CURSOR : Z := 768.
Definition MOVE_CURSOR : Z := 769.
Definition OK_NODATA : Z := 4352.
Definition OK_DISPLAY_INFO : Z := 4353.
Definition OK_CAPSET_INFO : Z := 4354.
Definition OK_CAPSET : Z := 4355.
Definition OK_EDID : Z := 4356.
Definition ERR_UNSPEC : Z := 4608.
Definition ERR_OUT_OF_MEMORY : Z := 4609.
Definition ERR_INVALID_SCANOUT_ID : Z := 4610.
End Command.

Record CtrlHeader := mkCtrlHeader { hdr_type : Z; flags : Z; fence_id : Z; ctx_id : Z }.
Definition CtrlHeader_widths : list nat := [4; 4; 8; 4; 4]%nat.
(** The fields, with the padding. *)
Definition CtrlHeader_fields (h : CtrlHeader) : list Z := [hdr_type h; flags h; fence_id h; ctx_id h; 0].
Definition with_type (hdr_type : Z) : CtrlHeader := mkCtrlHeader hdr_type 0 0 0.
Definition check_type (h : CtrlHeader) (expected : Z) : Result unit :=
  if hdr_type h =? expected then Ok tt else Err IoError.
Definition CtrlHeader_from (bytes : list Z) : option CtrlHeader :=
  match decode_fields CtrlHeader_widths bytes with
  | [t; f; i; c; _] => Some (mkCtrlHeader t f i c)
  | _ => None
  end.

Record Rect := mkRect { rect_x : Z; rect_y : Z; width : Z; height : Z }.
Definition Rect_widths : list nat := [4; 4; 4; 4]%nat.
Definition Rect_fields (r : Rect) : list Z := [rect_x r; rect_y r; width r; height r].
Definition CURSOR_RECT : Rect := mkRect 0 0 64 64.

Record RespDisplayInfo := mkRespDisplayInfo { header : CtrlHeader; rect_ : Rect; enabled : Z; info_flags : Z }.
Definition RespDisplayInfo_widths : list nat := (CtrlHeader_widths ++ Rect_widths ++ [4; 4])%nat.
Definition RespDisplayInfo_from (bytes : list Z) : option RespDisplayInfo :=
  match decode_fields RespDisplayInfo_widths bytes with
  | [t; f; i; c; _; x; y; w; h; e; g] =>
      Some (mkRespDisplayInfo (mkCtrlHeader t f i c) (mkRect x y w h) e g)
  | _ => None
  end.

(** [Format::B8G8R8A8UNORM]. *)
Definition B8G8R8A8UNORM : Z := 1.

Definition ResourceCreate2D_widths : list nat := (CtrlHeader_widths ++ [4; 4; 4; 4])%nat.
Definition ResourceCreate2D_as_bytes (resource_id width height : Z) : list Z :=
  encode_fields ResourceCreate2D_widths (CtrlHeader_fields (with_type Command.RESOURCE_CREATE_2D) ++
    [resource_id; B8G8R8A8UNORM; width; height]).

Definition ResourceAttachBacking_widths : list nat := (CtrlHeader_widths ++ [4; 4; 8; 4; 4])%nat.
Definition ResourceAttachBacking_as_bytes (resource_id nr_entries addr length : Z) : list Z :=
  encode_fields ResourceAttachBacking_widths (CtrlHeader_fields (with_type Command.RESOURCE_ATTACH_BACKING) ++
    [resource_id; nr_entries; addr; length; 0]).

Definition SetScanout_widths : list nat := (CtrlHeader_widths ++ Rect_widths ++ [4; 4])%nat.
Definition SetScanout_as_bytes (rect : Rect) (scanout_id resource_id : Z) : list Z :=
  encode_fields SetScanout_widths (CtrlHeader_fields (with_type Command.SET_SCANOUT) ++
    Rect_fields rect ++ [scanout_id; resource_id]).

Definition TransferToHost2D_widths : list nat := (CtrlHeader_widths ++ Rect_widths ++ [8; 4; 4])%nat.
Definition TransferToHost2D_as_bytes (rect : Rect) (offset resource_id : Z) : list Z :=
  encode_fields TransferToHost2D_widths (CtrlHeader_fields (with_type Command.TRANSFER_TO_HOST_2D) ++
    Rect_fields rect ++ [offset; resource_id; 0]).

Definition ResourceFlush_widths : list nat := (CtrlHeader_widths ++ Rect_widths ++ [4; 4])%nat.
Definition ResourceFlush_as_bytes (rect : Rect) (resource_id : Z) : list Z :=
  encode_fields ResourceFlush_widths (CtrlHeader_fields (with_type Command.RESOURCE_FLUSH) ++
    Rect_fields rect ++ [resource_id; 0]).

Record CursorPos := mkCursorPos { scanout_id : Z; pos_x : Z; pos_y : Z }.
Definition CursorPos_widths : list nat := [4; 4; 4; 4]%nat.
Definition UpdateCursor_widths : list nat := (CtrlHeader_widths ++ CursorPos_widths ++ [4; 4; 4; 4])%nat.
Definition UpdateCursor_as_bytes (hdr : CtrlHeader) (pos : CursorPos) (resource_id hot_x hot_y : Z) : list Z :=
  encode_fields UpdateCursor_widths (CtrlHeader_fields hdr ++
    [scanout_id pos; pos_x pos; pos_y pos; 0] ++ [resource_id; hot_x; hot_y; 0]).

(** ** The driver *)
Record VirtIOGpu (T : Type) := mkVirtIOGpu {
  transport : T;
  rect : option Rect;
  frame_buffer_dma : option Dma;
  cursor_buffer_dma : option Dma;
  control_queue : VQ.VirtQueue;
  cursor_queue : VQ.VirtQueue;
  queue_buf_send : Z;
  queue_buf_recv : Z
}.
Arguments mkVirtIOGpu {T} _ _ _ _ _ _ _ _.
Arguments transport {T} _.
Arguments rect {T} _.
Arguments frame_buffer_dma {T} _.
Arguments cursor_buffer_dma {T} _.
Arguments control_queue {T} _.
Arguments cursor_queue {T} _.
Arguments queue_buf_send {T} _.
Arguments queue_buf_recv {T} _.

Section gpu.
Context `{Profile} {W T : Type} `{Hal W} `{Allocator W} `{Mem W} `{Device W}.
Context `{Transport T W}.
Context (fuel : nat).
Abbreviation St := (VirtIOGpu T * W)%type.
Implicit Types (g : VirtIOGpu T).

Definition control_lens : lens St (VQ.VirtQueue * (T * W)) :=
  {| view := λ s, (control_queue s.1, (transport s.1, s.2));
     update := λ a s, (mkVirtIOGpu a.2.1 (rect s.1) (frame_buffer_dma s.1) (cursor_buffer_dma s.1)
       a.1 (cursor_queue s.1) (queue_buf_send s.1) (queue_buf_recv s.1), a.2.2) |}.
Definition cursor_lens : lens St (VQ.VirtQueue * (T * W)) :=
  {| view := λ s, (cursor_queue s.1, (transport s.1, s.2));
     update := λ a s, (mkVirtIOGpu a.2.1 (rect s.1) (frame_buffer_dma s.1) (cursor_buffer_dma s.1)
       (control_queue s.1) a.1 (queue_buf_send s.1) (queue_buf_recv s.1), a.2.2) |}.

Definition set_rect (r : option Rect) g : VirtIOGpu T :=
  mkVirtIOGpu (transport g) r (frame_buffer_dma g) (cursor_buffer_dma g) (control_queue g)
    (cursor_queue g) (queue_buf_send g) (queue_buf_recv g).
Definition set_frame_buffer (d : option Dma) g : VirtIOGpu T :=
  mkVirtIOGpu (transport g) (rect g) d (cursor_buffer_dma g) (control_queue g)
    (cursor_queue g) (queue_buf_send g) (queue_buf_recv g).
Definition set_cursor_buffer (d : option Dma) g : VirtIOGpu T :=
  mkVirtIOGpu (transport g) (rect g) (frame_buffer_dma g) d (control_queue g)
    (cursor_queue g) (queue_buf_send g) (queue_buf_recv g).
Definition modg (f : VirtIOGpu T → VirtIOGpu T) : M St unit := modify (λ s, (f s.1, s.2)).

Definition new : M (T * W) (Result (VirtIOGpu T)) :=
  negotiated ←? begin_init Features.all SUPPORTED_FEATURES;
  _events_read ←? read_config 4 config_events_read;
  _num_scanouts ←? read_config 4 config_num_scanouts;
  let indirect := contains negotiated Feature.RING_INDIRECT_DESC in
  let event_idx := contains negotiated Feature.RING_EVENT_IDX in
  controlq ←? VQ.new QUEUE_SIZE QUEUE_TRANSMIT indirect event_idx;
  or_drop (VQ.new QUEUE_SIZE QUEUE_CURSOR indirect event_idx) [controlq] (λ cursorq,
  send ← new_page;
  recv ← new_page;
  finish_init;;
  t ← gets fst;
  mret (Ok (mkVirtIOGpu t None None None controlq cursorq send recv))).

Definition ack_interrupt : M St Z := zoom control_lens (on_snd Transport.ack_interrupt).

(** [req.write_to_prefix(&mut self.queue_buf_send).unwrap()]. *)
Definition write_request (req : list Z) : M St unit :=
  g ← gets fst;
  assert (Z.of_nat (length req) <=? PAGE_SIZE);;
  on_snd (mem_write (queue_buf_send g) req).

(** [request] for a response of [size] bytes, which [from] reads. *)
Definition request {A} (req : list Z) (size : nat) (from : list Z → option A) : M St (Result A) :=
  write_request req;;
  g ← gets fst;
  _ ←? zoom control_lens (VQ.add_notify_wait_pop QUEUE_SIZE fuel
         [mkSlice (queue_buf_send g) PAGE_SIZE] [mkSlice (queue_buf_recv g) PAGE_SIZE]);
  bytes ← on_snd (mem_read (mkSlice (queue_buf_recv g) (Z.of_nat size)));
  rsp ← unwrap (from bytes);
  mret (Ok rsp).

Definition cursor_request (req : list Z) : M St (Result unit) :=
  write_request req;;
  g ← gets fst;
  _ ←? zoom cursor_lens (VQ.add_notify_wait_pop QUEUE_SIZE fuel
         [mkSlice (queue_buf_send g) PAGE_SIZE] []);
  mret (Ok tt).

Definition get_display_info : M St (Result RespDisplayInfo) :=
  info ←? request (encode_fields CtrlHeader_widths (CtrlHeader_fields (with_type Command.GET_DISPLAY_INFO)))
            (struct_size RespDisplayInfo_widths) RespDisplayInfo_from;
  _ ←? mret (check_type (header info) Command.OK_DISPLAY_INFO);
  mret (Ok info).

(** A request that is answered by a header. *)
Definition request_header (req : list Z) : M St (Result unit) :=
  rsp ←? request req (struct_size CtrlHeader_widths) CtrlHeader_from;
  mret (check_type rsp Command.OK_NODATA).

Definition resource_create_2d (resource_id width height : Z) : M St (Result unit) :=
  request_header (ResourceCreate2D_as_bytes resource_id width height).
Definition set_scanout (rect : Rect) (scanout_id resource_id : Z) : M St (Result unit) :=
  request_header (SetScanout_as_bytes rect scanout_id resource_id).
Definition resource_flush (rect : Rect) (resource_id : Z) : M St (Result unit) :=
  request_header (ResourceFlush_as_bytes rect resource_id).
Definition transfer_to_host_2d (rect : Rect) (offset resource_id : Z) : M St (Result unit) :=
  request_header (TransferToHost2D_as_bytes rect offset resource_id).
Definition resource_attach_backing (resource_id paddr length : Z) : M St (Result unit) :=
  request_header (ResourceAttachBacking_as_bytes resource_id 1 paddr length).
Definition update_cursor (resource_id scanout_id pos_x pos_y hot_x hot_y : Z) (is_move : bool)
    : M St (Result unit) :=
  cursor_request (UpdateCursor_as_bytes
    (if is_move then with_type Command.MOVE_CURSOR else with_type Command.UPDATE_CURSOR)
    (mkCursorPos scanout_id pos_x pos_y) resource_id hot_x hot_y).

Definition resolution : M St (Result (Z * Z)) :=
  display_info ←? get_display_info;
  mret (Ok (width (rect_ display_info), height (rect_ display_info))).

(** An early return drops the region. *)
Definition or_free {A B} (d : Dma) (c : M St (Result A)) (k : A → M St (Result B)) : M St (Result B) :=
  r ← c;
  match r with
  | Ok a => k a
  | Err e => on_snd (Dma.drop d);; mret (Err e)
  end.

(** Storing a region drops the one that was there. *)
Definition drop_dma (d : option Dma) : M W unit :=
  match d with Some d => Dma.drop d | None => mret tt end.

Definition setup_framebuffer : M St (Result Slice) :=
  display_info ←? get_display_info;
  let r := rect_ display_info in
  modg (set_rect (Some r));;
  _ ←? resource_create_2d RESOURCE_ID_FB (width r) (height r);
  area ← mul_u 32 (width r) (height r);
  size ← mul_u 32 area 4;
  dma ←? on_snd (Dma.new (pages size) DriverToDevice);
  or_free dma (resource_attach_backing RESOURCE_ID_FB (Dma.dma_paddr dma) size) (λ _,
  or_free dma (set_scanout r SCANOUT_ID RESOURCE_ID_FB) (λ _,
  buf ← Dma.raw_slice dma;
  old ← gets (λ s, frame_buffer_dma s.1);
  on_snd (drop_dma old);;
  modg (set_frame_buffer (Some dma));;
  mret (Ok buf))).

Definition flush : M St (Result unit) :=
  g ← gets fst;
  match rect g with
  | None => mret (Err NotReady)
  | Some rect =>
    _ ←? transfer_to_host_2d rect 0 RESOURCE_ID_FB;
    _ ←? resource_flush rect RESOURCE_ID_FB;
    mret (Ok tt)
  end.

Definition setup_cursor (cursor_image : Slice) (pos_x pos_y hot_x hot_y : Z) : M St (Result unit) :=
  area ← mul_u 32 (width CURSOR_RECT) (height CURSOR_RECT);
  size ← mul_u 32 area 4;
  if negb (s_len cursor_image =? size) then mret (Err InvalidParam) else
  dma ←? on_snd (Dma.new (pages size) DriverToDevice);
  buf ← Dma.raw_slice dma;
  (** [copy_from_slice] panics when the lengths differ. *)
  assert (s_len buf =? s_len cursor_image);;
  bytes ← on_snd (mem_read cursor_image);
  on_snd (mem_write (s_ptr buf) bytes);;
  or_free dma (resource_create_2d RESOURCE_ID_CURSOR (width CURSOR_RECT) (height CURSOR_RECT)) (λ _,
  or_free dma (resource_attach_backing RESOURCE_ID_CURSOR (Dma.dma_paddr dma) size) (λ _,
  or_free dma (transfer_to_host_2d CURSOR_RECT 0 RESOURCE_ID_CURSOR) (λ _,
  or_free dma (update_cursor RESOURCE_ID_CURSOR SCANOUT_ID pos_x pos_y hot_x hot_y false) (λ _,
  old ← gets (λ s, cursor_buffer_dma s.1);
  on_snd (drop_dma old);;
  modg (set_cursor_buffer (Some dma));;
  mret (Ok tt))))).

Definition move_cursor (pos_x pos_y : Z) : M St (Result unit) :=
  _ ←? update_cursor RESOURCE_ID_CURSOR SCANOUT_ID pos_x pos_y 0 0 true;
  mret (Ok tt).

(** [Drop], then that of the fields. *)
Definition drop g : M (T * W) unit :=
  queue_unset QUEUE_TRANSMIT;;
  queue_unset QUEUE_CURSOR;;
  on_snd (drop_dma (frame_buffer_dma g);; drop_dma (cursor_buffer_dma g);;
    OwningQueue.drop_queue (control_queue g);; OwningQueue.drop_queue (cursor_queue g);;
    box_drop (queue_buf_send g) PAGE_SIZE;; box_drop (queue_buf_recv g) PAGE_SIZE).
End gpu.
End Gpu.
