(* ===== verification/GpuProps.v ===== *)
(** * Properties of the GPU driver

    Against a device that speaks the protocol of the VirtIO specification (section 5.7.6) and
    enforces its rules, [VirtIOGpu] sets up its frame buffer and flushes it. *)

From S2P Require Import Prelude Base Transport QueueData Queue DeviceQueue Owning QueueInv QueueSpec QueueWait Serve.
From S2P Require Import Bytes Gpu FakeTransport Bench Lab.
Import Gpu.

(** ** The device *)
Inductive Cmd :=
  | GetDisplayInfo
  | Create2D (id format w h : Z)
  | AttachBacking (id entries addr length : Z)
  | SetScanout (r : Rect) (scanout id : Z)
  | Transfer (r : Rect) (offset id : Z)
  | Flush (r : Rect) (id : Z).

Definition decode_cmd (page : list Z) : option Cmd :=
  let t := of_le (take 4 page) in
  if t =? Command.GET_DISPLAY_INFO then Some GetDisplayInfo
  else if t =? Command.RESOURCE_CREATE_2D then
    match decode_fields ResourceCreate2D_widths page with
    | [_; _; _; _; _; id; f; w; h] => Some (Create2D id f w h)
    | _ => None
    end
  else if t =? Command.RESOURCE_ATTACH_BACKING then
    match decode_fields ResourceAttachBacking_widths page with
    | [_; _; _; _; _; id; n; a; l; _] => Some (AttachBacking id n a l)
    | _ => None
    end
  else if t =? Command.SET_SCANOUT then
    match decode_fields SetScanout_widths page with
    | [_; _; _; _; _; x; y; w; h; s; id] => Some (SetScanout (mkRect x y w h) s id)
    | _ => None
    end
  else if t =? Command.TRANSFER_TO_HOST_2D then
    match decode_fields TransferToHost2D_widths page with
    | [_; _; _; _; _; x; y; w; h; o; id; _] => Some (Transfer (mkRect x y w h) o id)
    | _ => None
    end
  else if t =? Command.RESOURCE_FLUSH then
    match decode_fields ResourceFlush_widths page with
    | [_; _; _; _; _; x; y; w; h; id; _] => Some (Flush (mkRect x y w h) id)
    | _ => None
    end
  else None.

(** The display and the commands that were accepted, the last first. *)
Record GpuDev := mkGpuDev { g_rect : Rect; g_log : list Cmd }.

(** The size of a resource, and whether it has memory. *)
Fixpoint resource (log : list Cmd) (id : Z) : option (Z * Z) :=
  match log with
  | [] => None
  | Create2D id' _ w h :: log => if id' =? id then Some (w, h) else resource log id
  | _ :: log => resource log id
  end.
Fixpoint backing (log : list Cmd) (id : Z) : option (Z * Z) :=
  match log with
  | [] => None
  | AttachBacking id' _ a l :: log => if id' =? id then Some (a, l) else backing log id
  | _ :: log => backing log id
  end.

Definition inside (r : Rect) (size : option (Z * Z)) : bool :=
  match size with
  | Some (w, h) => (rect_x r + width r <=? w) && (rect_y r + height r <=? h)
  | None => false
  end.

(** Resources are created once; commands that use one need it, and their rectangle is inside. *)
Definition accepts (log : list Cmd) (c : Cmd) : bool :=
  match c with
  | GetDisplayInfo => true
  | Create2D id _ _ _ => negb (id =? 0) && bool_decide (resource log id = None)
  | AttachBacking id _ _ _ => bool_decide (is_Some (resource log id)) && bool_decide (backing log id = None)
  | SetScanout r _ id => inside r (resource log id)
  | Transfer r _ id => inside r (resource log id) && bool_decide (is_Some (backing log id))
  | Flush r id => inside r (resource log id)
  end.

Definition response (d : GpuDev) (c : Cmd) : list Z :=
  match c with
  | GetDisplayInfo => encode_fields RespDisplayInfo_widths
      (CtrlHeader_fields (with_type Command.OK_DISPLAY_INFO) ++ Rect_fields (g_rect d) ++ [1; 0])
  | _ => encode_fields CtrlHeader_widths (CtrlHeader_fields (with_type Command.OK_NODATA))
  end.
Definition error_response : list Z :=
  encode_fields CtrlHeader_widths (CtrlHeader_fields (with_type Command.ERR_UNSPEC)).

Definition gpu_serve (d : GpuDev) (rs : list (list Z)) (ls : list Z) : GpuDev * list (list Z) * Z :=
  let '(d', resp) :=
    match decode_cmd (mjoin rs) with
    | Some c => if accepts (g_log d) c then (mkGpuDev (g_rect d) (c :: g_log d), response d c)
                else (d, error_response)
    | None => (d, error_response)
    end in
  (d', (λ n, fit n resp) <$> ls, Z.of_nat (length resp)).

Lemma gpu_serve_lengths d rs ls : length <$> (gpu_serve d rs ls).1.2 = Z.to_nat <$> ls.
Proof.
  unfold gpu_serve. destruct (match decode_cmd _ with Some _ => _ | None => _ end) as [d' resp]. simpl.
  rewrite <- list_fmap_compose. apply list_fmap_ext. intros. simpl. by rewrite fit_length.
Qed.

(** ** What the driver sends is what the device decodes *)
Definition rect_ok (r : Rect) : Prop :=
  fits 32 (rect_x r) ∧ fits 32 (rect_y r) ∧ fits 32 (width r) ∧ fits 32 (height r).

Ltac rect_fields := unfold rect_ok, fits in *; fields.

(** Decodes a command that was encoded with the widths [ws] and the type [t]. *)
Ltac decodes ws t :=
  intros; unfold decode_cmd; cbv zeta;
  rewrite (first_word ws _ t) by done; simpl Z.eqb; cbv iota;
  rewrite (decode_encode ws) by (simpl; rect_fields); reflexivity.

Lemma decode_info rest :
  decode_cmd (encode_fields CtrlHeader_widths (CtrlHeader_fields (with_type Command.GET_DISPLAY_INFO)) ++ rest) =
  Some GetDisplayInfo.
Proof. unfold decode_cmd. cbv zeta. by rewrite (first_word CtrlHeader_widths _ Command.GET_DISPLAY_INFO). Qed.

Lemma decode_create id w h rest : fits 32 id → fits 32 w → fits 32 h →
  decode_cmd (ResourceCreate2D_as_bytes id w h ++ rest) = Some (Create2D id B8G8R8A8UNORM w h).
Proof. unfold ResourceCreate2D_as_bytes. decodes ResourceCreate2D_widths Command.RESOURCE_CREATE_2D. Qed.

Lemma decode_attach id n a l rest : fits 32 id → fits 32 n → fits 64 a → fits 32 l →
  decode_cmd (ResourceAttachBacking_as_bytes id n a l ++ rest) = Some (AttachBacking id n a l).
Proof. unfold ResourceAttachBacking_as_bytes. decodes ResourceAttachBacking_widths Command.RESOURCE_ATTACH_BACKING. Qed.

Lemma decode_scanout r s id rest : rect_ok r → fits 32 s → fits 32 id →
  decode_cmd (SetScanout_as_bytes r s id ++ rest) = Some (SetScanout r s id).
Proof. destruct r. unfold SetScanout_as_bytes. decodes SetScanout_widths Command.SET_SCANOUT. Qed.

Lemma decode_transfer r o id rest : rect_ok r → fits 64 o → fits 32 id →
  decode_cmd (TransferToHost2D_as_bytes r o id ++ rest) = Some (Transfer r o id).
Proof. destruct r. unfold TransferToHost2D_as_bytes. decodes TransferToHost2D_widths Command.TRANSFER_TO_HOST_2D. Qed.

Lemma decode_flush r id rest : rect_ok r → fits 32 id →
  decode_cmd (ResourceFlush_as_bytes r id ++ rest) = Some (Flush r id).
Proof. destruct r. unfold ResourceFlush_as_bytes. decodes ResourceFlush_widths Command.RESOURCE_FLUSH. Qed.

Lemma info_decodes d : rect_ok (g_rect d) →
  RespDisplayInfo_from (take (struct_size RespDisplayInfo_widths) (fit PAGE_SIZE (response d GetDisplayInfo))) =
  Some (mkRespDisplayInfo (with_type Command.OK_DISPLAY_INFO) (g_rect d) 1 0).
Proof.
  intros Hr. change (struct_size RespDisplayInfo_widths) with (length (response d GetDisplayInfo)).
  rewrite take_fit by done.
  unfold RespDisplayInfo_from, response. rewrite <- (app_nil_r (encode_fields _ _)).
  destruct d as [[x y w h] log]. rewrite decode_encode by (simpl; rect_fields). done.
Qed.

(** ** The driver *)
Section gpu.
Context {N : nat} {T W : Type} `{Server QUEUE_SIZE N QUEUE_TRANSMIT T W GpuDev} `{Profile} (fuel : nat).
Context (Hproto : ∀ d rs ls, serve d rs ls = gpu_serve d rs ls) (Hfuel : (N < fuel)%nat).
Implicit Types (g : VirtIOGpu T) (w : W).

Definition send_page g : Slice := mkSlice (queue_buf_send g) PAGE_SIZE.
Definition recv_page g : Slice := mkSlice (queue_buf_recv g) PAGE_SIZE.

(** The driver between requests. *)
Record gpu_ok g w (rest : list Res) : Prop := {
  gk_idle : idle QUEUE_SIZE (control_queue g) w rest;
  gk_idx : VQ.queue_idx (control_queue g) = QUEUE_TRANSMIT;
  gk_tok : tok (transport g);
  gk_send : user_buffer (send_page g);
  gk_recv : user_buffer (recv_page g)
}.

(** What a request leaves of the driver. *)
Definition same_gpu g g' : Prop :=
  rect g' = rect g ∧ frame_buffer_dma g' = frame_buffer_dma g ∧ cursor_buffer_dma g' = cursor_buffer_dma g ∧
  cursor_queue g' = cursor_queue g ∧ queue_buf_send g' = queue_buf_send g ∧ queue_buf_recv g' = queue_buf_recv g.

(** The memory outside the two pages. *)
Definition pages_only g w w' : Prop :=
  ∀ x, own x → ¬ in_slice (send_page g) x → ¬ in_slice (recv_page g) x → byte_at w' x = byte_at w x.

Lemma gpu_request_run {A} req size (from : list Z → option A) g w rest : gpu_ok g w rest →
  Z.of_nat (length req) ≤ PAGE_SIZE → Z.of_nat size ≤ PAGE_SIZE → ∃ stale resp len g' w',
  serve (dstate w) [req ++ stale] [PAGE_SIZE] = (dstate w', [resp], len) ∧
  gpu_ok g' w' rest ∧ same_gpu g g' ∧ pages_only g w w' ∧
  ∀ a, from (take size resp) = Some a → request fuel req size from (g, w) = (Val (Ok a), (g', w')).
Proof.
  intros [Hid Hix Htk Hus Hur] Hreq Hsize.
  destruct (mem_write_spec (queue_buf_send g) req w) as (w1 & E1 & _).
  destruct (write_bytes w w1 (send_page g) req Hreq E1) as [B1 M1].
  destruct (write_quiet _ _ _ _ _ E1) as [D1 P1].
  destruct (user_run (SIZE := QUEUE_SIZE) eq_refl fuel (control_queue g) (transport g) w1 rest [send_page g] [recv_page g])
    as (len & q' & t' & w' & E & Hid' & Htk' & _ & Hix' & Es & Hm); try done.
  { by apply (idle_held _ w). }
  { constructor; [done|by constructor]. }
  exists (skipn (length req) (bytes_of w (send_page g))), (bytes_of w' (recv_page g)), len,
    (mkVirtIOGpu t' (rect g) (frame_buffer_dma g) (cursor_buffer_dma g) q' (cursor_queue g) (queue_buf_send g) (queue_buf_recv g)), w'.
  split_and!; try done.
  - rewrite <- D1, <- B1. exact Es.
  - intros x Hx Hs Hr. rewrite Hm by (try done; by intros b ->%list_elem_of_singleton). by apply M1.
  - intros a Ha. unfold request, write_request. erewrite bind_val.
    2:{ mstep. cbn [fst]. rewrite (proj2 (Z.leb_le _ _)) by done. mstep. apply on_snd_val. exact E1. }
    mstep. cbn [fst]. erewrite try_ok by (apply zoom_val; exact E). cbn.
    erewrite bind_val by (apply on_snd_val, mem_read_spec).
    fold (bytes_of w' (mkSlice (queue_buf_recv g) (Z.of_nat size))).
    rewrite (bytes_of_take _ _ PAGE_SIZE), Nat2Z.id by lia. fold (recv_page g). rewrite Ha. done.
Qed.

(** A command that is answered by a header. *)
Lemma header_run req c g w rest : gpu_ok g w rest → Z.of_nat (length req) ≤ PAGE_SIZE →
  (∀ stale, decode_cmd (req ++ stale) = Some c) → c ≠ GetDisplayInfo → ∃ g' w',
  request_header fuel req (g, w) = (Val (if accepts (g_log (dstate w)) c then Ok tt else Err IoError), (g', w')) ∧
  gpu_ok g' w' rest ∧ same_gpu g g' ∧ pages_only g w w' ∧
  dstate w' = (if accepts (g_log (dstate w)) c then mkGpuDev (g_rect (dstate w)) (c :: g_log (dstate w)) else dstate w).
Proof.
  intros Hg Hreq Hd Hc.
  destruct (gpu_request_run req (struct_size CtrlHeader_widths) CtrlHeader_from g w rest Hg Hreq ltac:(done))
    as (stale & resp & len & g' & w' & Es & Hg' & Hs & Hp & Hrun).
  rewrite Hproto in Es. unfold gpu_serve in Es. cbn [mjoin list_join] in Es. rewrite app_nil_r, Hd in Es.
  exists g', w'. unfold request_header.
  destruct (accepts (g_log (dstate w)) c); injection Es as Ed Er El.
  - erewrite try_ok; [|apply (Hrun (with_type Command.OK_NODATA)); rewrite <- Er; by destruct c].
    split_and!; try done.
  - erewrite try_ok; [|apply (Hrun (with_type Command.ERR_UNSPEC)); by rewrite <- Er].
    split_and!; try done.
Qed.

Lemma info_run g w rest : gpu_ok g w rest → rect_ok (g_rect (dstate w)) → ∃ info g' w',
  get_display_info fuel (g, w) = (Val (Ok info), (g', w')) ∧ rect_ info = g_rect (dstate w) ∧
  gpu_ok g' w' rest ∧ same_gpu g g' ∧ pages_only g w w' ∧
  dstate w' = mkGpuDev (g_rect (dstate w)) (GetDisplayInfo :: g_log (dstate w)).
Proof.
  intros Hg Hr.
  destruct (gpu_request_run (encode_fields CtrlHeader_widths (CtrlHeader_fields (with_type Command.GET_DISPLAY_INFO)))
    (struct_size RespDisplayInfo_widths) RespDisplayInfo_from g w rest Hg ltac:(done) ltac:(done))
    as (stale & resp & len & g' & w' & Es & Hg' & Hs & Hp & Hrun).
  rewrite Hproto in Es. unfold gpu_serve in Es. cbn [mjoin list_join] in Es. rewrite app_nil_r, decode_info in Es.
  pose proof (f_equal (λ x, x.1.1) Es) as Ed. pose proof (f_equal (λ x, nth 0 x.1.2 []) Es) as Er.
  cbn [fst snd nth fmap list_fmap] in Ed, Er.
  exists (mkRespDisplayInfo (with_type Command.OK_DISPLAY_INFO) (g_rect (dstate w)) 1 0), g', w'.
  unfold get_display_info. erewrite try_ok by (apply Hrun; rewrite <- Er; by apply info_decodes).
  split_and!; done.
Qed.

Lemma accepted_run req c g w rest d : dstate w = d → accepts (g_log d) c = true → gpu_ok g w rest →
  Z.of_nat (length req) ≤ PAGE_SIZE → (∀ stale, decode_cmd (req ++ stale) = Some c) → c ≠ GetDisplayInfo → ∃ g' w',
  request_header fuel req (g, w) = (Val (Ok tt), (g', w')) ∧ gpu_ok g' w' rest ∧ same_gpu g g' ∧
  dstate w' = mkGpuDev (g_rect d) (c :: g_log d).
Proof.
  intros <- Ha Hg Hl Hd Hc. destruct (header_run req c g w rest Hg Hl Hd Hc) as (g' & w' & E & Hg' & Hs & _ & D).
  rewrite Ha in E, D. by exists g', w'.
Qed.

(** Allocating a DMA region for at most 2{^32} bytes. *)
Definition dma_quiet : Prop := ∀ n w, 0 ≤ n ≤ 2 ^ 20 → ∃ pa va w',
  dma_alloc n DriverToDevice w = (Val (pa, va), w') ∧ 0 < pa < 2 ^ 64 ∧ 0 < va ∧ va + n * PAGE_SIZE < 2 ^ 64 ∧
  held w' ≡ₚ held w ∧ dstate w' = dstate w.

Lemma gpu_ok_world g w w' rest : gpu_ok g w rest → held w' ≡ₚ held w → gpu_ok g w' rest.
Proof. intros [? ? ? ? ?] Hp. split; try done. by apply (idle_held _ w). Qed.

Lemma gpu_ok_set g w rest g' : gpu_ok g w rest → transport g' = transport g → control_queue g' = control_queue g →
  queue_buf_send g' = queue_buf_send g → queue_buf_recv g' = queue_buf_recv g → gpu_ok g' w rest.
Proof.
  intros [? ? ? ? ?] Ht Hq Hs Hr. split; rewrite ?Ht, ?Hq; try done; unfold send_page, recv_page in *;
    by rewrite ?Hs, ?Hr.
Qed.

(** The frame buffer of a display. *)
Definition fb_log (d : GpuDev) (pa size : Z) : list Cmd :=
  SetScanout (g_rect d) SCANOUT_ID RESOURCE_ID_FB :: AttachBacking RESOURCE_ID_FB 1 pa size ::
  Create2D RESOURCE_ID_FB B8G8R8A8UNORM (width (g_rect d)) (height (g_rect d)) :: GetDisplayInfo :: g_log d.

Definition display_ok (d : GpuDev) : Prop :=
  rect_ok (g_rect d) ∧ rect_x (g_rect d) = 0 ∧ rect_y (g_rect d) = 0 ∧
  0 < width (g_rect d) * height (g_rect d) * 4 < 2 ^ 32 ∧
  resource (g_log d) RESOURCE_ID_FB = None ∧ backing (g_log d) RESOURCE_ID_FB = None.

Lemma pages_bound size : 0 < size < 2 ^ 32 → 0 < pages size ≤ 2 ^ 20 ∧ size ≤ pages size * PAGE_SIZE.
Proof.
  intros Hs. pose proof (pages_bounds size ltac:(lia)) as (? & ? & ?). unfold PAGE_SIZE in *. lia.
Qed.

Lemma or_free_ok {A B} d (c : M (VirtIOGpu T * W) (Result A)) (k : A → M _ (Result B)) s a s' :
  c s = (Val (Ok a), s') → or_free d c k s = k a s'.
Proof. intros E. unfold or_free. by erewrite bind_val by exact E. Qed.

Lemma dma_slice_run {S} (d : Dma) (s : S) : 0 < Dma.dma_vaddr d → 0 < Dma.dma_pages d →
  Dma.dma_vaddr d + Dma.dma_pages d * PAGE_SIZE < 2 ^ 64 →
  Dma.raw_slice d s = (Val (mkSlice (Dma.dma_vaddr d) (Dma.dma_pages d * PAGE_SIZE)), s).
Proof.
  intros Hv Hp Hs. unfold Dma.raw_slice, Dma.vaddr, mul_u, add_u.
  assert (fits 64 (Dma.dma_pages d * PAGE_SIZE)) as Hf by (unfold fits, PAGE_SIZE in *; lia).
  erewrite bind_val.
  2:{ erewrite bind_val by (by apply arith_fits). rewrite (proj2 (Z.ltb_lt _ _)) by (unfold PAGE_SIZE; lia). mstep.
      rewrite Z.add_0_r. erewrite bind_val by (apply arith_fits; unfold fits, PAGE_SIZE in *; lia).
      rewrite (proj2 (Z.eqb_neq _ 0)) by lia. reflexivity. }
  by erewrite bind_val by (by apply arith_fits).
Qed.

Lemma setup_run g w rest : gpu_ok g w rest → frame_buffer_dma g = None → dma_quiet → display_ok (dstate w) → ∃ pa va g' w',
  let size := width (g_rect (dstate w)) * height (g_rect (dstate w)) * 4 in
  setup_framebuffer fuel (g, w) = (Val (Ok (mkSlice va (pages size * PAGE_SIZE))), (g', w')) ∧ gpu_ok g' w' rest ∧
  size ≤ pages size * PAGE_SIZE ∧ rect g' = Some (g_rect (dstate w)) ∧
  frame_buffer_dma g' = Some (Dma.mkDma pa va (pages size)) ∧
  dstate w' = mkGpuDev (g_rect (dstate w)) (fb_log (dstate w) pa size).
Proof.
  intros Hg Hfb Hdma (Hr & Hx & Hy & Hsize & Hres & Hback). pose proof Hr as (_ & _ & Hw & Hh).
  set (R := g_rect (dstate w)) in *. set (size := width R * height R * 4) in *.
  destruct (pages_bound size Hsize) as (Hpg & Hcover).
  destruct (info_run g w rest Hg Hr) as (info & g1 & w1 & E1 & Hi & Hg1 & S1 & _ & D1).
  pose proof (gpu_ok_set g1 w1 rest (set_rect (Some R) g1) Hg1 eq_refl eq_refl eq_refl eq_refl) as Hg1'.
  destruct (accepted_run (ResourceCreate2D_as_bytes RESOURCE_ID_FB (width R) (height R))
    (Create2D RESOURCE_ID_FB B8G8R8A8UNORM (width R) (height R)) (set_rect (Some R) g1) w1 rest _ D1) as (g2 & w2 & E2 & Hg2 & S2 & D2);
    [by cbn [accepts g_log resource]; rewrite Hres|exact Hg1'|done|intros; by apply decode_create|done|].
  destruct (Hdma (pages size) w2 ltac:(lia)) as (pa & va & w3 & E3 & Hpa & Hva & Hvs & Hp3 & D3).
  pose proof (gpu_ok_world g2 w2 w3 rest Hg2 Hp3) as Hg3. rewrite D2 in D3.
  destruct (accepted_run (ResourceAttachBacking_as_bytes RESOURCE_ID_FB 1 pa size) (AttachBacking RESOURCE_ID_FB 1 pa size)
    g2 w3 rest _ D3) as (g4 & w4 & E4 & Hg4 & S4 & D4);
    [by cbn [accepts g_log backing resource]; rewrite Hback|done|done|intros; apply decode_attach; unfold fits; lia || done|done|].
  destruct (accepted_run (SetScanout_as_bytes R SCANOUT_ID RESOURCE_ID_FB) (SetScanout R SCANOUT_ID RESOURCE_ID_FB)
    g4 w4 rest _ D4) as (g5 & w5 & E5 & Hg5 & S5 & D5);
    [|done|done|intros; by apply decode_scanout|done|].
  { cbn [accepts g_log resource]. rewrite Z.eqb_refl. cbn [inside]. rewrite Hx, Hy. by rewrite !(proj2 (Z.leb_le _ _)) by lia. }
  exists pa, va, (set_frame_buffer (Some (Dma.mkDma pa va (pages size))) g5), w5. cbv zeta.
  unfold same_gpu in *. split_and!; try done; [|by apply (gpu_ok_set g5)|cbn; naive_solver congruence].
  assert (frame_buffer_dma g5 = None) as Hfb5 by (cbn in S2; naive_solver congruence).
  unfold setup_framebuffer. erewrite try_ok by exact E1. rewrite Hi. mstep. fold R. unfold mul_u.
  erewrite bind_val by (apply arith_fits; unfold fits in *; subst size; nia).
  erewrite bind_val by (apply arith_fits; unfold fits in *; subst size; lia). fold size.
  erewrite try_ok.
  2:{ apply on_snd_val. unfold Dma.new. erewrite bind_val by exact E3. cbv beta iota. by rewrite (proj2 (Z.eqb_neq pa 0)) by lia. }
  erewrite or_free_ok by exact E4. erewrite or_free_ok by exact E5.
  erewrite bind_val by (apply dma_slice_run; cbn; unfold fits, PAGE_SIZE in *; lia).
  mstep. cbn [fst snd]. rewrite Hfb5. mstep. done.
Qed.

Lemma flush_run g w rest r pa size : gpu_ok g w rest → rect g = Some r → rect_ok r →
  inside r (resource (g_log (dstate w)) RESOURCE_ID_FB) = true →
  backing (g_log (dstate w)) RESOURCE_ID_FB = Some (pa, size) → ∃ g' w',
  flush fuel (g, w) = (Val (Ok tt), (g', w')) ∧ gpu_ok g' w' rest ∧
  dstate w' = mkGpuDev (g_rect (dstate w)) (Flush r RESOURCE_ID_FB :: Transfer r 0 RESOURCE_ID_FB :: g_log (dstate w)).
Proof.
  intros Hg Hr Hrok Hin Hback.
  destruct (accepted_run (TransferToHost2D_as_bytes r 0 RESOURCE_ID_FB) (Transfer r 0 RESOURCE_ID_FB) g w rest _ eq_refl)
    as (g1 & w1 & E1 & Hg1 & _ & D1);
    [cbn [accepts]; by rewrite Hin, Hback|done|done|intros; by apply decode_transfer|done|].
  destruct (accepted_run (ResourceFlush_as_bytes r RESOURCE_ID_FB) (Flush r RESOURCE_ID_FB) g1 w1 rest _ D1)
    as (g2 & w2 & E2 & Hg2 & _ & D2); [done|done|done|intros; by apply decode_flush|done|].
  exists g2, w2. split_and!; try done. unfold flush. mstep. cbn [fst]. rewrite Hr.
  unfold transfer_to_host_2d. erewrite try_ok by exact E1. unfold resource_flush. by erewrite try_ok by exact E2.
Qed.

(** C22. Setting up the frame buffer of a display: the device creates a resource of the size of the
    display, gets the memory that the program is given as its backing, of at least four bytes for
    each pixel, and shows it; the driver keeps the memory. A flush then transfers the whole frame
    buffer and shows it. Before the set-up there is nothing to flush. *)
Theorem gpu_framebuffer g w rest : gpu_ok g w rest → frame_buffer_dma g = None → rect g = None → dma_quiet →
  display_ok (dstate w) → ∃ pa va g1 w1 g2 w2,
  let d := dstate w in
  let size := width (g_rect d) * height (g_rect d) * 4 in
  flush fuel (g, w) = (Val (Err NotReady), (g, w)) ∧
  setup_framebuffer fuel (g, w) = (Val (Ok (mkSlice va (pages size * PAGE_SIZE))), (g1, w1)) ∧
  size ≤ pages size * PAGE_SIZE ∧ frame_buffer_dma g1 = Some (Dma.mkDma pa va (pages size)) ∧
  dstate w1 = mkGpuDev (g_rect d) (fb_log d pa size) ∧
  flush fuel (g1, w1) = (Val (Ok tt), (g2, w2)) ∧ gpu_ok g2 w2 rest ∧
  dstate w2 = mkGpuDev (g_rect d)
    (Flush (g_rect d) RESOURCE_ID_FB :: Transfer (g_rect d) 0 RESOURCE_ID_FB :: fb_log d pa size).
Proof.
  intros Hg Hfb Hrect Hdma Hd.
  destruct (setup_run g w rest Hg Hfb Hdma Hd) as (pa & va & g1 & w1 & E1 & Hg1 & Hsz & Hr1 & Hf1 & D1).
  destruct Hd as (Hr & Hx & Hy & _).
  destruct (flush_run g1 w1 rest (g_rect (dstate w)) pa (width (g_rect (dstate w)) * height (g_rect (dstate w)) * 4))
    as (g2 & w2 & E2 & Hg2 & D2); try done.
  { rewrite D1. cbn [g_log fb_log resource]. rewrite Z.eqb_refl. cbn [inside]. rewrite Hx, Hy.
    by rewrite !(proj2 (Z.leb_le _ _)) by lia. }
  { rewrite D1. cbn [g_log fb_log backing]. by rewrite Z.eqb_refl. }
  rewrite D1 in D2. exists pa, va, g1, w1, g2, w2. cbv zeta. split_and!; try done.
  unfold flush. mstep. cbn [fst]. by rewrite Hrect.
Qed.
End gpu.

(** ** A display in the laboratory *)
Section witnesses.
Import Bench Lab FakeTransport.
Abbreviation Screen := (Lab GpuDev).

#[local] Instance gpu_device : Device Screen := lab_device (λ _, gpu_serve).
#[local] Instance gpu_server : Server QUEUE_SIZE 1 QUEUE_TRANSMIT FakeTransport Screen GpuDev :=
  lab_server (λ _, gpu_serve) QUEUE_SIZE QUEUE_TRANSMIT eq_refl (Z.le_refl _) gpu_serve_lengths.

Lemma gpu_serves d rs ls : serve d rs ls = gpu_serve d rs ls.
Proof. done. Qed.

Definition screen0 : GpuDev := mkGpuDev (mkRect 0 0 640 480) [].
Definition gpu0 : VirtIOGpu FakeTransport :=
  mkVirtIOGpu (transport0 GPU 2) None None None (indirect0 QUEUE_SIZE QUEUE_TRANSMIT) (queue0 QUEUE_SIZE QUEUE_CURSOR)
    65536 131072.

Lemma gpu0_ok : gpu_ok gpu0 (lab0 screen0) [].
Proof. split; [by apply queue0_idle|done|done|by apply low_user|by apply low_user]. Qed.

Lemma lab_dma_quiet : dma_quiet (W := Screen).
Proof. intros n w Hn. exists (2 ^ 40), (2 ^ 40), w. unfold PAGE_SIZE. split_and!; try done; lia. Qed.

Lemma gpu_framebuffer_witness : ∃ pa va g1 w1 g2 w2,
  flush 2 (gpu0, lab0 screen0) = (Val (Err NotReady), (gpu0, lab0 screen0)) ∧
  setup_framebuffer 2 (gpu0, lab0 screen0) = (Val (Ok (mkSlice va (300 * PAGE_SIZE))), (g1, w1)) ∧
  1228800 ≤ 300 * PAGE_SIZE ∧ frame_buffer_dma g1 = Some (Dma.mkDma pa va 300) ∧
  dstate w1 = mkGpuDev (mkRect 0 0 640 480) (fb_log screen0 pa 1228800) ∧
  flush 2 (g1, w1) = (Val (Ok tt), (g2, w2)) ∧ gpu_ok g2 w2 [] ∧
  dstate w2 = mkGpuDev (mkRect 0 0 640 480) (Flush (mkRect 0 0 640 480) RESOURCE_ID_FB ::
    Transfer (mkRect 0 0 640 480) 0 RESOURCE_ID_FB :: fb_log screen0 pa 1228800).
Proof.
  apply (gpu_framebuffer 2 gpu_serves (le_n 2) gpu0 (lab0 screen0) []);
    [exact gpu0_ok|done|done|exact lab_dma_quiet|by repeat split].
Defined.
End witnesses.
