(* ===== verification/Sound.v ===== *)
(** * The sound driver

    [src/src/device/sound.rs]: [VirtIOSound] and the structures of its protocol. [queue_buf_send]
    and [queue_buf_recv] are the addresses of boxed pages; the vectors and boxes kept for the
    transfers in flight are addresses too. A structure that contains others is flattened into the
    list of its fields. Logging is left out. *)

From S2P Require Import Prelude Base Transport QueueData Queue DeviceQueue Owning Bytes Driver.

Module Sound.

Definition QUEUE_SIZE : Z := 32.
Definition CONTROL_QUEUE_IDX : Z := 0.
Definition EVENT_QUEUE_IDX : Z := 1.
Definition TX_QUEUE_IDX : Z := 2.
Definition RX_QUEUE_IDX : Z := 3.
Definition SUPPORTED_FEATURES : Z :=
  Z.lor (Z.lor Feature.RING_INDIRECT_DESC Feature.RING_EVENT_IDX) Feature.VERSION_1.
Definition VIRTIO_SND_D_OUTPUT : Z := 0.
Definition VIRTIO_SND_D_INPUT : Z := 1.

(** [JackFeatures]. *)
Module JackFeatures.
Definition REMAP : Z := Z.shiftl 1 0.
End JackFeatures.

Module PcmFeatures.
Definition SHMEM_HOST : Z := Z.shiftl 1 0.
Definition SHMEM_GUEST : Z := Z.shiftl 1 1.
Definition MSG_POLLING : Z := Z.shiftl 1 2.
Definition EVT_SHMEM_PERIODS : Z := Z.shiftl 1 3.
Definition EVT_XRUNS : Z := Z.shiftl 1 4.
Definition all : list Z := [SHMEM_HOST; SHMEM_GUEST; MSG_POLLING; EVT_SHMEM_PERIODS; EVT_XRUNS].
End PcmFeatures.

(** ** Sample formats *)
Module PcmFormats.
Definition IMA_ADPCM : Z := Z.shiftl 1 0.
Definition MU_LAW : Z := Z.shiftl 1 1.
Definition A_LAW : Z := Z.shiftl 1 2.
Definition S8 : Z := Z.shiftl 1 3.
Definition U8 : Z := Z.shiftl 1 4.
Definition S16 : Z := Z.shiftl 1 5.
Definition U16 : Z := Z.shiftl 1 6.
Definition S18_3 : Z := Z.shiftl 1 7.
Definition U18_3 : Z := Z.shiftl 1 8.
Definition S20_3 : Z := Z.shiftl 1 9.
Definition U20_3 : Z := Z.shiftl 1 10.
Definition S24_3 : Z := Z.shiftl 1 11.
Definition U24_3 : Z := Z.shiftl 1 12.
Definition S20 : Z := Z.shiftl 1 13.
Definition U20 : Z := Z.shiftl 1 14.
Definition S24 : Z := Z.shiftl 1 15.
Definition U24 : Z := Z.shiftl 1 16.
Definition S32 : Z := Z.shiftl 1 17.
Definition U32 : Z := Z.shiftl 1 18.
Definition FLOAT : Z := Z.shiftl 1 19.
Definition FLOAT64 : Z := Z.shiftl 1 20.
Definition DSD_U8 : Z := Z.shiftl 1 21.
Definition DSD_U16 : Z := Z.shiftl 1 22.
Definition DSD_U32 : Z := Z.shiftl 1 23.
Definition IEC958_SUBFRAME : Z := Z.shiftl 1 24.
Definition all : list Z :=
  [IMA_ADPCM; MU_LAW; A_LAW; S8; U8; S16; U16; S18_3; U18_3; S20_3; U20_3; S24_3; U24_3; S20; U20;
  S24; U24; S32; U32; FLOAT; FLOAT64; DSD_U8; DSD_U16; DSD_U32; IEC958_SUBFRAME].
End PcmFormats.

Inductive PcmFormat :=
  | ImaAdpcm | MuLaw | ALaw | S8 | U8 | S16 | U16 | S18_3 | U18_3 | S20_3 | U20_3 | S24_3 | U24_3
  | S20 | U20 | S24 | U24 | S32 | U32 | FLOAT | FLOAT64 | DsdU8 | DsdU16 | DsdU32 | Iec958Subframe.

(** [From<PcmFormat> for u8]. *)
Definition PcmFormat_as_u8 (f : PcmFormat) : Z :=
  match f with
  | ImaAdpcm => 0 | MuLaw => 1 | ALaw => 2 | S8 => 3 | U8 => 4 | S16 => 5 | U16 => 6 | S18_3 => 7
  | U18_3 => 8 | S20_3 => 9 | U20_3 => 10 | S24_3 => 11 | U24_3 => 12 | S20 => 13 | U20 => 14
  | S24 => 15 | U24 => 16 | S32 => 17 | U32 => 18 | FLOAT => 19 | FLOAT64 => 20 | DsdU8 => 21
  | DsdU16 => 22 | DsdU32 => 23 | Iec958Subframe => 24
  end.

(** [From<PcmFormat> for PcmFormats]. *)
Definition PcmFormats_from (f : PcmFormat) : Z :=
  match f with
  | ImaAdpcm => PcmFormats.IMA_ADPCM
  | MuLaw => PcmFormats.MU_LAW
  | ALaw => PcmFormats.A_LAW
  | S8 => PcmFormats.S8
  | U8 => PcmFormats.U8
  | S16 => PcmFormats.S16
  | U16 => PcmFormats.U16
  | S18_3 => PcmFormats.S18_3
  | U18_3 => PcmFormats.U18_3
  | S20_3 => PcmFormats.S20_3
  | U20_3 => PcmFormats.U20_3
  | S24_3 => PcmFormats.S24_3
  | U24_3 => PcmFormats.U24_3
  | S20 => PcmFormats.S20
  | U20 => PcmFormats.U20
  | S24 => PcmFormats.S24
  | U24 => PcmFormats.U24
  | S32 => PcmFormats.S32
  | U32 => PcmFormats.U32
  | FLOAT => PcmFormats.FLOAT
  | FLOAT64 => PcmFormats.FLOAT64
  | DsdU8 => PcmFormats.DSD_U8
  | DsdU16 => PcmFormats.DSD_U16
  | DsdU32 => PcmFormats.DSD_U32
  | Iec958Subframe => PcmFormats.IEC958_SUBFRAME
  end.

(** ** Frame rates *)
Module PcmRates.
Definition RATE_5512 : Z := Z.shiftl 1 0.
Definition RATE_8000 : Z := Z.shiftl 1 1.
Definition RATE_11025 : Z := Z.shiftl 1 2.
Definition RATE_16000 : Z := Z.shiftl 1 3.
Definition RATE_22050 : Z := Z.shiftl 1 4.
Definition RATE_32000 : Z := Z.shiftl 1 5.
Definition RATE_44100 : Z := Z.shiftl 1 6.
Definition RATE_48000 : Z := Z.shiftl 1 7.
Definition RATE_64000 : Z := Z.shiftl 1 8.
Definition RATE_88200 : Z := Z.shiftl 1 9.
Definition RATE_96000 : Z := Z.shiftl 1 10.
Definition RATE_176400 : Z := Z.shiftl 1 11.
Definition RATE_192000 : Z := Z.shiftl 1 12.
Definition RATE_384000 : Z := Z.shiftl 1 13.
Definition all : list Z :=
  [RATE_5512; RATE_8000; RATE_11025; RATE_16000; RATE_22050; RATE_32000; RATE_44100; RATE_48000;
  RATE_64000; RATE_88200; RATE_96000; RATE_176400; RATE_192000; RATE_384000].
End PcmRates.

Inductive PcmRate :=
  | Rate5512 | Rate8000 | Rate11025 | Rate16000 | Rate22050 | Rate32000 | Rate44100 | Rate48000
  | Rate64000 | Rate88200 | Rate96000 | Rate176400 | Rate192000 | Rate384000.

(** [From<PcmRate> for u8]. *)
Definition PcmRate_as_u8 (r : PcmRate) : Z :=
  match r with
  | Rate5512 => 0 | Rate8000 => 1 | Rate11025 => 2 | Rate16000 => 3 | Rate22050 => 4
  | Rate32000 => 5 | Rate44100 => 6 | Rate48000 => 7 | Rate64000 => 8 | Rate88200 => 9
  | Rate96000 => 10 | Rate176400 => 11 | Rate192000 => 12 | Rate384000 => 13
  end.

(** [From<PcmRate> for PcmRates]. *)
Definition PcmRates_from (r : PcmRate) : Z :=
  match r with
  | Rate5512 => PcmRates.RATE_5512
  | Rate8000 => PcmRates.RATE_8000
  | Rate11025 => PcmRates.RATE_11025
  | Rate16000 => PcmRates.RATE_16000
  | Rate22050 => PcmRates.RATE_22050
  | Rate32000 => PcmRates.RATE_32000
  | Rate44100 => PcmRates.RATE_44100
  | Rate48000 => PcmRates.RATE_48000
  | Rate64000 => PcmRates.RATE_64000
  | Rate88200 => PcmRates.RATE_88200
  | Rate96000 => PcmRates.RATE_96000
  | Rate176400 => PcmRates.RATE_176400
  | Rate192000 => PcmRates.RATE_192000
  | Rate384000 => PcmRates.RATE_384000
  end.

(** ** Requests, responses and events *)
Definition Config : list nat := [4; 4; 4]%nat.
Definition config_jacks : Z := field_offset Config 0.
Definition config_streams : Z := field_offset Config 1.
Definition config_chmaps : Z := field_offset Config 2.

Inductive CommandCode :=
  | RJackInfo | RJackRemap
  | RPcmInfo | RPcmSetParams | RPcmPrepare | RPcmRelease | RPcmStart | RPcmStop
  | RChmapInfo
  | EvtJackConnected | EvtJackDisconnected
  | EvtPcmPeriodElapsed | EvtPcmXrun
  | SOk | SBadMsg | SNotSupp | SIoErr.

(** [From<CommandCode> for u32] and, for the header of a request, for [VirtIOSndHdr]. *)
Definition CommandCode_as_u32 (c : CommandCode) : Z :=
  match c with
  | RJackInfo => 1 | RJackRemap => 2
  | RPcmInfo => 256 | RPcmSetParams => 257 | RPcmPrepare => 258 | RPcmRelease => 259
  | RPcmStart => 260 | RPcmStop => 261
  | RChmapInfo => 512
  | EvtJackConnected => 4096 | EvtJackDisconnected => 4097
  | EvtPcmPeriodElapsed => 4352 | EvtPcmXrun => 4353
  | SOk => 32768 | SBadMsg => 32769 | SNotSupp => 32770 | SIoErr => 32771
  end.

Module ItemInformationRequestType.
Inductive ItemInformationRequestType := RJackInfo | RPcmInfo | RChmapInfo.
Definition as_u32 (t : ItemInformationRequestType) : Z :=
  match t with RJackInfo => 1 | RPcmInfo => 256 | RChmapInfo => 512 end.
End ItemInformationRequestType.
Module ItemType := ItemInformationRequestType.

Module RequestStatusCode.
Inductive RequestStatusCode := Ok | BadMsg | NotSupp | IoErr.
Definition as_u32 (c : RequestStatusCode) : Z :=
  match c with Ok => 32768 | BadMsg => 32769 | NotSupp => 32770 | IoErr => 32771 end.
End RequestStatusCode.

(** A header of a request, or of a response that is nothing else. *)
Definition VirtIOSndHdr_widths : list nat := [4]%nat.
Definition VirtIOSndHdr_size : Z := Z.of_nat (struct_size VirtIOSndHdr_widths).

Definition VirtIOSndEvent_widths : list nat := [4; 4]%nat.
Definition VirtIOSndEvent_size : Z := Z.of_nat (struct_size VirtIOSndEvent_widths).

Inductive NotificationType := JackConnected | JackDisconnected | PcmPeriodElapsed | PcmXrun.
(** [NotificationType::n]. *)
Definition NotificationType_n (value : Z) : option NotificationType :=
  if value =? 4352 then Some PcmPeriodElapsed
  else if value =? 4353 then Some PcmXrun
  else if value =? 4096 then Some JackConnected
  else if value =? 4097 then Some JackDisconnected
  else None.
Record Notification := mkNotification { notification_type : NotificationType; data : Z }.

Definition VirtIOSndQueryInfo_widths : list nat := [4; 4; 4; 4]%nat.
Definition VirtIOSndQueryInfo_as_bytes (hdr start_id count size : Z) : list Z :=
  encode_fields VirtIOSndQueryInfo_widths [hdr; start_id; count; size].

Record VirtIOSndJackInfo := mkJackInfo {
  ji_hda_fn_nid : Z; ji_features : Z; ji_hda_reg_defconf : Z; ji_hda_reg_caps : Z;
  ji_connected : Z; ji_padding : list Z
}.
Definition VirtIOSndJackInfo_widths : list nat := ([4; 4; 4; 4; 1] ++ replicate 7 1)%nat.
(** [read_from_bytes], of as many bytes as the structure has. *)
Definition VirtIOSndJackInfo_from (bytes : list Z) : option VirtIOSndJackInfo :=
  match decode_fields VirtIOSndJackInfo_widths bytes with
  | n :: f :: d :: c :: k :: padding => Some (mkJackInfo n f d c k padding)
  | _ => None
  end.

Record VirtIOSndPcmInfo := mkPcmInfo {
  pi_hda_fn_nid : Z; pi_features : Z; pi_formats : Z; pi_rates : Z; pi_direction : Z;
  pi_channels_min : Z; pi_channels_max : Z; pi_padding : list Z
}.
Definition VirtIOSndPcmInfo_widths : list nat := ([4; 4; 8; 8; 1; 1; 1] ++ replicate 5 1)%nat.
Definition VirtIOSndPcmInfo_from (bytes : list Z) : option VirtIOSndPcmInfo :=
  match decode_fields VirtIOSndPcmInfo_widths bytes with
  | n :: f :: o :: r :: d :: a :: b :: padding => Some (mkPcmInfo n f o r d a b padding)
  | _ => None
  end.

Definition VIRTIO_SND_CHMAP_MAX_SIZE : nat := 18.
Record VirtIOSndChmapInfo := mkChmapInfo {
  ci_hda_fn_nid : Z; ci_direction : Z; ci_channels : Z; ci_positions : list Z
}.
Definition VirtIOSndChmapInfo_widths : list nat :=
  ([4; 1; 1] ++ replicate VIRTIO_SND_CHMAP_MAX_SIZE 1)%nat.
Definition VirtIOSndChmapInfo_from (bytes : list Z) : option VirtIOSndChmapInfo :=
  match decode_fields VirtIOSndChmapInfo_widths bytes with
  | n :: d :: c :: positions => Some (mkChmapInfo n d c positions)
  | _ => None
  end.

(** [as_bytes] of the three. *)
Definition JackInfo_as_bytes (j : VirtIOSndJackInfo) : list Z :=
  encode_fields VirtIOSndJackInfo_widths
    (ji_hda_fn_nid j :: ji_features j :: ji_hda_reg_defconf j :: ji_hda_reg_caps j :: ji_connected j :: ji_padding j).
Definition PcmInfo_as_bytes (i : VirtIOSndPcmInfo) : list Z :=
  encode_fields VirtIOSndPcmInfo_widths
    (pi_hda_fn_nid i :: pi_features i :: pi_formats i :: pi_rates i :: pi_direction i :: pi_channels_min i ::
     pi_channels_max i :: pi_padding i).
Definition ChmapInfo_as_bytes (c : VirtIOSndChmapInfo) : list Z :=
  encode_fields VirtIOSndChmapInfo_widths (ci_hda_fn_nid c :: ci_direction c :: ci_channels c :: ci_positions c).

Definition VirtIOSndJackRemap_widths : list nat := [4; 4; 4; 4]%nat.
Definition VirtIOSndJackRemap_as_bytes (hdr jack_id association sequence : Z) : list Z :=
  encode_fields VirtIOSndJackRemap_widths [hdr; jack_id; association; sequence].

Definition VirtIOSndPcmHdr_widths : list nat := [4; 4]%nat.
Definition VirtIOSndPcmHdr_as_bytes (hdr stream_id : Z) : list Z :=
  encode_fields VirtIOSndPcmHdr_widths [hdr; stream_id].

Definition VirtIOSndPcmSetParams_widths : list nat := [4; 4; 4; 4; 4; 1; 1; 1; 1]%nat.
Definition VirtIOSndPcmSetParams_as_bytes
    (hdr stream_id buffer_bytes period_bytes features channels format rate : Z) : list Z :=
  encode_fields VirtIOSndPcmSetParams_widths
    [hdr; stream_id; buffer_bytes; period_bytes; features; channels; format; rate; 0].

(** The status and the latency of a transfer. *)
Definition VirtIOSndPcmStatus_widths : list nat := [4; 4]%nat.
Definition VirtIOSndPcmStatus_size : Z := Z.of_nat (struct_size VirtIOSndPcmStatus_widths).

Record PcmParameters := mkPcmParameters {
  setup : bool; buffer_bytes : Z; period_bytes : Z; features : Z; channels : Z;
  format : PcmFormat; rate : PcmRate
}.
Definition PcmParameters_default : PcmParameters := mkPcmParameters false 0 0 0 0 ImaAdpcm Rate5512.

(** The default is [SetParams]; the code uses no other. *)
Inductive PCMState := SetParams | Prepare | Release | Start | Stop.

(** ** The driver *)
Record VirtIOSound (T : Type) := mkVirtIOSound {
  transport : T;
  control_queue : VQ.VirtQueue;
  event_queue : OwningQueue.OwningQueue;
  tx_queue : VQ.VirtQueue;
  rx_queue : VQ.VirtQueue;
  negotiated_features : Z;
  jacks : Z;
  streams : Z;
  chmaps : Z;
  pcm_infos : option (list VirtIOSndPcmInfo);
  jack_infos : option (list VirtIOSndJackInfo);
  chmap_infos : option (list VirtIOSndChmapInfo);
  queue_buf_send : Z;
  queue_buf_recv : Z;
  pcm_parameters : list PcmParameters;
  is_set_up : bool;
  token_rsp : gmap Z Z;
  pcm_states : list PCMState;
  token_buf : gmap Z Slice
}.
Arguments mkVirtIOSound {T} _ _ _ _ _ _ _ _ _ _ _ _ _ _ _ _ _ _ _.
Arguments transport {T} _.
Arguments control_queue {T} _.
Arguments event_queue {T} _.
Arguments tx_queue {T} _.
Arguments rx_queue {T} _.
Arguments negotiated_features {T} _.
Arguments jacks {T} _.
Arguments streams {T} _.
Arguments chmaps {T} _.
Arguments pcm_infos {T} _.
Arguments jack_infos {T} _.
Arguments chmap_infos {T} _.
Arguments queue_buf_send {T} _.
Arguments queue_buf_recv {T} _.
Arguments pcm_parameters {T} _.
Arguments is_set_up {T} _.
Arguments token_rsp {T} _.
Arguments pcm_states {T} _.
Arguments token_buf {T} _.

Section sound.
Context `{Profile} {W T : Type} `{Hal W} `{Allocator W} `{Mem W} `{Stack W} `{Device W}.
Context `{Transport T W}.
Context (fuel : nat).
Abbreviation St := (VirtIOSound T * W)%type.

Definition set_control (t : T) (q : VQ.VirtQueue) (s : VirtIOSound T) : VirtIOSound T :=
  mkVirtIOSound t q (event_queue s) (tx_queue s) (rx_queue s) (negotiated_features s)
    (jacks s) (streams s) (chmaps s) (pcm_infos s) (jack_infos s) (chmap_infos s)
    (queue_buf_send s) (queue_buf_recv s) (pcm_parameters s) (is_set_up s) (token_rsp s)
    (pcm_states s) (token_buf s).
Definition set_event (t : T) (q : OwningQueue.OwningQueue) (s : VirtIOSound T) : VirtIOSound T :=
  mkVirtIOSound t (control_queue s) q (tx_queue s) (rx_queue s) (negotiated_features s)
    (jacks s) (streams s) (chmaps s) (pcm_infos s) (jack_infos s) (chmap_infos s)
    (queue_buf_send s) (queue_buf_recv s) (pcm_parameters s) (is_set_up s) (token_rsp s)
    (pcm_states s) (token_buf s).
Definition set_tx (t : T) (q : VQ.VirtQueue) (s : VirtIOSound T) : VirtIOSound T :=
  mkVirtIOSound t (control_queue s) (event_queue s) q (rx_queue s) (negotiated_features s)
    (jacks s) (streams s) (chmaps s) (pcm_infos s) (jack_infos s) (chmap_infos s)
    (queue_buf_send s) (queue_buf_recv s) (pcm_parameters s) (is_set_up s) (token_rsp s)
    (pcm_states s) (token_buf s).
Definition set_jack_infos (x : option (list VirtIOSndJackInfo)) (s : VirtIOSound T) : VirtIOSound T :=
  mkVirtIOSound (transport s) (control_queue s) (event_queue s) (tx_queue s) (rx_queue s)
    (negotiated_features s) (jacks s) (streams s) (chmaps s) (pcm_infos s) x (chmap_infos s)
    (queue_buf_send s) (queue_buf_recv s) (pcm_parameters s) (is_set_up s) (token_rsp s)
    (pcm_states s) (token_buf s).
Definition set_pcm_infos (x : option (list VirtIOSndPcmInfo)) (s : VirtIOSound T) : VirtIOSound T :=
  mkVirtIOSound (transport s) (control_queue s) (event_queue s) (tx_queue s) (rx_queue s)
    (negotiated_features s) (jacks s) (streams s) (chmaps s) x (jack_infos s) (chmap_infos s)
    (queue_buf_send s) (queue_buf_recv s) (pcm_parameters s) (is_set_up s) (token_rsp s)
    (pcm_states s) (token_buf s).
Definition set_chmap_infos (x : option (list VirtIOSndChmapInfo)) (s : VirtIOSound T) : VirtIOSound T :=
  mkVirtIOSound (transport s) (control_queue s) (event_queue s) (tx_queue s) (rx_queue s)
    (negotiated_features s) (jacks s) (streams s) (chmaps s) (pcm_infos s) (jack_infos s) x
    (queue_buf_send s) (queue_buf_recv s) (pcm_parameters s) (is_set_up s) (token_rsp s)
    (pcm_states s) (token_buf s).
Definition set_pcm_parameters (x : list PcmParameters) (s : VirtIOSound T) : VirtIOSound T :=
  mkVirtIOSound (transport s) (control_queue s) (event_queue s) (tx_queue s) (rx_queue s)
    (negotiated_features s) (jacks s) (streams s) (chmaps s) (pcm_infos s) (jack_infos s)
    (chmap_infos s) (queue_buf_send s) (queue_buf_recv s) x (is_set_up s) (token_rsp s)
    (pcm_states s) (token_buf s).
Definition set_set_up (x : bool) (s : VirtIOSound T) : VirtIOSound T :=
  mkVirtIOSound (transport s) (control_queue s) (event_queue s) (tx_queue s) (rx_queue s)
    (negotiated_features s) (jacks s) (streams s) (chmaps s) (pcm_infos s) (jack_infos s)
    (chmap_infos s) (queue_buf_send s) (queue_buf_recv s) (pcm_parameters s) x (token_rsp s)
    (pcm_states s) (token_buf s).
Definition set_pcm_states (x : list PCMState) (s : VirtIOSound T) : VirtIOSound T :=
  mkVirtIOSound (transport s) (control_queue s) (event_queue s) (tx_queue s) (rx_queue s)
    (negotiated_features s) (jacks s) (streams s) (chmaps s) (pcm_infos s) (jack_infos s)
    (chmap_infos s) (queue_buf_send s) (queue_buf_recv s) (pcm_parameters s) (is_set_up s)
    (token_rsp s) x (token_buf s).
Definition set_tokens (bufs : gmap Z Slice) (rsps : gmap Z Z) (s : VirtIOSound T) : VirtIOSound T :=
  mkVirtIOSound (transport s) (control_queue s) (event_queue s) (tx_queue s) (rx_queue s)
    (negotiated_features s) (jacks s) (streams s) (chmaps s) (pcm_infos s) (jack_infos s)
    (chmap_infos s) (queue_buf_send s) (queue_buf_recv s) (pcm_parameters s) (is_set_up s) rsps
    (pcm_states s) bufs.
Definition modify_sound (f : VirtIOSound T → VirtIOSound T) : M St unit := modify (λ s, (f s.1, s.2)).

Definition control_lens : lens St (VQ.VirtQueue * (T * W)) :=
  {| view := λ s, (control_queue s.1, (transport s.1, s.2));
     update := λ a s, (set_control a.2.1 a.1 s.1, a.2.2) |}.
Definition event_lens : lens St (unit * (OwningQueue.OwningQueue * (T * W))) :=
  {| view := λ s, (tt, (event_queue s.1, (transport s.1, s.2)));
     update := λ a s, (set_event a.2.2.1 a.2.1 s.1, a.2.2.2) |}.
Definition tx_lens : lens St (VQ.VirtQueue * (T * W)) :=
  {| view := λ s, (tx_queue s.1, (transport s.1, s.2));
     update := λ a s, (set_tx a.2.1 a.1 s.1, a.2.2) |}.
Definition on_tx {A} (c : M (VQ.VirtQueue * W) A) : M St A := zoom tx_lens (zoom VQ.queue_lens c).

(** An early return of [new] drops what was created before. *)
Definition or_clean {A B} (c : M (T * W) (Result A)) (clean : M W unit) (k : A → M (T * W) (Result B))
    : M (T * W) (Result B) :=
  r ← c;
  match r with
  | Ok a => k a
  | Err e => on_snd clean;; mret (Err e)
  end.

Definition new : M (T * W) (Result (VirtIOSound T)) :=
  negotiated ←? begin_init Feature.all SUPPORTED_FEATURES;
  let new_queue idx := VQ.new QUEUE_SIZE idx (contains negotiated Feature.RING_INDIRECT_DESC)
                         (contains negotiated Feature.RING_EVENT_IDX) in
  controlq ←? new_queue CONTROL_QUEUE_IDX;
  let clean1 := OwningQueue.drop_queue controlq in
  or_clean (new_queue EVENT_QUEUE_IDX) clean1 (λ eventq,
  or_clean (with_queue eventq (OwningQueue.new QUEUE_SIZE VirtIOSndEvent_size)) clean1 (λ eventq,
  let clean2 := OwningQueue.drop VirtIOSndEvent_size eventq;; clean1 in
  or_clean (new_queue TX_QUEUE_IDX) clean2 (λ txq,
  let clean3 := OwningQueue.drop_queue txq;; clean2 in
  or_clean (new_queue RX_QUEUE_IDX) clean3 (λ rxq,
  let clean4 := OwningQueue.drop_queue rxq;; clean3 in
  or_clean (read_config 4 config_jacks) clean4 (λ jacks,
  or_clean (read_config 4 config_streams) clean4 (λ streams,
  or_clean (read_config 4 config_chmaps) clean4 (λ chmaps,
  send ← new_page;
  recv ← new_page;
  finish_init;;
  (if OwningQueue.should_notify eventq then notify EVENT_QUEUE_IDX else mret tt);;
  t ← gets fst;
  mret (Ok (mkVirtIOSound t controlq eventq txq rxq negotiated jacks streams chmaps None None None
    send recv (replicate (Z.to_nat streams) PcmParameters_default) false ∅ [] ∅))))))))).

Definition ack_interrupt : M St Z := zoom control_lens (on_snd Transport.ack_interrupt).

(** [self.event_queue.set_dev_notify(enable)]. *)
Definition enable_interrupts (enable : bool) : M St unit :=
  zoom event_lens (on_snd (zoom OwningQueue.world_lens (OwningQueue.set_dev_notify enable))).

(** The request is a local variable; the result is the code in the header of the response. *)
Definition request (req : list Z) : M St (Result Z) :=
  s ← gets fst;
  r ← on_snd (stack_slot req);
  _ ←? zoom control_lens (VQ.add_notify_wait_pop QUEUE_SIZE fuel
         [r] [mkSlice (queue_buf_recv s) PAGE_SIZE]);
  bytes ← on_snd (mem_read (mkSlice (queue_buf_recv s) VirtIOSndHdr_size));
  mret (Ok (of_le bytes)).

(** The loop that reads items [i], [i + 1], ..., [n] of them, of [widths] from the response. *)
Fixpoint read_infos {A} (widths : list nat) (from : list Z → option A) (n : nat) (i : Z) : M St (list A) :=
  match n with
  | O => mret []
  | S n =>
    let size := Z.of_nat (struct_size widths) in
    s ← gets fst;
    let start_byte := VirtIOSndHdr_size + i * size in
    let end_byte := VirtIOSndHdr_size + (i + 1) * size in
    assert (end_byte <=? PAGE_SIZE);;
    bytes ← on_snd (mem_read (mkSlice (queue_buf_recv s + start_byte) size));
    info ← unwrap (from bytes);
    infos ← read_infos widths from n (i + 1);
    mret (info :: infos)
  end.

(** The body of [jack_info], [pcm_info] and [chmap_info]: [total] items exist. *)
Definition query_info {A} (total : Z) (type : ItemType.ItemInformationRequestType)
    (widths : list nat) (from : list Z → option A) (start_id count : Z) : M St (Result (list A)) :=
  last ← add_u 32 start_id count;
  if total <? last then mret (Err IoError) else
  hdr ←? request (VirtIOSndQueryInfo_as_bytes (ItemType.as_u32 type) start_id count
           (wrap 32 (Z.of_nat (struct_size widths))));
  if negb (hdr =? RequestStatusCode.as_u32 RequestStatusCode.Ok) then mret (Err IoError) else
  infos ← read_infos widths from (Z.to_nat count) 0;
  mret (Ok infos).

Definition jack_info (jack_start_id jack_count : Z) : M St (Result (list VirtIOSndJackInfo)) :=
  s ← gets fst;
  query_info (jacks s) ItemType.RJackInfo VirtIOSndJackInfo_widths VirtIOSndJackInfo_from
    jack_start_id jack_count.
Definition pcm_info (stream_start_id stream_count : Z) : M St (Result (list VirtIOSndPcmInfo)) :=
  s ← gets fst;
  query_info (streams s) ItemType.RPcmInfo VirtIOSndPcmInfo_widths VirtIOSndPcmInfo_from
    stream_start_id stream_count.
Definition chmap_info (chmaps_start_id chmaps_count : Z) : M St (Result (list VirtIOSndChmapInfo)) :=
  s ← gets fst;
  query_info (chmaps s) ItemType.RChmapInfo VirtIOSndChmapInfo_widths VirtIOSndChmapInfo_from
    chmaps_start_id chmaps_count.

(** [if let Ok(infos) = ...], otherwise an empty vector. *)
Definition ok_or_empty {A} (r : Result (list A)) : list A :=
  match r with Ok l => l | Err _ => [] end.

Definition set_up : M St (Result unit) :=
  s ← gets fst;
  jack_infos ← jack_info 0 (jacks s);
  modify_sound (set_jack_infos (Some (ok_or_empty jack_infos)));;
  pcm_infos ←? pcm_info 0 (streams s);
  modify_sound (set_pcm_infos (Some pcm_infos));;
  chmap_infos ← chmap_info 0 (chmaps s);
  modify_sound (set_chmap_infos (Some (ok_or_empty chmap_infos)));;
  modify_sound (λ s, set_pcm_states (pcm_states s ++ replicate (Z.to_nat (streams s)) SetParams) s);;
  mret (Ok tt).

(** [if !self.set_up { self.set_up()?; self.set_up = true; }]. *)
Definition ensure_set_up : M St (Result unit) :=
  s ← gets fst;
  if is_set_up s then mret (Ok tt) else
  _ ←? set_up;
  modify_sound (set_set_up true);;
  mret (Ok tt).

Definition jack_remap (jack_id association sequence : Z) : M St (Result unit) :=
  _ ←? ensure_set_up;
  s ← gets fst;
  if jacks s =? 0 then mret (Err InvalidParam) else
  if jacks s <=? jack_id then mret (Err InvalidParam) else
  infos ← unwrap (jack_infos s);
  info ← unwrap (index infos jack_id);
  if negb (contains (ji_features info) JackFeatures.REMAP) then mret (Err Unsupported) else
  hdr ←? request (VirtIOSndJackRemap_as_bytes (CommandCode_as_u32 RJackRemap) jack_id association sequence);
  mret (if hdr =? RequestStatusCode.as_u32 RequestStatusCode.Ok then Ok tt else Err Unsupported).

Definition pcm_set_params (stream_id buffer_bytes period_bytes features channels : Z)
    (format : PcmFormat) (rate : PcmRate) : M St (Result unit) :=
  _ ←? ensure_set_up;
  if (period_bytes =? 0) || (buffer_bytes <? period_bytes) || negb (buffer_bytes mod period_bytes =? 0)
  then mret (Err InvalidParam) else
  rsp ←? request (VirtIOSndPcmSetParams_as_bytes (CommandCode_as_u32 RPcmSetParams) stream_id
           buffer_bytes period_bytes features channels (PcmFormat_as_u8 format) (PcmRate_as_u8 rate));
  if rsp =? RequestStatusCode.as_u32 RequestStatusCode.Ok then
    s ← gets fst;
    assert (stream_id <? Z.of_nat (length (pcm_parameters s)));;
    modify_sound (set_pcm_parameters (<[Z.to_nat stream_id :=
      mkPcmParameters true buffer_bytes period_bytes features channels format rate]> (pcm_parameters s)));;
    mret (Ok tt)
  else mret (Err IoError).

(** The requests of a stream without parameters. *)
Definition pcm_request (code : CommandCode) (stream_id : Z) : M St (Result unit) :=
  _ ←? ensure_set_up;
  rsp ←? request (VirtIOSndPcmHdr_as_bytes (CommandCode_as_u32 code) stream_id);
  mret (if rsp =? RequestStatusCode.as_u32 RequestStatusCode.Ok then Ok tt else Err IoError).
Definition pcm_prepare : Z → M St (Result unit) := pcm_request RPcmPrepare.
Definition pcm_release : Z → M St (Result unit) := pcm_request RPcmRelease.
Definition pcm_start : Z → M St (Result unit) := pcm_request RPcmStart.
Definition pcm_stop : Z → M St (Result unit) := pcm_request RPcmStop.

(** ** Transfers *)

(** [frames.chunks(n)]. *)
Definition chunks (frames : Slice) (n : Z) : list Slice :=
  (λ i, mkSlice (s_ptr frames + i * n) (Z.min n (s_len frames - i * n))) <$>
    seqZ 0 ((s_len frames + n - 1) / n).

(** The local variables of [pcm_xfer]. *)
Record Xfer := mkXfer {
  remaining_buffers : list Slice;
  buffers : list (option Slice);
  tokens : list Z;
  xfer_head : Z;
  xfer_tail : Z
}.
Definition Xfer_new (chunks : list Slice) : Xfer :=
  mkXfer chunks (replicate (Z.to_nat QUEUE_SIZE) None) (replicate (Z.to_nat QUEUE_SIZE) 0) 0 0.

(** [statuses[i].as_mut_bytes()]. *)
Definition status_slot (statuses : Slice) (i : Z) : Slice :=
  mkSlice (s_ptr statuses + i * VirtIOSndPcmStatus_size) VirtIOSndPcmStatus_size.

(** The next element of the arrays. *)
Definition advance (i : Z) : Z := if QUEUE_SIZE <=? i + 1 then 0 else i + 1.

(** Notifies the device of the transfers. *)
Definition notify_tx : M St unit :=
  s ← gets fst;
  if VQ.should_notify (tx_queue s) then zoom tx_lens (on_snd (notify TX_QUEUE_IDX)) else mret tt.

(** The first half of the loop's body; [None] breaks the loop. *)
Definition xfer_add (id statuses : Slice) (x : Xfer) : M St (Result (option Xfer)) :=
  n ← on_tx (VQ.available_desc QUEUE_SIZE);
  if 3 <=? n then
    match remaining_buffers x with
    | buffer :: rest =>
      token ←? on_tx (VQ.add QUEUE_SIZE [id; buffer] [status_slot statuses (xfer_head x)]);
      notify_tx;;
      mret (Ok (Some (mkXfer rest (<[Z.to_nat (xfer_head x) := Some buffer]> (buffers x))
        (<[Z.to_nat (xfer_head x) := token]> (tokens x)) (advance (xfer_head x)) (xfer_tail x))))
    | [] => mret (Ok (if xfer_head x =? xfer_tail x then None else Some x))
    end
  else mret (Ok (Some x)).

(** The second half. *)
Definition xfer_pop (id statuses : Slice) (x : Xfer) : M St (Result Xfer) :=
  s ← gets fst;
  if VQ.can_pop (tx_queue s) then
    token ← unwrap (index (tokens x) (xfer_tail x));
    buffer ← unwrap (index (buffers x) (xfer_tail x));
    buffer ← unwrap buffer;
    _ ←? on_tx (VQ.pop_used QUEUE_SIZE token [id; buffer] [status_slot statuses (xfer_tail x)]);
    status ← on_snd (mem_read (mkSlice (s_ptr (status_slot statuses (xfer_tail x))) 4));
    if negb (of_le status =? CommandCode_as_u32 SOk) then mret (Err IoError) else
    mret (Ok (mkXfer (remaining_buffers x) (buffers x) (tokens x) (xfer_head x) (advance (xfer_tail x))))
  else mret (Ok x).

(** The loop; the device runs at [spin_loop()]. *)
Fixpoint xfer_loop (n : nat) (id statuses : Slice) (x : Xfer) : M St (Result unit) :=
  match n with
  | O => hang
  | S n =>
    r ←? xfer_add id statuses x;
    match r with
    | None => mret (Ok tt)
    | Some x =>
      x ←? xfer_pop id statuses x;
      on_tx VQ.spin;;
      xfer_loop n id statuses x
    end
  end.

Definition pcm_xfer (stream_id : Z) (frames : Slice) : M St (Result unit) :=
  _ ←? ensure_set_up;
  s ← gets fst;
  p ← unwrap (index (pcm_parameters s) stream_id);
  if negb (setup p) then mret (Err IoError) else
  assert (negb (period_bytes p =? 0));;
  '(id, statuses) ← on_snd (stack_slot2 (le 4 stream_id)
    (replicate (Z.to_nat (QUEUE_SIZE * VirtIOSndPcmStatus_size)) 0));
  xfer_loop fuel id statuses (Xfer_new (chunks frames (period_bytes p))).

(** [BTreeMap::insert] drops the value it replaces. *)
Definition drop_buf (v : option Slice) : M W unit := match v with Some v => vec_drop v | None => mret tt end.
Definition drop_rsp (v : option Z) : M W unit :=
  match v with Some p => box_drop p VirtIOSndPcmStatus_size | None => mret tt end.

Definition pcm_xfer_nb (stream_id : Z) (frames : Slice) : M St (Result Z) :=
  _ ←? ensure_set_up;
  s ← gets fst;
  p ← unwrap (index (pcm_parameters s) stream_id);
  if negb (setup p) then mret (Err IoError) else
  assert (period_bytes p =? s_len frames);;
  bytes ← on_snd (mem_read frames);
  buf ← on_snd (vec_new 1 (le 4 stream_id ++ bytes));
  rsp ← on_snd (box_new VirtIOSndPcmStatus_size);
  rsp ← unwrap rsp;
  on_snd (mem_write rsp (replicate (Z.to_nat VirtIOSndPcmStatus_size) 0));;
  r ← on_tx (VQ.add QUEUE_SIZE [buf] [mkSlice rsp VirtIOSndPcmStatus_size]);
  match r with
  | Err e =>
      on_snd (box_drop rsp VirtIOSndPcmStatus_size;; vec_drop buf);; mret (Err e)
  | Ok token =>
      notify_tx;;
      s ← gets fst;
      on_snd (drop_buf (token_buf s !! token);; drop_rsp (token_rsp s !! token));;
      modify_sound (set_tokens (<[token := buf]> (token_buf s)) (<[token := rsp]> (token_rsp s)));;
      mret (Ok token)
  end.

Definition pcm_xfer_ok (token : Z) : M St (Result unit) :=
  s ← gets fst;
  buf ← unwrap (token_buf s !! token);
  rsp ← unwrap (token_rsp s !! token);
  _ ←? on_tx (VQ.pop_used QUEUE_SIZE token [buf] [mkSlice rsp VirtIOSndPcmStatus_size]);
  on_snd (vec_drop buf;; box_drop rsp VirtIOSndPcmStatus_size);;
  modify_sound (λ s, set_tokens (delete token (token_buf s)) (delete token (token_rsp s)) s);;
  mret (Ok tt).

(** ** What the streams support *)

(** The indices of the streams of a direction. *)
Definition streams_of (direction : Z) (infos : list VirtIOSndPcmInfo) : list Z :=
  Z.of_nat ∘ fst <$> filter (λ p, pi_direction p.2 = direction) (imap pair infos).

Definition output_streams : M St (Result (list Z)) :=
  _ ←? ensure_set_up;
  infos ← gets (λ s, pcm_infos s.1);
  infos ← unwrap infos;
  mret (Ok (streams_of VIRTIO_SND_D_OUTPUT infos)).
Definition input_streams : M St (Result (list Z)) :=
  _ ←? ensure_set_up;
  infos ← gets (λ s, pcm_infos s.1);
  infos ← unwrap infos;
  mret (Ok (streams_of VIRTIO_SND_D_INPUT infos)).

(** A field of the information on a stream. *)
Definition supported {A} (field : VirtIOSndPcmInfo → A) (stream_id : Z) : M St (Result A) :=
  _ ←? ensure_set_up;
  infos ← gets (λ s, pcm_infos s.1);
  infos ← unwrap infos;
  if wrap 32 (Z.of_nat (length infos)) <=? stream_id then mret (Err InvalidParam) else
  info ← unwrap (index infos stream_id);
  mret (Ok (field info)).
Definition rates_supported : Z → M St (Result Z) := supported pi_rates.
Definition formats_supported : Z → M St (Result Z) := supported pi_formats.
Definition channel_range_supported : Z → M St (Result (Z * Z)) :=
  supported (λ i, (pi_channels_min i, pi_channels_max i)).
Definition features_supported : Z → M St (Result Z) := supported pi_features.

(** ** Events *)
Definition event_handler (buffer : list Z) : M unit (Result (option Notification)) :=
  if Z.of_nat (length buffer) =? VirtIOSndEvent_size then
    match decode_fields VirtIOSndEvent_widths buffer with
    | [code; data] =>
      match NotificationType_n code with
      | None => mret (Err IoError)
      | Some t => mret (Ok (Some (mkNotification t data)))
      end
    | _ => mret (Ok None)
    end
  else mret (Ok None).

Definition latest_notification : M St (Result (option Notification)) :=
  zoom event_lens (OwningQueue.poll QUEUE_SIZE VirtIOSndEvent_size event_handler).

(** The drop of the fields after that of the transport; there is no [Drop] of the driver. *)
Definition drop (s : VirtIOSound T) : M W unit :=
  OwningQueue.drop_queue (control_queue s);;
  OwningQueue.drop VirtIOSndEvent_size (event_queue s);;
  OwningQueue.drop_queue (tx_queue s);; OwningQueue.drop_queue (rx_queue s);;
  box_drop (queue_buf_send s) PAGE_SIZE;; box_drop (queue_buf_recv s) PAGE_SIZE;;
  foldr (λ p rest, box_drop p.2 VirtIOSndPcmStatus_size;; rest) (mret tt) (map_to_list (token_rsp s));;
  foldr (λ p rest, vec_drop p.2;; rest) (mret tt) (map_to_list (token_buf s)).
End sound.
End Sound.
