(* ===== verification/SoundProps.v ===== *)
(** * Properties of the sound driver: its control requests

    Against a device that has jacks, streams and channel maps, keeps the life cycle of each stream
    (VirtIO specification, section 5.14.6.6.1) and refuses what a stream does not support, the
    requests of [VirtIOSound] refine the operations of an abstract mixer. *)

From S2P Require Import Prelude Base Transport QueueData Queue DeviceQueue Owning QueueInv QueueSpec QueueWait Serve.
From S2P Require Import Bytes Sound FakeTransport Bench Lab.
Import Sound.

(** ** The mixer *)

(** The parameters of a stream: the format and the rate by their numbers. *)
Record Params := mkParams {
  p_buffer : Z; p_period : Z; p_features : Z; p_channels : Z; p_format : Z; p_rate : Z
}.
Record Stream := mkStream { st_info : VirtIOSndPcmInfo; st_params : option Params; st_state : PCMState }.
Record Mixer := mkMixer {
  mx_jacks : list VirtIOSndJackInfo;
  mx_streams : list Stream;
  mx_chmaps : list VirtIOSndChmapInfo;
  mx_remaps : list (Z * Z * Z)
}.

(** The commands that may follow in each state of a stream. *)
Definition may_follow (s s' : PCMState) : bool :=
  match s, s' with
  | SetParams, (SetParams | Prepare) => true
  | Prepare, (SetParams | Prepare | Start | Release) => true
  | Release, (SetParams | Prepare) => true
  | Start, Stop => true
  | Stop, (Start | Release) => true
  | _, _ => false
  end.

(** A stream goes to the next state; without parameters there is nothing to prepare. *)
Definition move (s' : PCMState) (st : Stream) : option Stream :=
  if may_follow (st_state st) s' && bool_decide (is_Some (st_params st))
  then Some (mkStream (st_info st) (st_params st) s') else None.

Definition supports (i : VirtIOSndPcmInfo) (p : Params) : bool :=
  Z.testbit (pi_formats i) (p_format p) && Z.testbit (pi_rates i) (p_rate p) &&
  (pi_channels_min i <=? p_channels p) && (p_channels p <=? pi_channels_max i).
Definition configure (p : Params) (st : Stream) : option Stream :=
  if may_follow (st_state st) SetParams && supports (st_info st) p
  then Some (mkStream (st_info st) (Some p) SetParams) else None.

(** Changes the stream [id], if it exists and the change is allowed. *)
Definition on_stream (d : Mixer) (id : Z) (f : Stream → option Stream) : option Mixer :=
  match mx_streams d !! Z.to_nat id ≫= f with
  | Some st => Some (mkMixer (mx_jacks d) (<[Z.to_nat id := st]> (mx_streams d)) (mx_chmaps d) (mx_remaps d))
  | None => None
  end.

Definition remap (d : Mixer) (id association sequence : Z) : option Mixer :=
  match mx_jacks d !! Z.to_nat id with
  | Some j => if contains (ji_features j) JackFeatures.REMAP
              then Some (mkMixer (mx_jacks d) (mx_streams d) (mx_chmaps d) ((id, association, sequence) :: mx_remaps d))
              else None
  | None => None
  end.

(** ** The device *)
Definition pcm_state (code : Z) : option PCMState :=
  if code =? CommandCode_as_u32 RPcmPrepare then Some Prepare
  else if code =? CommandCode_as_u32 RPcmRelease then Some Release
  else if code =? CommandCode_as_u32 RPcmStart then Some Start
  else if code =? CommandCode_as_u32 RPcmStop then Some Stop
  else None.

Definition ok_header : list Z := le 4 (CommandCode_as_u32 SOk).
Definition bad_header : list Z := le 4 (CommandCode_as_u32 SBadMsg).

(** The items [start], ..., [start + count - 1], when they exist and have the size asked for. *)
Definition answer_query (items : list (list Z)) (item_size : nat) (req : list Z) : list Z :=
  match decode_fields VirtIOSndQueryInfo_widths req with
  | [_; start; count; size] =>
    if (start + count <=? Z.of_nat (length items)) && (size =? Z.of_nat item_size)
    then ok_header ++ mjoin (take (Z.to_nat count) (skipn (Z.to_nat start) items)) else bad_header
  | _ => bad_header
  end.

Definition answer_change (d : Mixer) (d' : option Mixer) : Mixer * list Z :=
  match d' with Some d' => (d', ok_header) | None => (d, bad_header) end.

Definition answer (d : Mixer) (req : list Z) : Mixer * list Z :=
  let code := of_le (take 4 req) in
  if code =? CommandCode_as_u32 RJackInfo then
    (d, answer_query (JackInfo_as_bytes <$> mx_jacks d) (struct_size VirtIOSndJackInfo_widths) req)
  else if code =? CommandCode_as_u32 RPcmInfo then
    (d, answer_query (PcmInfo_as_bytes ∘ st_info <$> mx_streams d) (struct_size VirtIOSndPcmInfo_widths) req)
  else if code =? CommandCode_as_u32 RChmapInfo then
    (d, answer_query (ChmapInfo_as_bytes <$> mx_chmaps d) (struct_size VirtIOSndChmapInfo_widths) req)
  else if code =? CommandCode_as_u32 RJackRemap then
    match decode_fields VirtIOSndJackRemap_widths req with
    | [_; id; a; s] => answer_change d (remap d id a s)
    | _ => (d, bad_header)
    end
  else if code =? CommandCode_as_u32 RPcmSetParams then
    match decode_fields VirtIOSndPcmSetParams_widths req with
    | [_; id; b; p; f; c; fmt; r; _] => answer_change d (on_stream d id (configure (mkParams b p f c fmt r)))
    | _ => (d, bad_header)
    end
  else
    match pcm_state code, decode_fields VirtIOSndPcmHdr_widths req with
    | Some s, [_; id] => answer_change d (on_stream d id (move s))
    | _, _ => (d, bad_header)
    end.

Definition snd_serve (d : Mixer) (rs : list (list Z)) (ls : list Z) : Mixer * list (list Z) * Z :=
  let '(d', resp) := answer d (mjoin rs) in
  (d', (λ n, fit n resp) <$> ls, Z.of_nat (length resp)).

Lemma snd_serve_lengths d rs ls : length <$> (snd_serve d rs ls).1.2 = Z.to_nat <$> ls.
Proof.
  unfold snd_serve. destruct (answer d (mjoin rs)) as [d' resp]. simpl.
  rewrite <- list_fmap_compose. apply list_fmap_ext. intros. simpl. by rewrite fit_length.
Qed.

(** ** What the driver sends is what the device decodes *)
Lemma contains_bit x i : 0 ≤ i → contains x (Z.shiftl 1 i) = Z.testbit x i.
Proof.
  intros Hi. unfold contains. rewrite Z.shiftl_1_l. rewrite Z.land_comm.
  assert (Z.land (2 ^ i) x = if Z.testbit x i then 2 ^ i else 0) as ->.
  { apply Z.bits_inj'. intros n Hn. rewrite Z.land_spec, Z.pow2_bits_eqb by done.
    destruct (Z.eqb_spec i n) as [->|Hne]; cbn [andb].
    - destruct (Z.testbit x n) eqn:E; [by rewrite Z.pow2_bits_true|by rewrite Z.bits_0].
    - destruct (Z.testbit x i); [by rewrite Z.pow2_bits_false|by rewrite Z.bits_0]. }
  destruct (Z.testbit x i); [apply Z.eqb_refl|]. apply Z.eqb_neq. pose proof (Z.pow_pos_nonneg 2 i). lia.
Qed.

Lemma format_bit x f : contains x (PcmFormats_from f) = Z.testbit x (PcmFormat_as_u8 f).
Proof. destruct f; by apply contains_bit. Qed.
Lemma rate_bit x r : contains x (PcmRates_from r) = Z.testbit x (PcmRate_as_u8 r).
Proof. destruct r; by apply contains_bit. Qed.

Lemma word_first ws xs t : head ws = Some 4%nat → head xs = Some t → 0 ≤ t < 2 ^ 32 →
  of_le (take 4 (encode_fields ws xs)) = t.
Proof. intros Hw Hx Ht. rewrite <- (app_nil_r (encode_fields _ _)). by apply first_word. Qed.
Lemma decode_self ws xs : fields_ok ws xs → decode_fields ws (encode_fields ws xs) = xs.
Proof. intros Hx. rewrite <- (app_nil_r (encode_fields _ _)). by apply decode_encode. Qed.

Lemma answer_jack_query d start count size : fits 32 start → fits 32 count → fits 32 size →
  answer d (VirtIOSndQueryInfo_as_bytes (ItemType.as_u32 ItemType.RJackInfo) start count size) =
  (d, answer_query (JackInfo_as_bytes <$> mx_jacks d) (struct_size VirtIOSndJackInfo_widths)
        (VirtIOSndQueryInfo_as_bytes (ItemType.as_u32 ItemType.RJackInfo) start count size)).
Proof. intros. unfold answer, VirtIOSndQueryInfo_as_bytes. by rewrite (word_first _ _ (CommandCode_as_u32 RJackInfo)). Qed.
Lemma answer_pcm_query d start count size : fits 32 start → fits 32 count → fits 32 size →
  answer d (VirtIOSndQueryInfo_as_bytes (ItemType.as_u32 ItemType.RPcmInfo) start count size) =
  (d, answer_query (PcmInfo_as_bytes ∘ st_info <$> mx_streams d) (struct_size VirtIOSndPcmInfo_widths)
        (VirtIOSndQueryInfo_as_bytes (ItemType.as_u32 ItemType.RPcmInfo) start count size)).
Proof. intros. unfold answer, VirtIOSndQueryInfo_as_bytes. by rewrite (word_first _ _ (CommandCode_as_u32 RPcmInfo)). Qed.
Lemma answer_chmap_query d start count size : fits 32 start → fits 32 count → fits 32 size →
  answer d (VirtIOSndQueryInfo_as_bytes (ItemType.as_u32 ItemType.RChmapInfo) start count size) =
  (d, answer_query (ChmapInfo_as_bytes <$> mx_chmaps d) (struct_size VirtIOSndChmapInfo_widths)
        (VirtIOSndQueryInfo_as_bytes (ItemType.as_u32 ItemType.RChmapInfo) start count size)).
Proof. intros. unfold answer, VirtIOSndQueryInfo_as_bytes. by rewrite (word_first _ _ (CommandCode_as_u32 RChmapInfo)). Qed.

(** The query of all items. *)
Lemma answer_all items size code : fits 32 code → fits 32 (Z.of_nat (length items)) → fits 32 (Z.of_nat size) →
  answer_query items size (VirtIOSndQueryInfo_as_bytes code 0 (Z.of_nat (length items)) (Z.of_nat size)) =
  ok_header ++ mjoin items.
Proof.
  intros Hc Hl Hs. unfold answer_query, VirtIOSndQueryInfo_as_bytes. rewrite decode_self by fields.
  rewrite Z.add_0_l, Z.leb_refl, Z.eqb_refl. cbn [andb]. rewrite Nat2Z.id. simpl skipn. by rewrite firstn_all.
Qed.

Lemma answer_remap d id a s : fits 32 id → fits 32 a → fits 32 s →
  answer d (VirtIOSndJackRemap_as_bytes (CommandCode_as_u32 RJackRemap) id a s) = answer_change d (remap d id a s).
Proof.
  intros. unfold answer, VirtIOSndJackRemap_as_bytes. rewrite (word_first _ _ (CommandCode_as_u32 RJackRemap)) by done.
  rewrite decode_self by (simpl; fields). done.
Qed.

Lemma answer_set d id b p f c (fmt : PcmFormat) (r : PcmRate) :
  fits 32 id → fits 32 b → fits 32 p → fits 32 f → fits 8 c →
  answer d (VirtIOSndPcmSetParams_as_bytes (CommandCode_as_u32 RPcmSetParams) id b p f c
    (PcmFormat_as_u8 fmt) (PcmRate_as_u8 r)) =
  answer_change d (on_stream d id (configure (mkParams b p f c (PcmFormat_as_u8 fmt) (PcmRate_as_u8 r)))).
Proof.
  intros. unfold answer, VirtIOSndPcmSetParams_as_bytes.
  rewrite (word_first _ _ (CommandCode_as_u32 RPcmSetParams)) by done. rewrite decode_self; [done|].
  assert (0 ≤ PcmFormat_as_u8 fmt < 256) by (by destruct fmt). assert (0 ≤ PcmRate_as_u8 r < 256) by (by destruct r).
  simpl. fields.
Qed.

Lemma answer_pcm d code s id : pcm_state (CommandCode_as_u32 code) = Some s → fits 32 id →
  answer d (VirtIOSndPcmHdr_as_bytes (CommandCode_as_u32 code) id) = answer_change d (on_stream d id (move s)).
Proof.
  intros Hs Hid. unfold answer, VirtIOSndPcmHdr_as_bytes.
  rewrite (word_first _ _ (CommandCode_as_u32 code)) by (by destruct code). rewrite decode_self by (destruct code; simpl; fields). destruct code; try discriminate Hs; by injection Hs as <-.
Qed.

(** The items a device can describe in one page. *)
Definition jack_ok (j : VirtIOSndJackInfo) : Prop := fields_ok VirtIOSndJackInfo_widths
  (ji_hda_fn_nid j :: ji_features j :: ji_hda_reg_defconf j :: ji_hda_reg_caps j :: ji_connected j :: ji_padding j).
Definition pcm_ok (i : VirtIOSndPcmInfo) : Prop := fields_ok VirtIOSndPcmInfo_widths
  (pi_hda_fn_nid i :: pi_features i :: pi_formats i :: pi_rates i :: pi_direction i :: pi_channels_min i ::
   pi_channels_max i :: pi_padding i).
Definition chmap_ok (c : VirtIOSndChmapInfo) : Prop := fields_ok VirtIOSndChmapInfo_widths
  (ci_hda_fn_nid c :: ci_direction c :: ci_channels c :: ci_positions c).

Lemma jack_roundtrip j : jack_ok j → VirtIOSndJackInfo_from (JackInfo_as_bytes j) = Some j.
Proof. intros Hj. unfold VirtIOSndJackInfo_from, JackInfo_as_bytes. rewrite decode_self by done. by destruct j. Qed.
Lemma pcm_roundtrip i : pcm_ok i → VirtIOSndPcmInfo_from (PcmInfo_as_bytes i) = Some i.
Proof. intros Hi. unfold VirtIOSndPcmInfo_from, PcmInfo_as_bytes. rewrite decode_self by done. by destruct i. Qed.
Lemma chmap_roundtrip c : chmap_ok c → VirtIOSndChmapInfo_from (ChmapInfo_as_bytes c) = Some c.
Proof. intros Hc. unfold VirtIOSndChmapInfo_from, ChmapInfo_as_bytes. rewrite decode_self by done. by destruct c. Qed.

Lemma fields_ok_length ws xs : fields_ok ws xs → length (encode_fields ws xs) = struct_size ws.
Proof. intros Hx. apply encode_fields_length. symmetry. by apply Forall2_length in Hx. Qed.

Definition fits_page (n : nat) (widths : list nat) : Prop :=
  VirtIOSndHdr_size + Z.of_nat n * Z.of_nat (struct_size widths) ≤ PAGE_SIZE.

Record mixer_ok (d : Mixer) : Prop := {
  mk_jacks : Forall jack_ok (mx_jacks d);
  mk_streams : Forall (pcm_ok ∘ st_info) (mx_streams d);
  mk_chmaps : Forall chmap_ok (mx_chmaps d);
  mk_jacks_page : fits_page (length (mx_jacks d)) VirtIOSndJackInfo_widths;
  mk_streams_page : fits_page (length (mx_streams d)) VirtIOSndPcmInfo_widths;
  mk_chmaps_page : fits_page (length (mx_chmaps d)) VirtIOSndChmapInfo_widths
}.

(** ** The driver *)
Section sound.
Context {N : nat} {T W : Type} `{Server QUEUE_SIZE N CONTROL_QUEUE_IDX T W Mixer} `{Profile} (fuel : nat).
Context (Hproto : ∀ d rs ls, serve d rs ls = snd_serve d rs ls) (Hfuel : (N < fuel)%nat).
Implicit Types (s : VirtIOSound T) (w : W).

Definition recv_page s : Slice := mkSlice (queue_buf_recv s) PAGE_SIZE.

(** The control queue between requests. *)
Record ctl_ok s w (rest : list Res) : Prop := {
  ck_idle : idle QUEUE_SIZE (control_queue s) w rest;
  ck_idx : VQ.queue_idx (control_queue s) = CONTROL_QUEUE_IDX;
  ck_tok : tok (transport s);
  ck_recv : user_buffer (recv_page s)
}.

(** What the control requests leave of the driver. *)
Definition same_sound s s' : Prop :=
  jacks s' = jacks s ∧ streams s' = streams s ∧ chmaps s' = chmaps s ∧ queue_buf_recv s' = queue_buf_recv s ∧
  event_queue s' = event_queue s ∧ tx_queue s' = tx_queue s ∧ rx_queue s' = rx_queue s ∧
  token_buf s' = token_buf s ∧ token_rsp s' = token_rsp s.

Lemma same_sound_refl s : same_sound s s.
Proof. done. Qed.
Lemma same_sound_trans s1 s2 s3 : same_sound s1 s2 → same_sound s2 s3 → same_sound s1 s3.
Proof. unfold same_sound. naive_solver congruence. Qed.

(** The memory of the program, but for the page of the responses. *)
Definition page_only s w w' : Prop :=
  ∀ x, own x → ¬ frame x → ¬ in_slice (recv_page s) x → byte_at w' x = byte_at w x.

Lemma page_only_trans s s' w1 w2 w3 : queue_buf_recv s' = queue_buf_recv s →
  page_only s w1 w2 → page_only s' w2 w3 → page_only s w1 w3.
Proof.
  unfold page_only, recv_page. intros -> P1 P2 x Hx Hf Hp. by rewrite P2, P1.
Qed.

(** A request: the driver gets the code of the response, which is in the page. *)
Lemma snd_request_run req s w rest : ctl_ok s w rest → 0 < Z.of_nat (length req) < 2 ^ 32 → ∃ s' w',
  let '(d', resp) := answer (dstate w) req in
  request fuel req (s, w) = (Val (Ok (of_le (take 4 (fit PAGE_SIZE resp)))), (s', w')) ∧
  ctl_ok s' w' rest ∧ (∃ t q, s' = set_control t q s) ∧ page_only s w w' ∧ dstate w' = d' ∧
  bytes_of w' (recv_page s) = fit PAGE_SIZE resp.
Proof.
  intros [Hid Hix Htk Hur] Hreq.
  destruct (slot_run (SIZE := QUEUE_SIZE) eq_refl fuel (control_queue s) (transport s) w rest req [] [recv_page s])
    as (a & w0 & len & q' & t' & w' & E0 & E & Hid' & Htk' & _ & Hix' & Es & Hm); try done.
  { by constructor. }
  exists (set_control t' q' s), w'. rewrite Hproto in Es. unfold snd_serve in Es.
  cbn [mjoin list_join fmap list_fmap] in Es. rewrite app_nil_r in Es.
  destruct (answer (dstate w) req) as [d' resp].
  pose proof (f_equal (λ x, x.1.1) Es) as Ed. pose proof (f_equal (λ x, nth 0 x.1.2 []) Es) as Er.
  cbn [fst snd nth fmap list_fmap recv_page s_len] in Ed, Er. split_and!; try done.
  - unfold request. mstep. cbn [fst]. erewrite bind_val by (by apply on_snd_val).
    erewrite try_ok by (apply zoom_val; exact E). cbn.
    erewrite bind_val by (apply on_snd_val, mem_read_spec).
    fold (bytes_of w' (mkSlice (queue_buf_recv s) VirtIOSndHdr_size)).
    rewrite (bytes_of_take _ _ PAGE_SIZE) by done. fold (recv_page s). by rewrite <- Er.
  - by eexists _, _.
  - intros x Hx Hf Hp. apply Hm; try done. by intros b ->%list_elem_of_singleton.
Qed.

(** Reading the items of a response. *)
Lemma read_infos_run {A} (widths : list nat) (from : list Z → option A) (enc : A → list Z) s w items : ∀ i pre post,
  Forall (λ a, from (enc a) = Some a ∧ length (enc a) = struct_size widths) items →
  bytes_of w (recv_page s) = pre ++ mjoin (enc <$> items) ++ post → 0 ≤ i →
  Z.of_nat (length pre) = VirtIOSndHdr_size + i * Z.of_nat (struct_size widths) →
  read_infos widths from (length items) i (s, w) = (Val items, (s, w)).
Proof.
  induction items as [|a items IH]; intros i pre post Hok Hb Hi Hpre; [done|].
  apply Forall_cons in Hok as [[Ha Hl] Hok]. set (size := struct_size widths) in *.
  assert (VirtIOSndHdr_size + (i + 1) * Z.of_nat size ≤ PAGE_SIZE) as Hpage.
  { apply (f_equal length) in Hb. rewrite bytes_of_length in Hb. cbn [fmap list_fmap mjoin list_join] in Hb.
    rewrite !length_app, Hl in Hb. cbn [recv_page s_len] in Hb. unfold PAGE_SIZE, VirtIOSndHdr_size in *. simpl in *. lia. }
  cbn [length read_infos]. fold size. mstep. cbn [fst]. rewrite (proj2 (Z.leb_le _ _)) by done. mstep.
  erewrite bind_val by (apply on_snd_val, mem_read_spec).
  fold (bytes_of w (mkSlice (queue_buf_recv s + (VirtIOSndHdr_size + i * Z.of_nat size)) (Z.of_nat size))).
  rewrite (bytes_of_sub w (queue_buf_recv s) PAGE_SIZE) by (unfold VirtIOSndHdr_size in *; lia). fold (recv_page s).
  rewrite Hb, <- Hpre, !Nat2Z.id, drop_app_length. cbn [fmap list_fmap mjoin list_join]. rewrite <- app_assoc, <- Hl.
  rewrite take_app_length, Ha. mstep.
  erewrite bind_val; [reflexivity|]. apply (IH (i + 1) (pre ++ enc a) post); [done| |lia|].
  - rewrite Hb. cbn [fmap list_fmap mjoin list_join]. by rewrite <- !app_assoc.
  - rewrite length_app, Hl, Nat2Z.inj_add, Hpre. fold size. lia.
Qed.

(** A query of all items of a kind. *)
Lemma query_run {A} type widths (from : list Z → option A) (enc : A → list Z) items s w rest : ctl_ok s w rest →
  Forall (λ a, from (enc a) = Some a ∧ length (enc a) = struct_size widths) items → fits_page (length items) widths →
  (0 < struct_size widths < 4096)%nat →
  answer (dstate w) (VirtIOSndQueryInfo_as_bytes (ItemType.as_u32 type) 0 (Z.of_nat (length items))
    (Z.of_nat (struct_size widths))) = (dstate w, ok_header ++ mjoin (enc <$> items)) →
  ∃ s' w', query_info fuel (Z.of_nat (length items)) type widths from 0 (Z.of_nat (length items)) (s, w) =
    (Val (Ok items), (s', w')) ∧
  ctl_ok s' w' rest ∧ (∃ t q, s' = set_control t q s) ∧ page_only s w w' ∧ dstate w' = dstate w.
Proof.
  intros Hs Hok Hpage Hw Ha. unfold fits_page in Hpage. change VirtIOSndHdr_size with 4 in Hpage. unfold PAGE_SIZE in Hpage.
  destruct (snd_request_run (VirtIOSndQueryInfo_as_bytes (ItemType.as_u32 type) 0 (Z.of_nat (length items))
    (Z.of_nat (struct_size widths))) s w rest Hs ltac:(done)) as (s' & w' & R). rewrite Ha in R.
  destruct R as (E & Hs' & (t & q & ->) & Hp & Hd & Hb).
  assert (length (mjoin (enc <$> items)) = length items * struct_size widths)%nat as Hlen.
  { clear -Hok. induction Hok as [|a items [_ Hl] _ IH]; [done|].
    etrans; [apply length_app|]. rewrite Hl. simpl. f_equal. exact IH. }
  rewrite fit_pad in E, Hb by (rewrite length_app, Hlen; unfold PAGE_SIZE; simpl; lia).
  rewrite <- app_assoc, take_app_length' in E by done. change (of_le ok_header) with (CommandCode_as_u32 SOk) in E.
  eexists _, w'. split_and!; [|exact Hs'|by eexists _, _|done..].
  unfold query_info, add_u. rewrite Z.add_0_l. erewrite bind_val by (apply arith_fits; unfold fits; lia).
  rewrite Z.ltb_irrefl. unfold wrap. rewrite Z.mod_small by lia. erewrite try_ok by exact E.
  change (CommandCode_as_u32 SOk =? _) with true. cbn [negb]. rewrite Nat2Z.id.
  erewrite bind_val; [reflexivity|]. eapply (read_infos_run widths from enc _ w' items 0 ok_header _ Hok); [|done|done].
  etrans; [exact Hb|]. by rewrite <- app_assoc.
Qed.

(** The driver knows the mixer: the numbers of its items, the parameters it has accepted and, after
    the set-up, the items. *)
Definition param_agrees (p : PcmParameters) (st : Stream) : Prop :=
  match st_params st with
  | None => setup p = false
  | Some q => setup p = true ∧ q = mkParams (buffer_bytes p) (period_bytes p) (features p) (channels p)
      (PcmFormat_as_u8 (format p)) (PcmRate_as_u8 (rate p))
  end.

Definition counts s (d : Mixer) : Prop :=
  jacks s = Z.of_nat (length (mx_jacks d)) ∧ streams s = Z.of_nat (length (mx_streams d)) ∧
  chmaps s = Z.of_nat (length (mx_chmaps d)).

Record agrees s (d : Mixer) : Prop := {
  ag_counts : counts s d;
  ag_params : Forall2 param_agrees (pcm_parameters s) (mx_streams d);
  ag_infos : is_set_up s = true → jack_infos s = Some (mx_jacks d) ∧
    pcm_infos s = Some (st_info <$> mx_streams d) ∧ chmap_infos s = Some (mx_chmaps d)
}.

Record snd_ok s w (rest : list Res) : Prop := {
  sk_ctl : ctl_ok s w rest;
  sk_mixer : mixer_ok (dstate w);
  sk_agrees : agrees s (dstate w)
}.

(** Changes of the driver that the control queue does not see. *)
Lemma ctl_ok_set s s' w rest : ctl_ok s w rest → control_queue s' = control_queue s → transport s' = transport s →
  queue_buf_recv s' = queue_buf_recv s → ctl_ok s' w rest.
Proof. intros [? ? ? Hu] Hq Ht Hr. unfold recv_page in Hu. split; unfold recv_page; by rewrite ?Hq, ?Ht, ?Hr. Qed.

Lemma jack_infos_run s w rest : ctl_ok s w rest → mixer_ok (dstate w) → counts s (dstate w) → ∃ s' w',
  jack_info fuel 0 (jacks s) (s, w) = (Val (Ok (mx_jacks (dstate w))), (s', w')) ∧
  ctl_ok s' w' rest ∧ (∃ t q, s' = set_control t q s) ∧ page_only s w w' ∧ dstate w' = dstate w.
Proof.
  intros Hs [Hj _ _ Hp _ _] (Ha & _ & _). unfold jack_info. mstep. cbn [fst]. rewrite Ha.
  apply (query_run _ _ _ JackInfo_as_bytes); [done| |done|simpl; lia|].
  - eapply Forall_impl; [exact Hj|]. intros j Hok. split; [by apply jack_roundtrip|by apply fields_ok_length].
  - unfold fits_page, VirtIOSndHdr_size, PAGE_SIZE in Hp. simpl in Hp.
    rewrite answer_jack_query by (unfold fits; simpl; lia).
    rewrite <- (length_fmap JackInfo_as_bytes), answer_all by (rewrite ?length_fmap; unfold fits; simpl; lia). done.
Qed.
Lemma pcm_infos_run s w rest : ctl_ok s w rest → mixer_ok (dstate w) → counts s (dstate w) → ∃ s' w',
  pcm_info fuel 0 (streams s) (s, w) = (Val (Ok (st_info <$> mx_streams (dstate w))), (s', w')) ∧
  ctl_ok s' w' rest ∧ (∃ t q, s' = set_control t q s) ∧ page_only s w w' ∧ dstate w' = dstate w.
Proof.
  intros Hs [_ Hj _ _ Hp _] (_ & Ha & _). unfold pcm_info. mstep. cbn [fst]. rewrite Ha.
  rewrite <- (length_fmap st_info).
  apply (query_run _ _ _ PcmInfo_as_bytes); [done| |by rewrite length_fmap|simpl; lia|].
  - rewrite Forall_fmap. eapply Forall_impl; [exact Hj|]. intros j Hok. split; [by apply pcm_roundtrip|by apply fields_ok_length].
  - unfold fits_page, VirtIOSndHdr_size, PAGE_SIZE in Hp. simpl in Hp. rewrite <- list_fmap_compose.
    rewrite answer_pcm_query by (rewrite ?length_fmap; unfold fits; simpl; lia).
    rewrite length_fmap, <- (length_fmap (PcmInfo_as_bytes ∘ st_info)), answer_all by (rewrite ?length_fmap; unfold fits; simpl; lia). done.
Qed.
Lemma chmap_infos_run s w rest : ctl_ok s w rest → mixer_ok (dstate w) → counts s (dstate w) → ∃ s' w',
  chmap_info fuel 0 (chmaps s) (s, w) = (Val (Ok (mx_chmaps (dstate w))), (s', w')) ∧
  ctl_ok s' w' rest ∧ (∃ t q, s' = set_control t q s) ∧ page_only s w w' ∧ dstate w' = dstate w.
Proof.
  intros Hs [_ _ Hj _ _ Hp] (_ & _ & Ha). unfold chmap_info. mstep. cbn [fst]. rewrite Ha.
  apply (query_run _ _ _ ChmapInfo_as_bytes); [done| |done|simpl; lia|].
  - eapply Forall_impl; [exact Hj|]. intros j Hok. split; [by apply chmap_roundtrip|by apply fields_ok_length].
  - unfold fits_page, VirtIOSndHdr_size, PAGE_SIZE in Hp. simpl in Hp.
    rewrite answer_chmap_query by (unfold fits; simpl; lia).
    rewrite <- (length_fmap ChmapInfo_as_bytes), answer_all by (rewrite ?length_fmap; unfold fits; simpl; lia). done.
Qed.

(** The set-up reads the items. *)
Lemma set_up_run s w rest : snd_ok s w rest → ∃ s' w', set_up fuel (s, w) = (Val (Ok tt), (s', w')) ∧
  ctl_ok s' w' rest ∧ same_sound s s' ∧ page_only s w w' ∧ dstate w' = dstate w ∧
  pcm_parameters s' = pcm_parameters s ∧ jack_infos s' = Some (mx_jacks (dstate w)) ∧
  pcm_infos s' = Some (st_info <$> mx_streams (dstate w)) ∧ chmap_infos s' = Some (mx_chmaps (dstate w)).
Proof.
  intros [Hs Hm [Ha _ _]].
  destruct (jack_infos_run s w rest Hs Hm Ha) as (s1 & w1 & E1 & Hs1 & (t1 & q1 & ->) & P1 & D1).
  set (s1 := set_jack_infos (Some (mx_jacks (dstate w))) (set_control t1 q1 s)).
  destruct (pcm_infos_run s1 w1 rest) as (s2 & w2 & E2 & Hs2 & (t2 & q2 & ->) & P2 & D2);
    [by apply (ctl_ok_set (set_control t1 q1 s))|by rewrite D1..|].
  rewrite D1 in *. set (s2 := set_pcm_infos (Some (st_info <$> mx_streams (dstate w))) (set_control t2 q2 s1)).
  destruct (chmap_infos_run s2 w2 rest) as (s3 & w3 & E3 & Hs3 & (t3 & q3 & ->) & P3 & D3);
    [by apply (ctl_ok_set (set_control t2 q2 s1))|by rewrite D2..|].
  rewrite D2 in *. set (s3 := set_chmap_infos (Some (mx_chmaps (dstate w))) (set_control t3 q3 s2)).
  exists (set_pcm_states (pcm_states s3 ++ replicate (Z.to_nat (streams s3)) SetParams) s3), w3. split_and!; try done.
  - unfold set_up. mstep. done.
  - by apply (ctl_ok_set (set_control t3 q3 s2)).
  - apply (page_only_trans s s2 w w2 w3); [done| |done]. by apply (page_only_trans s s1 w w1 w2).
Qed.

Lemma ensure_run s w rest : snd_ok s w rest → ∃ s' w', ensure_set_up fuel (s, w) = (Val (Ok tt), (s', w')) ∧
  snd_ok s' w' rest ∧ is_set_up s' = true ∧ same_sound s s' ∧ page_only s w w' ∧ dstate w' = dstate w.
Proof.
  intros Hs. unfold ensure_set_up. mstep. cbn [fst]. destruct (is_set_up s) eqn:Hup; [by exists s, w|].
  destruct (set_up_run s w rest Hs) as (s' & w' & E & Hs' & Hsame & Hp & Hd & Hpp & Hi).
  exists (set_set_up true s'), w'. erewrite try_ok by exact E. split_and!; try done.
  destruct Hs as [_ Hm [Ha Hpar _]]. split; [by apply (ctl_ok_set s')|by rewrite Hd|]. rewrite Hd.
  destruct Hsame as (Q1 & Q2 & Q3 & _). split; cbn; [|by rewrite Hpp|done].
  unfold counts in *. cbn. by rewrite Q1, Q2, Q3.
Qed.

(** ** The operations of the mixer *)
Inductive op :=
  | OpSetParams (id buffer period features channels : Z) (f : PcmFormat) (r : PcmRate)
  | OpPrepare (id : Z) | OpRelease (id : Z) | OpStart (id : Z) | OpStop (id : Z)
  | OpRemap (id association sequence : Z)
  | OpOutputs | OpInputs
  | OpRates (id : Z) | OpFormats (id : Z) | OpChannels (id : Z) | OpFeatures (id : Z).

Inductive reply :=
  | Done (r : Result unit) | Ids (r : Result (list Z)) | Flags (r : Result Z) | Range (r : Result (Z * Z)).

Definition as_reply {A} (f : Result A → reply) (c : M (VirtIOSound T * W) (Result A)) : M (VirtIOSound T * W) reply :=
  r ← c; mret (f r).

Definition exec (o : op) : M (VirtIOSound T * W) reply :=
  match o with
  | OpSetParams id b p f c fmt r => as_reply Done (pcm_set_params fuel id b p f c fmt r)
  | OpPrepare id => as_reply Done (pcm_prepare fuel id)
  | OpRelease id => as_reply Done (pcm_release fuel id)
  | OpStart id => as_reply Done (pcm_start fuel id)
  | OpStop id => as_reply Done (pcm_stop fuel id)
  | OpRemap id a q => as_reply Done (jack_remap fuel id a q)
  | OpOutputs => as_reply Ids (output_streams fuel)
  | OpInputs => as_reply Ids (input_streams fuel)
  | OpRates id => as_reply Flags (rates_supported fuel id)
  | OpFormats id => as_reply Flags (formats_supported fuel id)
  | OpChannels id => as_reply Range (channel_range_supported fuel id)
  | OpFeatures id => as_reply Flags (features_supported fuel id)
  end.

Definition op_ok (o : op) : Prop :=
  match o with
  | OpSetParams id b p f c _ _ => fits 32 id ∧ fits 32 b ∧ fits 32 p ∧ fits 32 f ∧ fits 8 c
  | OpRemap id a q => fits 32 id ∧ fits 32 a ∧ fits 32 q
  | OpPrepare id | OpRelease id | OpStart id | OpStop id
  | OpRates id | OpFormats id | OpChannels id | OpFeatures id => fits 32 id
  | OpOutputs | OpInputs => True
  end.

(** A change that the mixer makes or refuses. *)
Definition changed (e : Error) (d : Mixer) (d' : option Mixer) : reply * Mixer :=
  match d' with Some d' => (Done (Ok tt), d') | None => (Done (Err e), d) end.

Definition ids_of (dir : Z) (d : Mixer) : list Z :=
  filter (λ i, pi_direction ∘ st_info <$> mx_streams d !! Z.to_nat i = Some dir) (seqZ 0 (Z.of_nat (length (mx_streams d)))).

Definition stream_info {A} (d : Mixer) (id : Z) (field : VirtIOSndPcmInfo → A) : Result A :=
  match mx_streams d !! Z.to_nat id with Some st => Ok (field (st_info st)) | None => Err InvalidParam end.

(** A configuration is accepted when its flags are among those the stream supports. *)
Definition accepted (f : PcmFormat) (r : PcmRate) (p : Params) (st : Stream) : option Stream :=
  if may_follow (st_state st) SetParams && contains (pi_formats (st_info st)) (PcmFormats_from f) &&
     contains (pi_rates (st_info st)) (PcmRates_from r) &&
     (pi_channels_min (st_info st) <=? p_channels p) && (p_channels p <=? pi_channels_max (st_info st))
  then Some (mkStream (st_info st) (Some p) SetParams) else None.

Definition mixer_op (o : op) (d : Mixer) : reply * Mixer :=
  match o with
  | OpSetParams id b p f c fmt r =>
    if bool_decide (0 < p ≤ b ∧ b mod p = 0)
    then changed IoError d (on_stream d id (accepted fmt r (mkParams b p f c (PcmFormat_as_u8 fmt) (PcmRate_as_u8 r))))
    else (Done (Err InvalidParam), d)
  | OpPrepare id => changed IoError d (on_stream d id (move Prepare))
  | OpRelease id => changed IoError d (on_stream d id (move Release))
  | OpStart id => changed IoError d (on_stream d id (move Start))
  | OpStop id => changed IoError d (on_stream d id (move Stop))
  | OpRemap id a q =>
    if bool_decide (id < Z.of_nat (length (mx_jacks d))) then changed Unsupported d (remap d id a q)
    else (Done (Err InvalidParam), d)
  | OpOutputs => (Ids (Ok (ids_of VIRTIO_SND_D_OUTPUT d)), d)
  | OpInputs => (Ids (Ok (ids_of VIRTIO_SND_D_INPUT d)), d)
  | OpRates id => (Flags (stream_info d id pi_rates), d)
  | OpFormats id => (Flags (stream_info d id pi_formats), d)
  | OpChannels id => (Range (stream_info d id (λ i, (pi_channels_min i, pi_channels_max i))), d)
  | OpFeatures id => (Flags (stream_info d id pi_features), d)
  end.

(** An operation of the driver that does what the mixer does. *)
Definition simulates (o : op) : Prop := ∀ s w rest, snd_ok s w rest → op_ok o → ∃ s' w',
  exec o (s, w) = (Val (mixer_op o (dstate w)).1, (s', w')) ∧ snd_ok s' w' rest ∧
  dstate w' = (mixer_op o (dstate w)).2 ∧ same_sound s s' ∧ page_only s w w'.

Lemma on_stream_inv d id f d' : on_stream d id f = Some d' → ∃ st st',
  mx_streams d !! Z.to_nat id = Some st ∧ f st = Some st' ∧
  d' = mkMixer (mx_jacks d) (<[Z.to_nat id := st']> (mx_streams d)) (mx_chmaps d) (mx_remaps d).
Proof.
  unfold on_stream. destruct (mx_streams d !! Z.to_nat id) as [st|] eqn:Hst; [|done].
  cbn [mbind option_bind]. destruct (f st) as [st'|] eqn:Hf; [|done]. intros [= <-]. by exists st, st'.
Qed.

Lemma infos_insert (l : list Stream) i st st' : l !! i = Some st → st_info st' = st_info st →
  st_info <$> <[i := st']> l = st_info <$> l.
Proof. intros Hi Hs. rewrite list_fmap_insert, Hs. apply list_insert_id. by rewrite list_lookup_fmap, Hi. Qed.

Lemma mixer_ok_insert d i st st' : mixer_ok d → mx_streams d !! i = Some st → st_info st' = st_info st →
  mixer_ok (mkMixer (mx_jacks d) (<[i := st']> (mx_streams d)) (mx_chmaps d) (mx_remaps d)).
Proof.
  intros [? Hst ? ? ? ?] Hi Hs. split; cbn; rewrite ?length_insert; try done.
  rewrite <- (Forall_fmap st_info pcm_ok) in *. by rewrite (infos_insert _ i st).
Qed.

(** A stream that changes while the driver changes its parameters. *)
Lemma agrees_insert s s' d i st st' p p' : agrees s d → mx_streams d !! i = Some st → st_info st' = st_info st →
  pcm_parameters s !! i = Some p → param_agrees p' st' →
  counts s' d → pcm_parameters s' = <[i := p']> (pcm_parameters s) → is_set_up s' = is_set_up s →
  jack_infos s' = jack_infos s → pcm_infos s' = pcm_infos s → chmap_infos s' = chmap_infos s →
  agrees s' (mkMixer (mx_jacks d) (<[i := st']> (mx_streams d)) (mx_chmaps d) (mx_remaps d)).
Proof.
  intros [_ Hp Hi] Hst Hs Hpi Hpa Hc Epp Eup Ej Epi Ech. split.
  - unfold counts in *. cbn. by rewrite length_insert.
  - cbn. rewrite Epp. by apply Forall2_insert.
  - cbn. rewrite Eup, Ej, Epi, Ech, (infos_insert _ i st) by done. exact Hi.
Qed.

(** A request to change the mixer. *)
Lemma change_run req d' s w rest : ctl_ok s w rest → 0 < Z.of_nat (length req) < 2 ^ 32 →
  answer (dstate w) req = answer_change (dstate w) d' → ∃ s' w',
  request fuel req (s, w) = (Val (Ok (CommandCode_as_u32 (if d' then SOk else SBadMsg))), (s', w')) ∧
  ctl_ok s' w' rest ∧ (∃ t q, s' = set_control t q s) ∧ page_only s w w' ∧ dstate w' = default (dstate w) d'.
Proof.
  intros Hs Hl Ha. destruct (snd_request_run req s w rest Hs Hl) as (s' & w' & R). rewrite Ha in R.
  exists s', w'. destruct d' as [d'|]; simpl in R; destruct R as (E & R1 & R2 & R3 & R4 & _); done.
Qed.

Lemma pcm_simulates code st s w rest id : pcm_state (CommandCode_as_u32 code) = Some st → snd_ok s w rest → fits 32 id →
  ∃ s' w', as_reply Done (pcm_request fuel code id) (s, w) =
    (Val (changed IoError (dstate w) (on_stream (dstate w) id (move st))).1, (s', w')) ∧ snd_ok s' w' rest ∧
  dstate w' = (changed IoError (dstate w) (on_stream (dstate w) id (move st))).2 ∧ same_sound s s' ∧ page_only s w w'.
Proof.
  intros Hst Hs Hid. destruct (ensure_run s w rest Hs) as (s1 & w1 & E1 & [Hc1 Hm1 Ha1] & Hup & Hsame & P1 & D1).
  destruct (change_run (VirtIOSndPcmHdr_as_bytes (CommandCode_as_u32 code) id) (on_stream (dstate w1) id (move st)) s1 w1 rest
    Hc1 ltac:(done) (answer_pcm _ _ _ _ Hst Hid)) as (s2 & w2 & E2 & Hc2 & (t & q & ->) & P2 & D2).
  rewrite D1 in *. exists (set_control t q s1), w2. split_and!.
  - unfold as_reply, pcm_request. erewrite bind_val by (mstep; reflexivity).
    by destruct (on_stream _ _ _).
  - destruct (on_stream (dstate w) id (move st)) as [d'|] eqn:Hd; simpl in D2; split; rewrite ?D2; try done.
    + apply on_stream_inv in Hd as (x & x' & Hx & Hf & ->). unfold move in Hf. case_match; [|done]. injection Hf as <-.
      by apply (mixer_ok_insert _ _ x).
    + apply on_stream_inv in Hd as (x & x' & Hx & Hf & ->). unfold move in Hf. case_match; [|done]. injection Hf as <-.
      destruct (Forall2_lookup_r _ _ _ _ _ (ag_params _ _ Ha1) Hx) as (p & Hp & Hpx).
      apply (agrees_insert s1 _ _ _ x _ p p); try done; [apply Ha1|]. by rewrite list_insert_id.
    + by destruct Ha1.
  - rewrite D2. by destruct (on_stream _ _ _).
  - by apply (same_sound_trans s s1).
  - by apply (page_only_trans s s1 w w1 w2); [apply Hsame|..].
Qed.

Lemma accepted_configure b p f c fmt r : let ps := mkParams b p f c (PcmFormat_as_u8 fmt) (PcmRate_as_u8 r) in
  ∀ st, configure ps st = accepted fmt r ps st.
Proof.
  cbv zeta. intros st. unfold configure, accepted, supports. cbn [p_format p_rate p_channels].
  by rewrite format_bit, rate_bit, !andb_assoc.
Qed.

Lemma bad_period b p : fits 32 b → fits 32 p →
  (p =? 0) || (b <? p) || negb (b mod p =? 0) = negb (bool_decide (0 < p ≤ b ∧ b mod p = 0)).
Proof.
  intros Hb Hp. unfold fits in *. destruct (Z.eqb_spec p 0) as [->|Hp0]; cbn [orb].
  { by rewrite bool_decide_eq_false_2 by lia. }
  destruct (Z.ltb_spec b p); cbn [orb]; [by rewrite bool_decide_eq_false_2 by lia|].
  destruct (Z.eqb_spec (b mod p) 0); [by rewrite bool_decide_eq_true_2 by lia|by rewrite bool_decide_eq_false_2 by lia].
Qed.

Lemma set_params_simulates id b p f c fmt r : simulates (OpSetParams id b p f c fmt r).
Proof.
  intros s w rest Hs (Hid & Hb & Hp & Hf & Hc). cbn [exec mixer_op].
  destruct (ensure_run s w rest Hs) as (s1 & w1 & E1 & [Hc1 Hm1 Ha1] & Hup & Hsame & P1 & D1).
  unfold as_reply, pcm_set_params. rewrite bad_period by done. case_bool_decide as Hper; cbn [negb].
  2:{ exists s1, w1. split_and!; try done. erewrite bind_val by (mstep; reflexivity). done. }
  set (ps := mkParams b p f c (PcmFormat_as_u8 fmt) (PcmRate_as_u8 r)).
  destruct (change_run (VirtIOSndPcmSetParams_as_bytes (CommandCode_as_u32 RPcmSetParams) id b p f c
    (PcmFormat_as_u8 fmt) (PcmRate_as_u8 r)) (on_stream (dstate w1) id (configure ps)) s1 w1 rest
    Hc1 ltac:(done) ltac:(by apply answer_set)) as (s2 & w2 & E2 & Hc2 & (t & q & ->) & P2 & D2).
  rewrite D1 in *. assert (on_stream (dstate w) id (accepted fmt r ps) = on_stream (dstate w) id (configure ps)) as ->.
  { unfold on_stream. destruct (mx_streams (dstate w) !! Z.to_nat id) as [st|]; [|done]. cbn [mbind option_bind].
    unfold ps. by rewrite accepted_configure. }
  assert (page_only s w w2) as HP by (by apply (page_only_trans s s1 w w1 w2); [apply Hsame|..]).
  destruct (on_stream (dstate w) id (configure ps)) as [d'|] eqn:Hd; simpl in D2.
  2:{ exists (set_control t q s1), w2. split_and!; try done.
      - erewrite bind_val by (mstep; reflexivity). done.
      - split; rewrite ?D2; try done. by destruct Ha1. }
  apply on_stream_inv in Hd as (x & x' & Hx & Hcf & ->). unfold configure in Hcf. case_match; [|done]. injection Hcf as <-.
  destruct (Forall2_lookup_r _ _ _ _ _ (ag_params _ _ Ha1) Hx) as (pp & Hpp & Hpx).
  set (p' := mkPcmParameters true b p f c fmt r).
  exists (set_pcm_parameters (<[Z.to_nat id := p']> (pcm_parameters s1)) (set_control t q s1)), w2. split_and!; try done.
  - rewrite (bind_val _ _ _ (Ok tt) (set_pcm_parameters (<[Z.to_nat id := p']> (pcm_parameters s1)) (set_control t q s1), w2));
      [reflexivity|]. mstep. change (CommandCode_as_u32 SOk =? _) with true. cbv iota. mstep.
    cbn [fst set_control pcm_parameters].
    rewrite (proj2 (Z.ltb_lt _ _)) by (apply lookup_lt_Some in Hpp; unfold fits in Hid; lia). mstep. reflexivity.
  - split; [by apply (ctl_ok_set (set_control t q s1))|rewrite D2; by apply (mixer_ok_insert _ _ x)|rewrite D2].
    apply (agrees_insert s1 _ _ _ x _ pp p'); try done. apply Ha1.
Qed.

Lemma remap_simulates id a q : simulates (OpRemap id a q).
Proof.
  intros s w rest Hs (Hid & Ha & Hq). cbn [exec mixer_op].
  destruct (ensure_run s w rest Hs) as (s1 & w1 & E1 & [Hc1 Hm1 Ha1] & Hup & Hsame & P1 & D1).
  assert (jacks s1 = Z.of_nat (length (mx_jacks (dstate w)))) as Hj by (rewrite <- D1; apply Ha1).
  assert (jack_infos s1 = Some (mx_jacks (dstate w))) as Hji by (rewrite <- D1; by apply Ha1).
  unfold fits in Hid. unfold as_reply, jack_remap. case_bool_decide as Hlt.
  2:{ exists s1, w1. split_and!; try done. erewrite bind_val; [reflexivity|]. mstep. cbn [fst]. rewrite Hj.
      case_match; [done|]. by rewrite (proj2 (Z.leb_le _ _)) by lia. }
  destruct (lookup_lt_is_Some_2 (mx_jacks (dstate w)) (Z.to_nat id)) as [j Hjj]; [lia|].
  assert (∀ k, (_ ←? ensure_set_up fuel; s ← gets fst;
    if jacks s =? 0 then mret (Err InvalidParam) else if jacks s <=? id then mret (Err InvalidParam) else
    infos ← unwrap (jack_infos s); info ← unwrap (index infos id); (k info : M _ (Result unit))) (s, w) = k j (s1, w1)) as Hk.
  { intros k. mstep. cbn [fst]. rewrite Hj, (proj2 (Z.eqb_neq _ 0)), (proj2 (Z.leb_gt _ _)) by lia. rewrite Hji. mstep.
    unfold index. by rewrite Hjj. }
  unfold remap. rewrite Hjj. destruct (contains (ji_features j) JackFeatures.REMAP) eqn:Hr.
  2:{ exists s1, w1. split_and!; try done. erewrite bind_val; [reflexivity|]. rewrite Hk, Hr. done. }
  destruct (change_run (VirtIOSndJackRemap_as_bytes (CommandCode_as_u32 RJackRemap) id a q) (remap (dstate w1) id a q) s1 w1 rest
    Hc1 ltac:(done) ltac:(by apply answer_remap)) as (s2 & w2 & E2 & Hc2 & (t & q' & ->) & P2 & D2).
  unfold remap in E2, D2. rewrite D1, Hjj, Hr in *. cbv iota in E2. simpl in D2. exists (set_control t q' s1), w2. split_and!; try done.
  - erewrite bind_val; [reflexivity|]. rewrite Hk, Hr. cbn [negb]. by erewrite try_ok by exact E2.
  - split; rewrite ?D2; [done|destruct Hm1; by split|destruct Ha1; by split].
  - by apply (page_only_trans s s1 w w1 w2); [apply Hsame|..].
Qed.

Lemma filter_iff_in {A} (P Q : A → Prop) `{∀ x, Decision (P x), ∀ x, Decision (Q x)} (l : list A) :
  (∀ x, x ∈ l → P x ↔ Q x) → filter P l = filter Q l.
Proof.
  induction l as [|x l IH]; intros E; [done|]. rewrite !filter_cons, IH by (intros; apply E; by right).
  pose proof (E x ltac:(by left)). repeat case_decide; naive_solver.
Qed.

(** The streams of a direction, with the indices counted from [k]. *)
Lemma streams_filter dir (l : list VirtIOSndPcmInfo) : ∀ k : nat,
  Z.of_nat ∘ fst <$> filter (λ p, pi_direction p.2 = dir) (imap (λ i x, ((k + i)%nat, x)) l) =
  filter (λ i, pi_direction <$> l !! Z.to_nat (i - Z.of_nat k) = Some dir) (seqZ (Z.of_nat k) (Z.of_nat (length l))).
Proof.
  induction l as [|x l IH]; intros k; [done|].
  rewrite imap_cons, seqZ_cons by (cbn [length]; lia). rewrite !filter_cons. cbn [fst snd].
  replace (Z.to_nat (Z.of_nat k - Z.of_nat k)) with 0%nat by lia. cbn [lookup list_lookup fmap option_fmap option_map].
  assert (filter (λ i, pi_direction <$> (x :: l) !! Z.to_nat (i - Z.of_nat k) = Some dir)
      (seqZ (Z.succ (Z.of_nat k)) (Z.pred (Z.of_nat (length (x :: l))))) =
    Z.of_nat ∘ fst <$> filter (λ p, pi_direction p.2 = dir) (imap ((λ i x, ((k + i)%nat, x)) ∘ S) l)) as ->.
  { rewrite (imap_ext _ (λ i x, ((S k + i)%nat, x))) by (intros; cbn; f_equal; lia). rewrite (IH (S k)).
    replace (Z.pred _) with (Z.of_nat (length l)) by (cbn [length]; lia). rewrite Nat2Z.inj_succ.
    apply filter_iff_in. intros i Hi%elem_of_seqZ.
    replace (Z.to_nat (i - Z.of_nat k)) with (S (Z.to_nat (i - Z.succ (Z.of_nat k)))) by lia. done. }
  rewrite Nat.add_0_r. repeat case_decide; naive_solver.
Qed.

Lemma streams_of_ids dir d : streams_of dir (st_info <$> mx_streams d) = ids_of dir d.
Proof.
  unfold streams_of, ids_of. etrans; [apply (streams_filter dir _ 0)|]. rewrite length_fmap. apply filter_iff_in.
  intros i _. rewrite Z.sub_0_r, list_lookup_fmap. by destruct (mx_streams d !! Z.to_nat i).
Qed.

(** The operations that only ask for what the set-up has read. *)
Lemma ask_simulates {A} (reply : Result A → reply) (c : M (VirtIOSound T * W) (Result A)) (r : list VirtIOSndPcmInfo → Result A)
    s w rest : snd_ok s w rest →
  (∀ s' w', is_set_up s' = true → pcm_infos s' = Some (st_info <$> mx_streams (dstate w)) →
    fits 32 (Z.of_nat (length (mx_streams (dstate w)))) →
    ensure_set_up fuel (s, w) = (Val (Ok tt), (s', w')) → c (s, w) = (Val (r (st_info <$> mx_streams (dstate w))), (s', w'))) →
  ∃ s' w', as_reply reply c (s, w) = (Val (reply (r (st_info <$> mx_streams (dstate w)))), (s', w')) ∧
    snd_ok s' w' rest ∧ dstate w' = dstate w ∧ same_sound s s' ∧ page_only s w w'.
Proof.
  intros Hs Hc. destruct (ensure_run s w rest Hs) as (s1 & w1 & E1 & Hs1 & Hup & Hsame & P1 & D1).
  exists s1, w1. split_and!; try done. unfold as_reply. erewrite bind_val; [reflexivity|]. apply Hc; try done.
  - rewrite <- D1. by apply Hs1.
  - pose proof (mk_streams_page _ (sk_mixer _ _ _ Hs)) as Hp. unfold fits_page, VirtIOSndHdr_size, PAGE_SIZE in Hp.
    simpl in Hp. unfold fits. lia.
Qed.

Lemma supported_simulates {A} (reply : Result A → reply) (field : VirtIOSndPcmInfo → A) id s w rest : snd_ok s w rest → fits 32 id →
  ∃ s' w', as_reply reply (supported fuel field id) (s, w) = (Val (reply (stream_info (dstate w) id field)), (s', w')) ∧
    snd_ok s' w' rest ∧ dstate w' = dstate w ∧ same_sound s s' ∧ page_only s w w'.
Proof.
  intros Hs Hid. assert (stream_info (dstate w) id field =
    match (st_info <$> mx_streams (dstate w)) !! Z.to_nat id with Some i => Ok (field i) | None => Err InvalidParam end) as ->.
  { unfold stream_info. rewrite list_lookup_fmap. by destruct (mx_streams (dstate w) !! Z.to_nat id). }
  apply (ask_simulates reply _ (λ l, match l !! Z.to_nat id with Some i => Ok (field i) | None => Err InvalidParam end) s w rest Hs).
  intros s1 w1 Hup Hi Hl E1. unfold supported. mstep. cbn [fst]. rewrite Hi. mstep.
  unfold wrap, fits in *. rewrite length_fmap, Z.mod_small by lia.
  destruct (Z.leb_spec (Z.of_nat (length (mx_streams (dstate w)))) id) as [Hle|Hlt].
  - rewrite lookup_ge_None_2 by (rewrite length_fmap; lia). done.
  - destruct (lookup_lt_is_Some_2 (st_info <$> mx_streams (dstate w)) (Z.to_nat id)) as [i Hii]; [rewrite length_fmap; lia|].
    unfold index. rewrite Hii. done.
Qed.

Lemma ids_simulates dir c s w rest : snd_ok s w rest →
  (c = output_streams fuel ∧ dir = VIRTIO_SND_D_OUTPUT ∨ c = input_streams fuel ∧ dir = VIRTIO_SND_D_INPUT) →
  ∃ s' w', as_reply Ids c (s, w) = (Val (Ids (Ok (ids_of dir (dstate w)))), (s', w')) ∧
    snd_ok s' w' rest ∧ dstate w' = dstate w ∧ same_sound s s' ∧ page_only s w w'.
Proof.
  intros Hs Hc. rewrite <- streams_of_ids. apply (ask_simulates Ids _ (λ l, Ok (streams_of dir l)) s w rest Hs).
  intros s1 w1 Hup Hi _ E1. destruct Hc as [[-> ->]|[-> ->]]; unfold output_streams, input_streams; mstep; cbn [fst];
    rewrite Hi; done.
Qed.

Lemma snd_exec_simulates o : simulates o.
Proof.
  destruct o; [apply set_params_simulates|..|].
  all: intros s w rest Hs Ho; cbn [op_ok] in Ho.
  - by apply (pcm_simulates RPcmPrepare).
  - by apply (pcm_simulates RPcmRelease).
  - by apply (pcm_simulates RPcmStart).
  - by apply (pcm_simulates RPcmStop).
  - by apply remap_simulates.
  - apply (ids_simulates VIRTIO_SND_D_OUTPUT); auto.
  - apply (ids_simulates VIRTIO_SND_D_INPUT); auto.
  - by apply (supported_simulates Flags pi_rates).
  - by apply (supported_simulates Flags pi_formats).
  - by apply (supported_simulates Range).
  - by apply (supported_simulates Flags pi_features).
Qed.

Fixpoint exec_all (os : list op) : M (VirtIOSound T * W) (list reply) :=
  match os with
  | [] => mret []
  | o :: os => r ← exec o; rs ← exec_all os; mret (r :: rs)
  end.
Fixpoint mixer_ops (os : list op) (d : Mixer) : list reply * Mixer :=
  match os with
  | [] => ([], d)
  | o :: os => let '(r, d) := mixer_op o d in let '(rs, d) := mixer_ops os d in (r :: rs, d)
  end.

(** C9. Any sequence of control requests of the driver has the replies and the effect of the mixer:
    the streams go through their life cycle, a configuration is accepted when its flags are among
    those the stream supports, the jacks are remapped, and the questions are answered from what
    the device has. The driver sets itself up on the first request and knows the parameters the
    device has accepted; the other queues, the transfers in flight and the memory outside the page
    of the responses are left alone. *)
Theorem sound_refines_mixer os s w rest : snd_ok s w rest → Forall op_ok os → ∃ s' w',
  exec_all os (s, w) = (Val (mixer_ops os (dstate w)).1, (s', w')) ∧ snd_ok s' w' rest ∧
  dstate w' = (mixer_ops os (dstate w)).2 ∧ same_sound s s' ∧ page_only s w w'.
Proof.
  intros Hs Hos. revert s w Hs. induction Hos as [|o os Ho _ IH]; intros s w Hs; [by exists s, w|].
  destruct (snd_exec_simulates o s w rest Hs Ho) as (s1 & w1 & E1 & Hs1 & D1 & S1 & P1).
  destruct (IH s1 w1 Hs1) as (s2 & w2 & E2 & Hs2 & D2 & S2 & P2). rewrite D1 in E2, D2.
  exists s2, w2. simpl. destruct (mixer_op o (dstate w)) as [r d1]. simpl in *.
  destruct (mixer_ops os d1) as [rs d2]. simpl in *. split_and!; try done.
  - erewrite bind_val by exact E1. by erewrite bind_val by exact E2.
  - by apply (same_sound_trans s s1).
  - by apply (page_only_trans s s1 w w1 w2); [apply S1|..].
Qed.
End sound.

(** ** A mixer in the laboratory *)
Section witnesses.
Import Bench Lab FakeTransport.
Abbreviation Studio := (Lab Mixer).

#[local] Instance snd_device : Device Studio := lab_device (λ _, snd_serve).
#[local] Instance snd_server : Server QUEUE_SIZE 1 CONTROL_QUEUE_IDX FakeTransport Studio Mixer :=
  lab_server (λ _, snd_serve) QUEUE_SIZE CONTROL_QUEUE_IDX eq_refl (Z.le_refl _) snd_serve_lengths.

Lemma snd_serves d rs ls : serve d rs ls = snd_serve d rs ls.
Proof. done. Qed.

Definition info0 (dir : Z) : VirtIOSndPcmInfo :=
  mkPcmInfo 0 0 (Z.lor PcmFormats.U8 PcmFormats.S16) PcmRates.RATE_44100 dir 1 2 (replicate 5 0).
Definition mixer0 : Mixer :=
  mkMixer [mkJackInfo 0 JackFeatures.REMAP 0 0 1 (replicate 7 0)]
    [mkStream (info0 VIRTIO_SND_D_OUTPUT) None SetParams; mkStream (info0 VIRTIO_SND_D_INPUT) None SetParams]
    [mkChmapInfo 0 VIRTIO_SND_D_OUTPUT 2 (replicate 18 0)] [].
Definition sound0 : VirtIOSound FakeTransport :=
  mkVirtIOSound (transport0 Sound 4) (indirect0 QUEUE_SIZE CONTROL_QUEUE_IDX)
    (OwningQueue.mkOwningQueue (queue0 QUEUE_SIZE EVENT_QUEUE_IDX) []) (queue0 QUEUE_SIZE TX_QUEUE_IDX)
    (queue0 QUEUE_SIZE RX_QUEUE_IDX) 0 1 2 1 None None None 65536 131072
    [PcmParameters_default; PcmParameters_default] false ∅ [] ∅.

Lemma sound0_ok : snd_ok sound0 (lab0 mixer0) [].
Proof.
  split.
  - split; [by apply queue0_idle|done|done|by apply low_user].
  - split; try done; repeat (apply Forall_cons; split); try apply Forall_nil_2;
      unfold jack_ok, pcm_ok, chmap_ok, compose; cbn; fields.
  - split; [done| |done]. by repeat constructor.
Qed.

(** A stream is set up and started; starting it before it is prepared fails, and so does a format
    that it does not support. *)
Definition ops0 : list op :=
  [OpOutputs; OpFormats 0; OpStart 0; OpSetParams 0 4096 1024 0 2 FLOAT Rate44100;
   OpSetParams 0 4096 1024 0 2 S16 Rate44100; OpPrepare 0; OpStart 0; OpStop 0; OpRelease 0; OpRemap 0 1 2; OpRates 7].

Lemma sound_refines_mixer_witness : ∃ s' w',
  exec_all 2 ops0 (sound0, lab0 mixer0) =
    (Val [Ids (Ok [0]); Flags (Ok 48); Done (Err IoError); Done (Err IoError); Done (Ok tt); Done (Ok tt);
          Done (Ok tt); Done (Ok tt); Done (Ok tt); Done (Ok tt); Flags (Err InvalidParam)], (s', w')) ∧
  snd_ok s' w' [] ∧ dstate w' = (mixer_ops ops0 mixer0).2 ∧ same_sound sound0 s' ∧ page_only sound0 (lab0 mixer0) w'.
Proof.
  apply (sound_refines_mixer 2 snd_serves (le_n 2) ops0 sound0 (lab0 mixer0) []); [exact sound0_ok|].
  by repeat (apply Forall_cons; split).
Defined.
End witnesses.
