(* ===== verification/SoundXfer.v ===== *)
(** * Properties of the sound driver: transfers

    [pcm_xfer] plays the frames: against a device that serves the transmit queue in order, with
    pauses, all periods of the buffer are played, in order and once. *)

From S2P Require Import Prelude Base Transport QueueData Queue DeviceQueue Owning QueueInv QueueLemmas QueueSpec QueueWait.
From S2P Require Import Serve Pipeline Bytes Sound FakeTransport Bench Lab.
Import Sound.

(** ** Chunks *)
Lemma chunks_bound n len i : 0 < n → 0 ≤ len → 0 ≤ i < (len + n - 1) / n → i * n < len.
Proof. intros Hn Hl [_ Hi]. assert (n * ((len + n - 1) / n) ≤ len + n - 1) by (apply Z.mul_div_le; lia). nia. Qed.

Lemma chunks_inside frames n b x : 0 < n → 0 ≤ s_len frames → b ∈ chunks frames n →
  0 < s_len b ≤ n ∧ (in_slice b x → in_slice frames x).
Proof.
  intros Hn Hl (i & -> & Hi%elem_of_seqZ)%list_elem_of_fmap. rewrite Z.add_0_l in Hi.
  pose proof (chunks_bound n (s_len frames) i Hn Hl ltac:(lia)). unfold in_slice. simpl. split; [lia|]. nia.
Qed.

Section bytes.
Context {W : Type} `{DmaSpec W}.

Lemma bytes_of_app (w : W) p n m : 0 ≤ n → 0 ≤ m →
  bytes_of w (mkSlice p n) ++ bytes_of w (mkSlice (p + n) m) = bytes_of w (mkSlice p (n + m)).
Proof.
  intros Hn Hm. rewrite (bytes_of_take w p (n + m) n), (bytes_of_sub w p (n + m) n m) by lia.
  rewrite (firstn_all2 (n := Z.to_nat m)); [apply take_drop|]. rewrite length_drop, bytes_of_length. simpl. lia.
Qed.

(** The chunks are the buffer. *)
Lemma chunks_join (w : W) frames n : 0 < n → 0 ≤ s_len frames →
  mjoin (bytes_of w <$> chunks frames n) = bytes_of w frames.
Proof.
  intros Hn Hl. destruct frames as [p len]. simpl in Hl. unfold chunks. simpl.
  assert (∀ k : nat, Z.of_nat k ≤ (len + n - 1) / n →
    mjoin (bytes_of w <$> ((λ i, mkSlice (p + i * n) (Z.min n (len - i * n))) <$> seqZ 0 (Z.of_nat k))) =
    bytes_of w (mkSlice p (Z.min len (Z.of_nat k * n)))) as Hk.
  { induction k as [|k IH]; intros Hk.
    - rewrite Z.min_r by lia. done.
    - rewrite Nat2Z.inj_succ, <- Z.add_1_r, seqZ_app, !fmap_app by lia. rewrite join_app, IH by lia.
      pose proof (chunks_bound n len (Z.of_nat k) Hn Hl ltac:(lia)) as Hb.
      change (seqZ (0 + Z.of_nat k) 1) with [0 + Z.of_nat k]. cbn [fmap list_fmap mjoin list_join]. rewrite app_nil_r, Z.add_0_l.
      rewrite (Z.min_r len) by lia. rewrite bytes_of_app by lia. do 2 f_equal. lia. }
  assert (0 ≤ (len + n - 1) / n) as Hq by (apply Z.div_pos; lia).
  specialize (Hk (Z.to_nat ((len + n - 1) / n))). rewrite Z2Nat.id in Hk by done. rewrite Hk by lia. do 2 f_equal.
  apply Z.min_l. pose proof (Z.mul_succ_div_gt (len + n - 1) n Hn). nia.
Qed.
End bytes.

(** ** The loop of [pcm_xfer] *)
Section xfer.
Context {N : nat} {T W D : Type} `{InOrder QUEUE_SIZE N TX_QUEUE_IDX T W D} `{Profile} (fuel : nat).

(** The device plays what it is sent, in order, and reports success. *)
Context (played : D → list (Z * list Z)).
Definition ok_status : list Z := le 4 (CommandCode_as_u32 SOk).
Definition plays : Prop := ∀ d id bytes, fits 32 id → ∃ d' st len,
  serve d [le 4 id; bytes] [VirtIOSndPcmStatus_size] = (d', [ok_status ++ st], len) ∧
  played d' = played d ++ [(id, bytes)].
Definition pauses : Prop := ∀ d d', pause d = Some d' → played d' = played d.
Context (Hplays : plays) (Hpauses : pauses).
Implicit Types (s : VirtIOSound T) (w : W).

Lemma on_tx_run {A} (c : M (VQ.VirtQueue * W) A) s w a q' w' : c (tx_queue s, w) = (Val a, (q', w')) →
  on_tx c (s, w) = (Val a, (set_tx (transport s) q' s, w')).
Proof. intros E. unfold on_tx, zoom. simpl. by rewrite E. Qed.

Lemma notify_tx_run s w : tok (transport s) → ∃ t' w', notify_tx (s, w) = (Val tt, (set_tx t' (tx_queue s) s, w')) ∧
  tok t' ∧ held w' ≡ₚ held w ∧ dstate w' = dstate w ∧ (∀ x, own x → byte_at w' x = byte_at w x) ∧
  (∀ g, Share g ∈ held w → view w' g = view w g).
Proof.
  intros Ht. unfold notify_tx. mstep. cbn [fst]. destruct (VQ.should_notify (tx_queue s)).
  - destruct (notify_quiet (transport s) w Ht) as (t' & w' & E & R). exists t', w'. split; [|done].
    unfold on_snd, zoom. simpl. unfold on_snd, zoom. simpl. by rewrite E.
  - exists (transport s), w. split; [by destruct s|done].
Qed.

(** The call: its local variables, its arguments and the state in which it starts. *)
Context (id statuses : Slice) (sid : Z) (all : list Slice) (rest : list Res) (s0 : VirtIOSound T) (w0 : W).
Record call_ok : Prop := {
  co_sid : fits 32 sid;
  co_id : s_len id = 4;
  co_statuses : s_len statuses = QUEUE_SIZE * VirtIOSndPcmStatus_size;
  co_frame : ∀ x, in_slice id x ∨ in_slice statuses x → frame x;
  co_apart : disjoint id statuses;
  co_all : Forall user_buffer all
}.
Context (Hcall : call_ok).

(** The place of the [i]-th outstanding transfer in the arrays. *)
Definition pos (x : Xfer) (i : nat) : Z := (xfer_tail x + Z.of_nat i) mod QUEUE_SIZE.
Definition status_of (x : Xfer) (i : nat) : Slice := status_slot statuses (pos x i).
Definition status_ok w (g : Seg) : Prop := ∃ st, view w g = ok_status ++ st ∧ length st = 4%nat.

(** [l] are the transfers in flight and [bs] their buffers, of which the device has played [u]; the
    buffers [dn] are done. *)
Record flow (x : Xfer) s w (l : list Out) (u : nat) (dn bs : list Slice) : Prop := {
  fw_pipe : pipe QUEUE_SIZE (tx_queue s) w l u rest;
  fw_idx : VQ.queue_idx (tx_queue s) = TX_QUEUE_IDX;
  fw_tok : tok (transport s);
  fw_sound : ∃ t q, s = set_tx t q s0;
  fw_all : all = dn ++ bs ++ remaining_buffers x;
  fw_length : length bs = length l;
  fw_tokens : length (tokens x) = Z.to_nat QUEUE_SIZE;
  fw_buffers : length (buffers x) = Z.to_nat QUEUE_SIZE;
  fw_tail : 0 ≤ xfer_tail x < QUEUE_SIZE;
  fw_head : xfer_head x = pos x (length l);
  fw_outs : ∀ i o b, l !! i = Some o → bs !! i = Some b →
    index (tokens x) (pos x i) = Some (o_token o) ∧ index (buffers x) (pos x i) = Some (Some b) ∧
    seg_item <$> o_segs o = io_items [id; b] [status_of x i];
  fw_done : ∀ i o, (i < u)%nat → l !! i = Some o → Forall (status_ok w) (outs (o_segs o));
  fw_todo : ∀ i o b, (u ≤ i)%nat → l !! i = Some o → bs !! i = Some b →
    view w <$> ins (o_segs o) = [le 4 sid; bytes_of w0 b];
  fw_lists : ∀ i o, l !! i = Some o → list_seen w (out_req o);
  fw_played : played (dstate w) = played (dstate w0) ++ ((λ b, (sid, bytes_of w0 b)) <$> dn ++ take u bs);
  fw_mem : ∀ a, own a → ¬ frame a → byte_at w a = byte_at w0 a;
  fw_id : bytes_of w id = le 4 sid
}.

Lemma pos_range x i : 0 ≤ pos x i < QUEUE_SIZE.
Proof. apply Z.mod_pos_bound. done. Qed.

Lemma pos_ne x i j : (i < j)%nat → Z.of_nat j - Z.of_nat i < QUEUE_SIZE → pos x i ≠ pos x j.
Proof.
  intros Hij Hd E. unfold pos in E. assert ((Z.of_nat j - Z.of_nat i) mod QUEUE_SIZE = 0) as Hz.
  { replace (Z.of_nat j - Z.of_nat i) with ((xfer_tail x + Z.of_nat j) - (xfer_tail x + Z.of_nat i)) by lia.
    by rewrite Zminus_mod, E, Z.sub_diag. }
  rewrite Z.mod_small in Hz by lia. lia.
Qed.

Lemma status_inside i a : 0 ≤ i < QUEUE_SIZE → in_slice (status_slot statuses i) a → in_slice statuses a.
Proof.
  intros Hi. unfold in_slice. rewrite (co_statuses Hcall). unfold status_slot. simpl.
  change VirtIOSndPcmStatus_size with 8. unfold QUEUE_SIZE in *. lia.
Qed.

Lemma status_apart i j : 0 ≤ i → 0 ≤ j → i ≠ j → disjoint (status_slot statuses i) (status_slot statuses j).
Proof.
  intros Hi Hj Hne a. unfold in_slice, status_slot. simpl. change VirtIOSndPcmStatus_size with 8. lia.
Qed.

(** A transfer has three buffers. *)
Lemma transfer_segs segs b st : seg_item <$> segs = io_items [id; b] [st] → ∃ p1 p2 p3,
  segs = [(p1, id, DriverToDevice); (p2, b, DriverToDevice); (p3, st, DeviceToDriver)].
Proof.
  rewrite io_items_eq. simpl. intros E. destruct segs as [|[[p1 b1] d1] [|[[p2 b2] d2] [|[[p3 b3] d3] [|]]]]; try done.
  injection E as -> -> -> -> -> ->. by exists p1, p2, p3.
Qed.

Lemma transfer_ok b i : b ∈ all → 0 ≤ i < QUEUE_SIZE → ∀ segs, seg_item <$> segs = io_items [id; b] [status_slot statuses i] →
  Forall seg_ok segs.
Proof.
  intros Hb Hi segs (p1 & p2 & p3 & ->)%transfer_segs. pose proof (co_all Hcall) as Ha. rewrite Forall_forall in Ha.
  destruct (Ha b Hb) as [Hl Ho]. repeat apply Forall_cons_2; [| | |apply Forall_nil_2]; split_and!; simpl; try done; try lia.
  - by rewrite (co_id Hcall).
  - by rewrite (co_id Hcall).
  - intros a Hx. apply frame_own, (co_frame Hcall). by left.
  - intros a Hx. by apply Ho.
  - intros a Hx. apply frame_own, (co_frame Hcall). right. by eapply status_inside.
Qed.

(** The descriptors that a transfer takes. *)
Definition width s : Z := if VQ.indirect (tx_queue s) then 1 else 3.

Lemma flow_num_used x s w l u dn bs : flow x s w l u dn bs → VQ.num_used (tx_queue s) = width s * Z.of_nat (length l).
Proof.
  intros F. rewrite (pipe_num_used QUEUE_SIZE eq_refl _ _ _ _ _ (fw_pipe _ _ _ _ _ _ _ F)).
  pose proof (fw_outs _ _ _ _ _ _ _ F) as Ho. pose proof (fw_length _ _ _ _ _ _ _ F) as Hl. clear F.
  set (f := λ o, slots (VQ.indirect (tx_queue s)) (req_items (out_req o))).
  assert (∀ l : list Out, (∀ i o, l !! i = Some o → length (o_segs o) = 3%nat) →
    Z.of_nat (sum_list (f <$> l)) = width s * Z.of_nat (length l)) as Hs.
  { clear. induction l as [|o l IH]; intros Hl; [simpl; lia|].
    change (sum_list (f <$> o :: l)) with (f o + sum_list (f <$> l))%nat.
    assert (Z.of_nat (f o) = width s) as Hf.
    { unfold f, slots, req_items, width. rewrite length_fmap. fold (o_segs o). rewrite (Hl 0%nat o eq_refl).
      by destruct (VQ.indirect _). }
    rewrite Nat2Z.inj_add, Hf, IH; [simpl length; lia|]. intros i. apply (Hl (S i)). }
  apply Hs. intros i o Hi. destruct (lookup_lt_is_Some_2 bs i) as [b Hb]; [apply lookup_lt_Some in Hi; lia|].
  destruct (Ho i o b Hi Hb) as (_ & _ & E). by destruct (transfer_segs _ _ _ E) as (? & ? & ? & ->).
Qed.

Lemma flow_elem x s w l u dn bs i o : flow x s w l u dn bs → l !! i = Some o → ∃ b, bs !! i = Some b ∧ b ∈ all.
Proof.
  intros F Ho. destruct (lookup_lt_is_Some_2 bs i) as [b Hb].
  { rewrite (fw_length _ _ _ _ _ _ _ F). by eapply lookup_lt_Some. }
  exists b. split; [done|]. rewrite (fw_all _ _ _ _ _ _ _ F). apply list_elem_of_lookup_2 in Hb. set_solver.
Qed.

Lemma flow_bytes x s w l u dn bs b : flow x s w l u dn bs → b ∈ all → bytes_of w b = bytes_of w0 b.
Proof.
  intros F Hb. apply bytes_of_ext. intros a Ha. pose proof (co_all Hcall) as Hu. rewrite Forall_forall in Hu.
  destruct (proj2 (Hu b Hb) a Ha). by apply (fw_mem _ _ _ _ _ _ _ F).
Qed.

(** The transfers share buffers of the program and boxes. *)
Lemma flow_mine x s w l u dn bs i o g : flow x s w l u dn bs → l !! i = Some o → Share g ∈ req_held (out_req o) →
  Share g ∈ held w ∧ mine w g.1.2.
Proof.
  intros F Ho Hg. pose proof (list_elem_of_lookup_2 _ _ _ Ho) as Hin.
  assert (∀ y, y ∈ req_held (out_req o) → y ∈ held w) as Hh by (intros y; eapply pipe_holds; [apply F|done]).
  split; [by apply Hh|]. destruct (flow_elem _ _ _ _ _ _ _ _ _ F Ho) as (b & Hb & Hball).
  destruct (fw_outs _ _ _ _ _ _ _ F i o b Ho Hb) as (_ & _ & Eti).
  pose proof (transfer_ok b _ Hball (pos_range x i) _ Eti) as Hok. rewrite Forall_forall in Hok.
  assert (g ∈ o_segs o → mine w g.1.2) as Hseg by (intros Hs; left; apply (Hok g Hs)).
  unfold o_segs in Hseg. destruct (out_req o) as [c segs|h pa il segs]; cbn [req_held req_segs] in *.
  - apply Hseg. apply list_elem_of_fmap in Hg as (g' & [= ->] & ?). done.
  - apply elem_of_cons in Hg as [?|[[= ->]|Hg]%elem_of_cons]; [done| |].
    + right. apply Hh. by left.
    + apply Hseg. apply list_elem_of_fmap in Hg as (g' & [= ->] & ?). done.
Qed.

(** Changes that the transfers do not see. *)
Lemma flow_quiet x s w w' t q l u dn bs : flow x s w l u dn bs → q = tx_queue s → tok t → held w' ≡ₚ held w →
  played (dstate w') = played (dstate w) → (∀ a, own a → byte_at w' a = byte_at w a) →
  (∀ g, Share g ∈ held w → view w' g = view w g) → flow x (set_tx t q s) w' l u dn bs.
Proof.
  intros F -> Ht Hp Hd Hm Hv. assert (∀ i o g, l !! i = Some o → g ∈ o_segs o → view w' g = view w g) as Hv'.
  { intros i o g Ho Hg. apply Hv. eapply pipe_held; [apply F|by eapply list_elem_of_lookup_2|done]. }
  assert (∀ i o, l !! i = Some o → list_seen w' (out_req o)) as Hls.
  { intros i o Ho. apply (list_seen_view w); [|by apply (fw_lists _ _ _ _ _ _ _ F i)].
    intros g Hg _. apply Hv. by apply (flow_mine _ _ _ _ _ _ _ i o g F). }
  destruct F as [P Hi _ (t0 & q0 & ->) Ha Hl L1 L2 Hta Hhd Ho Hdn Htd _ Hpl Hme Hid]. split; try done.
  - by apply (pipe_world _ w).
  - by eexists _, _.
  - intros i o Hiu Hio. specialize (Hdn i o Hiu Hio). rewrite Forall_forall in *. intros g Hg. unfold status_ok.
    rewrite (Hv' i o) by (done || by apply list_elem_of_filter in Hg as [_ ?]). by apply Hdn.
  - intros i o b Hiu Hio Hb. rewrite <- (Htd i o b) by done. apply list_fmap_ext. intros j g Hg.
    apply (Hv' i o); [done|]. by apply list_elem_of_lookup_2, list_elem_of_filter in Hg as [_ ?].
  - by rewrite Hd.
  - intros a Hoa Hf. by rewrite Hm, Hme.
  - rewrite <- Hid. apply bytes_of_ext. intros a Hin. apply Hm, frame_own, (co_frame Hcall). by left.
Qed.

Lemma advance_pos x i : advance (pos x i) = pos x (S i).
Proof.
  pose proof (pos_range x i) as Hr. unfold advance, pos in *. rewrite Nat2Z.inj_succ.
  replace (xfer_tail x + Z.succ (Z.of_nat i)) with (xfer_tail x + Z.of_nat i + 1) by lia.
  rewrite <- (Zplus_mod_idemp_l (xfer_tail x + Z.of_nat i)).
  destruct (Z.leb_spec QUEUE_SIZE ((xfer_tail x + Z.of_nat i) mod QUEUE_SIZE + 1)) as [Hle|Hlt].
  - replace (_ + 1) with QUEUE_SIZE by lia. done.
  - symmetry. apply Z.mod_small. lia.
Qed.

Definition push (x : Xfer) (n : nat) (o : Out) (b : Slice) (r : list Slice) : Xfer :=
  mkXfer r (<[Z.to_nat (pos x n) := Some b]> (buffers x)) (<[Z.to_nat (pos x n) := o_token o]> (tokens x))
    (advance (pos x n)) (xfer_tail x).

Lemma flow_push x s w l u dn bs b r o q1 w1 : flow x s w l u dn bs → remaining_buffers x = b :: r →
  Z.of_nat (length l) < QUEUE_SIZE → pipe QUEUE_SIZE q1 w1 (l ++ [o]) u rest →
  VQ.queue_idx q1 = VQ.queue_idx (tx_queue s) → VQ.indirect q1 = VQ.indirect (tx_queue s) →
  seg_item <$> o_segs o = io_items [id; b] [status_slot statuses (pos x (length l))] →
  dstate w1 = dstate w → (∀ a, own a → byte_at w1 a = byte_at w a) →
  (∀ g, Share g ∈ held w → mine w g.1.2 → view w1 g = view w g) → list_seen w1 (out_req o) →
  view w1 <$> ins (o_segs o) = [le 4 sid; bytes_of w0 b] →
  flow (push x (length l) o b r) (set_tx (transport s) q1 s) w1 (l ++ [o]) u dn (bs ++ [b]).
Proof.
  intros F Hr Hroom P1 Hq1 Hi1 Hit D1 M1 V1 Lo N1. pose proof (pos_range x) as Hpr.
  assert (∀ i o g, l !! i = Some o → g ∈ o_segs o → view w1 g = view w g) as Hv.
  { intros i o' g Ho' Hg%segs_held. by apply V1; apply (flow_mine _ _ _ _ _ _ _ i o' g F). }
  assert (∀ i o', l !! i = Some o' → list_seen w1 (out_req o')) as Hls.
  { intros i o' Ho'. apply (list_seen_view w); [|by apply (fw_lists _ _ _ _ _ _ _ F i)].
    intros g Hg _. by apply V1; apply (flow_mine _ _ _ _ _ _ _ i o' g F). }
  pose proof (pp_served _ _ _ _ _ _ (fw_pipe _ _ _ _ _ _ _ F)) as Hul.
  destruct F as [P Hi Htk (t0 & q0 & ->) Ha Hl L1 L2 Hta Hhd Ho Hdn Htd _ Hpl Hme Hid].
  assert (∀ i o' b', (l ++ [o]) !! i = Some o' → (bs ++ [b]) !! i = Some b' →
    (l !! i = Some o' ∧ bs !! i = Some b' ∧ (i < length l)%nat) ∨ (i = length l ∧ o' = o ∧ b' = b)) as Hcases.
  { intros i o' b' [[Hlt Ho']|[-> <-]]%lookup_snoc_Some Hb'.
    - left. rewrite lookup_app_l in Hb' by lia. done.
    - right. rewrite <- Hl, lookup_app_r, Nat.sub_diag in Hb' by done. by injection Hb' as <-. }
  split; try done; cbn [push tokens buffers xfer_tail xfer_head remaining_buffers tx_queue set_tx].
  - by rewrite Hq1.
  - by eexists _, _.
  - rewrite Ha, Hr. by rewrite <- !app_assoc.
  - rewrite !length_app, Hl. done.
  - by rewrite length_insert.
  - by rewrite length_insert.
  - rewrite advance_pos, length_app, Nat.add_1_r. done.
  - intros i o' b' Ho' Hb'. change (pos (push x (length l) o b r) i) with (pos x i).
    change (status_of (push x (length l) o b r) i) with (status_of x i).
    destruct (Hcases i o' b' Ho' Hb') as [(Hl1 & Hb1 & Hlt)|(-> & -> & ->)].
    + assert (pos x (length l) ≠ pos x i) by (apply not_eq_sym, pos_ne; lia).
      rewrite !index_insert_ne by (try apply Hpr; done). by apply Ho.
    + rewrite !index_insert_eq; [done|apply (index_lt _ QUEUE_SIZE); done || apply Hpr..].
  - intros i o' Hiu Ho'. rewrite lookup_app_l in Ho' by lia. specialize (Hdn i o' Hiu Ho').
    rewrite Forall_forall in *. intros g Hg. unfold status_ok.
    rewrite (Hv i o') by (done || by apply list_elem_of_filter in Hg as [_ ?]). by apply Hdn.
  - intros i o' b' Hiu Ho' Hb'. destruct (Hcases i o' b' Ho' Hb') as [(Hl1 & Hb1 & Hlt)|(-> & -> & ->)]; [|done].
    rewrite <- (Htd i o' b') by done. apply list_fmap_ext. intros j g Hg.
    apply (Hv i o'); [done|]. by apply list_elem_of_lookup_2, list_elem_of_filter in Hg as [_ ?].
  - intros i o' [[_ Ho']|[_ <-]]%lookup_snoc_Some; [by apply (Hls i)|done].
  - rewrite D1, Hpl, take_app_le by lia. done.
  - intros a Hoa Hf. by rewrite M1, Hme.
  - rewrite <- Hid. apply bytes_of_ext. intros a Hin. apply M1, frame_own, (co_frame Hcall). by left.
Qed.

Lemma tx_same s : set_tx (transport s) (tx_queue s) s = s.
Proof. by destruct s. Qed.

(** The descriptors that [available_desc] gives with [n] transfers in flight. *)
Definition free_descs s (n : Z) : Z :=
  if VQ.indirect (tx_queue s) then if n =? QUEUE_SIZE then 0 else QUEUE_SIZE else QUEUE_SIZE - 3 * n.

Lemma free_descs_room s n : 0 ≤ n → width s * n ≤ QUEUE_SIZE →
  (3 ≤ free_descs s n ↔ width s * n + width s ≤ QUEUE_SIZE).
Proof. unfold free_descs, width, QUEUE_SIZE. destruct (VQ.indirect _); [destruct (Z.eqb_spec n 32)|]; lia. Qed.

Lemma flow_length x s w l u dn bs : flow x s w l u dn bs → width s * Z.of_nat (length l) ≤ QUEUE_SIZE.
Proof.
  intros F. rewrite <- (flow_num_used _ _ _ _ _ _ _ F).
  destruct (pp_inv _ _ _ _ _ _ (fw_pipe _ _ _ _ _ _ _ F)) as [fl I]. rewrite (inv_num _ _ _ _ _ _ I). lia.
Qed.

Lemma available_run x s w l u dn bs : flow x s w l u dn bs →
  on_tx (VQ.available_desc QUEUE_SIZE) (s, w) = (Val (free_descs s (Z.of_nat (length l))), (s, w)).
Proof.
  intros F. rewrite <- (tx_same s) at 3. apply on_tx_run. unfold VQ.available_desc, VQ.getq. mstep. cbn [fst].
  rewrite (flow_num_used _ _ _ _ _ _ _ F). pose proof (flow_length _ _ _ _ _ _ _ F) as Hl. unfold free_descs, width in *.
  destruct (VQ.indirect (tx_queue s)); [by rewrite Z.mul_1_l|]. unfold sub_u. apply arith_fits.
  unfold fits, QUEUE_SIZE in *. lia.
Qed.

(** Another chunk is sent. *)
Lemma flow_add x s w l u dn bs b r : flow x s w l u dn bs → remaining_buffers x = b :: r →
  width s * Z.of_nat (length l) + width s ≤ QUEUE_SIZE → ∃ x' o s' w',
  xfer_add id statuses x (s, w) = (Val (Ok (Some x')), (s', w')) ∧ flow x' s' w' (l ++ [o]) u dn (bs ++ [b]) ∧
  remaining_buffers x' = r ∧ dstate w' = dstate w.
Proof.
  intros F Hr Hroom. pose proof (flow_num_used _ _ _ _ _ _ _ F) as Hnum. pose proof (pos_range x) as Hpr.
  assert (b ∈ all) as Hb by (rewrite (fw_all _ _ _ _ _ _ _ F), Hr; set_solver).
  assert (user_buffer b) as [Hbl Hbo] by (pose proof (co_all Hcall) as Hu; rewrite Forall_forall in Hu; by apply Hu).
  destruct (pipe_add QUEUE_SIZE eq_refl (tx_queue s) w l u rest [id; b] [status_slot statuses (pos x (length l))])
    as (o & q1 & w1 & Eadd & P1 & Hit & Hsh & Hq1 & Hi1); try done; [apply F| | |].
  { rewrite io_items_eq. repeat apply Forall_cons_2; [| | |apply Forall_nil_2]; split_and!; simpl; try done;
      rewrite ?(co_id Hcall); unfold fits; try lia. }
  { rewrite Hnum. unfold width in Hroom. unfold slots, width. rewrite length_io_items. by destruct (VQ.indirect _). }
  pose proof (transfer_ok b _ Hb (Hpr (length l)) _ Hit) as Hok.
  assert (laid_out (out_req o)) as Hlo.
  { eapply (pipe_laid (SIZE := QUEUE_SIZE)); [exact P1|set_solver|].
    by destruct (transfer_segs _ _ _ Hit) as (? & ? & ? & ->). }
  destruct (req_handed (out_req o) w w1 Hok Hlo Hsh) as [Hp1 M1 V1 N1 Lo].
  pose proof (proj1 (req_dstate (out_req o) w w1) Hsh) as D1.
  assert (view w1 <$> ins (o_segs o) = [le 4 sid; bytes_of w0 b]) as Hins.
  { rewrite (ins_views w1 w (o_segs o) Hok N1). rewrite (proj1 (segs_views _ _ _ Hit)). simpl.
    rewrite (fw_id _ _ _ _ _ _ _ F). by rewrite (flow_bytes _ _ _ _ _ _ _ _ F Hb). }
  pose proof (flow_push x s w l u dn bs b r o q1 w1 F Hr ltac:(unfold width, QUEUE_SIZE in *; destruct (VQ.indirect _); lia) P1 Hq1 Hi1 Hit D1 M1 V1 Lo Hins) as F1.
  destruct (notify_tx_run (set_tx (transport s) q1 s) w1 (fw_tok _ _ _ _ _ _ _ F)) as (t2 & w2 & E2 & Ht2 & Hp2 & D2 & M2 & V2).
  exists (push x (length l) o b r), o, (set_tx t2 q1 (set_tx (transport s) q1 s)), w2. split_and!; try done.
  - unfold xfer_add. erewrite bind_val by (by eapply available_run).
    rewrite (proj2 (Z.leb_le 3 _)) by (apply free_descs_room; [lia|by eapply flow_length|done]). rewrite Hr. erewrite try_ok.
    2:{ apply on_tx_run. rewrite (fw_head _ _ _ _ _ _ _ F). exact Eadd. }
    erewrite bind_val by exact E2. unfold push. by rewrite (fw_head _ _ _ _ _ _ _ F).
  - apply (flow_quiet _ (set_tx (transport s) q1 s) w1); try done. by rewrite D2.
  - by rewrite D2.
Qed.

(** The oldest transfer is taken off the queue. *)
Definition pull (x : Xfer) : Xfer :=
  mkXfer (remaining_buffers x) (buffers x) (tokens x) (xfer_head x) (advance (xfer_tail x)).

Lemma pos_zero x : 0 ≤ xfer_tail x < QUEUE_SIZE → pos x 0 = xfer_tail x.
Proof. intros Ht. unfold pos. rewrite Z.add_0_r. by apply Z.mod_small. Qed.

Lemma pos_pull x i : 0 ≤ xfer_tail x < QUEUE_SIZE → pos (pull x) i = pos x (S i).
Proof.
  intros Ht. unfold pull, pos at 1. simpl. rewrite <- (pos_zero x Ht), advance_pos. unfold pos.
  rewrite Zplus_mod_idemp_l. f_equal. lia.
Qed.

Lemma status_word w' g b : bytes_of w' b = ok_status ++ g → s_len b = 8 →
  of_le (bytes_of w' (mkSlice (s_ptr b) 4)) = CommandCode_as_u32 SOk.
Proof.
  intros Hb Hl. destruct b as [p n]. cbn [s_len s_ptr] in *. subst n. rewrite (bytes_of_take w' p 8 4), Hb by lia.
  change (Z.to_nat 4) with (length ok_status). by rewrite take_app_length.
Qed.

Lemma flow_pull x s w o l u dn b bs q1 w1 : flow x s w (o :: l) (S u) dn (b :: bs) →
  pipe QUEUE_SIZE q1 w1 l u rest → VQ.queue_idx q1 = VQ.queue_idx (tx_queue s) → VQ.indirect q1 = VQ.indirect (tx_queue s) →
  dstate w1 = dstate w → (∀ a, own a → ¬ in_slice statuses a → byte_at w1 a = byte_at w a) →
  (∀ o' g, o' ∈ l → Share g ∈ req_held (out_req o') → view w1 g = view w g) →
  flow (pull x) (set_tx (transport s) q1 s) w1 l u (dn ++ [b]) bs.
Proof.
  intros F P1 Hq1 Hi1 D1 M1 V1.
  destruct F as [P Hi Htk (t0 & q0 & ->) Ha Hl L1 L2 Hta Hhd Ho Hdn Htd Hls Hpl Hme Hid].
  assert (∀ i o', l !! i = Some o' → ∀ g, g ∈ o_segs o' → view w1 g = view w g) as Hv.
  { intros i o' Ho' g Hg%segs_held. by eapply V1; [eapply list_elem_of_lookup_2|]. }
  split; try done; cbn [pull tokens buffers xfer_head remaining_buffers tx_queue set_tx].
  - by rewrite Hq1.
  - by eexists _, _.
  - rewrite Ha. simpl. by rewrite <- app_assoc.
  - simpl in Hl. lia.
  - cbn [pull xfer_tail]. rewrite <- (pos_zero x Hta), advance_pos. apply pos_range.
  - rewrite Hhd. simpl length. symmetry. by apply pos_pull.
  - intros i o' b' Ho' Hb'. unfold status_of. rewrite pos_pull by done. by apply (Ho (S i) o' b').
  - intros i o' Hiu Ho'. specialize (Hdn (S i) o' ltac:(lia) Ho').
    rewrite Forall_forall in *. intros g Hg. unfold status_ok.
    rewrite (Hv i o') by (done || by apply list_elem_of_filter in Hg as [_ ?]). by apply Hdn.
  - intros i o' b' Hiu Ho' Hb'. rewrite <- (Htd (S i) o' b') by (done || lia). apply list_fmap_ext. intros j g Hg.
    apply (Hv i o'); [done|]. by apply list_elem_of_lookup_2, list_elem_of_filter in Hg as [_ ?].
  - intros i o' Ho'. apply (list_seen_view w); [|by apply (Hls (S i))]. intros g Hg _.
    by eapply V1; [eapply list_elem_of_lookup_2|].
  - rewrite D1, Hpl. simpl. by rewrite <- app_assoc.
  - intros a Hoa Hf. rewrite M1, Hme; [done..|]. intros Hin. apply Hf, (co_frame Hcall). by right.
  - rewrite <- Hid. apply bytes_of_ext. intros a Hin. apply M1; [apply frame_own, (co_frame Hcall); by left|].
    intros Hst. by apply (co_apart Hcall a).
Qed.

Lemma flow_pop x s w o l u dn b bs : flow x s w (o :: l) (S u) dn (b :: bs) → ∃ s' w',
  xfer_pop id statuses x (s, w) = (Val (Ok (pull x)), (s', w')) ∧ flow (pull x) s' w' l u (dn ++ [b]) bs ∧ dstate w' = dstate w.
Proof.
  intros F. pose proof (fw_pipe _ _ _ _ _ _ _ F) as P. pose proof (fw_tail _ _ _ _ _ _ _ F) as Hta.
  destruct (fw_outs _ _ _ _ _ _ _ F 0%nat o b eq_refl eq_refl) as (Etok & Ebuf & Hit). unfold status_of in Hit.
  rewrite (pos_zero x Hta) in *. set (st := status_slot statuses (xfer_tail x)) in *.
  destruct (flow_elem _ _ _ _ _ _ _ 0%nat o F eq_refl) as (b' & Hb' & Hball). injection Hb' as <-.
  pose proof (transfer_ok b _ Hball Hta _ Hit) as Hok. pose proof (segs_views _ _ _ Hit) as [_ Eouts].
  destruct (pipe_pop QUEUE_SIZE eq_refl (tx_queue s) w o l u rest [id; b] [st] P Hit)
    as (len & q1 & w1 & Epop & P1 & Hun & Hq1 & Hi1).
  pose proof (fw_done _ _ _ _ _ _ _ F 0%nat o ltac:(lia) eq_refl) as Hst. rewrite Forall_forall in Hst.
  assert (held w ≡ₚ req_held (out_req o) ++ live_held (out_map l) ++ rest) as Hheld.
  { destruct (pp_inv _ _ _ _ _ _ P) as [fl I]. pose proof (pp_nodup _ _ _ _ _ _ P) as Hn.
    rewrite (inv_held _ _ _ _ _ _ I), (live_held_delete _ (o_token o) (out_req o)) by (apply out_map_lookup; [done|by left]).
    rewrite fmap_cons in Hn. apply NoDup_cons in Hn as [Hn _]. rewrite out_map_tail by done. by rewrite <- app_assoc. }
  assert (disjoint_all (seg_slice <$> outs (o_segs o))) as Hdis by (rewrite Eouts; by split).
  assert (∀ g, g ∈ outs (o_segs o) → g.1.2 = st) as Eg.
  { intros g Hg. apply (list_elem_of_fmap_2 seg_slice) in Hg. rewrite Eouts in Hg. by apply list_elem_of_singleton in Hg. }
  assert (∀ g, g ∈ outs (o_segs o) → length (view w g) = Z.to_nat (s_len g.1.2)) as Hlen.
  { intros g Hg. destruct (Hst g Hg) as (y & Hv & Hl'). rewrite (Eg g Hg), Hv, length_app, Hl'. done. }
  assert (laid_out (out_req o)) as Hlo.
  { eapply (pipe_laid (SIZE := QUEUE_SIZE)); [exact P|by left|]. by destruct (transfer_segs _ _ _ Hit) as (? & ? & ? & ->). }
  destruct (req_taken (out_req o) w w1 _ Hok Hlo Hdis Hlen Hheld Hun) as [Hp1 V1 M1 B1].
  pose proof (proj2 (req_dstate (out_req o) w w1) Hun) as D1.
  exists (set_tx (transport s) q1 s), w1. split_and!; [|apply (flow_pull x s w o); try done|done].
  - unfold xfer_pop. mstep. cbn [fst]. rewrite (pipe_can_pop QUEUE_SIZE eq_refl _ _ _ _ _ P). cbn [negb Nat.eqb].
    rewrite Etok. mstep. rewrite Ebuf. mstep. erewrite try_ok by (apply on_tx_run; exact Epop).
    erewrite bind_val by (apply on_snd_val, mem_read_spec).
    change (status_slot statuses (xfer_tail x)) with st. fold (bytes_of w1 (mkSlice (s_ptr st) 4)).
    assert (∃ g, g ∈ outs (o_segs o)) as [g Hg] by (destruct (outs (o_segs o)) as [|g ?]; [done|exists g; by left]).
    destruct (Hst g Hg) as (y & Hv & _).
    rewrite (status_word w1 y st); [done| |done]. by rewrite <- (Eg g Hg), (B1 g Hg), Hv.
  - intros a Hoa Hn. apply M1; [done|]. intros g Hg. rewrite (Eg g Hg). intros Hin. by apply Hn, (status_inside (xfer_tail x)).
  - intros o' g Ho' Hg. apply V1. apply elem_of_app. left.
    rewrite (live_held_delete _ _ _ (out_map_lookup l o' (pp_nodup _ _ _ _ _ _ P1) Ho')), elem_of_app. by left.
Qed.

(** ** The device plays *)
Lemma flow_rest x s w l dn bs : flow x s w l (length l) dn bs → on_tx VQ.spin (s, w) = (Val tt, (s, w)).
Proof.
  intros F. replace (s, w) with (set_tx (transport s) (tx_queue s) s, w) at 2 by (by destruct s).
  apply on_tx_run. eapply (pipe_rest (idx := TX_QUEUE_IDX)); [apply F|apply F].
Qed.

(** The buffers of the other transfers are apart from the status of one. *)
Lemma transfers_apart x s w l u dn bs i j oi oj gi : flow x s w l u dn bs → l !! i = Some oi → l !! j = Some oj → i ≠ j →
  gi ∈ o_segs oi → ∀ gj, gj ∈ outs (o_segs oj) → disjoint gi.1.2 gj.1.2.
Proof.
  intros F Hi Hj Hne Hgi gj Hgj. pose proof (pos_range x) as Hpr.
  destruct (flow_elem _ _ _ _ _ _ _ _ _ F Hi) as (bi & Hbi & Hball). destruct (flow_elem _ _ _ _ _ _ _ _ _ F Hj) as (bj & Hbj & _).
  destruct (fw_outs _ _ _ _ _ _ _ F i oi bi Hi Hbi) as (_ & _ & Eti). destruct (fw_outs _ _ _ _ _ _ _ F j oj bj Hj Hbj) as (_ & _ & Etj).
  pose proof (segs_views _ _ _ Etj) as [_ Eo]. apply (list_elem_of_fmap_2 seg_slice) in Hgj. rewrite Eo in Hgj.
  apply list_elem_of_singleton in Hgj. change (gj.1.2) with (seg_slice gj). rewrite Hgj. clear Hgj Eo.
  destruct (pp_inv _ _ _ _ _ _ (fw_pipe _ _ _ _ _ _ _ F)) as [fl I].
  pose proof (pipe_length QUEUE_SIZE eq_refl _ _ _ _ _ fl (fw_pipe _ _ _ _ _ _ _ F) I) as Hlen.
  pose proof (lookup_lt_Some _ _ _ Hi). pose proof (lookup_lt_Some _ _ _ Hj).
  destruct (transfer_segs _ _ _ Eti) as (p1 & p2 & p3 & E). rewrite E in Hgi. unfold status_of.
  assert (user_buffer bi) as [_ Hu] by (pose proof (co_all Hcall) as Hu; rewrite Forall_forall in Hu; by apply Hu).
  repeat (apply elem_of_cons in Hgi as [->|Hgi]); [..|by apply not_elem_of_nil in Hgi]; simpl.
  - intros a Ha Hb. apply (co_apart Hcall a); [done|]. by eapply status_inside.
  - intros a Ha Hb. apply (Hu a Ha), (co_frame Hcall). right. by eapply status_inside.
  - apply status_apart; [apply Hpr|apply Hpr|]. destruct (decide (i < j)%nat); [|apply not_eq_sym]; apply pos_ne; lia.
Qed.

(** The device plays one more transfer. *)
Lemma flow_serve x s w l u dn bs o b q1 w1 len : flow x s w l u dn bs → l !! u = Some o → bs !! u = Some b →
  pipe QUEUE_SIZE q1 w1 l (S u) rest → VQ.queue_idx q1 = VQ.queue_idx (tx_queue s) → VQ.indirect q1 = VQ.indirect (tx_queue s) →
  serve (dstate w) (view w <$> ins (o_segs o)) (s_len <$> (seg_slice <$> outs (o_segs o))) =
    (dstate w1, view w1 <$> outs (o_segs o), len) →
  (∀ a, own a → (∀ g, g ∈ outs (o_segs o) → ¬ in_slice g.1.2 a) → byte_at w1 a = byte_at w a) →
  (∀ g, Share g ∈ held w → (∀ g', g' ∈ outs (o_segs o) → disjoint g.1.2 g'.1.2) → view w1 g = view w g) →
  flow x (set_tx (transport s) q1 s) w1 l (S u) dn bs.
Proof.
  intros F Hu Hb P1 Hq1 Hi1 Es M1 V1. pose proof (pos_range x) as Hpr.
  destruct (fw_outs _ _ _ _ _ _ _ F u o b Hu Hb) as (_ & _ & Eti). pose proof (segs_views _ _ _ Eti) as [_ Eo].
  assert (∀ g a, g ∈ outs (o_segs o) → in_slice g.1.2 a → in_slice statuses a) as Hin.
  { intros g a Hg. apply (list_elem_of_fmap_2 seg_slice) in Hg. rewrite Eo in Hg. apply list_elem_of_singleton in Hg.
    change (g.1.2) with (seg_slice g). rewrite Hg. by apply status_inside. }
  assert (∀ i o' g, l !! i = Some o' → i ≠ u → g ∈ o_segs o' → view w1 g = view w g) as Hv.
  { intros i o' g Ho' Hne Hg. apply V1; [|by eapply transfers_apart].
    eapply pipe_held; [apply F|by eapply list_elem_of_lookup_2|done]. }
  assert (∀ i o', l !! i = Some o' → list_seen w1 (out_req o')) as Hls.
  { intros i o' Ho'. pose proof (fw_lists _ _ _ _ _ _ _ F i o' Ho') as Hl. destruct (out_req o') as [|h pa il segs] eqn:Eq; [done|].
    destruct Hl as [Hn Hl]. split; [done|]. rewrite V1; [done| |].
    - apply (flow_mine _ _ _ _ _ _ _ i o' (pa, list_slice il, DriverToDevice) F Ho'). rewrite Eq. right. by left.
    - intros g Hg a Ha1 Ha2. apply (Hn a Ha1), frame_own, (co_frame Hcall). right. by apply (Hin g). }
  rewrite (fw_todo _ _ _ _ _ _ _ F u o b (le_n u) Hu Hb), Eo in Es.
  pose proof (serve_lengths (dstate w) [le 4 sid; bytes_of w0 b] (s_len <$> [status_of x u])) as Hlen.
  destruct (Hplays (dstate w) sid (bytes_of w0 b) (co_sid Hcall)) as (d' & st & len' & Ep & Hpl').
  change (s_len <$> [status_of x u]) with [VirtIOSndPcmStatus_size] in Es, Hlen. rewrite Ep in Es, Hlen.
  simpl in Hlen. injection Hlen as Hlen. injection Es as Ed Ev _.
  destruct F as [P Hi Htk (t0 & q0 & ->) Ha Hl L1 L2 Hta Hhd Ho Hdn Htd _ Hpl Hme Hid].
  split; try done; cbn [tx_queue set_tx].
  - by rewrite Hq1.
  - by eexists _, _.
  - intros i o' Hiu Ho'. destruct (decide (i = u)) as [->|Hne].
    + rewrite Hu in Ho'. injection Ho' as <-. apply Forall_forall. intros g Hg.
      apply (list_elem_of_fmap_2 (view w1)) in Hg. rewrite <- Ev in Hg. apply list_elem_of_singleton in Hg.
      exists st. split; [done|]. change (Z.to_nat VirtIOSndPcmStatus_size) with 8%nat in Hlen. lia.
    + specialize (Hdn i o' ltac:(lia) Ho'). rewrite Forall_forall in *. intros g Hg. unfold status_ok.
      rewrite (Hv i o') by (done || by apply list_elem_of_filter in Hg as [_ ?]). by apply Hdn.
  - intros i o' b' Hiu Ho' Hb'. rewrite <- (Htd i o' b') by (done || lia). apply list_fmap_ext. intros j g Hg.
    apply (Hv i o'); [done|lia|]. by apply list_elem_of_lookup_2, list_elem_of_filter in Hg as [_ ?].
  - rewrite <- Ed, Hpl', Hpl, (take_S_r bs u b) by done. by rewrite !fmap_app, <- !app_assoc.
  - intros a Hoa Hf. rewrite M1, Hme; [done..|]. intros g Hg Hia. apply Hf, (co_frame Hcall). right. by apply (Hin g).
  - rewrite <- Hid. apply bytes_of_ext. intros a Hia. apply M1; [apply frame_own, (co_frame Hcall); by left|].
    intros g Hg Hga. apply (co_apart Hcall a); [done|]. by apply (Hin g).
Qed.

Lemma flow_step x s w l u dn bs o : flow x s w l u dn bs → l !! u = Some o → ∃ u' s' w',
  on_tx VQ.spin (s, w) = (Val tt, (s', w')) ∧ flow x s' w' l u' dn bs ∧
  (u' = u ∧ (lag (dstate w') < lag (dstate w))%nat ∨ u' = S u).
Proof.
  intros F Hu. destruct (flow_elem _ _ _ _ _ _ _ _ _ F Hu) as (b & Hb & Hball).
  destruct (fw_outs _ _ _ _ _ _ _ F u o b Hu Hb) as (_ & _ & Eti). pose proof (segs_views _ _ _ Eti) as [_ Eo].
  pose proof (transfer_ok b _ Hball (pos_range x u) _ Eti) as Hok.
  destruct (pipe_step (SIZE := QUEUE_SIZE) (idx := TX_QUEUE_IDX) eq_refl (tx_queue s) w l u o rest)
    as (u' & q1 & w1 & Esp & P1 & Hst & Hp & Hq1 & Hi1 & _);
    [apply F|apply F|done|done|by rewrite Eo|by eapply fw_lists|..].
  { by destruct (transfer_segs _ _ _ Eti) as (? & ? & ? & ->). }
  { by destruct (transfer_segs _ _ _ Eti) as (? & ? & ? & ->). }
  exists u', (set_tx (transport s) q1 s), w1. unfold stepped in Hst. destruct (pause (dstate w)) as [d'|] eqn:Hpz.
  - destruct Hst as (-> & Hd & Hm & Hv). split_and!; [by apply on_tx_run| |left; split; [done|rewrite Hd; by apply pause_lag]].
    assert (flow x (set_tx (transport s) (tx_queue s) s) w1 l u dn bs) as F1.
    { apply (flow_quiet x s w); try done; [apply F|]. rewrite Hd. by apply Hpauses. }
    destruct F1 as [_ ? ? ? ? ? ? ? ? ? ? ? ? ? ? ? ?]. destruct F as [_ Hi ? (t0 & q0 & ->)]. split; try done; cbn [tx_queue set_tx].
    + by rewrite Hq1.
    + by eexists _, _.
  - destruct Hst as (-> & (len & Es) & Hm & Hv). split_and!; [by apply on_tx_run| |by right].
    by eapply flow_serve.
Qed.

(** ** The loop ends *)

(** The steps that are left: a chunk that is not sent yet is sent, played and taken off the queue, and
    the device pauses before it plays. *)
Definition steps_left (x : Xfer) (l : list Out) (u : nat) w : nat :=
  (N + 3) * length (remaining_buffers x) + (N + 2) * (length l - u) + u + lag (dstate w).

(** The first half of the body: the loop ends when everything is done, and otherwise something is
    outstanding. *)
Lemma first_half x s w l u dn bs : flow x s w l u dn bs →
  (l = [] ∧ remaining_buffers x = [] ∧ xfer_add id statuses x (s, w) = (Val (Ok None), (s, w))) ∨
  ∃ x' s' w' l' bs', xfer_add id statuses x (s, w) = (Val (Ok (Some x')), (s', w')) ∧
    flow x' s' w' l' u dn bs' ∧ l' ≠ [] ∧ (steps_left x' l' u w' ≤ steps_left x l u w)%nat.
Proof.
  intros F. pose proof (available_run _ _ _ _ _ _ _ F) as Hav. pose proof (pp_served _ _ _ _ _ _ (fw_pipe _ _ _ _ _ _ _ F)) as Hu.
  pose proof (free_descs_room s (Z.of_nat (length l)) ltac:(lia) (flow_length _ _ _ _ _ _ _ F)) as Hfree.
  assert (Z.of_nat (length l) ≤ QUEUE_SIZE) as Hlen.
  { pose proof (flow_length _ _ _ _ _ _ _ F). unfold width in *. destruct (VQ.indirect _); lia. }
  destruct (decide (width s * Z.of_nat (length l) + width s ≤ QUEUE_SIZE)) as [Hroom|Hroom].
  - destruct (remaining_buffers x) as [|b r] eqn:Hr.
    + assert (xfer_head x = pos x (length l)) as Hh by apply F. pose proof (fw_tail _ _ _ _ _ _ _ F) as Hta.
      assert (xfer_add id statuses x (s, w) = (Val (Ok (if xfer_head x =? xfer_tail x then None else Some x)), (s, w))) as E.
      { unfold xfer_add. erewrite bind_val by exact Hav. rewrite (proj2 (Z.leb_le 3 _)) by (by apply Hfree). by rewrite Hr. }
      destruct l as [|o l].
      * left. split_and!; try done. rewrite E, Hh. simpl length. rewrite (pos_zero x Hta), Z.eqb_refl. done.
      * right. exists x, s, w, (o :: l), bs. split_and!; try done. rewrite E, (proj2 (Z.eqb_neq _ _)); [done|].
        rewrite Hh, <- (pos_zero x Hta) at 1. apply not_eq_sym, pos_ne; simpl length in *; [lia|].
        unfold width, QUEUE_SIZE in *. destruct (VQ.indirect _); lia.
    + right. destruct (flow_add x s w l u dn bs b r F Hr Hroom) as (x' & o & s' & w' & E & F' & Hr' & Hd).
      exists x', s', w', (l ++ [o]), (bs ++ [b]). split_and!; try done; [by destruct l|].
      unfold steps_left. rewrite Hr', Hr, Hd, length_app. simpl length.
      replace (length l + 1 - u)%nat with (S (length l - u)) by lia. rewrite !Nat.mul_succ_r. lia.
  - right. exists x, s, w, l, bs. split_and!; try done.
    + unfold xfer_add. erewrite bind_val by exact Hav. rewrite (proj2 (Z.leb_gt 3 _)); [done|].
      apply Z.nle_gt. by rewrite Hfree.
    + intros ->. apply Hroom. unfold width. by destruct (VQ.indirect _).
Qed.

(** The second half and the step of the device. *)
Lemma second_half x s w l u dn bs : flow x s w l u dn bs → l ≠ [] → ∃ x' s1 w1 s' w' l' u' dn' bs',
  xfer_pop id statuses x (s, w) = (Val (Ok x'), (s1, w1)) ∧ on_tx VQ.spin (s1, w1) = (Val tt, (s', w')) ∧
  flow x' s' w' l' u' dn' bs' ∧ (steps_left x' l' u' w' < steps_left x l u w)%nat.
Proof.
  intros F Hl. assert (∃ x' s1 w1 l' u1 dn' bs', xfer_pop id statuses x (s, w) = (Val (Ok x'), (s1, w1)) ∧
    flow x' s1 w1 l' u1 dn' bs' ∧ (steps_left x' l' u1 w1 ≤ steps_left x l u w)%nat ∧
    (u1 = length l' → (steps_left x' l' u1 w1 < steps_left x l u w)%nat))
    as (x' & s1 & w1 & l' & u1 & dn' & bs' & E & F1 & Hle & Hlt).
  { pose proof (pp_served _ _ _ _ _ _ (fw_pipe _ _ _ _ _ _ _ F)) as Hu. destruct u as [|u].
    - exists x, s, w, l, 0%nat, dn, bs. split_and!; try done; [|by destruct l].
      unfold xfer_pop. mstep. cbn [fst]. by rewrite (pipe_can_pop QUEUE_SIZE eq_refl _ _ _ _ _ (fw_pipe _ _ _ _ _ _ _ F)).
    - destruct l as [|o l]; [done|]. destruct bs as [|b bs]; [by pose proof (fw_length _ _ _ _ _ _ _ F)|].
      destruct (flow_pop x s w o l u dn b bs F) as (s' & w' & E & F' & Hd).
      exists (pull x), s', w', l, u, (dn ++ [b]), bs. unfold steps_left. rewrite Hd. simpl. split_and!; try done; lia. }
  exists x', s1, w1. destruct (decide (u1 = length l')) as [->|Hne].
  - exists s1, w1, l', (length l'), dn', bs'. split_and!; try done; [by eapply flow_rest|by apply Hlt].
  - pose proof (pp_served _ _ _ _ _ _ (fw_pipe _ _ _ _ _ _ _ F1)) as Hu.
    destruct (lookup_lt_is_Some_2 l' u1) as [o Ho]; [lia|].
    destruct (flow_step x' s1 w1 l' u1 dn' bs' o F1 Ho) as (u' & s' & w' & Es & F' & Hcase).
    exists s', w', l', u', dn', bs'. split_and!; try done. unfold steps_left in *. destruct Hcase as [[-> Hlag]| ->]; [lia|].
    pose proof (lag_bound (dstate w')). replace (length l' - u1)%nat with (S (length l' - S u1)) in Hle by lia.
    rewrite Nat.mul_succ_r in Hle. lia.
Qed.

Lemma xfer_loop_run n : ∀ x s w l u dn bs, flow x s w l u dn bs → (steps_left x l u w < n)%nat → ∃ x' s' w',
  xfer_loop n id statuses x (s, w) = (Val (Ok tt), (s', w')) ∧ flow x' s' w' [] 0 all [].
Proof.
  induction n as [|n IH]; intros x s w l u dn bs F Hn; [lia|]. cbn [xfer_loop].
  destruct (first_half x s w l u dn bs F) as [(-> & Hr & E)|(x1 & s1 & w1 & l1 & bs1 & E & F1 & Hl1 & Hle)].
  - exists x, s, w. erewrite try_ok by exact E. split; [done|]. pose proof (fw_length _ _ _ _ _ _ _ F) as Hbs.
    apply length_zero_iff_nil in Hbs as ->. assert (u = 0)%nat as -> by (pose proof (pp_served _ _ _ _ _ _ (fw_pipe _ _ _ _ _ _ _ F)); simpl in *; lia).
    assert (dn = all) as -> by (pose proof (fw_all _ _ _ _ _ _ _ F) as Ha; by rewrite Hr, !app_nil_r in Ha). done.
  - destruct (second_half x1 s1 w1 l1 u dn bs1 F1 Hl1) as (x2 & s2 & w2 & s3 & w3 & l3 & u3 & dn3 & bs3 & E2 & E3 & F3 & Hlt).
    destruct (IH x2 s3 w3 l3 u3 dn3 bs3 F3 ltac:(lia)) as (x' & s' & w' & E4 & F').
    exists x', s', w'. split; [|done]. erewrite try_ok by exact E. cbv beta iota. erewrite try_ok by exact E2. by erewrite bind_val by exact E3.
Qed.
End xfer.

(** ** [pcm_xfer] *)
Section pcm_xfer.
Context {N : nat} {T W D : Type} `{InOrder QUEUE_SIZE N TX_QUEUE_IDX T W D} `{Profile} (fuel : nat).
Context (played : D → list (Z * list Z)) (Hplays : plays played) (Hpauses : pauses played).
Implicit Types (s : VirtIOSound T) (w : W).

(** The transmit queue between transfers. *)
Record tx_ready s w (rest : list Res) : Prop := {
  tr_idle : idle QUEUE_SIZE (tx_queue s) w rest;
  tr_avail : av_idx (VQ.avail (tx_queue s)) = VQ.avail_idx (tx_queue s);
  tr_idx : VQ.queue_idx (tx_queue s) = TX_QUEUE_IDX;
  tr_tok : tok (transport s)
}.

(** A stream that is set up, and frames in the memory of the program. *)
Record stream_ok s (sid : Z) (p : PcmParameters) (frames : Slice) : Prop := {
  so_set_up : is_set_up s = true;
  so_id : fits 32 sid;
  so_params : index (pcm_parameters s) sid = Some p;
  so_setup : setup p = true;
  so_period : 0 < period_bytes p < 2 ^ 32;
  so_length : 0 ≤ s_len frames;
  so_frames : ∀ x, in_slice frames x → own x ∧ ¬ frame x
}.

Lemma chunks_user s sid p frames : stream_ok s sid p frames → Forall user_buffer (chunks frames (period_bytes p)).
Proof.
  intros [_ _ _ _ Hp Hl Hf]. apply Forall_forall. intros b Hb.
  split; [destruct (chunks_inside frames (period_bytes p) b 0 ltac:(lia) Hl Hb); lia|]. intros x Hx. apply Hf.
  by apply (chunks_inside frames (period_bytes p) b x ltac:(lia) Hl Hb).
Qed.

Lemma flow_start id statuses sid all rest s w : call_ok id statuses sid all → tx_ready s w rest →
  bytes_of w id = le 4 sid → flow played id statuses sid all rest s w (Xfer_new all) s w [] 0 [] [].
Proof.
  intros Hc [Hid Hav Hix Htk] Hb. split; try done.
  - by apply pipe_idle.
  - exists (transport s), (tx_queue s). by destruct s.
  - by rewrite app_nil_r.
Qed.

(** C8. [pcm_xfer] plays the frames: it returns success once the device has played all of them, in
    pieces of at most a period, in order and once, whatever pauses the device makes. The transmit
    queue is then idle again, nothing else of the driver has changed, and neither has the memory
    of the program. The loop needs a bounded number of rounds for each period. *)
Theorem pcm_xfer_plays s w rest sid p frames : tx_ready s w rest → stream_ok s sid p frames →
  Z.of_nat (N + 3) * ((s_len frames + period_bytes p - 1) / period_bytes p) + Z.of_nat N < Z.of_nat fuel →
  ∃ pieces s' w', pcm_xfer fuel sid frames (s, w) = (Val (Ok tt), (s', w')) ∧
    mjoin pieces = bytes_of w frames ∧ Forall (λ b, 0 < Z.of_nat (length b) ≤ period_bytes p) pieces ∧
    played (dstate w') = played (dstate w) ++ ((λ b, (sid, b)) <$> pieces) ∧
    tx_ready s' w' rest ∧ (∃ t q, s' = set_tx t q s) ∧ (∀ x, own x → ¬ frame x → byte_at w' x = byte_at w x).
Proof.
  intros Hr Hs Hfuel. pose proof (chunks_user s sid p frames Hs) as Hu. pose proof Hs as [Hup Hid Hpp Hset Hp Hl Hf].
  destruct (stack_slots_spec [le 4 sid; replicate (Z.to_nat (QUEUE_SIZE * VirtIOSndPcmStatus_size)) 0] w eq_refl)
    as (bs & w0 & E & L & B & Dj & F & P & Q).
  destruct bs as [|a [|b [|]]]; try done. injection L as La Lb. injection B as Ba Bb. destruct Dj as [Dab _].
  rewrite Forall_singleton in Dab. set (all := chunks frames (period_bytes p)) in *.
  assert (call_ok (W := W) a b sid all) as Hc.
  { split; [done|exact La|exact Lb| |exact Dab|exact Hu].
    intros x [Hx|Hx]; [by apply (F a); [left|]|by apply (F b); [right; left|]]. }
  assert (tx_ready s w0 rest) as Hr0 by (destruct Hr; split; try done; by apply (idle_held _ w)).
  destruct (xfer_loop_run played Hplays Hpauses a b sid all rest s w0 Hc fuel (Xfer_new all) s w0 [] 0 [] [])
    as (x' & s' & w' & Erun & Fw); [by apply flow_start| |].
  { unfold steps_left. cbn [remaining_buffers Xfer_new]. unfold all, chunks. rewrite length_fmap, length_seqZ.
    pose proof (lag_bound (dstate w0)). set (K := (s_len frames + period_bytes p - 1) / period_bytes p) in *.
    assert (0 ≤ K) by (apply Z.div_pos; lia).
    assert (Z.of_nat ((N + 3) * Z.to_nat K) = Z.of_nat (N + 3) * K) by (by rewrite Nat2Z.inj_mul, Z2Nat.id).
    change (length (@nil Out)) with 0%nat. rewrite Nat.sub_0_l, Nat.mul_0_r. lia. }
  assert (∀ c, c ∈ all → bytes_of w0 c = bytes_of w c) as Hbytes.
  { intros c Hc'. apply bytes_of_ext. intros x Hx. rewrite Forall_forall in Hu. apply Q; by apply (Hu c Hc'). }
  destruct (idle_pipe _ _ _ _ (fw_pipe _ _ _ _ _ _ _ _ _ _ _ _ _ _ _ Fw)) as [Hidle Hav].
  exists (bytes_of w <$> all), s', w'. split_and!.
  - unfold pcm_xfer, ensure_set_up. erewrite try_ok by (mstep; cbn [fst]; rewrite Hup; reflexivity). mstep. cbn [fst].
    rewrite Hpp. mstep. rewrite Hset. cbn [negb]. rewrite (proj2 (Z.eqb_neq _ 0)) by lia. cbn [negb]. mstep.
    unfold stack_slot2. erewrite bind_val by (apply on_snd_val; by erewrite bind_val by exact E). exact Erun.
  - apply chunks_join; [lia|done].
  - rewrite Forall_fmap, Forall_forall. intros c Hc'. unfold compose. rewrite bytes_of_length.
    destruct (chunks_inside frames (period_bytes p) c 0 ltac:(lia) Hl Hc'). lia.
  - rewrite (fw_played _ _ _ _ _ _ _ _ _ _ _ _ _ _ _ Fw), take_nil, app_nil_r, (stack_quiet _ _ _ _ E). f_equal.
    rewrite <- list_fmap_compose. apply list_fmap_ext. intros i c Hc'. unfold compose.
    by rewrite (Hbytes c) by (by eapply list_elem_of_lookup_2).
  - split; try done; apply Fw.
  - apply Fw.
  - intros x Hx Hnf. rewrite (fw_mem _ _ _ _ _ _ _ _ _ _ _ _ _ _ _ Fw) by done. by apply Q.
Qed.
End pcm_xfer.

(** ** A loudspeaker in the laboratory *)
Section witnesses.
Import Bench Lab FakeTransport.
Definition Speaker : Type := list (Z * list Z).
Abbreviation Hall := (Lab Speaker).

Definition play (d : Speaker) (rs : list (list Z)) (ls : list Z) : Speaker * list (list Z) * Z :=
  (match rs with [id; b] => d ++ [(of_le id, b)] | _ => d end, (λ n, fit n (ok_status ++ le 4 0)) <$> ls, 8).

Lemma play_lengths d rs ls : length <$> (play d rs ls).1.2 = Z.to_nat <$> ls.
Proof. simpl. rewrite <- list_fmap_compose. apply list_fmap_ext. intros. simpl. by rewrite fit_length. Qed.

#[local] Instance hall_device : Device Hall := lab_device (λ _, play).
#[local] Instance hall_server : Server QUEUE_SIZE 1 TX_QUEUE_IDX FakeTransport Hall Speaker :=
  lab_server (λ _, play) QUEUE_SIZE TX_QUEUE_IDX eq_refl (Pos2Z.is_nonneg 2) play_lengths.
#[local] Instance hall_in_order : InOrder QUEUE_SIZE 1 TX_QUEUE_IDX FakeTransport Hall Speaker :=
  lab_in_order (λ _, play) QUEUE_SIZE TX_QUEUE_IDX eq_refl (Pos2Z.is_nonneg 2) play_lengths.

Lemma hall_plays : plays (W := Hall) (λ d : Speaker, d).
Proof.
  intros d id bytes Hid. exists (d ++ [(id, bytes)]), (le 4 0), 8. split; [|done].
  unfold serve, hall_server, lab_server, play. by rewrite of_le_le.
Qed.
Lemma hall_pauses : pauses (W := Hall) (λ d : Speaker, d).
Proof. done. Qed.

Definition params0 : PcmParameters := mkPcmParameters true 64 16 0 1 U8 Rate8000.
Definition xsound0 : VirtIOSound FakeTransport :=
  mkVirtIOSound (transport0 Sound 4) (queue0 QUEUE_SIZE CONTROL_QUEUE_IDX)
    (OwningQueue.mkOwningQueue (queue0 QUEUE_SIZE EVENT_QUEUE_IDX) []) (indirect0 QUEUE_SIZE TX_QUEUE_IDX)
    (queue0 QUEUE_SIZE RX_QUEUE_IDX) 0 0 1 0 (Some []) (Some []) (Some []) 65536 131072
    [params0] true ∅ [] ∅.
Definition frames0 : Slice := mkSlice 200000 40.

Lemma xsound0_ready : tx_ready xsound0 (lab0 []) [].
Proof. split; [by apply queue0_idle|done..]. Qed.
Lemma xsound0_stream : stream_ok (W := Hall) xsound0 0 params0 frames0.
Proof.
  split; try done. intros x Hx. destruct (low_user (D := Speaker) frames0) as [_ Hu]; [done..|]. by apply Hu.
Qed.

(** 40 bytes in periods of 16 bytes. *)
Lemma pcm_xfer_plays_witness : ∃ pieces s' w',
  pcm_xfer 14 0 frames0 (xsound0, lab0 []) = (Val (Ok tt), (s', w')) ∧
  mjoin pieces = bytes_of (lab0 ([] : Speaker)) frames0 ∧ Forall (λ b, 0 < Z.of_nat (length b) ≤ 16) pieces ∧
  ldev w' = (λ b, (0, b)) <$> pieces ∧ tx_ready s' w' [] ∧ (∃ t q, s' = set_tx t q xsound0) ∧
  (∀ x, 0 ≤ x < HEAP → ¬ FRAME ≤ x < FRAME + 2 ^ 33 → lmem w' x = x mod 256).
Proof.
  apply (pcm_xfer_plays 14 (λ d : Speaker, d) hall_plays hall_pauses xsound0 (lab0 []) [] 0 params0 frames0
    xsound0_ready xsound0_stream). done.
Defined.
End witnesses.
