(* ===== verification/RingBuffer.v ===== *)
(** * The receive buffer of a vsock connection

    [src/src/device/socket/connectionmanager.rs], [RingBuffer]: a byte queue in a fixed
    buffer. It is a first-in first-out queue of at most [capacity] bytes. *)

From S2P Require Import Prelude.

Module RingBuffer.

Record RingBuffer := mkRingBuffer { buffer : list Z; used : Z; start : Z }.

Definition new (capacity : Z) : RingBuffer :=
  mkRingBuffer (replicate (Z.to_nat capacity) 0) 0 0.

Definition len (r : RingBuffer) : Z := Z.of_nat (length (buffer r)).
Definition is_empty (r : RingBuffer) : bool := used r =? 0.

Section ops.
Context `{Profile}.

Definition free : M RingBuffer Z :=
  n ← gets len; u ← gets used; sub_u 64 n u.

Definition add (bytes : list Z) : M RingBuffer bool :=
  f ← free;
  if f <? Z.of_nat (length bytes) then mret false else
  st ← gets start; u ← gets used; n ← gets len;
  e ← add_u 64 st u;
  first_available ← rem_u e n;
  room ← sub_u 64 n first_available;
  let copy_length_before_wraparound := Z.min (Z.of_nat (length bytes)) room in
  src ← unwrap (get_range bytes 0 copy_length_before_wraparound);
  b ← gets buffer;
  b ← unwrap (copy_into b first_available src);
  modify (λ r, mkRingBuffer b (used r) (start r));;
  match get_range bytes copy_length_before_wraparound (Z.of_nat (length bytes)) with
  | Some bytes_after_wraparound =>
      b ← unwrap (copy_into b 0 bytes_after_wraparound);
      modify (λ r, mkRingBuffer b (used r) (start r))
  | None => mret tt
  end;;
  u' ← add_u 64 u (Z.of_nat (length bytes));
  modify (λ r, mkRingBuffer (buffer r) u' (start r));;
  mret true.

(** The contents of [out] after the call, and the number of bytes read. *)
Definition drain (out : list Z) : M RingBuffer (list Z * Z) :=
  u ← gets used; n ← gets len; st ← gets start; b ← gets buffer;
  let bytes_read := Z.min u (Z.of_nat (length out)) in
  room ← sub_u 64 n st;
  let read_before_wraparound := Z.min bytes_read room in
  let read_after_wraparound := default 0 (checked_sub bytes_read read_before_wraparound) in
  e ← add_u 64 st read_before_wraparound;
  src ← unwrap (get_range b st e);
  out ← unwrap (copy_into out 0 src);
  src ← unwrap (get_range b 0 read_after_wraparound);
  assert (read_after_wraparound =? bytes_read - read_before_wraparound);;
  out ← unwrap (copy_into out read_before_wraparound src);
  u' ← sub_u 64 u bytes_read;
  modify (λ r, mkRingBuffer (buffer r) u' (start r));;
  e ← add_u 64 st bytes_read;
  st' ← rem_u e n;
  modify (λ r, mkRingBuffer (buffer r) (used r) st');;
  mret (out, bytes_read).
End ops.

(** ** Contents and invariant *)

(** The bytes in the queue, oldest first. *)
Definition contents (r : RingBuffer) : list Z :=
  (λ i, default 0 (index (buffer r) ((start r + i) mod len r))) <$> seqZ 0 (used r).

Record ok (r : RingBuffer) : Prop := {
  ok_cap : 0 < len r < 2 ^ 63;
  ok_used : 0 ≤ used r ≤ len r;
  ok_start : 0 ≤ start r < len r
}.

Lemma new_ok n : 0 < n < 2 ^ 63 → ok (new n) ∧ contents (new n) = [] ∧ len (new n) = n.
Proof.
  intros Hn. assert (len (new n) = n) as Hl by (unfold len; simpl; rewrite length_replicate; lia).
  split_and!; [|done|done]. split; rewrite ?Hl; simpl; lia.
Qed.

Lemma length_contents r : 0 ≤ used r → Z.of_nat (length (contents r)) = used r.
Proof. intros. unfold contents. rewrite length_fmap, length_seqZ. lia. Qed.

Lemma contents_lookup r i : 0 ≤ i < used r →
  contents r !! Z.to_nat i = Some (default 0 (index (buffer r) ((start r + i) mod len r))).
Proof.
  intros Hi. unfold contents. rewrite list_lookup_fmap, lookup_seqZ_lt by lia. simpl.
  do 4 f_equal. lia.
Qed.

(** Two queues whose bytes agree have the same contents. *)
Lemma contents_eq r l : 0 ≤ used r → used r = Z.of_nat (length l) →
  (∀ i, 0 ≤ i < used r → l !! Z.to_nat i = index (buffer r) ((start r + i) mod len r)) →
  contents r = l.
Proof.
  intros H0 Hu Hl. apply list_eq. intros i. destruct (decide (Z.of_nat i < used r)) as [Hi|Hi].
  - rewrite <- (Nat2Z.id i), contents_lookup, <- Hl by lia.
    destruct (lookup_lt_is_Some_2 l i) as [x Hx]; [lia|]. rewrite Nat2Z.id, Hx. done.
  - rewrite !lookup_ge_None_2; [done|lia|].
    pose proof (length_contents r H0). lia.
Qed.

(** The position of the [i]-th byte, without [mod]. *)
Lemma slot_eq r i : ok r → 0 ≤ i < len r →
  (start r + i) mod len r = if decide (start r + i < len r) then start r + i else start r + i - len r.
Proof.
  intros [Hc Hu Hs] Hi. case_decide; [apply Z.mod_small; lia|].
  symmetry. apply (Z.mod_unique _ _ 1); lia.
Qed.

(** ** Runs *)
Section runs.
Context `{Profile}.

(** The buffer after [bytes] have been copied in at [fa], [k] of them before the end. *)
Definition filled (b : list Z) (fa k : Z) (bytes : list Z) : list Z :=
  let b1 := take (Z.to_nat fa) b ++ take (Z.to_nat k) bytes ++
            drop (Z.to_nat fa + length (take (Z.to_nat k) bytes)) b in
  take 0 b1 ++ drop (Z.to_nat k) bytes ++ drop (0 + length (drop (Z.to_nat k) bytes)) b1.

Lemma filled_length b fa k bytes :
  0 ≤ fa → 0 ≤ k ≤ Z.of_nat (length bytes) → fa + k ≤ Z.of_nat (length b) →
  Z.of_nat (length bytes) ≤ Z.of_nat (length b) → length (filled b fa k bytes) = length b.
Proof.
  intros H1 H2 H3 H4. unfold filled.
  rewrite !copied_length; [done|rewrite length_take_le; lia|].
  rewrite copied_length, length_drop; [lia|rewrite length_take_le; lia].
Qed.

Lemma filled_lookup b fa k bytes i :
  0 ≤ fa → 0 ≤ k ≤ Z.of_nat (length bytes) → fa + k ≤ Z.of_nat (length b) →
  Z.of_nat (length bytes) ≤ Z.of_nat (length b) → 0 ≤ i →
  index (filled b fa k bytes) i =
  (if decide (i < Z.of_nat (length bytes) - k) then index bytes (k + i)
   else if decide (fa ≤ i < fa + k) then index bytes (i - fa) else index b i).
Proof.
  intros H1 H2 H3 H4 Hi. unfold filled, index.
  set (b1 := take (Z.to_nat fa) b ++ _).
  assert (length b1 = length b) as L1
    by (unfold b1; rewrite copied_length; [done|rewrite length_take_le; lia]).
  rewrite copied_lookup by (rewrite L1, length_drop; lia).
  rewrite length_drop. repeat case_decide; try lia.
  - rewrite lookup_drop. f_equal. lia.
  - unfold b1. rewrite copied_lookup by (rewrite length_take_le; lia).
    rewrite length_take_le by lia. rewrite decide_True by lia.
    rewrite lookup_take, decide_True by lia. f_equal. lia.
  - unfold b1. rewrite copied_lookup by (rewrite length_take_le; lia).
    rewrite length_take_le by lia. by rewrite decide_False by lia.
Qed.

Lemma add_full_run bytes r : ok r → len r - used r < Z.of_nat (length bytes) →
  add bytes r = (Val false, r).
Proof.
  intros [Hc Hu Hs] Hf. unfold add, free. erewrite bind_val.
  2:{ mstep. apply arith_fits. unfold fits. lia. }
  by rewrite (proj2 (Z.ltb_lt _ _)) by lia.
Qed.

Lemma add_run bytes r : ok r → Z.of_nat (length bytes) ≤ len r - used r →
  let fa := (start r + used r) mod len r in
  let k := Z.min (Z.of_nat (length bytes)) (len r - fa) in
  add bytes r = (Val true,
    mkRingBuffer (filled (buffer r) fa k bytes) (used r + Z.of_nat (length bytes)) (start r)).
Proof.
  intros [Hc Hu Hs] Hf fa k. pose proof (Z.mod_pos_bound (start r + used r) (len r)) as Hfa.
  unfold add, free, rem_u, add_u, sub_u.
  erewrite bind_val by (mstep; apply arith_fits; unfold fits; lia).
  rewrite (proj2 (Z.ltb_ge _ _)) by lia. mstep.
  erewrite bind_val by (apply arith_fits; unfold fits; lia).
  rewrite (proj2 (Z.eqb_neq (len r) 0)) by lia. mstep.
  fold fa in Hfa |- *. cbv beta.
  erewrite bind_val by (apply arith_fits; unfold fits; lia).
  cbv beta zeta. fold k.
  rewrite (get_range_spec bytes 0) by lia. mstep.
  rewrite copy_into_spec by (rewrite ?length_take; unfold len in *; simpl; lia). mstep.
  rewrite (get_range_spec bytes k) by lia. cbv beta iota.
  rewrite (take_ge (drop (Z.to_nat k) bytes)) by (rewrite length_drop; lia).
  rewrite Z.sub_0_r. change (drop (Z.to_nat 0) bytes) with bytes.
  rewrite copy_into_spec.
  2:{ lia. }
  2:{ rewrite copied_length, length_drop; unfold len in *; [|rewrite length_take]; lia. }
  mstep. erewrite bind_val by (apply arith_fits; unfold fits; lia). done.
Qed.

Lemma add_contents bytes r : ok r → Z.of_nat (length bytes) ≤ len r - used r →
  ∃ r', add bytes r = (Val true, r') ∧ ok r' ∧ contents r' = contents r ++ bytes ∧ len r' = len r.
Proof.
  intros Hok Hf. pose proof Hok as [Hc Hu Hs].
  pose proof (add_run bytes r Hok Hf) as Hrun. cbv zeta in Hrun.
  set (fa := (start r + used r) mod len r) in *.
  set (k := Z.min (Z.of_nat (length bytes)) (len r - fa)) in *.
  pose proof (Z.mod_pos_bound (start r + used r) (len r)) as Hfa. fold fa in Hfa.
  set (r' := mkRingBuffer _ _ _) in Hrun. exists r'.
  assert (len r' = len r) as Hl.
  { unfold r', len. simpl. rewrite filled_length; unfold len in *; lia. }
  assert (ok r') as Hok' by (split; rewrite ?Hl; simpl; lia).
  split_and!; try done.
  assert (fa = if decide (start r + used r < len r) then start r + used r
               else start r + used r - len r) as Efa.
  { unfold fa. case_decide; [apply Z.mod_small; lia|]. symmetry. apply (Z.mod_unique _ _ 1); lia. }
  apply contents_eq; [simpl; lia|rewrite length_app; pose proof (length_contents r (proj1 Hu)); simpl; lia|].
  intros i Hi. simpl in Hi. rewrite slot_eq by (try done; rewrite ?Hl; lia). rewrite Hl.
  unfold r'. cbn [start buffer]. clear Hrun Hok' Hl.
  rewrite filled_lookup by (unfold len in *; repeat case_decide; lia).
  pose proof (length_contents r (proj1 Hu)) as Hlc.
  destruct (decide (i < used r)) as [Hlt|Hge].
  - rewrite lookup_app_l by lia. rewrite contents_lookup, slot_eq by (done || lia).
    destruct (lookup_lt_is_Some_2 (buffer r) (Z.to_nat (if decide (start r + i < len r)
      then start r + i else start r + i - len r))) as [x Hx].
    { unfold len in *. repeat case_decide; lia. }
    unfold index at 1. rewrite Hx. simpl. rewrite <- Hx. fold (index (buffer r)
      (if decide (start r + i < len r) then start r + i else start r + i - len r)).
    repeat case_decide; try lia; done.
  - rewrite lookup_app_r by lia. unfold index.
    repeat case_decide; try lia; f_equal; lia.
Qed.

(** The first [n] bytes of the queue, in the two pieces [drain] copies. *)
Lemma contents_take r n : ok r → 0 ≤ n ≤ used r →
  let k := Z.min n (len r - start r) in
  take (Z.to_nat n) (contents r) =
  take (Z.to_nat k) (drop (Z.to_nat (start r)) (buffer r)) ++ take (Z.to_nat (n - k)) (buffer r).
Proof.
  intros Hok Hn k. pose proof Hok as [Hc Hu Hs]. unfold len in Hc, Hu, Hs.
  pose proof (length_contents r (proj1 Hu)) as Hlc.
  apply list_eq. intros j. destruct (decide (Z.of_nat j < n)) as [Hj|Hj].
  2:{ rewrite !lookup_ge_None_2; [done| |]; rewrite ?length_app, ?length_take, ?length_drop; unfold len in *; lia. }
  rewrite lookup_take, decide_True by lia.
  rewrite <- (Nat2Z.id j), contents_lookup, slot_eq by (unfold len; done || lia).
  rewrite lookup_app, lookup_take. unfold index.
  case_decide as Hw.
  - rewrite decide_True by (unfold len in *; lia). rewrite lookup_drop.
    replace (Z.to_nat (start r) + Z.to_nat (Z.of_nat j))%nat with (Z.to_nat (start r + Z.of_nat j)) by lia.
    destruct (lookup_lt_is_Some_2 (buffer r) (Z.to_nat (start r + Z.of_nat j))) as [x Hx];
      [unfold len in *; lia|]. by rewrite Hx.
  - rewrite decide_False by (unfold len in *; lia).
    rewrite lookup_take, decide_True, length_take, length_drop
      by (rewrite length_take, length_drop; unfold len in *; lia).
    replace (Z.to_nat (Z.of_nat j) - Z.to_nat k `min` (length (buffer r) - Z.to_nat (start r)))%nat
      with (Z.to_nat (start r + Z.of_nat j - len r)) by (unfold len in *; lia).
    destruct (lookup_lt_is_Some_2 (buffer r) (Z.to_nat (start r + Z.of_nat j - len r))) as [x Hx];
      [unfold len in *; lia|]. by rewrite Hx.
Qed.

(** Dropping [n] bytes moves the start of the queue. *)
Lemma contents_drop r n : ok r → 0 ≤ n ≤ used r →
  contents (mkRingBuffer (buffer r) (used r - n) ((start r + n) mod len r)) =
  drop (Z.to_nat n) (contents r).
Proof.
  intros Hok Hn. pose proof Hok as [Hc Hu Hs]. pose proof (length_contents r (proj1 Hu)) as Hlc.
  apply list_eq. intros j. rewrite lookup_drop.
  destruct (decide (Z.of_nat j < used r - n)) as [Hj|Hj].
  - rewrite <- (Nat2Z.id j). rewrite contents_lookup by (simpl; lia).
    replace (Z.to_nat n + Z.to_nat (Z.of_nat j))%nat with (Z.to_nat (n + Z.of_nat j)) by lia.
    rewrite contents_lookup by lia. unfold len. simpl. do 3 f_equal.
    fold (len r). rewrite Zplus_mod_idemp_l. f_equal. lia.
  - rewrite !lookup_ge_None_2; [done|lia|].
    pose proof (length_contents (mkRingBuffer (buffer r) (used r - n) ((start r + n) mod len r))) as H1.
    simpl in H1. specialize (H1 ltac:(lia)). lia.
Qed.

(** Copying two consecutive pieces is copying their concatenation. *)
Lemma copied_app {A} (out a b : list A) : (length a + length b ≤ length out)%nat →
  let o1 := take 0 out ++ a ++ drop (0 + length a) out in
  take (length a) o1 ++ b ++ drop (length a + length b) o1 =
  (a ++ b) ++ drop (length a + length b) out.
Proof.
  intros Hl o1. unfold o1. simpl. rewrite take_app_length, <- app_assoc. do 2 f_equal.
  rewrite drop_app_ge by lia. rewrite drop_drop. f_equal. lia.
Qed.

Lemma drain_run out r : ok r →
  let n := Z.min (used r) (Z.of_nat (length out)) in
  let r' := mkRingBuffer (buffer r) (used r - n) ((start r + n) mod len r) in
  drain out r =
    (Val (take (Z.to_nat n) (contents r) ++ drop (Z.to_nat n) out, n), r') ∧ ok r'.
Proof.
  intros Hok n r'. pose proof Hok as [Hc Hu Hs]. pose proof (Z.mod_pos_bound (start r + n) (len r)) as Hm.
  split; [|by split; unfold len in *; simpl; lia].
  rewrite contents_take by (done || lia). set (k := Z.min n (len r - start r)).
  unfold drain, rem_u, add_u, sub_u, checked_sub. mstep. cbv zeta. fold n.
  erewrite bind_val by (apply arith_fits; unfold fits; lia). fold k.
  erewrite bind_val by (apply arith_fits; unfold fits; lia).
  rewrite (proj2 (Z.leb_le _ _)) by lia. cbn [default from_option id].
  rewrite (get_range_spec (buffer r) (start r)) by (unfold len in *; lia). mstep.
  replace (start r + k - start r) with k by lia.
  set (a := take (Z.to_nat k) (drop (Z.to_nat (start r)) (buffer r))).
  assert (length a = Z.to_nat k) as Ha by (unfold a; rewrite length_take, length_drop; unfold len in *; lia).
  rewrite (copy_into_spec out) by lia. mstep.
  rewrite (get_range_spec (buffer r) 0) by (unfold len in *; lia). rewrite Z.sub_0_r. mstep.
  change (drop (Z.to_nat 0) (buffer r)) with (buffer r).
  set (b := take (Z.to_nat (n - k)) (buffer r)).
  assert (length b = Z.to_nat (n - k)) as Hb by (unfold b; rewrite length_take; unfold len in *; lia).
  rewrite Z.eqb_refl. mstep.
  rewrite copy_into_spec; [|lia|rewrite copied_length; lia]. mstep.
  erewrite bind_val by (apply arith_fits; unfold fits; lia). mstep.
  erewrite bind_val by (apply arith_fits; unfold fits; lia).
  rewrite (proj2 (Z.eqb_neq (len r) 0)) by lia. mstep.
  change (Z.to_nat 0) with 0%nat. rewrite <- Ha, (copied_app out a b) by lia.
  by replace (length a + length b)%nat with (Z.to_nat n) by lia.
Qed.

(** ** The bounded queue the buffer implements *)
Inductive call := Add (bytes : list Z) | Drain (out : list Z).
Inductive reply := Added (accepted : bool) | Drained (out : list Z) (bytes_read : Z).

Definition exec (c : call) : M RingBuffer reply :=
  match c with
  | Add bytes => b ← add bytes; mret (Added b)
  | Drain out => o ← drain out; mret (Drained o.1 o.2)
  end.

Fixpoint exec_all (cs : list call) : M RingBuffer (list reply) :=
  match cs with
  | [] => mret []
  | c :: cs => x ← exec c; xs ← exec_all cs; mret (x :: xs)
  end.

(** A queue of at most [cap] bytes: [Add] is all or nothing, [Drain] takes the oldest bytes. *)
Definition spec_exec (cap : Z) (c : call) (q : list Z) : reply * list Z :=
  match c with
  | Add bytes =>
      if decide (Z.of_nat (length q + length bytes) ≤ cap) then (Added true, q ++ bytes)
      else (Added false, q)
  | Drain out =>
      let n := (length q `min` length out)%nat in
      (Drained (take n q ++ drop n out) (Z.of_nat n), drop n q)
  end.

Fixpoint spec_exec_all (cap : Z) (cs : list call) (q : list Z) : list reply * list Z :=
  match cs with
  | [] => ([], q)
  | c :: cs =>
      let '(x, q) := spec_exec cap c q in
      let '(xs, q) := spec_exec_all cap cs q in (x :: xs, q)
  end.

Lemma exec_refines c r : ok r →
  ∃ r', exec c r = (Val (spec_exec (len r) c (contents r)).1, r') ∧ ok r' ∧ len r' = len r ∧
    contents r' = (spec_exec (len r) c (contents r)).2.
Proof.
  intros Hok. pose proof (length_contents r (proj1 (ok_used _ Hok))) as Hlc.
  destruct c as [bytes|out]; simpl.
  - case_decide as Hd.
    + destruct (add_contents bytes r Hok) as (r' & Hr & Hok' & Hc & Hl); [lia|].
      exists r'. rewrite (bind_val _ _ _ _ _ Hr). done.
    + exists r. rewrite (bind_val _ _ _ _ _ (add_full_run bytes r Hok ltac:(lia))). done.
  - destruct (drain_run out r Hok) as [Hr Hok']. cbv zeta in Hr, Hok'.
    eexists. rewrite (bind_val _ _ _ _ _ Hr). pose proof (ok_used _ Hok).
    replace (length (contents r) `min` length out)%nat
      with (Z.to_nat (Z.min (used r) (Z.of_nat (length out)))) by lia.
    split_and!; [|done|done|by apply contents_drop; [|lia]].
    unfold mret, M_ret. simpl. repeat f_equal. lia.
Qed.

Lemma exec_all_refines cs r : ok r →
  ∃ r', exec_all cs r = (Val (spec_exec_all (len r) cs (contents r)).1, r') ∧ ok r' ∧
    len r' = len r ∧ contents r' = (spec_exec_all (len r) cs (contents r)).2.
Proof.
  revert r. induction cs as [|c cs IH]; intros r Hok; simpl; [by exists r|].
  destruct (exec_refines c r Hok) as (r1 & Hr1 & Hok1 & Hl1 & Hc1).
  destruct (IH r1 Hok1) as (r2 & Hr2 & Hok2 & Hl2 & Hc2).
  rewrite Hl1, Hc1 in *. exists r2. rewrite (bind_val _ _ _ _ _ Hr1), (bind_val _ _ _ _ _ Hr2).
  destruct (spec_exec _ _ _) as [x q]. simpl in *.
  destruct (spec_exec_all _ _ _) as [xs q']. done.
Qed.

(** C23. A receive buffer of any non-zero capacity is a bounded first-in first-out queue: any
    sequence of [add]s and [drain]s on a new buffer returns, without panicking, what the
    abstract queue of [capacity] bytes returns, and holds the same bytes. *)
Theorem ring_buffer_fifo capacity cs : 0 < capacity < 2 ^ 63 →
  ∃ r, exec_all cs (new capacity) = (Val (spec_exec_all capacity cs []).1, r) ∧
    contents r = (spec_exec_all capacity cs []).2.
Proof.
  intros Hc. destruct (new_ok capacity Hc) as (Hok & Hnil & Hl).
  destruct (exec_all_refines cs (new capacity) Hok) as (r & Hr & _ & _ & Hq).
  rewrite Hnil, Hl in *. eauto.
Qed.

End runs.

Section witnesses.
#[local] Instance checked : Profile := {| overflow_checks := true; debug_assertions := true |}.

Lemma ring_buffer_fifo_witness :
  let cs := [Add [1; 2; 3]; Drain [0; 0]; Add [4; 5; 6]; Add [7]; Drain [0; 0; 0]] in
  spec_exec_all 4 cs [] =
    ([Added true; Drained [1; 2] 2; Added true; Added false; Drained [3; 4; 5] 3], [6]) ∧
  ∃ r, exec_all cs (new 4) = (Val (spec_exec_all 4 cs []).1, r) ∧
    contents r = (spec_exec_all 4 cs []).2.
Proof. intros cs. split; [reflexivity|]. apply (ring_buffer_fifo 4 cs). lia. Defined.
End witnesses.
End RingBuffer.
