(* ===== verification/VsockProtocol.v ===== *)
(** * The vsock wire protocol

    [src/src/device/socket/protocol.rs]: packet headers, operations and feature bits, and the
    connection bookkeeping and events of [src/src/device/socket/vsock.rs] built on them
    ([ConnectionInfo], [VsockEvent], [read_header_and_body]), with the connection record of
    [src/src/device/socket/connectionmanager.rs], which an event may carry. *)

From S2P Require Import Prelude Base Transport Bytes RingBuffer.

Definition VMADDR_CID_HOST : Z := 2.

(** [SocketType], a [repr(u16)] enum. *)
Inductive SocketType := Stream | SeqPacket.
Definition SocketType_as_u16 (t : SocketType) : Z := match t with Stream => 1 | SeqPacket => 2 end.

Record VsockAddr := mkVsockAddr { cid : Z; port : Z }.

#[global] Instance VsockAddr_eq_dec : EqDecision VsockAddr.
Proof. solve_decision. Defined.

(** ** Headers *)
Module VirtioVsockHdr.

Record VirtioVsockHdr := mkHdr {
  src_cid : Z;
  dst_cid : Z;
  src_port : Z;
  dst_port : Z;
  len : Z;
  socket_type : Z;
  op : Z;
  flags : Z;
  buf_alloc : Z;
  fwd_cnt : Z
}.

#[global] Instance VirtioVsockHdr_eq_dec : EqDecision VirtioVsockHdr.
Proof. solve_decision. Defined.

(** [Default]: a stream packet, everything else 0. *)
Definition default : VirtioVsockHdr := mkHdr 0 0 0 0 0 (SocketType_as_u16 Stream) 0 0 0 0.

(** The widths of the fields: [U64], [U64], [U32], [U32], [U32], [U16], [U16], [U32], [U32], [U32]. *)
Definition layout : list nat := [8; 8; 4; 4; 4; 2; 2; 4; 4; 4]%nat.
Definition size_of : Z := 44.

Definition as_bytes (h : VirtioVsockHdr) : list Z :=
  encode_fields layout
    [src_cid h; dst_cid h; src_port h; dst_port h; len h; socket_type h; op h; flags h;
     buf_alloc h; fwd_cnt h].

(** [read_from_prefix(buffer).0]: [None] when the buffer is too short. *)
Definition read_from_prefix (buffer : list Z) : option VirtioVsockHdr :=
  if Z.of_nat (length buffer) <? size_of then None else
  match decode_fields layout buffer with
  | [a; b; c; d; e; f; g; h; i; j] => Some (mkHdr a b c d e f g h i j)
  | _ => None
  end.

Definition source (h : VirtioVsockHdr) : VsockAddr := mkVsockAddr (src_cid h) (src_port h).
Definition destination (h : VirtioVsockHdr) : VsockAddr := mkVsockAddr (dst_cid h) (dst_port h).

Definition check_data_is_empty (h : VirtioVsockHdr) : result unit SocketError :=
  if len h =? 0 then Ok tt else Err UnexpectedDataInPacket.

(** The struct updates [VirtioVsockHdr { op, .. }], [{ op, len, .. }] and [{ op, flags, .. }]. *)
Definition with_op (o : Z) (h : VirtioVsockHdr) : VirtioVsockHdr :=
  mkHdr (src_cid h) (dst_cid h) (src_port h) (dst_port h) (len h) (socket_type h) o (flags h)
    (buf_alloc h) (fwd_cnt h).
Definition with_len (n : Z) (h : VirtioVsockHdr) : VirtioVsockHdr :=
  mkHdr (src_cid h) (dst_cid h) (src_port h) (dst_port h) n (socket_type h) (op h) (flags h)
    (buf_alloc h) (fwd_cnt h).
Definition with_flags (f : Z) (h : VirtioVsockHdr) : VirtioVsockHdr :=
  mkHdr (src_cid h) (dst_cid h) (src_port h) (dst_port h) (len h) (socket_type h) (op h) f
    (buf_alloc h) (fwd_cnt h).

End VirtioVsockHdr.
Abbreviation VirtioVsockHdr := VirtioVsockHdr.VirtioVsockHdr.

(** ** Operations *)
Module VirtioVsockOp.

Inductive VirtioVsockOp :=
| Invalid | Request | Response | Rst | Shutdown | Rw | CreditUpdate | CreditRequest.

#[global] Instance VirtioVsockOp_eq_dec : EqDecision VirtioVsockOp.
Proof. solve_decision. Defined.

Definition as_u16 (o : VirtioVsockOp) : Z :=
  match o with
  | Invalid => 0 | Request => 1 | Response => 2 | Rst => 3 | Shutdown => 4 | Rw => 5
  | CreditUpdate => 6 | CreditRequest => 7
  end.

Definition try_from (v : Z) : result VirtioVsockOp SocketError :=
  match v with
  | 0 => Ok Invalid
  | 1 => Ok Request
  | 2 => Ok Response
  | 3 => Ok Rst
  | 4 => Ok Shutdown
  | 5 => Ok Rw
  | 6 => Ok CreditUpdate
  | 7 => Ok CreditRequest
  | _ => Err (UnknownOperation v)
  end.

End VirtioVsockOp.
Abbreviation VirtioVsockOp := VirtioVsockOp.VirtioVsockOp.

(** The feature bits of the vsock device, and the hints of a shutdown request. *)
Module VsockFeature.
Definition STREAM : Z := Z.shiftl 1 0.
Definition SEQ_PACKET : Z := Z.shiftl 1 1.
Definition all : Z := Z.lor (Z.lor STREAM SEQ_PACKET) Transport.Feature.all.
End VsockFeature.

Module StreamShutdown.
Definition RECEIVE : Z := Z.shiftl 1 0.
Definition SEND : Z := Z.shiftl 1 1.
End StreamShutdown.

(** ** Connection bookkeeping *)
Module ConnectionInfo.

Record ConnectionInfo := mkInfo {
  dst : VsockAddr;
  src_port : Z;
  peer_buf_alloc : Z;
  peer_fwd_cnt : Z;
  tx_cnt : Z;
  buf_alloc : Z;
  fwd_cnt : Z;
  has_pending_credit_request : bool
}.

Definition new (destination : VsockAddr) (src_port : Z) : ConnectionInfo :=
  mkInfo destination src_port 0 0 0 0 0 false.

Definition set_peer (alloc fwd : Z) (i : ConnectionInfo) : ConnectionInfo :=
  mkInfo (dst i) (src_port i) alloc fwd (tx_cnt i) (buf_alloc i) (fwd_cnt i)
    (has_pending_credit_request i).
Definition set_tx_cnt (v : Z) (i : ConnectionInfo) : ConnectionInfo :=
  mkInfo (dst i) (src_port i) (peer_buf_alloc i) (peer_fwd_cnt i) v (buf_alloc i) (fwd_cnt i)
    (has_pending_credit_request i).
Definition set_buf_alloc (v : Z) (i : ConnectionInfo) : ConnectionInfo :=
  mkInfo (dst i) (src_port i) (peer_buf_alloc i) (peer_fwd_cnt i) (tx_cnt i) v (fwd_cnt i)
    (has_pending_credit_request i).
Definition set_fwd_cnt (v : Z) (i : ConnectionInfo) : ConnectionInfo :=
  mkInfo (dst i) (src_port i) (peer_buf_alloc i) (peer_fwd_cnt i) (tx_cnt i) (buf_alloc i) v
    (has_pending_credit_request i).
Definition set_pending (v : bool) (i : ConnectionInfo) : ConnectionInfo :=
  mkInfo (dst i) (src_port i) (peer_buf_alloc i) (peer_fwd_cnt i) (tx_cnt i) (buf_alloc i)
    (fwd_cnt i) v.

Definition done_forwarding (length : Z) (i : ConnectionInfo) : ConnectionInfo :=
  set_fwd_cnt (wrapping_add 32 (fwd_cnt i) (wrap 32 length)) i.

Definition peer_free (i : ConnectionInfo) : Z :=
  let outstanding := wrapping_sub 32 (tx_cnt i) (peer_fwd_cnt i) in
  saturating_sub (peer_buf_alloc i) outstanding.

Definition new_header (i : ConnectionInfo) (src_cid : Z) : VirtioVsockHdr :=
  let d := VirtioVsockHdr.default in
  VirtioVsockHdr.mkHdr src_cid (cid (dst i)) (src_port i) (port (dst i))
    (VirtioVsockHdr.len d) (VirtioVsockHdr.socket_type d) (VirtioVsockHdr.op d)
    (VirtioVsockHdr.flags d) (buf_alloc i) (fwd_cnt i).

End ConnectionInfo.
Abbreviation ConnectionInfo := ConnectionInfo.ConnectionInfo.

(** ** Connections *)
Module Connection.

Record Connection := mkConnection {
  info : ConnectionInfo;
  buffer : RingBuffer.RingBuffer;
  peer_requested_shutdown : bool
}.

Definition new (peer : VsockAddr) (local_port buffer_capacity : Z) : Connection :=
  mkConnection (ConnectionInfo.set_buf_alloc buffer_capacity (ConnectionInfo.new peer local_port))
    (RingBuffer.new buffer_capacity) false.

Definition set_info (v : ConnectionInfo) (c : Connection) : Connection :=
  mkConnection v (buffer c) (peer_requested_shutdown c).
Definition set_buffer (v : RingBuffer.RingBuffer) (c : Connection) : Connection :=
  mkConnection (info c) v (peer_requested_shutdown c).
Definition set_shutdown (v : bool) (c : Connection) : Connection :=
  mkConnection (info c) (buffer c) v.

End Connection.
Abbreviation Connection := Connection.Connection.

(** ** Events *)
Module DisconnectReason.
Inductive DisconnectReason := Reset | Shutdown.

#[global] Instance DisconnectReason_eq_dec : EqDecision DisconnectReason.
Proof. solve_decision. Defined.
End DisconnectReason.
Abbreviation DisconnectReason := DisconnectReason.DisconnectReason.

Module VsockEventType.
Inductive VsockEventType :=
| ConnectionRequest
| Connected
| Disconnected (reason : DisconnectReason)
| Received (length : Z)
| CreditRequest
| CreditUpdate.

#[global] Instance VsockEventType_eq_dec : EqDecision VsockEventType.
Proof. solve_decision. Defined.
End VsockEventType.
Abbreviation VsockEventType := VsockEventType.VsockEventType.

Record VsockBufferStatus := mkStatus { buffer_allocation : Z; forward_count : Z }.

Module VsockEvent.

Record VsockEvent := mkEvent {
  source : VsockAddr;
  destination : VsockAddr;
  buffer_status : VsockBufferStatus;
  event_type : VsockEventType;
  new_connection : option Connection
}.

Definition set_new_connection (v : option Connection) (e : VsockEvent) : VsockEvent :=
  mkEvent (source e) (destination e) (buffer_status e) (event_type e) v.

Definition matches_connection (e : VsockEvent) (i : ConnectionInfo) (guest_cid : Z) : bool :=
  bool_decide (source e = ConnectionInfo.dst i) && (cid (destination e) =? guest_cid) &&
  (port (destination e) =? ConnectionInfo.src_port i).

Definition from_header (h : VirtioVsockHdr) : Result VsockEvent :=
  match VirtioVsockOp.try_from (VirtioVsockHdr.op h) with
  | Err e => Err (SocketDeviceError e)
  | Ok o =>
    let buffer_status := mkStatus (VirtioVsockHdr.buf_alloc h) (VirtioVsockHdr.fwd_cnt h) in
    let empty (t : VsockEventType) : Result VsockEventType :=
      match VirtioVsockHdr.check_data_is_empty h with
      | Ok _ => Ok t
      | Err e => Err (SocketDeviceError e)
      end in
    let event_type :=
      match o with
      | VirtioVsockOp.Request => empty VsockEventType.ConnectionRequest
      | VirtioVsockOp.Response => empty VsockEventType.Connected
      | VirtioVsockOp.CreditUpdate => empty VsockEventType.CreditUpdate
      | VirtioVsockOp.Rst | VirtioVsockOp.Shutdown =>
          empty (VsockEventType.Disconnected
            (if bool_decide (o = VirtioVsockOp.Rst) then DisconnectReason.Reset else DisconnectReason.Shutdown))
      | VirtioVsockOp.Rw => Ok (VsockEventType.Received (VirtioVsockHdr.len h))
      | VirtioVsockOp.CreditRequest => empty VsockEventType.CreditRequest
      | VirtioVsockOp.Invalid => Err (SocketDeviceError InvalidOperation)
      end in
    match event_type with
    | Err e => Err e
    | Ok t => Ok (mkEvent (VirtioVsockHdr.source h) (VirtioVsockHdr.destination h)
                   buffer_status t None)
    end
  end.

End VsockEvent.
Abbreviation VsockEvent := VsockEvent.VsockEvent.

(** [ConnectionInfo::update_for_event]. *)
Definition update_for_event (e : VsockEvent) (i : ConnectionInfo) : ConnectionInfo :=
  let i := ConnectionInfo.set_peer (buffer_allocation (VsockEvent.buffer_status e))
             (forward_count (VsockEvent.buffer_status e)) i in
  match VsockEvent.event_type e with
  | VsockEventType.CreditUpdate => ConnectionInfo.set_pending false i
  | _ => i
  end.

Definition read_header_and_body (buffer : list Z) : Result (VirtioVsockHdr * list Z) :=
  match VirtioVsockHdr.read_from_prefix buffer with
  | None => Err (SocketDeviceError BufferTooShort)
  | Some header =>
    let body_length := VirtioVsockHdr.len header in
    match checked_add 64 VirtioVsockHdr.size_of body_length with
    | None => Err (SocketDeviceError InvalidNumber)
    | Some data_end =>
      match get_range buffer VirtioVsockHdr.size_of data_end with
      | None => Err (SocketDeviceError BufferTooShort)
      | Some data => Ok (header, data)
      end
    end
  end.
