(* ===== verification/VsockProps.v ===== *)
(** * Theorems on the vsock protocol

    Packets survive encoding and decoding, decoding any buffer either yields a packet that lies
    within it or an error, and the packets one side builds are the events the other side sees. *)

From S2P Require Import Prelude Base Transport Bytes RingBuffer VsockProtocol.
Module Hdr := VsockProtocol.VirtioVsockHdr.
Module CI := VsockProtocol.ConnectionInfo.

(** The fields of a header are in the range of their types. *)
Definition hdr_ok (h : VirtioVsockHdr) : Prop :=
  fits 64 (Hdr.src_cid h) ∧ fits 64 (Hdr.dst_cid h) ∧ fits 32 (Hdr.src_port h) ∧
  fits 32 (Hdr.dst_port h) ∧ fits 32 (Hdr.len h) ∧ fits 16 (Hdr.socket_type h) ∧
  fits 16 (Hdr.op h) ∧ fits 32 (Hdr.flags h) ∧ fits 32 (Hdr.buf_alloc h) ∧ fits 32 (Hdr.fwd_cnt h).

Lemma as_bytes_length h : Z.of_nat (length (Hdr.as_bytes h)) = Hdr.size_of.
Proof. unfold Hdr.as_bytes. by rewrite encode_fields_length. Qed.

Lemma read_as_bytes h rest : hdr_ok h → Hdr.read_from_prefix (Hdr.as_bytes h ++ rest) = Some h.
Proof.
  intros Hh. unfold Hdr.read_from_prefix. rewrite length_app, Nat2Z.inj_add, as_bytes_length.
  rewrite (proj2 (Z.ltb_ge _ _)) by lia. unfold Hdr.as_bytes.
  rewrite decode_encode; [by destruct h|]. unfold hdr_ok in Hh. destruct_and!.
  repeat constructor; unfold fits in *; simpl; lia.
Qed.

Lemma read_from_prefix_spec buffer : bytes_ok buffer →
  match Hdr.read_from_prefix buffer with
  | None => Z.of_nat (length buffer) < Hdr.size_of
  | Some h => Hdr.size_of ≤ Z.of_nat (length buffer) ∧ hdr_ok h ∧
      Hdr.as_bytes h = take (Z.to_nat Hdr.size_of) buffer
  end.
Proof.
  intros Hb. unfold Hdr.read_from_prefix. destruct (Z.ltb_spec (Z.of_nat (length buffer)) Hdr.size_of) as [|Hle]; [done|].
  pose proof (decode_fields_ok Hdr.layout buffer Hb) as Hok.
  assert (decode_fields Hdr.layout buffer = decode_fields Hdr.layout (take (Z.to_nat Hdr.size_of) buffer)) as Et.
  { simpl. repeat (rewrite ?drop_drop, ?drop_take_drop, ?take_take, ?skipn_firstn_comm; simpl). done. }
  pose proof (encode_decode Hdr.layout (take (Z.to_nat Hdr.size_of) buffer)) as Hrt.
  rewrite <- Et in Hrt. unfold Hdr.layout in *. cbn [decode_fields] in *.
  split; [done|]. split; [|apply Hrt; [by apply Forall_take|rewrite length_take_le; unfold Hdr.size_of in *; simpl; lia]].
  specialize (Hok ltac:(unfold Hdr.size_of in *; simpl; lia)).
  unfold hdr_ok. repeat match goal with H : fields_ok _ _ |- _ => inversion H; clear H; subst
    | H : Forall2 _ _ _ |- _ => inversion H; clear H; subst end. unfold fits. simpl. repeat split; lia.
Qed.

Lemma read_packet h body rest : hdr_ok h → Hdr.len h = Z.of_nat (length body) →
  read_header_and_body (Hdr.as_bytes h ++ body ++ rest) = Ok (h, body).
Proof.
  intros Hh Hl. unfold read_header_and_body. rewrite read_as_bytes by done.
  assert (fits 32 (Hdr.len h)) as [Hl0 Hl1] by apply Hh.
  unfold checked_add. rewrite (proj2 (Z.ltb_lt _ _)) by (unfold Hdr.size_of; lia).
  pose proof (as_bytes_length h) as Hlen.
  rewrite get_range_spec by (rewrite ?length_app; unfold Hdr.size_of in *; lia).
  rewrite drop_app_length' by lia. rewrite take_app_length' by lia. done.
Qed.

Section theorems.

(** C32. A packet round trip: the header and the body that were sent are read back from any
    receive buffer that starts with them, whatever follows. *)
Theorem packet_roundtrip h body rest : hdr_ok h → Hdr.len h = Z.of_nat (length body) →
  read_header_and_body (Hdr.as_bytes h ++ body ++ rest) = Ok (h, body).
Proof. apply read_packet. Qed.

(** C31. Reading any buffer a device returned: a header and a body that are exactly the bytes of
    the buffer, when the buffer holds a header and the length in it does not exceed the rest;
    else [BufferTooShort]. The check of the addition never fails. *)
Theorem read_header_and_body_spec buffer : bytes_ok buffer →
  match read_header_and_body buffer with
  | Ok (h, body) => hdr_ok h ∧ Hdr.len h = Z.of_nat (length body) ∧
      ∃ rest, buffer = Hdr.as_bytes h ++ body ++ rest
  | Err e => e = SocketDeviceError BufferTooShort ∧
      (Z.of_nat (length buffer) < Hdr.size_of ∨
       ∃ h, hdr_ok h ∧ Hdr.as_bytes h = take (Z.to_nat Hdr.size_of) buffer ∧
         Z.of_nat (length buffer) < Hdr.size_of + Hdr.len h)
  end.
Proof.
  intros Hb. pose proof (read_from_prefix_spec buffer Hb) as Hp. unfold read_header_and_body.
  destruct (Hdr.read_from_prefix buffer) as [h|]; [|by auto]. destruct Hp as (Hle & Hh & Ht).
  assert (fits 32 (Hdr.len h)) as [Hl0 Hl1] by apply Hh.
  unfold checked_add. rewrite (proj2 (Z.ltb_lt _ _)) by (unfold Hdr.size_of; lia).
  unfold get_range. rewrite (proj2 (Z.leb_le _ _)) by lia. cbn [andb].
  destruct (Z.leb_spec (Hdr.size_of + Hdr.len h) (Z.of_nat (length buffer))) as [Hle2|Hlt]; [|by eauto 10].
  split_and!; [done|rewrite length_take_le, ?length_drop; rewrite ?length_drop; unfold Hdr.size_of in *; lia|].
  exists (drop (Z.to_nat (Hdr.len h)) (drop (Z.to_nat Hdr.size_of) buffer)).
  replace (Hdr.size_of + Hdr.len h - Hdr.size_of) with (Hdr.len h) by lia.
  by rewrite Ht, !take_drop.
Qed.

(** The event of each operation. *)
Definition event_of (o : VirtioVsockOp) (n : Z) : Result VsockEventType :=
  match o with
  | VirtioVsockOp.Invalid => Err (SocketDeviceError InvalidOperation)
  | VirtioVsockOp.Rw => Ok (VsockEventType.Received n)
  | o =>
    if n =? 0 then
      Ok match o with
         | VirtioVsockOp.Request => VsockEventType.ConnectionRequest
         | VirtioVsockOp.Response => VsockEventType.Connected
         | VirtioVsockOp.Rst => VsockEventType.Disconnected DisconnectReason.Reset
         | VirtioVsockOp.Shutdown => VsockEventType.Disconnected DisconnectReason.Shutdown
         | VirtioVsockOp.CreditUpdate => VsockEventType.CreditUpdate
         | _ => VsockEventType.CreditRequest
         end
    else Err (SocketDeviceError UnexpectedDataInPacket)
  end.

(** What one side sends is what the other sees: a packet built from a connection's state
    with the operation [o] and the length [n] is the event of [o] at the peer, from the
    connection's own address to the peer's, with the connection's buffer status; only data
    packets may carry data, and an operation code out of range is an error. *)
Theorem sent_event (i : ConnectionInfo) cid' (o : VirtioVsockOp) n f :
  VsockEvent.from_header (Hdr.with_flags f (Hdr.with_len n
    (Hdr.with_op (VirtioVsockOp.as_u16 o) (CI.new_header i cid')))) =
    (match event_of o n with
     | Ok t => Ok (VsockEvent.mkEvent (mkVsockAddr cid' (CI.src_port i)) (CI.dst i)
                    (mkStatus (CI.buf_alloc i) (CI.fwd_cnt i)) t None)
     | Err e => Err e
     end) ∧
  (∀ v, 8 ≤ v → VsockEvent.from_header (Hdr.with_op v (CI.new_header i cid')) =
    Err (SocketDeviceError (UnknownOperation v))).
Proof.
  split.
  - unfold VsockEvent.from_header, Hdr.check_data_is_empty. simpl.
    destruct (CI.dst i) as [c p] eqn:Ed.
    assert (Hdr.destination (Hdr.with_flags f (Hdr.with_len n
      (Hdr.with_op (VirtioVsockOp.as_u16 o) (CI.new_header i cid')))) = mkVsockAddr c p) as ->
      by (unfold Hdr.destination; simpl; by rewrite Ed).
    destruct o; simpl; try done; by destruct (n =? 0).
  - intros v Hv. unfold VsockEvent.from_header. simpl.
    assert (VirtioVsockOp.try_from v = Err (UnknownOperation v)) as ->; [|done].
    destruct v as [|v|v]; [lia| |lia]. do 3 (destruct v as [v|v|]; try done; try lia).
Qed.

Lemma packet_roundtrip_witness :
  read_header_and_body (Hdr.as_bytes (Hdr.mkHdr 66 2 7 42 3 1 5 0 1024 70000) ++ [1; 2; 3] ++ [9]) =
    Ok (Hdr.mkHdr 66 2 7 42 3 1 5 0 1024 70000, [1; 2; 3]).
Proof.
  apply (packet_roundtrip (Hdr.mkHdr 66 2 7 42 3 1 5 0 1024 70000) [1; 2; 3] [9]); [|reflexivity].
  unfold hdr_ok, fits. simpl. lia.
Defined.

Lemma read_header_and_body_spec_witness :
  read_header_and_body [1; 2; 3] = Err (SocketDeviceError BufferTooShort).
Proof.
  assert (bytes_ok [1; 2; 3]) as Hb by (repeat constructor; lia).
  pose proof (read_header_and_body_spec [1; 2; 3] Hb) as Hs.
  destruct (read_header_and_body [1; 2; 3]) as [[h body]|e] eqn:E; [discriminate E|].
  destruct Hs as [-> _]. reflexivity.
Defined.
Lemma sent_event_witness : VsockEvent.from_header
  (Hdr.with_op 9 (CI.new_header (CI.new (mkVsockAddr 2 42) 7) 66)) =
  Err (SocketDeviceError (UnknownOperation 9)).
Proof. apply (sent_event (CI.new (mkVsockAddr 2 42) 7) 66 VirtioVsockOp.Rw 0 0). lia. Defined.
End theorems.
