(* ===== verification/Vsock.v ===== *)
(** * The vsock driver and device

    [src/src/device/socket/vsock.rs]: the trait [VirtIOSocketManager] with its provided
    methods, the driver [VirtIOSocket] and the device [VirtIOSocketDevice] that implement it.

    A connection is shared: [Arc<Lock<Connection>>] is an index into a store of connections,
    which the connection manager's state holds ([Conns]). Locks are taken and released within
    one call and never nested on the same connection, so that in a sequential run they have no
    effect. *)

From S2P Require Import Prelude Base Transport QueueData Queue DeviceQueue Owning Bytes.
From S2P Require Import Driver RingBuffer VsockProtocol.
Module DQ := DeviceQueue.DeviceVirtQueue.
Module OQ := Owning.OwningQueue.
Import VsockProtocol.

Definition RX_QUEUE_IDX : Z := 0.
Definition TX_QUEUE_IDX : Z := 1.
Definition EVENT_QUEUE_IDX : Z := 2.
Definition QUEUE_SIZE : Z := 8.
Definition SUPPORTED_FEATURES : Z :=
  Z.lor (Z.lor Feature.RING_EVENT_IDX Feature.RING_INDIRECT_DESC) Feature.VERSION_1.
Definition DEFAULT_RX_BUFFER_SIZE : Z := 512.

(** ** Shared connections *)
Abbreviation Arc := nat (only parsing).

(** [VsockConnectionManagerInner], with the store of the connections. *)
Record Conns := mkConns {
  heap : list Connection;
  per_connection_buffer_capacity : Z;
  connections : list Arc;
  listening_ports : list Z
}.

Definition set_heap (v : list Connection) (c : Conns) : Conns :=
  mkConns v (per_connection_buffer_capacity c) (connections c) (listening_ports c).
Definition set_connections (v : list Arc) (c : Conns) : Conns :=
  mkConns (heap c) (per_connection_buffer_capacity c) v (listening_ports c).
Definition set_listening_ports (v : list Z) (c : Conns) : Conns :=
  mkConns (heap c) (per_connection_buffer_capacity c) (connections c) v.

(** [Arc::new(Lock::new(c))]. *)
Definition arc_new (c : Connection) : M Conns Arc :=
  h ← gets heap;
  modify (set_heap (h ++ [c]));;
  mret (length h).
(** [connection.lock()], to read and to write the connection. *)
Definition lock (a : Arc) : M Conns Connection := h ← gets heap; unwrap (h !! a).
Definition lock_set (a : Arc) (c : Connection) : M Conns unit :=
  h ← gets heap; modify (set_heap (<[a := c]> h)).
Definition lock_info (a : Arc) : M Conns ConnectionInfo := c ← lock a; mret (Connection.info c).
Definition modify_info (a : Arc) (f : ConnectionInfo → ConnectionInfo) : M Conns unit :=
  c ← lock a; lock_set a (Connection.set_info (f (Connection.info c)) c).

(** ** The trait [VirtIOSocketManager] *)

(** The slice [&[]]. *)
Definition no_data : Slice := mkSlice 1 0.

Class VirtIOSocketManager (D W : Type) := {
  local_cid : D → Z;
  send_packet_to_queue : VirtioVsockHdr → Slice → M (D * W) (Result unit);
  poll : ∀ {C : Type}, (VsockEvent → list Z → M C (Result (option VsockEvent))) →
    M (C * (D * W)) (Result (option VsockEvent))
}.

Section manager.
Context {D W : Type} `{VirtIOSocketManager D W}.
Abbreviation St := (Conns * (D * W))%type.

Definition accept (info : ConnectionInfo) : M (D * W) (Result unit) :=
  d ← gets fst;
  let header := VirtioVsockHdr.with_op (VirtioVsockOp.as_u16 VirtioVsockOp.Response)
    (ConnectionInfo.new_header info (local_cid d)) in
  send_packet_to_queue header no_data.

Definition request_credit (connection : Arc) : M St (Result unit) :=
  info ← on_fst (lock_info connection);
  d ← gets (λ s, s.2.1);
  let header := VirtioVsockHdr.with_op (VirtioVsockOp.as_u16 VirtioVsockOp.CreditRequest)
    (ConnectionInfo.new_header info (local_cid d)) in
  on_snd (send_packet_to_queue header no_data).

Definition check_peer_buffer_is_sufficient (connection : Arc) (buffer_len : Z)
    : M St (Result Arc) :=
  info ← on_fst (lock_info connection);
  if buffer_len <=? ConnectionInfo.peer_free info then mret (Ok connection)
  else if negb (ConnectionInfo.has_pending_credit_request info) then
    on_fst (modify_info connection (ConnectionInfo.set_pending true));;
    _ ←? request_credit connection;
    mret (Err (SocketDeviceError InsufficientBufferSpaceInPeer))
  else mret (Err (SocketDeviceError InsufficientBufferSpaceInPeer)).

Definition send (buffer : Slice) (connection : Arc) : M St (Result unit) :=
  connection ←? check_peer_buffer_is_sufficient connection (s_len buffer);
  info ← on_fst (lock_info connection);
  d ← gets (λ s, s.2.1);
  let len := wrap 32 (s_len buffer) in
  let header := VirtioVsockHdr.with_len len
    (VirtioVsockHdr.with_op (VirtioVsockOp.as_u16 VirtioVsockOp.Rw)
      (ConnectionInfo.new_header info (local_cid d))) in
  on_fst (modify_info connection (λ i,
    ConnectionInfo.set_tx_cnt (wrapping_add 32 (ConnectionInfo.tx_cnt i) len) i));;
  on_snd (send_packet_to_queue header buffer).

Definition credit_update (connection : Arc) : M St (Result unit) :=
  info ← on_fst (lock_info connection);
  d ← gets (λ s, s.2.1);
  let header := VirtioVsockHdr.with_op (VirtioVsockOp.as_u16 VirtioVsockOp.CreditUpdate)
    (ConnectionInfo.new_header info (local_cid d)) in
  on_snd (send_packet_to_queue header no_data).

Definition shutdown_with_hints (connection : Arc) (hints : Z) : M St (Result unit) :=
  info ← on_fst (lock_info connection);
  d ← gets (λ s, s.2.1);
  let header := VirtioVsockHdr.with_flags hints
    (VirtioVsockHdr.with_op (VirtioVsockOp.as_u16 VirtioVsockOp.Shutdown)
      (ConnectionInfo.new_header info (local_cid d))) in
  on_snd (send_packet_to_queue header no_data).

Definition shutdown (connection : Arc) : M St (Result unit) :=
  shutdown_with_hints connection (Z.lor StreamShutdown.SEND StreamShutdown.RECEIVE).

Definition force_close (connection : Arc) : M St (Result unit) :=
  info ← on_fst (lock_info connection);
  d ← gets (λ s, s.2.1);
  let header := VirtioVsockHdr.with_op (VirtioVsockOp.as_u16 VirtioVsockOp.Rst)
    (ConnectionInfo.new_header info (local_cid d)) in
  _ ←? on_snd (send_packet_to_queue header no_data);
  mret (Ok tt).

(** [VirtIOSocket::connect], which only uses [send_packet_to_tx_queue]. *)
Definition connect (connection : Arc) : M St (Result unit) :=
  info ← on_fst (lock_info connection);
  d ← gets (λ s, s.2.1);
  let header := VirtioVsockHdr.with_op (VirtioVsockOp.as_u16 VirtioVsockOp.Request)
    (ConnectionInfo.new_header info (local_cid d)) in
  on_snd (send_packet_to_queue header no_data).
End manager.

(** The closure both implementations of [poll] pass to their queue. *)
Definition packet_handler {C} (handler : VsockEvent → list Z → M C (Result (option VsockEvent)))
    (buffer : list Z) : M C (Result (option VsockEvent)) :=
  match read_header_and_body buffer with
  | Err e => mret (Err e)
  | Ok (header, body) =>
    match VsockEvent.from_header header with
    | Err e => mret (Err e)
    | Ok event => handler event body
    end
  end.

(** ** The driver *)
Module VirtIOSocket.

Record VirtIOSocket (T : Type) := mkSocket {
  transport : T;
  rx : OQ.OwningQueue;
  tx : VQ.VirtQueue;
  event : VQ.VirtQueue;
  guest_cid : Z
}.
Arguments mkSocket {T} _ _ _ _ _.
Arguments transport {T} _.
Arguments rx {T} _.
Arguments tx {T} _.
Arguments event {T} _.
Arguments guest_cid {T} _.

Section driver.
Context `{Profile} {W T : Type} `{Hal W} `{Allocator W} `{Mem W} `{Stack W} `{Device W}.
Context `{Transport T W}.
Context (RX_BUFFER_SIZE : Z) (fuel : nat).

Definition tx_lens : lens (VirtIOSocket T * W) (VQ.VirtQueue * (T * W)) :=
  {| view := λ s, (tx s.1, (transport s.1, s.2));
     update := λ a s, (mkSocket a.2.1 (rx s.1) a.1 (event s.1) (guest_cid s.1), a.2.2) |}.
Definition rx_lens {C} : lens (C * (VirtIOSocket T * W)) (C * (OQ.OwningQueue * (T * W))) :=
  {| view := λ s, (s.1, (rx s.2.1, (transport s.2.1, s.2.2)));
     update := λ a s,
       (a.1, (mkSocket a.2.2.1 a.2.1 (tx s.2.1) (event s.2.1) (guest_cid s.2.1), a.2.2.2)) |}.

Definition read_guest_cid : M (T * W) (Result Z) :=
  low ←? read_config 4 0;
  high ←? read_config 4 4;
  mret (Ok (Z.lor low (Z.shiftl high 32))).

(** [new]; [transport] is moved into the result. *)
Definition new : M (T * W) (Result (VirtIOSocket T)) :=
  assert (VirtioVsockHdr.size_of <? RX_BUFFER_SIZE);;
  negotiated ←? begin_init VsockFeature.all SUPPORTED_FEATURES;
  cid ←? read_consistent fuel read_guest_cid;
  let indirect := contains negotiated Feature.RING_INDIRECT_DESC in
  let event_idx := contains negotiated Feature.RING_EVENT_IDX in
  rxq ←? VQ.new QUEUE_SIZE RX_QUEUE_IDX indirect event_idx;
  or_drop (VQ.new QUEUE_SIZE TX_QUEUE_IDX indirect event_idx) [rxq] (λ txq,
  or_drop (VQ.new QUEUE_SIZE EVENT_QUEUE_IDX indirect event_idx) [txq; rxq] (λ eventq,
  or_drop (with_queue rxq (OQ.new QUEUE_SIZE RX_BUFFER_SIZE)) [eventq; txq] (λ rxo,
  finish_init;;
  (if OQ.should_notify rxo then notify RX_QUEUE_IDX else mret tt);;
  t ← gets fst;
  mret (Ok (mkSocket t rxo txq eventq cid))))).

(** [Drop]: the queues are unset before their memory is freed. *)
Definition drop (s : VirtIOSocket T) : M (T * W) unit :=
  queue_unset RX_QUEUE_IDX;;
  queue_unset TX_QUEUE_IDX;;
  queue_unset EVENT_QUEUE_IDX;;
  on_snd (OQ.drop RX_BUFFER_SIZE (rx s);; OQ.drop_queue (tx s);; OQ.drop_queue (event s)).

Definition send_packet_to_tx_queue (header : VirtioVsockHdr) (buffer : Slice)
    : M (VirtIOSocket T * W) (Result unit) :=
  h ← on_snd (stack_slot (VirtioVsockHdr.as_bytes header));
  _ ←? (if s_len buffer =? 0
        then zoom tx_lens (VQ.add_notify_wait_pop QUEUE_SIZE fuel [h] [])
        else zoom tx_lens (VQ.add_notify_wait_pop QUEUE_SIZE fuel [h; buffer] []));
  mret (Ok tt).

Definition poll_rx {C} (handler : VsockEvent → list Z → M C (Result (option VsockEvent)))
    : M (C * (VirtIOSocket T * W)) (Result (option VsockEvent)) :=
  zoom rx_lens (OQ.poll QUEUE_SIZE RX_BUFFER_SIZE (packet_handler handler)).

(** [ack_interrupt], through the transport. *)
Definition ack_interrupt : M (VirtIOSocket T * W) Z := λ '(s, w),
  let '(o, (t, w)) := Transport.ack_interrupt (transport s, w) in
  (o, (mkSocket t (rx s) (tx s) (event s) (guest_cid s), w)).

Definition socket_manager : VirtIOSocketManager (VirtIOSocket T) W := {|
  local_cid := guest_cid;
  send_packet_to_queue := send_packet_to_tx_queue;
  poll := λ C, poll_rx
|}.
End driver.
End VirtIOSocket.
Abbreviation VirtIOSocket := VirtIOSocket.VirtIOSocket.

(** ** The device *)
Module VirtIOSocketDevice.

Record VirtIOSocketDevice (T : Type) := mkSocketDevice {
  transport : T;
  rx : DQ.DeviceVirtQueue;
  tx : DQ.DeviceVirtQueue;
  event : DQ.DeviceVirtQueue
}.
Arguments mkSocketDevice {T} _ _ _ _.
Arguments transport {T} _.
Arguments rx {T} _.
Arguments tx {T} _.
Arguments event {T} _.

Section device.
Context `{Profile} {W T : Type} `{DeviceHal W} `{Mem W}.
Context `{DeviceTransport T W}.
Context (driver_step : Shared → W → Shared * W) (fuel : nat).

Definition rx_lens : lens (VirtIOSocketDevice T * W) (DQ.DeviceVirtQueue * (T * W)) :=
  {| view := λ s, (rx s.1, (transport s.1, s.2));
     update := λ a s, (mkSocketDevice a.2.1 a.1 (tx s.1) (event s.1), a.2.2) |}.
Definition tx_lens {C}
    : lens (C * (VirtIOSocketDevice T * W)) (C * (DQ.DeviceVirtQueue * (T * W))) :=
  {| view := λ s, (s.1, (tx s.2.1, (transport s.2.1, s.2.2)));
     update := λ a s,
       (a.1, (mkSocketDevice a.2.2.1 (rx s.2.1) a.2.1 (event s.2.1), a.2.2.2)) |}.

(** Dropping a queue unmaps its memory. *)
Definition drop_queue (q : DQ.DeviceVirtQueue) : M W unit :=
  match DQ.layout q with
  | Legacy dma _ _ => DeviceDma.drop dma
  | Modern d1 d2 _ => DeviceDma.drop d1;; DeviceDma.drop d2
  end.
Definition or_drop {A B} (c : M (T * W) (Result A)) (created : list DQ.DeviceVirtQueue)
    (k : A → M (T * W) (Result B)) : M (T * W) (Result B) :=
  r ← c;
  match r with
  | Ok a => k a
  | Err e => foldr (λ q rest, on_snd (drop_queue q);; rest) (mret tt) created;; mret (Err e)
  end.

(** The arguments are the contents of the three queues' memory. *)
Definition new (rx_sh tx_sh event_sh : Shared) : M (T * W) (Result (VirtIOSocketDevice T)) :=
  rxq ←? DQ.new QUEUE_SIZE RX_QUEUE_IDX rx_sh;
  or_drop (DQ.new QUEUE_SIZE TX_QUEUE_IDX tx_sh) [rxq] (λ txq,
  or_drop (DQ.new QUEUE_SIZE EVENT_QUEUE_IDX event_sh) [txq; rxq] (λ eventq,
  t ← gets fst;
  mret (Ok (mkSocketDevice t rxq txq eventq)))).

Definition send_packet_to_rx_queue (header : VirtioVsockHdr) (buffer : Slice)
    : M (VirtIOSocketDevice T * W) (Result unit) :=
  let h := VirtioVsockHdr.as_bytes header in
  _ ←? (if s_len buffer =? 0
        then zoom rx_lens (DQ.wait_pop_add_notify QUEUE_SIZE driver_step fuel [h])
        else b ← on_snd (mem_read buffer);
             zoom rx_lens (DQ.wait_pop_add_notify QUEUE_SIZE driver_step fuel [h; b]));
  mret (Ok tt).

Definition poll_tx {C} (handler : VsockEvent → list Z → M C (Result (option VsockEvent)))
    : M (C * (VirtIOSocketDevice T * W)) (Result (option VsockEvent)) :=
  zoom tx_lens (DQ.poll QUEUE_SIZE fuel (packet_handler handler)).

Definition socket_device_manager : VirtIOSocketManager (VirtIOSocketDevice T) W := {|
  local_cid := λ _, VMADDR_CID_HOST;
  send_packet_to_queue := send_packet_to_rx_queue;
  poll := λ C, poll_tx
|}.
End device.
End VirtIOSocketDevice.
Abbreviation VirtIOSocketDevice := VirtIOSocketDevice.VirtIOSocketDevice.
