(* ===== verification/ConnectionManager.v ===== *)
(** * The vsock connection manager

    [src/src/device/socket/connectionmanager.rs]: [VsockConnectionManagerCommon], which keeps
    the list of connections of a driver or a device behind the trait [VirtIOSocketManager],
    the two public managers built on it, and the trait [VsockManager] both implement. *)

From S2P Require Import Prelude Base Transport QueueData Queue DeviceQueue Owning Bytes.
From S2P Require Import RingBuffer VsockProtocol Vsock.

Definition DEFAULT_PER_CONNECTION_BUFFER_CAPACITY : Z := 1024.

(** [Vec::swap_remove] of an index in range. *)
Definition swap_remove {A} (i : nat) (l : list A) : list A :=
  match last l with
  | None => l
  | Some x => let l' := removelast l in if decide (i = length l') then l' else <[i := x]> l'
  end.

(** [iter().enumerate().find(f)], from index [i] on. *)
Fixpoint find_index {A} (f : A → bool) (i : nat) (l : list A) : option (nat * A) :=
  match l with
  | [] => None
  | x :: l => if f x then Some (i, x) else find_index f (S i) l
  end.

(** Whether [f] holds of the connection an [Arc] points to. *)
Definition holds (c : Conns) (f : ConnectionInfo → bool) (a : Arc) : bool :=
  match heap c !! a with Some x => f (Connection.info x) | None => false end.

(** The first connection of the list for which [f] holds, and its index. *)
Definition find_connection (f : ConnectionInfo → bool) (c : Conns) : option (nat * Arc) :=
  find_index (holds c f) 0 (connections c).

Definition is_connection (peer : VsockAddr) (local_port : Z) (i : ConnectionInfo) : bool :=
  bool_decide (ConnectionInfo.dst i = peer) && (ConnectionInfo.src_port i =? local_port).

Definition get_connection (c : Conns) (peer : VsockAddr) (local_port : Z)
    : Result (nat * Arc) :=
  match find_connection (is_connection peer local_port) c with
  | Some x => Ok x
  | None => Err (SocketDeviceError NotConnected)
  end.

Definition get_connection_for_event (c : Conns) (event : VsockEvent) (local_cid : Z)
    : option (nat * Arc) :=
  find_connection (λ i, VsockEvent.matches_connection event i local_cid) c.

(** ** [VsockConnectionManagerCommon] *)
Module Common.
Section common.
Context `{Profile} {D W : Type} `{VirtIOSocketManager D W}.

Abbreviation St := (Conns * (D * W))%type.

(** [VsockConnectionManagerInner] of a new manager. *)
Definition new (per_connection_buffer_capacity : Z) : Conns :=
  mkConns [] per_connection_buffer_capacity [] [].

Definition listen (port : Z) : M St unit :=
  ports ← gets (λ s, listening_ports s.1);
  if bool_decide (port ∈ ports) then mret tt
  else on_fst (modify (set_listening_ports (ports ++ [port]))).

Definition unlisten (port : Z) : M St unit :=
  on_fst (modify (λ c,
    set_listening_ports (filter (λ p, p ≠ port) (listening_ports c)) c)).

(** [get_connection] with [?]. *)
Definition lookup (peer : VsockAddr) (port : Z) : M St (Result (nat * Arc)) :=
  gets (λ s, get_connection s.1 peer port).

Definition send (destination : VsockAddr) (src_port : Z) (buffer : Slice) : M St (Result unit) :=
  '(_, connection) ←? lookup destination src_port;
  Vsock.send buffer connection.

(** [connection.buffer.add(body)] on a shared connection. *)
Definition buffer_add (connection : Arc) (body : list Z) : M Conns bool :=
  c ← lock connection;
  match RingBuffer.add body (Connection.buffer c) with
  | (Val b, r) => lock_set connection (Connection.set_buffer r c);; mret b
  | (Panic, r) => lock_set connection (Connection.set_buffer r c);; panic
  | (Hang, r) => lock_set connection (Connection.set_buffer r c);; hang
  end.

(** The end of both handlers: the connection's state is updated, data is stored. *)
Definition store_event (event : VsockEvent) (body : list Z) (connection : Arc)
    : M Conns (Result (option VsockEvent)) :=
  modify_info connection (update_for_event event);;
  match VsockEvent.event_type event with
  | VsockEventType.Received length =>
      added ← buffer_add connection body;
      if negb added then mret (Err (SocketDeviceError (OutputBufferTooShort length)))
      else mret (Ok (Some event))
  | _ => mret (Ok (Some event))
  end.

(** The handler of [poll]. *)
Definition poll_handler (local_cid : Z) (event : VsockEvent) (body : list Z)
    : M Conns (Result (option VsockEvent)) :=
  inner ← gets id;
  match get_connection_for_event inner event local_cid with
  | Some (_, connection) => store_event event body connection
  | None =>
    if bool_decide (VsockEvent.event_type event = VsockEventType.ConnectionRequest) then
      if negb (cid (VsockEvent.destination event) =? local_cid) then mret (Ok None) else
      new_connection ← arc_new (Connection.new (VsockEvent.source event)
        (port (VsockEvent.destination event)) (per_connection_buffer_capacity inner));
      modify (λ c, set_connections (connections c ++ [new_connection]) c);;
      store_event event body new_connection
    else mret (Ok None)
  end.

Definition remove_at (i : nat) : M St unit :=
  on_fst (modify (λ c, set_connections (swap_remove i (connections c)) c)).

Definition poll : M St (Result (option VsockEvent)) :=
  d ← gets (λ s, s.2.1);
  let cid := local_cid d in
  result ←? Vsock.poll (poll_handler cid);
  match result with
  | None => mret (Ok None)
  | Some event =>
    inner ← gets fst;
    '(connection_index, connection) ← unwrap (get_connection_for_event inner event cid);
    match VsockEvent.event_type event with
    | VsockEventType.ConnectionRequest =>
        if bool_decide (port (VsockEvent.destination event) ∈ listening_ports inner) then
          info ← on_fst (lock_info connection);
          _ ←? on_snd (Vsock.accept info);
          mret (Ok (Some event))
        else
          remove_at connection_index;;
          _ ←? Vsock.force_close connection;
          mret (Ok None)
    | VsockEventType.Connected => mret (Ok (Some event))
    | VsockEventType.Disconnected reason =>
        c ← on_fst (lock connection);
        if RingBuffer.is_empty (Connection.buffer c) then
          remove_at connection_index;;
          if bool_decide (reason = DisconnectReason.Shutdown) then
            _ ←? Vsock.force_close connection;
            mret (Ok (Some event))
          else mret (Ok (Some event))
        else
          on_fst (lock_set connection (Connection.set_shutdown true c));;
          mret (Ok (Some event))
    | VsockEventType.Received _ => mret (Ok (Some event))
    | VsockEventType.CreditRequest =>
        _ ←? Vsock.credit_update connection;
        mret (Ok None)
    | VsockEventType.CreditUpdate => mret (Ok (Some event))
    end
  end.

(** The handler of [poll_direct]. *)
Definition poll_direct_handler (local_cid : Z) (event : VsockEvent) (body : list Z)
    : M Conns (Result (option VsockEvent)) :=
  if negb (cid (VsockEvent.destination event) =? local_cid) then mret (Ok None) else
  inner ← gets id;
  if bool_decide (VsockEvent.event_type event = VsockEventType.ConnectionRequest) then
    if negb (bool_decide (port (VsockEvent.destination event) ∈ listening_ports inner))
    then mret (Ok None)
    else
      let c := Connection.new (VsockEvent.source event) (port (VsockEvent.destination event))
                 (per_connection_buffer_capacity inner) in
      let c := Connection.set_info (update_for_event event (Connection.info c)) c in
      mret (Ok (Some (VsockEvent.set_new_connection (Some c) event)))
  else
    match get_connection_for_event inner event local_cid with
    | None => mret (Ok None)
    | Some (connection_index, existing_connection) =>
      if bool_decide (VsockEvent.event_type event =
                      VsockEventType.Disconnected DisconnectReason.Reset) then
        modify (λ c, set_connections (swap_remove connection_index (connections c)) c);;
        mret (Ok (Some event))
      else store_event event body existing_connection
    end.

Definition poll_direct : M St (Result (option VsockEvent)) :=
  d ← gets (λ s, s.2.1);
  Vsock.poll (poll_direct_handler (local_cid d)).

(** [connection.buffer.drain(buffer)] on a shared connection. *)
Definition buffer_drain (connection : Arc) (buffer : list Z) : M Conns (list Z * Z) :=
  c ← lock connection;
  match RingBuffer.drain buffer (Connection.buffer c) with
  | (Val x, r) => lock_set connection (Connection.set_buffer r c);; mret x
  | (Panic, r) => lock_set connection (Connection.set_buffer r c);; panic
  | (Hang, r) => lock_set connection (Connection.set_buffer r c);; hang
  end.

(** The bytes of [buffer] after the call, and the number of bytes read. *)
Definition recv (peer : VsockAddr) (src_port : Z) (buffer : list Z)
    : M St (Result (list Z * Z)) :=
  '(connection_index, connection) ←? lookup peer src_port;
  '(buffer, bytes_read) ← on_fst (buffer_drain connection buffer);
  on_fst (modify_info connection (ConnectionInfo.done_forwarding bytes_read));;
  c ← on_fst (lock connection);
  if Connection.peer_requested_shutdown c && RingBuffer.is_empty (Connection.buffer c) then
    remove_at connection_index;;
    _ ←? Vsock.force_close connection;
    mret (Ok (buffer, bytes_read))
  else mret (Ok (buffer, bytes_read)).

Definition recv_buffer_available_bytes (peer : VsockAddr) (src_port : Z) : M St (Result Z) :=
  '(_, connection) ←? lookup peer src_port;
  c ← on_fst (lock connection);
  mret (Ok (RingBuffer.used (Connection.buffer c))).

Definition update_credit (peer : VsockAddr) (src_port : Z) : M St (Result unit) :=
  '(_, connection) ←? lookup peer src_port;
  Vsock.credit_update connection.

(** [spin] is what happens between two calls of [poll]. *)
Fixpoint wait_for_event (spin : M St unit) (fuel : nat) : M St (Result VsockEvent) :=
  match fuel with
  | O => hang
  | S fuel =>
    e ←? poll;
    match e with
    | Some event => mret (Ok event)
    | None => spin;; wait_for_event spin fuel
    end
  end.

Definition shutdown (destination : VsockAddr) (src_port : Z) : M St (Result unit) :=
  '(_, connection) ←? lookup destination src_port;
  Vsock.shutdown connection.

Definition force_close (destination : VsockAddr) (src_port : Z) : M St (Result unit) :=
  '(index, connection) ←? lookup destination src_port;
  remove_at index;;
  _ ←? Vsock.force_close connection;
  mret (Ok tt).

(** Registering a connection, undone when the peer cannot be told. *)
Definition register (c : Connection) (tell : Arc → M St (Result unit)) : M St (Result unit) :=
  new_connection ← on_fst (arc_new c);
  on_fst (modify (λ i, set_connections (connections i ++ [new_connection]) i));;
  r ← tell new_connection;
  match r with
  | Ok _ => mret (Ok tt)
  | Err e =>
      on_fst (modify (λ i,
        set_connections (filter (λ a, a ≠ new_connection) (connections i)) i));;
      mret (Err e)
  end.

(** [accept] of the two managers. *)
Definition accept (c : Connection) : M St (Result unit) :=
  let info := Connection.info c in
  register c (λ _, on_snd (Vsock.accept info)).

(** [VsockConnectionManager::connect]. *)
Definition connect (destination : VsockAddr) (src_port : Z) : M St (Result unit) :=
  inner ← gets fst;
  if existsb (holds inner (is_connection destination src_port)) (connections inner)
  then mret (Err (SocketDeviceError ConnectionExists))
  else register (Connection.new destination src_port (per_connection_buffer_capacity inner))
         Vsock.connect.

End common.
End Common.

(** ** The trait [VsockManager] and its two implementations *)
Class VsockManager (S : Type) := {
  vm_accept : Connection → M S (Result unit);
  vm_connect : VsockAddr → Z → M S (Result unit);
  vm_send : VsockAddr → Z → Slice → M S (Result unit);
  vm_update_credit : VsockAddr → Z → M S (Result unit);
  vm_force_close : VsockAddr → Z → M S (Result unit);
  vm_listen : Z → M S unit;
  vm_poll : M S (Result (option VsockEvent));
  vm_poll_direct : M S (Result (option VsockEvent));
  vm_local_cid : M S Z;
  vm_shutdown : VsockAddr → Z → M S (Result unit);
  vm_recv : VsockAddr → Z → list Z → M S (Result (list Z * Z));
  vm_recv_buffer_available_bytes : VsockAddr → Z → M S (Result Z);
  vm_ack_interrupt : M S Z
}.

Module VsockConnectionManager.
Section driver.
Context `{Profile} {W T : Type} `{Hal W} `{Allocator W} `{Mem W} `{Stack W} `{Device W}.
Context `{Transport T W}.
Context (RX_BUFFER_SIZE : Z) (fuel : nat).

#[local] Instance socket : VirtIOSocketManager (VirtIOSocket T) W :=
  VirtIOSocket.socket_manager RX_BUFFER_SIZE fuel.

Definition VsockConnectionManager : Type := Conns * (VirtIOSocket T * W).

Definition new_with_capacity (capacity : Z) : Conns := Common.new capacity.
Definition new : Conns := new_with_capacity DEFAULT_PER_CONNECTION_BUFFER_CAPACITY.

Definition manager : VsockManager VsockConnectionManager := {|
  vm_accept := Common.accept;
  vm_connect := Common.connect;
  vm_send := Common.send;
  vm_update_credit := Common.update_credit;
  vm_force_close := Common.force_close;
  vm_listen := Common.listen;
  vm_poll := Common.poll;
  vm_poll_direct := Common.poll_direct;
  vm_local_cid := gets (λ s, local_cid s.2.1);
  vm_shutdown := Common.shutdown;
  vm_recv := Common.recv;
  vm_recv_buffer_available_bytes := Common.recv_buffer_available_bytes;
  vm_ack_interrupt := on_snd VirtIOSocket.ack_interrupt
|}.
End driver.
End VsockConnectionManager.

Module VsockDeviceConnectionManager.
Section device.
Context `{Profile} {W T : Type} `{DeviceHal W} `{Mem W} `{DeviceTransport T W}.
Context (driver_step : Shared → W → Shared * W) (fuel : nat).

#[local] Instance socket_device : VirtIOSocketManager (VirtIOSocketDevice T) W :=
  VirtIOSocketDevice.socket_device_manager driver_step fuel.

Definition VsockDeviceConnectionManager : Type := Conns * (VirtIOSocketDevice T * W).

Definition new_with_capacity (capacity : Z) : Conns := Common.new capacity.
Definition new : Conns := new_with_capacity DEFAULT_PER_CONNECTION_BUFFER_CAPACITY.

(** [connect] is [unreachable!], [ack_interrupt] is [panic!]. *)
Definition manager : VsockManager VsockDeviceConnectionManager := {|
  vm_accept := Common.accept;
  vm_connect := λ _ _, panic;
  vm_send := Common.send;
  vm_update_credit := Common.update_credit;
  vm_force_close := Common.force_close;
  vm_listen := Common.listen;
  vm_poll := Common.poll;
  vm_poll_direct := Common.poll_direct;
  vm_local_cid := gets (λ s, local_cid s.2.1);
  vm_shutdown := Common.shutdown;
  vm_recv := Common.recv;
  vm_recv_buffer_available_bytes := Common.recv_buffer_available_bytes;
  vm_ack_interrupt := panic
|}.
End device.
End VsockDeviceConnectionManager.
