(* ===== verification/ManagerInv.v ===== *)
(** * The connection manager's invariant

    The connections a manager lists are distinct connections to distinct peers or ports, with
    receive buffers in a consistent state. Every operation of [ConnectionManager.v] keeps it,
    over any driver whose [poll] calls its handler at most once ([SocketLaws]). *)

From S2P Require Import Prelude Base Transport Bytes RingBuffer VsockProtocol Vsock ConnectionManager.
Module CI := VsockProtocol.ConnectionInfo.
Module CN := VsockProtocol.Connection.
Module RB := RingBuffer.RingBuffer.

(** ** What a manager needs of its driver *)
Class SocketLaws (D W : Type) `{VirtIOSocketManager D W} := {
  poll_law : ∀ C (h : VsockEvent → list Z → M C (Result (option VsockEvent))) c d w o c' d' w',
    poll h (c, (d, w)) = (o, (c', (d', w'))) →
    (c' = c ∧ ∀ e, o ≠ Val (Ok (Some e))) ∨
    ∃ header event body oh, VsockEvent.from_header header = Ok event ∧
      h event body c = (oh, c') ∧ ∀ e, o = Val (Ok (Some e)) → oh = o;
  poll_cid : ∀ C (h : VsockEvent → list Z → M C (Result (option VsockEvent))) c d w o c' d' w',
    poll h (c, (d, w)) = (o, (c', (d', w'))) → local_cid d' = local_cid d
}.

(** ** The invariant *)
Definition key (c : Connection) : VsockAddr * Z :=
  (CI.dst (CN.info c), CI.src_port (CN.info c)).
Definition keys (c : Conns) : list (option (VsockAddr * Z)) :=
  (λ a, key <$> heap c !! a) <$> connections c.

Record conns_ok (c : Conns) : Prop := {
  ck_valid : Forall (λ a, (a < length (heap c))%nat) (connections c);
  ck_keys : NoDup (keys c);
  ck_buffers : Forall (λ x, RB.ok (CN.buffer x)) (heap c);
  ck_capacity : 0 < per_connection_buffer_capacity c < 2 ^ 32
}.

Lemma swap_remove_perm {A} (i : nat) (l : list A) x : l !! i = Some x →
  x :: swap_remove i l ≡ₚ l.
Proof.
  intros Hi. unfold swap_remove. destruct (last l) as [y|] eqn:Hy.
  2:{ apply last_None in Hy. by subst. }
  apply last_Some in Hy as [l' ->]. rewrite removelast_last.
  apply lookup_app_Some in Hi as [Hi|[Hge Hi]].
  - apply lookup_lt_Some in Hi as Hlt. rewrite decide_False by lia.
    rewrite (insert_take_drop l' i y Hlt).
    rewrite <- (take_drop_middle l' i x Hi) at 3. rewrite <- app_assoc. simpl.
    rewrite (Permutation_app_comm (drop (S i) l') [y]). simpl.
    by rewrite Permutation_middle.
  - assert (i = length l') as -> by (apply lookup_lt_Some in Hi; simpl in Hi; lia).
    rewrite Nat.sub_diag in Hi. injection Hi as ->. rewrite decide_True by done.
    by rewrite Permutation_cons_append.
Qed.

(** ** Steps that keep the invariant *)

(** The invariant, and a list of keys that does not change. *)
Definition stable (k : list (option (VsockAddr * Z))) (c : Conns) : Prop :=
  conns_ok c ∧ keys c = k.

Lemma keys_update c a x y : heap c !! a = Some x → key y = key x →
  keys (set_heap (<[a := y]> (heap c)) c) = keys c.
Proof.
  intros Hx Hy. apply list_fmap_ext. intros i b Hib.
  destruct (decide (a = b)) as [<-|Hne]; simpl.
  - rewrite list_lookup_insert_eq by (by eapply lookup_lt_Some).
    rewrite Hx. simpl. by rewrite Hy.
  - by rewrite list_lookup_insert_ne.
Qed.

Lemma stable_update k c a x y : stable k c → heap c !! a = Some x → key y = key x →
  RB.ok (CN.buffer y) → stable k (set_heap (<[a := y]> (heap c)) c).
Proof.
  intros [[Hv Hk Hb Hc] Hs] Hx Hy Hby. split; [split|]; rewrite ?(keys_update _ _ x) by done; try done.
  - simpl. by rewrite length_insert.
  - by apply Forall_insert.
Qed.

Lemma stable_keeps {A} (m : M Conns A) : (∀ k, keeps (stable k) m) → keeps conns_ok m.
Proof. intros Hm c o c' Hc E. by destruct (Hm (keys c) c o c' (conj Hc eq_refl) E). Qed.

Lemma stable_buffer k c a x : stable k c → heap c !! a = Some x → RB.ok (CN.buffer x).
Proof. intros [[_ _ Hb _] _] Hx. rewrite Forall_lookup in Hb. by eapply Hb. Qed.

Lemma ok_sub c l : conns_ok c → (∃ k, connections c ≡ₚ l ++ k) → conns_ok (set_connections l c).
Proof.
  intros [Hv Hk Hb Hc] [k Hp]. split; try done.
  - simpl. rewrite Hp in Hv. by apply Forall_app in Hv as [? _].
  - unfold keys in Hk. rewrite Hp, fmap_app in Hk. by apply NoDup_app in Hk as [? _].
Qed.

Lemma ok_remove c i : conns_ok c → conns_ok (set_connections (swap_remove i (connections c)) c).
Proof.
  intros Hc. apply ok_sub; [done|]. destruct (connections c !! i) as [a|] eqn:Hi.
  - exists [a]. rewrite <- (swap_remove_perm _ _ _ Hi) at 1. by rewrite Permutation_cons_append.
  - apply lookup_ge_None in Hi. unfold swap_remove. destruct (last (connections c)) as [y|] eqn:Hy.
    2:{ exists []. by rewrite app_nil_r. }
    apply last_Some in Hy as [l' E]. rewrite E in *. rewrite length_app in Hi. simpl in Hi.
    rewrite removelast_last, decide_False, list_insert_ge by lia. by exists [y].
Qed.

Lemma ok_filter c (P : Arc → Prop) `{∀ a, Decision (P a)} : conns_ok c →
  conns_ok (set_connections (filter P (connections c)) c).
Proof.
  intros Hc. apply ok_sub; [done|]. exists (filter (λ a, ¬ P a) (connections c)).
  generalize (connections c). clear. intros l. induction l as [|a l IH]; [done|].
  destruct (decide (P a)).
  - rewrite (filter_cons_True P), (filter_cons_False (λ a, ¬ P a)) by tauto. simpl. by rewrite <- IH.
  - rewrite (filter_cons_False P), (filter_cons_True (λ a, ¬ P a)) by tauto.
    by rewrite <- Permutation_middle, <- IH.
Qed.

(** A connection to a new peer or port. *)
Definition pushed (x : Connection) (c : Conns) : Conns :=
  mkConns (heap c ++ [x]) (per_connection_buffer_capacity c) (connections c ++ [length (heap c)])
    (listening_ports c).

Lemma keys_pushed c x : conns_ok c → keys (pushed x c) = keys c ++ [Some (key x)].
Proof.
  intros [Hv _ _ _]. unfold keys, pushed. simpl. rewrite fmap_app. simpl. f_equal.
  - apply list_fmap_ext. intros i a Ha. rewrite lookup_app_l; [done|].
    rewrite Forall_lookup in Hv. by apply (Hv i).
  - by rewrite lookup_app_r, Nat.sub_diag by lia.
Qed.

Lemma ok_push c x : conns_ok c → Some (key x) ∉ keys c → RB.ok (CN.buffer x) →
  conns_ok (pushed x c).
Proof.
  intros Hc Hk Hx. split.
  - destruct Hc. simpl. rewrite length_app. simpl. apply Forall_app. split.
    + eapply Forall_impl; [done|]. simpl. lia.
    + repeat constructor. lia.
  - rewrite keys_pushed by done. apply NoDup_app. split_and!; [apply Hc| |apply NoDup_singleton].
    intros k Hin ->%list_elem_of_singleton. done.
  - destruct Hc. simpl. apply Forall_app. split; [done|]. by apply Forall_singleton.
  - apply Hc.
Qed.

Lemma new_connection_ok peer p cap : 0 < cap < 2 ^ 32 → RB.ok (CN.buffer (CN.new peer p cap)).
Proof. intros. simpl. apply RB.new_ok. lia. Qed.

(** ** Lookups *)
Lemma find_index_Some {A} (f : A → bool) i l j x :
  find_index f i l = Some (j, x) → (i ≤ j)%nat ∧ l !! (j - i)%nat = Some x ∧ f x = true.
Proof.
  revert i. induction l as [|y l IH]; intros i; simpl; [done|].
  destruct (f y) eqn:E.
  - intros [= <- <-]. by rewrite Nat.sub_diag.
  - intros (H1 & H2 & H3)%IH. split_and!; [lia| |done].
    by replace (j - i)%nat with (S (j - S i)) by lia.
Qed.

Lemma find_index_None {A} (f : A → bool) i l :
  find_index f i l = None ↔ Forall (λ x, f x = false) l.
Proof.
  revert i. induction l as [|y l IH]; intros i; simpl; [by split|].
  rewrite Forall_cons. destruct (f y) eqn:E; [split; [done|naive_solver]|]. rewrite IH. naive_solver.
Qed.

Lemma find_connection_Some f c i a : find_connection f c = Some (i, a) →
  connections c !! i = Some a ∧ ∃ x, heap c !! a = Some x ∧ f (CN.info x) = true.
Proof.
  intros (_ & H2 & H3)%find_index_Some. rewrite Nat.sub_0_r in H2. split; [done|].
  unfold holds in H3. destruct (heap c !! a) as [x|]; [by exists x|done].
Qed.

Lemma is_connection_spec peer p i :
  is_connection peer p i = true ↔ (CI.dst i, CI.src_port i) = (peer, p).
Proof.
  unfold is_connection. rewrite andb_true_iff, bool_decide_eq_true, Z.eqb_eq. naive_solver.
Qed.

Lemma matches_spec e i cid' : VsockEvent.matches_connection e i cid' = true ↔
  (CI.dst i, CI.src_port i) = (VsockEvent.source e, port (VsockEvent.destination e)) ∧
  cid (VsockEvent.destination e) = cid'.
Proof.
  unfold VsockEvent.matches_connection. rewrite !andb_true_iff, bool_decide_eq_true, !Z.eqb_eq.
  split; [intros [[E1 E2] E3]; by rewrite E1, E3|]. intros [E E3]. injection E as E1 E2. auto.
Qed.

(** No connection of the list has the key [k]. *)
Lemma no_key c k : Forall (λ a, holds c (λ i, bool_decide ((CI.dst i, CI.src_port i) = k)) a = false)
    (connections c) → Some k ∉ keys c.
Proof.
  intros Hf Hin. apply list_elem_of_fmap in Hin as (a & E & Ha).
  rewrite Forall_forall in Hf. specialize (Hf a Ha). unfold holds in Hf.
  destruct (heap c !! a) as [x|]; [|done]. simpl in E. injection E as ->.
  by rewrite bool_decide_eq_true_2 in Hf.
Qed.

(** ** Primitives *)
Section prims.
Context `{Profile} (k : list (option (VsockAddr * Z))).

Lemma keeps_lock a : keeps (stable k) (lock a).
Proof. unfold lock. keeps. Qed.

Lemma keeps_lock_info a : keeps (stable k) (lock_info a).
Proof. unfold lock_info. apply keeps_bind; [apply keeps_lock|keeps]. Qed.

(** Changing a connection in place. *)
Lemma keeps_lock_change {A} a (f : Connection → Connection) (g : Connection → M Conns A) :
  (∀ x, key (f x) = key x ∧ (RB.ok (CN.buffer x) → RB.ok (CN.buffer (f x)))) →
  (∀ x, keeps (stable k) (g x)) →
  keeps (stable k) (x ← lock a; lock_set a (f x);; g x).
Proof.
  intros Hf Hg c o c' Hc E. unfold lock, mbind, M_bind in E. simpl in E.
  destruct (heap c !! a) as [x|] eqn:Hx; simpl in E; [|by injection E as <- <-].
  eapply (Hg x); [|exact E]. apply (stable_update _ _ _ x); try done; [apply Hf|]. apply Hf.
  by eapply stable_buffer.
Qed.

Lemma keeps_modify_info a f :
  (∀ i, CI.dst (f i) = CI.dst i ∧ CI.src_port (f i) = CI.src_port i) →
  keeps (stable k) (modify_info a f).
Proof.
  intros Hf c o c' Hc E.
  apply (keeps_lock_change a (λ x, CN.set_info (f (CN.info x)) x) (λ _, mret tt)) with c o;
    [|intros; apply keeps_ret|done|].
  - intros x. split; [|done]. unfold key. simpl. by destruct (Hf (CN.info x)) as [-> ->].
  - revert E. unfold modify_info, mbind, M_bind. by destruct (lock a c) as [[x| |] c1].
Qed.

Lemma add_keeps_ok body r o r' : RB.ok r → RB.add body r = (o, r') → RB.ok r' ∧ ∃ b, o = Val b.
Proof.
  intros Hr E. destruct (decide (Z.of_nat (length body) ≤ RB.len r - RB.used r)) as [Hle|Hgt].
  - destruct (RB.add_contents body r Hr Hle) as (r1 & E1 & Hok & _). rewrite E1 in E.
    injection E as <- <-. eauto.
  - rewrite RB.add_full_run in E by (done || lia). injection E as <- <-. eauto.
Qed.

Lemma keeps_buffer_add a body : keeps (stable k) (Common.buffer_add a body).
Proof.
  intros c o c' Hc E. unfold Common.buffer_add, lock, mbind, M_bind in E. simpl in E.
  destruct (heap c !! a) as [x|] eqn:Hx; simpl in E; [|by injection E as <- <-].
  destruct (RB.add body (CN.buffer x)) as [ob r] eqn:Ea.
  destruct (add_keeps_ok body _ _ _ (stable_buffer _ _ _ _ Hc Hx) Ea) as [Hr [b ->]].
  simpl in E. injection E as <- <-. by apply (stable_update _ _ _ x).
Qed.

Lemma keeps_buffer_drain a out : keeps (stable k) (Common.buffer_drain a out).
Proof.
  intros c o c' Hc E. unfold Common.buffer_drain, lock, mbind, M_bind in E. simpl in E.
  destruct (heap c !! a) as [x|] eqn:Hx; simpl in E; [|by injection E as <- <-].
  destruct (RB.drain_run out (CN.buffer x) (stable_buffer _ _ _ _ Hc Hx)) as [Ed Hr]. cbv zeta in Ed, Hr.
  rewrite Ed in E. simpl in E. injection E as <- <-. by apply (stable_update _ _ _ x).
Qed.

Lemma update_for_event_key e i : CI.dst (update_for_event e i) = CI.dst i ∧
  CI.src_port (update_for_event e i) = CI.src_port i.
Proof. unfold update_for_event. by destruct (VsockEvent.event_type e). Qed.

Lemma keeps_store_event e body a : keeps (stable k) (Common.store_event e body a).
Proof.
  unfold Common.store_event. apply keeps_bind; [apply keeps_modify_info, update_for_event_key|].
  intros _. destruct (VsockEvent.event_type e); try apply keeps_ret.
  apply keeps_bind; [apply keeps_buffer_add|keeps].
Qed.
End prims.

#[export] Hint Resolve keeps_lock keeps_lock_info keeps_buffer_add keeps_buffer_drain
  keeps_store_event : keeps.

(** ** The handlers *)

(** An event finds its connection when the list has the event's key. *)
Lemma event_found c e cid' : is_Some (get_connection_for_event c e cid') ↔
  cid (VsockEvent.destination e) = cid' ∧
  Some (VsockEvent.source e, port (VsockEvent.destination e)) ∈ keys c.
Proof.
  unfold get_connection_for_event. split.
  - intros [[i a] (Ha & x & Hx & E)%find_connection_Some].
    apply matches_spec in E as [E ->]. split; [done|]. rewrite <- E.
    apply list_elem_of_fmap. exists a. rewrite Hx. split; [done|]. by eapply list_elem_of_lookup_2.
  - intros [Hcid (a & E & Ha)%list_elem_of_fmap]. apply not_eq_None_Some. intros Hn.
    apply find_index_None in Hn. rewrite Forall_forall in Hn. specialize (Hn a Ha).
    unfold holds in Hn. destruct (heap c !! a) as [x|]; [|done]. simpl in E. injection E as E1 E2.
    apply not_true_iff_false in Hn. apply Hn. apply matches_spec.
    split; congruence.
Qed.

Section handlers.
Context `{Profile}.

(** What a handler of an event leaves behind: the invariant and, when it passes an event on,
    that very event and its connection. *)
Definition handled (cid' : Z) (e : VsockEvent) (c' : Conns)
    (o : outcome (Result (option VsockEvent))) : Prop :=
  conns_ok c' ∧ ∀ e', o = Val (Ok (Some e')) →
    e' = e ∧ is_Some (get_connection_for_event c' e cid').

Lemma store_event_inv e body a c o c' : Common.store_event e body a c = (o, c') →
  ∀ e', o = Val (Ok (Some e')) → e' = e.
Proof.
  intros E e' ->. unfold Common.store_event in E. apply bind_val_inv in E as ([] & c1 & _ & E).
  destruct (VsockEvent.event_type e); try by injection E.
  apply bind_val_inv in E as (b & c2 & _ & E). by destruct b; injection E.
Qed.

Lemma store_event_handled cid' e body a c o c' :
  conns_ok c → is_Some (get_connection_for_event c e cid') →
  Common.store_event e body a c = (o, c') → handled cid' e c' o.
Proof.
  intros Hc Hf E. destruct (keeps_store_event (keys c) e body a c o c' (conj Hc eq_refl) E) as [Hc' Hk].
  split; [done|]. intros e' Ho. split; [by eapply store_event_inv|].
  rewrite event_found in *. by rewrite Hk.
Qed.

Lemma poll_handler_handled cid' e body c o c' :
  conns_ok c → Common.poll_handler cid' e body c = (o, c') → handled cid' e c' o.
Proof.
  intros Hc E. unfold Common.poll_handler in E. unfold mbind at 1, M_bind in E. simpl in E.
  destruct (get_connection_for_event c e cid') as [[i a]|] eqn:Hg.
  { eapply store_event_handled; [done|by rewrite Hg|done]. }
  case_bool_decide; [|injection E as <- <-; by split].
  destruct (Z.eqb_spec (cid (VsockEvent.destination e)) cid') as [Hcid|]; simpl in E;
    [|injection E as <- <-; by split].
  set (x := CN.new _ _ _) in E.
  assert (Some (key x) ∉ keys c) as Hk.
  { intros Hin. destruct (proj2 (event_found c e cid')) as [y Hy]; [done|congruence]. }
  apply (store_event_handled _ _ body (length (heap c)) (pushed x c)); [| |exact E].
  - apply (ok_push c x); [done..|]. apply new_connection_ok. apply Hc.
  - apply event_found. split; [done|]. rewrite keys_pushed by done. apply elem_of_app. right. by apply list_elem_of_singleton.
Qed.

Lemma poll_direct_keeps cid' e body : keeps conns_ok (Common.poll_direct_handler cid' e body).
Proof.
  unfold Common.poll_direct_handler. apply keeps_if; [keeps|].
  apply keeps_bind; [keeps|]. intros inner. apply keeps_if; [keeps|].
  destruct (get_connection_for_event inner e cid') as [[i a]|]; [|keeps]. apply keeps_if.
  - apply keeps_bind; [apply keeps_modify; intros; by apply ok_remove|keeps].
  - apply stable_keeps. intros. apply keeps_store_event.
Qed.
End handlers.

#[export] Hint Resolve stable_keeps : keeps.

(** ** The driver's methods *)
Section methods.
Context `{Profile} {D W : Type} `{VirtIOSocketManager D W}.
Abbreviation St := (Conns * (D * W))%type.
Abbreviation mok := (λ s : St, conns_ok s.1).

Lemma keeps_info a f :
  (∀ i, CI.dst (f i) = CI.dst i ∧ CI.src_port (f i) = CI.src_port i) →
  keeps mok (on_fst (modify_info a f)).
Proof. intros Hf. apply keeps_on_fst, stable_keeps. intros. by apply keeps_modify_info. Qed.

Lemma keeps_request_credit a : keeps mok (Vsock.request_credit a).
Proof. unfold Vsock.request_credit. keeps. Qed.

Lemma keeps_credit_update a : keeps mok (Vsock.credit_update a).
Proof. unfold Vsock.credit_update. keeps. Qed.

Lemma keeps_shutdown a : keeps mok (Vsock.shutdown a).
Proof. unfold Vsock.shutdown, Vsock.shutdown_with_hints. keeps. Qed.

Lemma keeps_force_close a : keeps mok (Vsock.force_close a).
Proof. unfold Vsock.force_close. keeps. Qed.

Lemma keeps_connect a : keeps mok (Vsock.connect a).
Proof. unfold Vsock.connect. keeps. Qed.

Lemma keeps_check a n : keeps mok (Vsock.check_peer_buffer_is_sufficient a n).
Proof.
  unfold Vsock.check_peer_buffer_is_sufficient. apply keeps_bind; [keeps|]. intros info.
  apply keeps_if; [keeps|]. apply keeps_if; [|keeps].
  apply keeps_bind; [by apply keeps_info|]. intros _.
  apply keeps_try; [apply keeps_request_credit|keeps].
Qed.

Lemma keeps_send b a : keeps mok (Vsock.send b a).
Proof.
  unfold Vsock.send. apply keeps_try; [apply keeps_check|]. intros a'.
  apply keeps_bind; [keeps|]. intros info. apply keeps_bind; [keeps|]. intros d. cbv zeta.
  apply keeps_bind; [by apply keeps_info|keeps].
Qed.

Lemma keeps_remove_at i : keeps mok (Common.remove_at i).
Proof. apply keeps_on_fst, keeps_modify. intros. by apply ok_remove. Qed.

Lemma keeps_register x tell s o s' : mok s → Some (key x) ∉ keys s.1 → RB.ok (CN.buffer x) →
  (∀ a, keeps mok (tell a)) → Common.register x tell s = (o, s') → mok s'.
Proof.
  intros Hs Hk Hx Ht E. destruct s as [c dw]. unfold Common.register in E.
  rewrite (bind_val _ _ _ (length (heap c)) (set_heap (heap c ++ [x]) c, dw)) in E by done.
  rewrite (bind_val _ _ _ tt (pushed x c, dw)) in E by done.
  refine (keeps_bind mok _ _ (Ht _) _ (pushed x c, dw) o s' (ok_push c x Hs Hk Hx) E).
  intros [[]|e]; [keeps|]. apply keeps_bind; [|keeps].
  apply keeps_on_fst, keeps_modify. intros. by apply ok_filter.
Qed.
End methods.

#[export] Hint Resolve keeps_request_credit keeps_credit_update keeps_shutdown keeps_force_close
  keeps_connect keeps_check keeps_send keeps_remove_at : keeps.

(** ** The manager's operations *)
Section manager.
Context `{Profile} {D W : Type} `{SocketLaws D W}.
Abbreviation St := (Conns * (D * W))%type.
Abbreviation mok := (λ s : St, conns_ok s.1).

(** Flagging a connection that was just read. *)
Lemma keeps_flag {A} a (b : Connection → bool) (m : Connection → M St A) (g : M St A) :
  (∀ x, keeps mok (m x)) → keeps mok g →
  keeps mok (x ← on_fst (lock a);
    if b x then m x else (on_fst (lock_set a (CN.set_shutdown true x));; g)).
Proof.
  intros Hm Hg [c dw] o s' Hc E. destruct (heap c !! a) as [x|] eqn:Hx.
  2:{ rewrite (bind_panic _ _ _ (c, dw)) in E by (unfold on_fst, zoom, lock; simpl; mstep; by rewrite Hx).
      by injection E as <- <-. }
  rewrite (bind_val _ _ _ x (c, dw)) in E by (apply on_fst_val; unfold lock; mstep; by rewrite Hx).
  destruct (b x); [by apply (Hm x _ _ _ Hc E)|]. refine (Hg _ _ _ _ E). simpl.
  apply (stable_update (keys c) c a x (CN.set_shutdown true x)); try done.
  by apply (stable_buffer (keys c) c a x).
Qed.

(** The connection an event was stored for is found again. *)
Lemma poll_driver cid' (s s' : St) o : mok s → Vsock.poll (Common.poll_handler cid') s = (o, s') →
  mok s' ∧ ∀ e, o = Val (Ok (Some e)) → is_Some (get_connection_for_event s'.1 e cid').
Proof.
  destruct s as [c [d w]], s' as [c' [d' w']]. intros Hc E.
  destruct (poll_law _ _ _ _ _ _ _ _ _ E) as [[-> Hn]|(h & e & body & oh & _ & Hh & Ho)].
  - split; [done|]. intros e Ho. by destruct (Hn e).
  - destruct (poll_handler_handled _ _ _ _ _ _ Hc Hh) as [Hok Hf]. split; [done|].
    intros e' He'. destruct (Hf e') as [-> ?]; [|done]. by rewrite (Ho e' He').
Qed.
End manager.
