(* ===== verification/ManagerProps.v ===== *)
(** * Theorems on the connection manager

    The invariant of [ManagerInv.v] holds after any sequence of calls; what each call returns
    and does to the connections; the two places where [poll] departs from its comments. *)

From S2P Require Import Prelude Base Transport Bytes RingBuffer VsockProtocol Vsock ConnectionManager ManagerInv.

(** ** Sequences of calls *)

(** The calls of a client. [CWaitForEvent] names what goes on in the world [W] between two calls
    of [poll], and how many of them there are at most. *)
Inductive Call {W : Type} :=
| CListen (port : Z)
| CUnlisten (port : Z)
| CConnect (peer : VsockAddr) (port : Z)
| CSend (peer : VsockAddr) (port : Z) (buffer : Slice)
| CPoll
| CPollDirect
| CWaitForEvent (spin : M W unit) (fuel : nat)
| CAccept (c : Connection)
| CRecv (peer : VsockAddr) (port : Z) (buffer : list Z)
| CAvailable (peer : VsockAddr) (port : Z)
| CUpdateCredit (peer : VsockAddr) (port : Z)
| CShutdown (peer : VsockAddr) (port : Z)
| CForceClose (peer : VsockAddr) (port : Z).
Arguments Call : clear implicits.

Section calls.
Context `{Profile} {D W : Type} `{SocketLaws D W}.
Abbreviation St := (Conns * (D * W))%type.
Abbreviation mok := (λ s : St, conns_ok s.1).

Definition call (x : Call W) : M St unit :=
  match x with
  | CListen p => Common.listen p
  | CUnlisten p => Common.unlisten p
  | CConnect a p => _ ← Common.connect a p; mret tt
  | CSend a p b => _ ← Common.send a p b; mret tt
  | CPoll => _ ← Common.poll; mret tt
  | CPollDirect => _ ← Common.poll_direct; mret tt
  | CWaitForEvent spin fuel => _ ← Common.wait_for_event (on_snd (on_snd spin)) fuel; mret tt
  | CAccept c => _ ← Common.accept c; mret tt
  | CRecv a p b => _ ← Common.recv a p b; mret tt
  | CAvailable a p => _ ← Common.recv_buffer_available_bytes a p; mret tt
  | CUpdateCredit a p => _ ← Common.update_credit a p; mret tt
  | CShutdown a p => _ ← Common.shutdown a p; mret tt
  | CForceClose a p => _ ← Common.force_close a p; mret tt
  end.

Fixpoint calls (xs : list (Call W)) : M St unit :=
  match xs with [] => mret tt | x :: xs => call x;; calls xs end.

(** [accept] does not look for a connection to the same peer from the same port, as [connect]
    does; a client passes it one that is not there. *)
Definition accepts_new (x : Call W) (s : St) : Prop :=
  match x with
  | CAccept c => RB.ok (CN.buffer c) ∧ Some (key c) ∉ keys s.1
  | _ => True
  end.

Fixpoint all_accept_new (xs : list (Call W)) (s : St) : Prop :=
  match xs with
  | [] => True
  | x :: xs => accepts_new x s ∧ all_accept_new xs (call x s).2
  end.

Lemma keeps_ports f : keeps mok (on_fst (modify (λ c, set_listening_ports (f c) c))).
Proof. apply keeps_on_fst, keeps_modify. by intros c []. Qed.

Lemma keeps_lookup peer p : keeps mok (Common.lookup peer p).
Proof. apply keeps_gets. Qed.

Lemma keeps_mpoll : keeps mok Common.poll.
Proof.
  unfold Common.poll. apply keeps_bind; [keeps|]. intros d. cbv zeta. apply keeps_try.
  { intros s o s' Hs E. by apply (poll_driver (local_cid d) s s' o). }
  intros [e|]; [|keeps]. apply keeps_bind; [keeps|]. intros inner.
  apply keeps_bind; [keeps|]. intros [i a]. destruct (VsockEvent.event_type e) as [| |reason| | |]; try by keeps.
  apply keeps_flag; keeps.
Qed.

Lemma keeps_recv peer p b : keeps mok (Common.recv peer p b).
Proof.
  unfold Common.recv. apply keeps_try; [apply keeps_lookup|]. intros [i a].
  apply keeps_bind; [keeps|]. intros [b' n]. apply keeps_bind; [by apply keeps_info|]. keeps.
Qed.

Lemma keeps_mconnect peer p : keeps mok (Common.connect peer p).
Proof.
  intros s o s' Hs E. unfold Common.connect in E. unfold mbind at 1, M_bind in E. simpl in E.
  destruct (existsb _ _) eqn:He; [by injection E as <- <-|].
  refine (keeps_register _ _ _ _ _ Hs _ _ _ E).
  - apply no_key. apply Forall_forall. intros a Ha. apply not_true_iff_false. intros Ht.
    apply not_true_iff_false in He. apply He. apply existsb_exists. exists a.
    split; [by apply list_elem_of_In|]. unfold holds in *. destruct (heap s.1 !! a); [|done].
    apply bool_decide_eq_true in Ht. by apply is_connection_spec.
  - apply new_connection_ok. apply Hs.
  - intros a. apply keeps_connect.
Qed.

Lemma keeps_poll_direct : keeps mok Common.poll_direct.
Proof.
  unfold Common.poll_direct. apply keeps_bind; [keeps|]. intros d [c [d1 w]] o [c' [d' w']] Hc E.
  destruct (poll_law _ _ _ _ _ _ _ _ _ E) as [[-> _]|(h & e & body & oh & _ & Hh & _)]; [done|].
  by apply (poll_direct_keeps _ _ _ _ _ _ Hc Hh).
Qed.

Lemma keeps_wait_for_event spin fuel : keeps mok (Common.wait_for_event (on_snd (on_snd spin)) fuel).
Proof.
  induction fuel as [|fuel IH]; simpl; [keeps|]. apply keeps_try; [apply keeps_mpoll|].
  intros [e|]; [keeps|]. apply keeps_bind; [keeps|done].
Qed.

Lemma keeps_call x s o s' : mok s → accepts_new x s → call x s = (o, s') → mok s'.
Proof.
  destruct x as [p|p|a p|a p b| | |spin fuel|c|a p b|a p|a p|a p|a p]; intros Hs Hn E; revert s o s' Hs Hn E;
    simpl.
  8:{ intros s o s' Hs [Hb Hk] E. unfold mbind at 1, M_bind in E.
      destruct (Common.accept c s) as [oa s1] eqn:Ea.
      assert (mok s1) as Hm1.
      { refine (keeps_register c _ s oa s1 Hs Hk Hb _ Ea). intros. keeps. }
      destruct oa; by injection E as <- <-. }
  all: intros s o s' Hs _; revert s o s' Hs.
  all: match goal with |- ∀ s o s', conns_ok s.1 → ?m s = (o, s') → _ => change (keeps mok m) end.
  3-12: apply keeps_bind; [|keeps].
  - unfold Common.listen. apply keeps_bind; [keeps|]. intros ports. apply keeps_if; [keeps|].
    apply (keeps_ports (λ _, ports ++ [p])).
  - apply keeps_ports.
  - apply keeps_mconnect.
  - unfold Common.send. keeps.
  - apply keeps_mpoll.
  - apply keeps_poll_direct.
  - apply keeps_wait_for_event.
  - apply keeps_recv.
  - unfold Common.recv_buffer_available_bytes. keeps.
  - unfold Common.update_credit. keeps.
  - unfold Common.shutdown. keeps.
  - unfold Common.force_close. keeps.
Qed.

Lemma keeps_calls xs s o s' : mok s → all_accept_new xs s → calls xs s = (o, s') → mok s'.
Proof.
  revert s. induction xs as [|x xs IH]; intros s Hs; simpl; [by intros _ [= <- <-]|].
  intros [Hn Hr] E. unfold mbind, M_bind in E. destruct (call x s) as [ox s1] eqn:Ex.
  assert (mok s1) as Hm1 by (by apply (keeps_call x s ox s1)).
  destruct ox as [[]| |]; [by apply (IH s1)|by injection E as <- <-..].
Qed.
End calls.

(** ** Runs of the operations *)
Section runs.
Context `{Profile} {D W : Type} `{VirtIOSocketManager D W}.

(** The driver's [poll] passes a packet of the bytes [bytes] to its handler. *)
Definition receives (d : D) (w : W) (bytes : list Z) (d' : D) (w' : W) : Prop :=
  ∀ C (h : VsockEvent → list Z → M C (Result (option VsockEvent))) c r c',
    packet_handler h bytes c = (Val r, c') → Vsock.poll h (c, (d, w)) = (Val r, (c', (d', w'))).

(** The driver sends a header without data. *)
Definition sends (hdr : VirtioVsockHdr) (d : D) (w : W) (d' : D) (w' : W) : Prop :=
  send_packet_to_queue hdr no_data (d, w) = (Val (Ok tt), (d', w')).

(** [bytes] are a packet of the event [e] with the data [body]. *)
Definition packet (bytes : list Z) (e : VsockEvent) (body : list Z) : Prop :=
  ∃ header, read_header_and_body bytes = Ok (header, body) ∧
    VsockEvent.from_header header = Ok e.

Lemma handler_run {C} (h : VsockEvent → list Z → M C (Result (option VsockEvent))) bytes e body c :
  packet bytes e body → packet_handler h bytes c = h e body c.
Proof. intros (header & E1 & E2). unfold packet_handler. by rewrite E1, E2. Qed.

Lemma lock_run a c x : heap c !! a = Some x → lock a c = (Val x, c).
Proof. intros Hx. unfold lock. mstep. by rewrite Hx. Qed.

Lemma lock_info_run a c x : heap c !! a = Some x → lock_info a c = (Val (CN.info x), c).
Proof. intros Hx. unfold lock_info. by erewrite bind_val by (by apply lock_run). Qed.

Lemma modify_info_run a f c x : heap c !! a = Some x →
  modify_info a f c = (Val tt, set_heap (<[a := CN.set_info (f (CN.info x)) x]> (heap c)) c).
Proof. intros Hx. unfold modify_info. by erewrite bind_val by (by apply lock_run). Qed.

Lemma set_heap_twice (l l' : list Connection) c : set_heap l (set_heap l' c) = set_heap l c.
Proof. done. Qed.

(** The connection [x] after the event [e] with no data. *)
Definition noted (e : VsockEvent) (x : Connection) : Connection :=
  CN.set_info (update_for_event e (CN.info x)) x.

Lemma store_run e body a c x : heap c !! a = Some x →
  (∀ n, VsockEvent.event_type e ≠ VsockEventType.Received n) →
  Common.store_event e body a c =
    (Val (Ok (Some e)), set_heap (<[a := noted e x]> (heap c)) c).
Proof.
  intros Hx Hne. unfold Common.store_event. erewrite bind_val by (by apply modify_info_run).
  destruct (VsockEvent.event_type e); try done. by destruct (Hne length).
Qed.

Lemma store_received_run e body a c x n : heap c !! a = Some x → RB.ok (CN.buffer x) →
  VsockEvent.event_type e = VsockEventType.Received n →
  ∃ x', Common.store_event e body a c =
      (Val (if decide (Z.of_nat (length body) ≤ RB.len (CN.buffer x) - RB.used (CN.buffer x))
            then Ok (Some e) else Err (SocketDeviceError (OutputBufferTooShort n))),
       set_heap (<[a := x']> (heap c)) c) ∧
    CN.info x' = update_for_event e (CN.info x) ∧
    RB.contents (CN.buffer x') = RB.contents (CN.buffer x) ++
      (if decide (Z.of_nat (length body) ≤ RB.len (CN.buffer x) - RB.used (CN.buffer x))
       then body else []).
Proof.
  intros Hx Hok He. apply lookup_lt_Some in Hx as Hlt. unfold Common.store_event.
  erewrite bind_val by (by apply modify_info_run). rewrite He. unfold Common.buffer_add.
  set (y := CN.set_info _ x). set (c1 := set_heap _ c).
  assert (lock a c1 = (Val y, c1)) as Hl by (apply lock_run; simpl; by apply list_lookup_insert_eq).
  case_decide as Hd.
  - destruct (RB.add_contents body (CN.buffer x) Hok Hd) as (r & Hr & _ & Hc & _).
    exists (CN.set_buffer r y). split; [|by split].
    erewrite bind_val.
    2:{ erewrite bind_val by exact Hl. unfold y at 1. simpl. rewrite Hr. reflexivity. }
    simpl. unfold c1. simpl. by rewrite list_insert_insert_eq.
  - exists (CN.set_buffer (CN.buffer x) y). rewrite app_nil_r. split; [|by split].
    erewrite bind_val.
    2:{ erewrite bind_val by exact Hl. unfold y at 1. simpl. rewrite RB.add_full_run by (done || lia). reflexivity. }
    simpl. unfold c1. simpl. by rewrite list_insert_insert_eq.
Qed.

(** Storing an event keeps the key of its connection, so that it is found at the same place. *)
Lemma find_stable f c a x x' : heap c !! a = Some x →
  f (CN.info x') = f (CN.info x) →
  find_connection f (set_heap (<[a := x']> (heap c)) c) = find_connection f c.
Proof.
  intros Hx Hf. unfold find_connection. simpl. generalize 0%nat. induction (connections c) as [|b l IH];
    intros n; [done|]. cbn [find_index].
  replace (holds (set_heap (<[a := x']> (heap c)) c) f b) with (holds c f b); [by rewrite IH|].
  unfold holds. simpl. destruct (decide (a = b)) as [<-|Hne].
  - rewrite list_lookup_insert_eq by (by eapply lookup_lt_Some). by rewrite Hx, Hf.
  - by rewrite list_lookup_insert_ne.
Qed.

Lemma event_stable e cid' c a x x' : heap c !! a = Some x →
  CN.info x' = update_for_event e (CN.info x) →
  get_connection_for_event (set_heap (<[a := x']> (heap c)) c) e cid' = get_connection_for_event c e cid'.
Proof.
  intros Hx Hi. apply (find_stable _ _ _ x); [done|].
  unfold VsockEvent.matches_connection. rewrite Hi. by destruct (update_for_event_key e (CN.info x)) as [-> ->].
Qed.

Lemma find_event_heap c e cid' i a : get_connection_for_event c e cid' = Some (i, a) →
  ∃ x, heap c !! a = Some x.
Proof. intros (_ & x & Hx & _)%find_connection_Some. by exists x. Qed.

(** The connection once [n] bytes have been read, which leaves the buffer [r]. *)
Definition drained (n : Z) (r : RB.RingBuffer) (x : Connection) : Connection :=
  CN.set_info (CI.done_forwarding n (CN.info x)) (CN.set_buffer r x).

Lemma mrecv_run c (d d' : D) (w w' : W) peer p out i a x out' n r :
  get_connection c peer p = Ok (i, a) → heap c !! a = Some x →
  RB.drain out (CN.buffer x) = (Val (out', n), r) →
  let closing := CN.peer_requested_shutdown x && RB.is_empty r in
  (if closing then sends (VirtioVsockHdr.with_op (VirtioVsockOp.as_u16 VirtioVsockOp.Rst)
     (CI.new_header (CI.done_forwarding n (CN.info x)) (local_cid d))) d w d' w'
   else (d', w') = (d, w)) →
  Common.recv peer p out (c, (d, w)) =
    (Val (Ok (out', n)),
     ((if closing then set_connections (swap_remove i (connections c)) else id)
        (set_heap (<[a := drained n r x]> (heap c)) c), (d', w'))).
Proof.
  intros Hg Hx Hd closing Hs. apply lookup_lt_Some in Hx as Hlt.
  set (x' := drained n r x). set (c1 := set_heap (<[a := x']> (heap c)) c).
  assert (heap c1 !! a = Some x') as Hx1 by (by apply list_lookup_insert_eq).
  assert (Common.lookup peer p (c, (d, w)) = (Val (Ok (i, a)), (c, (d, w)))) as Hlk
    by (unfold Common.lookup, gets; simpl; by rewrite Hg).
  unfold Common.recv. erewrite try_ok by exact Hlk. cbv beta iota.
  erewrite bind_val.
  2:{ apply on_fst_val. unfold Common.buffer_drain. erewrite bind_val by (by apply lock_run).
      rewrite Hd. reflexivity. }
  cbv beta iota. erewrite bind_val.
  2:{ apply on_fst_val, modify_info_run. by apply list_lookup_insert_eq. }
  cbn [heap set_heap]. rewrite list_insert_insert_eq, set_heap_twice.
  change (CN.set_info _ _) with x'. fold c1.
  erewrite bind_val by (apply on_fst_val, lock_run; exact Hx1).
  change (CN.peer_requested_shutdown x' && RB.is_empty (CN.buffer x')) with closing.
  destruct closing; [|by injection Hs as -> ->].
  erewrite bind_val by (by apply on_fst_val). erewrite try_ok; [done|]. unfold Vsock.force_close.
  erewrite bind_val by (apply on_fst_val, lock_info_run; exact Hx1).
  mstep. cbn [fst snd]. by erewrite try_ok by (apply on_snd_val; exact Hs).
Qed.

Lemma msend_run c (d : D) (w : W) buffer a x :
  heap c !! a = Some x →
  let info := CN.info x in
  let hdr o := VirtioVsockHdr.with_op (VirtioVsockOp.as_u16 o) (CI.new_header info (local_cid d)) in
  Vsock.send buffer a (c, (d, w)) =
    (if s_len buffer <=? CI.peer_free info then
       let '(r, s) := send_packet_to_queue
         (VirtioVsockHdr.with_len (wrap 32 (s_len buffer)) (hdr VirtioVsockOp.Rw)) buffer (d, w) in
       (r, (set_heap (<[a := CN.set_info (CI.set_tx_cnt
              (wrapping_add 32 (CI.tx_cnt info) (wrap 32 (s_len buffer))) info) x]> (heap c)) c, s))
     else if CI.has_pending_credit_request info then
       (Val (Err (SocketDeviceError InsufficientBufferSpaceInPeer)), (c, (d, w)))
     else
       let '(r, s) := send_packet_to_queue (hdr VirtioVsockOp.CreditRequest) no_data (d, w) in
       (match r with
        | Val (Ok _) => Val (Err (SocketDeviceError InsufficientBufferSpaceInPeer))
        | _ => r
        end, (set_heap (<[a := CN.set_info (CI.set_pending true info) x]> (heap c)) c, s))).
Proof.
  intros Hx info hdr. apply lookup_lt_Some in Hx as Hlt. unfold Vsock.send.
  assert (∀ k : ConnectionInfo → M (Conns * (D * W)) (Result Arc),
    (on_fst (lock_info a) ≫= k) (c, (d, w)) = k info (c, (d, w))) as Hli
    by (intros k; by erewrite bind_val by (apply on_fst_val, lock_info_run; exact Hx)).
  destruct (s_len buffer <=? CI.peer_free info) eqn:Ecmp.
  { erewrite try_ok by (unfold Vsock.check_peer_buffer_is_sufficient; rewrite Hli, Ecmp; reflexivity).
    erewrite bind_val by (apply on_fst_val, lock_info_run; exact Hx).
    mstep. cbv zeta. cbn [fst snd]. erewrite bind_val by (apply on_fst_val, modify_info_run; exact Hx).
    fold info. unfold on_snd, zoom. cbn [view update snd_lens fst snd].
    by destruct (send_packet_to_queue _ _ _). }
  destruct (CI.has_pending_credit_request info) eqn:Ep.
  { by erewrite try_err by
      (unfold Vsock.check_peer_buffer_is_sufficient; rewrite Hli, Ecmp, Ep; reflexivity). }
  set (c1 := set_heap (<[a := CN.set_info (CI.set_pending true info) x]> (heap c)) c).
  destruct (send_packet_to_queue (hdr VirtioVsockOp.CreditRequest) no_data (d, w)) as [r s] eqn:Es.
  assert (Vsock.request_credit a (c1, (d, w)) = (r, (c1, s))) as Hrc.
  { unfold Vsock.request_credit. erewrite bind_val.
    2:{ apply on_fst_val, (lock_info_run _ c1). by apply list_lookup_insert_eq. }
    mstep. cbn [fst snd]. unfold on_snd, zoom. cbn [view snd_lens snd]. cbv zeta.
    match goal with |- context [send_packet_to_queue ?h _ _] =>
      change h with (hdr VirtioVsockOp.CreditRequest) end. by rewrite Es. }
  unfold Vsock.check_peer_buffer_is_sufficient. unfold try at 1. unfold mbind at 1, M_bind at 1.
  rewrite Hli, Ecmp, Ep. cbn [negb].
  erewrite bind_val by (apply on_fst_val, modify_info_run; exact Hx). fold info c1.
  destruct r as [[[]|e]| |].
  - by erewrite try_ok by exact Hrc.
  - by erewrite try_err by exact Hrc.
  - by erewrite try_panic by exact Hrc.
  - by erewrite try_hang by exact Hrc.
Qed.

(** The connection after any event: data that fits is in its buffer. *)
Definition stored (e : VsockEvent) (body : list Z) (x : Connection) : Connection :=
  match VsockEvent.event_type e with
  | VsockEventType.Received _ => CN.set_buffer (RB.add body (CN.buffer x)).2 (noted e x)
  | _ => noted e x
  end.

Lemma store_event_run e body a c x : heap c !! a = Some x → RB.ok (CN.buffer x) →
  ∃ r, Common.store_event e body a c = (Val r, set_heap (<[a := stored e body x]> (heap c)) c) ∧
    ((RB.add body (CN.buffer x)).1 = Val true → r = Ok (Some e)) ∧ ∀ e', r = Ok (Some e') → e' = e.
Proof.
  intros Hx Hok. apply lookup_lt_Some in Hx as Hlt. unfold stored.
  destruct (VsockEvent.event_type e) eqn:He;
    try (eexists; split; [apply store_run; [done|congruence]|split; [done|congruence]]).
  destruct (RB.add body (CN.buffer x)) as [o rb] eqn:Ea.
  destruct (add_keeps_ok body (CN.buffer x) o rb Hok Ea) as [_ [b ->]].
  exists (if b then Ok (Some e) else Err (SocketDeviceError (OutputBufferTooShort length))).
  split; [|split; [by intros [= ->]|by destruct b; intros ? [= ->]]]. unfold Common.store_event.
  erewrite bind_val by (by apply modify_info_run). rewrite He. unfold Common.buffer_add.
  erewrite bind_val.
  2:{ erewrite bind_val by (apply lock_run; simpl; by apply list_lookup_insert_eq). simpl. rewrite Ea. reflexivity. }
  simpl. rewrite list_insert_insert_eq. by destruct b.
Qed.

(** [poll] of a packet that has no further effect. *)
Definition quiet_event (t : VsockEventType) : Prop :=
  match t with
  | VsockEventType.Connected | VsockEventType.Received _ | VsockEventType.CreditUpdate => True
  | _ => False
  end.

Lemma poll_quiet_run c (d d' : D) (w w' : W) bytes e body i a x :
  get_connection_for_event c e (local_cid d) = Some (i, a) → heap c !! a = Some x → RB.ok (CN.buffer x) →
  packet bytes e body → quiet_event (VsockEvent.event_type e) → receives d w bytes d' w' →
  ∃ r, Common.poll (c, (d, w)) = (Val r, (set_heap (<[a := stored e body x]> (heap c)) c, (d', w'))) ∧
    ((RB.add body (CN.buffer x)).1 = Val true → r = Ok (Some e)).
Proof.
  intros Hg Hx Hok Hp Hq Hr. destruct (store_event_run e body a c x Hx Hok) as (r & Hs & Hadd & He).
  exists r. split; [|done]. unfold Common.poll. mstep. cbv zeta. cbn [fst snd].
  assert (Common.poll_handler (local_cid d) e body c = Common.store_event e body a c) as Hh.
  { unfold Common.poll_handler. mstep. cbn. by rewrite Hg. }
  pose proof (Hr _ (Common.poll_handler (local_cid d)) c) as Hp'.
  rewrite (handler_run _ _ e body) in Hp' by done. rewrite Hh in Hp'. specialize (Hp' _ _ Hs).
  destruct r as [[e'|]|err]; [|by erewrite try_ok by exact Hp'|by erewrite try_err by exact Hp'].
  specialize (He e' eq_refl) as ->. erewrite try_ok by exact Hp'. cbv beta iota. mstep. cbn [fst snd].
  rewrite (event_stable e _ c a x) by (done || unfold stored; by destruct (VsockEvent.event_type e)).
  rewrite Hg. mstep. by destruct (VsockEvent.event_type e).
Qed.
End runs.

(** ** Totality *)
Definition returns {S A} (m : M S A) (s : S) : Prop := ∃ x s', m s = (Val x, s').

Lemma returns_bind {S A B} (m : M S A) (k : A → M S B) s :
  returns m s → (∀ x s', m s = (Val x, s') → returns (k x) s') → returns (m ≫= k) s.
Proof.
  intros (x & s' & E) Hk. destruct (Hk x s' E) as (y & s'' & E'). exists y, s''.
  by rewrite (bind_val _ _ _ _ _ E).
Qed.

Lemma returns_try {S A B E} (m : M S (result A E)) (k : A → M S (result B E)) s :
  returns m s → (∀ x s', m s = (Val (Ok x), s') → returns (k x) s') → returns (try m k) s.
Proof.
  intros Hm Hk. apply returns_bind; [done|]. intros [x|e] s' Hx; [by apply Hk|]. by eexists _, _.
Qed.

Lemma returns_on_snd {A B C} (m : M B C) (a : A) b : returns m b → returns (on_snd m) (a, b).
Proof. intros (x & b' & E). eexists _, _. by apply on_snd_val. Qed.

Section total.
Context `{Profile} {D W : Type} `{SocketLaws D W}.
Hypothesis send_returns : ∀ hdr b (s : D * W), returns (send_packet_to_queue hdr b) s.

Lemma store_event_returns e body a c x : conns_ok c → heap c !! a = Some x →
  returns (Common.store_event e body a) c.
Proof.
  intros Hc Hx. destruct (VsockEvent.event_type e) as [| | |n| |] eqn:He.
  4:{ destruct (store_received_run e body a c x n Hx) as (x' & E & _); [|done|by eexists _, _].
      by apply (stable_buffer (keys c) c a x). }
  all: eexists _, _; apply store_run; [done|by rewrite He].
Qed.

Lemma poll_handler_returns cid' e body c : conns_ok c → returns (Common.poll_handler cid' e body) c.
Proof.
  intros Hc. unfold Common.poll_handler. apply returns_bind; [by eexists _, _|]. intros ? ? [= <- <-].
  cbn. destruct (get_connection_for_event c e cid') as [[i a]|] eqn:Hg.
  { destruct (find_event_heap _ _ _ _ _ Hg) as [x Hx]. by eapply store_event_returns. }
  case_bool_decide; [|by eexists _, _]. destruct (_ =? _) eqn:Hcid; [|by eexists _, _]. cbn [negb].
  set (x := CN.new _ _ _).
  destruct (store_event_returns e body (length (heap c)) (pushed x c) x) as (r & c' & E).
  - apply ok_push; [done| |by apply new_connection_ok, Hc]. intros Hin.
    destruct (proj2 (event_found c e cid')) as [y Hy]; [split; [by apply Z.eqb_eq|done]|congruence].
  - simpl. by rewrite lookup_app_r, Nat.sub_diag by lia.
  - exists r, c'. by rewrite <- E.
Qed.

Lemma answer_returns a c (dw : D * W) x : heap c !! a = Some x →
  returns (Vsock.force_close a) (c, dw) ∧ returns (Vsock.credit_update a) (c, dw).
Proof.
  intros Hx. unfold Vsock.force_close, Vsock.credit_update.
  split; (apply returns_bind; [eexists _, _; by apply on_fst_val, lock_info_run|]);
    intros info s' E; rewrite (on_fst_val _ _ _ _ _ (lock_info_run a c x Hx)) in E; injection E as <- <-;
    (apply returns_bind; [by eexists _, _|]); intros ? ? [= <- <-].
  - apply returns_try; [apply returns_on_snd, send_returns|]. intros. by eexists _, _.
  - apply returns_on_snd, send_returns.
Qed.
End total.

(** ** Theorems *)
Section theorems.
Context `{Profile} {D W : Type}.

(** C17. Over any driver whose [poll] calls its handler at most once, every sequence of calls on a
    new manager ([poll], [poll_direct], [wait_for_event], [accept], [connect], [send], [recv],
    the closing and the credit calls, in any order), whatever packets arrive and whatever fails,
    leaves a list of existing connections, no two of them to the same peer from the same port,
    with consistent receive buffers, provided that [accept] is only called with a connection
    that is not in the list, which it does not check itself ([accept_duplicates]). *)
Theorem manager_invariant `{SocketLaws D W} capacity xs (d : D) (w : W) o s :
  0 < capacity < 2 ^ 32 → all_accept_new xs (Common.new capacity, (d, w)) →
  calls xs (Common.new capacity, (d, w)) = (o, s) → conns_ok s.1.
Proof.
  intros Hc Hn E. refine (keeps_calls xs _ _ _ _ Hn E). simpl. split; try done; constructor.
Qed.

(** C39. [poll] of a data packet: the data is appended to the receive buffer of the packet's
    connection and the event returned, or, when it does not fit, [OutputBufferTooShort] is
    returned and the buffer is unchanged; in both cases the peer's credit is recorded and no
    other connection changes. *)
Theorem poll_received `{VirtIOSocketManager D W} c (d d' : D) (w w' : W) bytes e body n i a x :
  conns_ok c → get_connection_for_event c e (local_cid d) = Some (i, a) → heap c !! a = Some x →
  packet bytes e body → VsockEvent.event_type e = VsockEventType.Received n →
  receives d w bytes d' w' →
  ∃ x', Common.poll (c, (d, w)) =
      (Val (if decide (Z.of_nat (length body) ≤ RB.len (CN.buffer x) - RB.used (CN.buffer x))
            then Ok (Some e) else Err (SocketDeviceError (OutputBufferTooShort n))),
       (set_heap (<[a := x']> (heap c)) c, (d', w'))) ∧
    CN.info x' = update_for_event e (CN.info x) ∧
    RB.contents (CN.buffer x') = RB.contents (CN.buffer x) ++
      (if decide (Z.of_nat (length body) ≤ RB.len (CN.buffer x) - RB.used (CN.buffer x))
       then body else []).
Proof.
  intros Hc Hg Hx Hp He Hr. pose proof (stable_buffer (keys c) c a x (conj Hc eq_refl) Hx) as Hok.
  destruct (store_received_run e body a c x n Hx Hok He) as (x' & Hs & Hi & Hb).
  exists x'. split; [|done]. unfold Common.poll. mstep. cbv zeta. cbn [fst snd].
  assert (Common.poll_handler (local_cid d) e body c = Common.store_event e body a c) as Hh.
  { unfold Common.poll_handler. mstep. cbn. by rewrite Hg. }
  pose proof (Hr _ (Common.poll_handler (local_cid d)) c) as Hp'.
  setoid_rewrite (handler_run _ _ _ _ _ Hp) in Hp'. rewrite Hh, Hs in Hp'.
  case_decide.
  - erewrite try_ok by (by apply Hp'). cbv beta iota. mstep. cbn [fst snd].
    rewrite (event_stable e _ c a x) by done. rewrite Hg. mstep. by rewrite He.
  - by erewrite try_err by (by apply Hp').
Qed.

(** A connection request for a connection that exists is not ignored. When nobody listens on
    its port the existing connection is removed from the list, whatever data it holds, and the
    peer is sent a reset; when somebody does, it is accepted again. *)
Theorem poll_rerequest `{VirtIOSocketManager D W} c (d d' d'' : D) (w w' w'' : W) bytes e body i a x :
  get_connection_for_event c e (local_cid d) = Some (i, a) → heap c !! a = Some x →
  packet bytes e body → VsockEvent.event_type e = VsockEventType.ConnectionRequest →
  receives d w bytes d' w' →
  let listening := bool_decide (port (VsockEvent.destination e) ∈ listening_ports c) in
  let answer := if listening then VirtioVsockOp.Response else VirtioVsockOp.Rst in
  sends (VirtioVsockHdr.with_op (VirtioVsockOp.as_u16 answer)
    (CI.new_header (update_for_event e (CN.info x)) (local_cid d'))) d' w' d'' w'' →
  Common.poll (c, (d, w)) =
    (if listening
     then (Val (Ok (Some e)), (set_heap (<[a := noted e x]> (heap c)) c, (d'', w'')))
     else (Val (Ok None), (set_connections (swap_remove i (connections c))
            (set_heap (<[a := noted e x]> (heap c)) c), (d'', w'')))).
Proof.
  intros Hg Hx Hp He Hr listening answer Hsend. apply lookup_lt_Some in Hx as Hlt.
  set (c1 := set_heap (<[a := noted e x]> (heap c)) c).
  assert (Common.poll_handler (local_cid d) e body c = (Val (Ok (Some e)), c1)) as Hh.
  { unfold Common.poll_handler. mstep. cbn. rewrite Hg. apply store_run; [done|]. by rewrite He. }
  assert (Vsock.poll (Common.poll_handler (local_cid d)) (c, (d, w)) = (Val (Ok (Some e)), (c1, (d', w')))) as Hp'.
  { apply Hr. by rewrite (handler_run _ _ e body). }
  assert (heap c1 !! a = Some (noted e x)) as Hx1 by (by apply list_lookup_insert_eq).
  assert (get_connection_for_event c1 e (local_cid d) = Some (i, a)) as Hg1
    by (unfold c1; by rewrite (event_stable e _ c a x)).
  unfold Common.poll. mstep. cbv zeta. cbn [fst snd].
  mstep. cbn [fst snd].
  rewrite Hg1. mstep. rewrite He.
  change (listening_ports c1) with (listening_ports c). fold listening.
  destruct listening; unfold answer in Hsend.
  - erewrite bind_val by (apply on_fst_val, lock_info_run; exact Hx1).
    erewrite try_ok by (apply on_snd_val; exact Hsend). done.
  - erewrite bind_val by (by apply on_fst_val).
    erewrite try_ok; [done|]. unfold Vsock.force_close.
    erewrite bind_val by (apply on_fst_val, lock_info_run; exact Hx1).
    mstep. cbn [fst snd]. by erewrite try_ok by (apply on_snd_val; exact Hsend).
Qed.

(** [recv] reads the oldest bytes of the connection, as many as fit in the caller's buffer,
    and counts them as forwarded. If the peer had asked to shut down and the receive buffer is
    now empty, the connection is removed and the peer is sent a reset; else nothing is sent. *)
Theorem recv_reads `{VirtIOSocketManager D W} c (d d' : D) (w w' : W) peer p out i a x :
  conns_ok c → get_connection c peer p = Ok (i, a) → heap c !! a = Some x →
  let n := Z.min (RB.used (CN.buffer x)) (Z.of_nat (length out)) in
  let closing := CN.peer_requested_shutdown x && (n =? RB.used (CN.buffer x)) in
  (if closing then sends (VirtioVsockHdr.with_op (VirtioVsockOp.as_u16 VirtioVsockOp.Rst)
     (CI.new_header (CI.done_forwarding n (CN.info x)) (local_cid d))) d w d' w'
   else (d', w') = (d, w)) →
  ∃ x', Common.recv peer p out (c, (d, w)) =
      (Val (Ok (take (Z.to_nat n) (RB.contents (CN.buffer x)) ++ drop (Z.to_nat n) out, n)),
       ((if closing then set_connections (swap_remove i (connections c)) else id)
          (set_heap (<[a := x']> (heap c)) c), (d', w'))) ∧
    RB.contents (CN.buffer x') = drop (Z.to_nat n) (RB.contents (CN.buffer x)) ∧
    CN.info x' = CI.done_forwarding n (CN.info x).
Proof.
  intros Hc Hg Hx n closing Hs.
  pose proof (stable_buffer (keys c) c a x (conj Hc eq_refl) Hx) as Hok. pose proof (RB.ok_used _ Hok) as Hu.
  destruct (RB.drain_run out (CN.buffer x) Hok) as [Hd _]. cbv zeta in Hd. fold n in Hd.
  set (r := RB.mkRingBuffer _ _ _) in Hd. exists (drained n r x).
  split; [|split; [by apply RB.contents_drop; [|lia]|done]].
  replace closing with (CN.peer_requested_shutdown x && RB.is_empty r) in *.
  - by apply (mrecv_run c d d' w w' peer p out i a x _ n r).
  - unfold closing, RB.is_empty. simpl. f_equal.
    destruct (Z.eqb_spec n (RB.used (CN.buffer x))), (Z.eqb_spec (RB.used (CN.buffer x) - n) 0); lia.
Qed.

(** [send] respects the peer's credit: it hands data to the driver only when the peer has
    room for all of it, and then counts it as sent; otherwise nothing but at most one request
    for credit is sent, the caller is told to retry, and no further request is sent until the
    pending flag is cleared. *)
Theorem send_respects_credit `{VirtIOSocketManager D W} c (d : D) (w : W) buffer a x :
  heap c !! a = Some x →
  let info := CN.info x in
  let hdr o := VirtioVsockHdr.with_op (VirtioVsockOp.as_u16 o) (CI.new_header info (local_cid d)) in
  Vsock.send buffer a (c, (d, w)) =
    (if s_len buffer <=? CI.peer_free info then
       let '(r, s) := send_packet_to_queue
         (VirtioVsockHdr.with_len (wrap 32 (s_len buffer)) (hdr VirtioVsockOp.Rw)) buffer (d, w) in
       (r, (set_heap (<[a := CN.set_info (CI.set_tx_cnt
              (wrapping_add 32 (CI.tx_cnt info) (wrap 32 (s_len buffer))) info) x]> (heap c)) c, s))
     else if CI.has_pending_credit_request info then
       (Val (Err (SocketDeviceError InsufficientBufferSpaceInPeer)), (c, (d, w)))
     else
       let '(r, s) := send_packet_to_queue (hdr VirtioVsockOp.CreditRequest) no_data (d, w) in
       (match r with
        | Val (Ok _) => Val (Err (SocketDeviceError InsufficientBufferSpaceInPeer))
        | _ => r
        end, (set_heap (<[a := CN.set_info (CI.set_pending true info) x]> (heap c)) c, s))).
Proof. apply msend_run. Qed.

(** [connect]: an existing connection to the same peer from the same port is refused and
    nothing changes; else the connection is added at the end of the list, with an empty receive
    buffer of the configured capacity, and if the request cannot be sent it is taken out again,
    so that the list of connections is as before. *)
Theorem connect_spec `{VirtIOSocketManager D W} c (d d' : D) (w w' : W) peer p r :
  conns_ok c →
  let x := CN.new peer p (per_connection_buffer_capacity c) in
  send_packet_to_queue (VirtioVsockHdr.with_op (VirtioVsockOp.as_u16 VirtioVsockOp.Request)
    (CI.new_header (CN.info x) (local_cid d))) no_data (d, w) = (Val r, (d', w')) →
  Common.connect peer p (c, (d, w)) =
    if bool_decide (Some (peer, p) ∈ keys c)
    then (Val (Err (SocketDeviceError ConnectionExists)), (c, (d, w)))
    else (Val r, (match r with
                  | Ok _ => pushed x c
                  | Err _ => set_heap (heap c ++ [x]) c
                  end, (d', w'))).
Proof.
  intros Hc x Hsend. unfold Common.connect. mstep. cbn [fst snd].
  assert (existsb (holds c (is_connection peer p)) (connections c) = bool_decide (Some (peer, p) ∈ keys c)) as ->.
  { apply eq_bool_prop_intro. rewrite bool_decide_spec, Is_true_true, existsb_exists. unfold keys.
    setoid_rewrite list_elem_of_fmap. split.
    - intros (a & Ha%list_elem_of_In & Hh). exists a. split; [|done]. unfold holds in Hh.
      destruct (heap c !! a) as [y|]; [|done]. apply is_connection_spec in Hh. simpl. by rewrite <- Hh.
    - intros (a & E & Ha). exists a. split; [by apply list_elem_of_In|]. unfold holds.
      destruct (heap c !! a) as [y|]; [|done]. injection E as E1 E2. apply is_connection_spec. by rewrite E1, E2. }
  case_bool_decide as Hk; [done|]. fold x. unfold Common.register.
  rewrite (bind_val _ _ _ (length (heap c)) (set_heap (heap c ++ [x]) c, (d, w))) by done.
  rewrite (bind_val _ _ _ tt (pushed x c, (d, w))) by done.
  erewrite bind_val.
  2:{ unfold Vsock.connect. erewrite bind_val.
      2:{ apply on_fst_val, (lock_info_run _ (pushed x c) x). simpl.
          by rewrite lookup_app_r, Nat.sub_diag by lia. }
      mstep. cbn [fst snd]. apply on_snd_val. exact Hsend. }
  destruct r as [[]|e]; [done|]. erewrite bind_val by (by apply on_fst_val).
  unfold pushed, set_connections. simpl. unfold mret, M_ret. do 3 f_equal. unfold set_heap. f_equal.
  rewrite filter_app, (filter_cons_False _ (length (heap c))), filter_nil, app_nil_r by tauto.
  destruct Hc as [Hv _ _ _]. clear -Hv. induction Hv as [|a l Ha _ IH]; [done|].
  rewrite filter_cons_True by lia. by rewrite IH.
Qed.

(** Over a driver that returns, [poll] returns: whatever the packet, the lookup of the
    event's connection after the handler succeeds, and no other step panics. *)
Theorem poll_never_panics `{SocketLaws D W} c (dw : D * W) :
  (∀ hdr b (s : D * W), returns (send_packet_to_queue hdr b) s) →
  (∀ C h (x : C) s, (∀ e b, returns (h e b) x) → returns (Vsock.poll h) (x, s)) →
  conns_ok c → returns Common.poll (c, dw).
Proof.
  intros Hsend Hpoll Hc. unfold Common.poll. apply returns_bind; [by eexists _, _|].
  intros d s [= <- <-]. cbn [fst snd]. apply returns_try.
  { apply Hpoll. intros. by apply poll_handler_returns. }
  intros [e|] [c' dw'] E; [|by eexists _, _].
  destruct (poll_driver _ (c, dw) (c', dw') _ Hc E) as [_ Hf]. destruct (Hf e eq_refl) as [[i a] Hg].
  apply returns_bind; [by eexists _, _|]. intros ? ? [= <- <-]. simpl in Hg. cbn [fst].
  destruct (find_event_heap _ _ _ _ _ Hg) as [x Hx]. rewrite Hg.
  apply returns_bind; [by eexists _, _|]. intros ? ? [= <- <-].
  assert (∀ s, s = set_connections (swap_remove i (connections c')) c' →
    returns (Vsock.force_close a) (s, dw')) as Hfc by (intros s ->; by eapply answer_returns).
  destruct (VsockEvent.event_type e) as [| |reason| | |]; try by eexists _, _.
  - case_bool_decide.
    + apply returns_bind; [eexists _, _; by apply on_fst_val, lock_info_run|]. intros info s _.
      destruct s. apply returns_try; [apply returns_on_snd, Hsend|]. intros. by eexists _, _.
    + apply returns_bind; [by eexists _, _|]. intros ? ? [= <- <-].
      apply returns_try; [by apply Hfc|]. intros. by eexists _, _.
  - apply returns_bind; [eexists _, _; by apply on_fst_val, lock_run|]. intros y s Hy.
    rewrite (on_fst_val _ _ _ _ _ (lock_run a c' x Hx)) in Hy. injection Hy as <- <-.
    destruct (RB.is_empty _); [|by eexists _, _].
    apply returns_bind; [by eexists _, _|]. intros ? ? [= <- <-].
    case_bool_decide; [|by eexists _, _].
    apply returns_try; [by apply Hfc|]. intros. by eexists _, _.
  - apply returns_try; [by eapply answer_returns|]. intros. by eexists _, _.
Qed.
End theorems.

(** ** Concrete runs

    A driver over a pair of packet lists. *)
Module Pipe.
Record Pipe := mkPipe {
  p_cid : Z;
  incoming : list (list Z);
  outgoing : list VirtioVsockHdr
}.

Definition send (hdr : VirtioVsockHdr) (_ : Slice) : M (Pipe * unit) (Result unit) :=
  modify (λ s, (mkPipe (p_cid s.1) (incoming s.1) (outgoing s.1 ++ [hdr]), s.2));; mret (Ok tt).

Definition receive {C} (h : VsockEvent → list Z → M C (Result (option VsockEvent)))
    : M (C * (Pipe * unit)) (Result (option VsockEvent)) :=
  p ← gets (λ s, s.2.1);
  match incoming p with
  | [] => mret (Ok None)
  | bytes :: rest =>
      modify (λ s, (s.1, (mkPipe (p_cid p) rest (outgoing p), s.2.2)));;
      on_fst (packet_handler h bytes)
  end.

#[global] Instance pipe_manager : VirtIOSocketManager Pipe unit :=
  {| local_cid := p_cid; send_packet_to_queue := send; poll := λ C, receive |}.

Lemma receive_inv {C} (h : VsockEvent → list Z → M C (Result (option VsockEvent))) c p u o c' p' u' :
  receive h (c, (p, u)) = (o, (c', (p', u'))) → p_cid p' = p_cid p ∧
  ((c' = c ∧ o = Val (Ok None)) ∨ ∃ bytes, packet_handler h bytes c = (o, c')).
Proof.
  unfold receive. mstep. cbn [fst snd]. destruct (incoming p) as [|bytes rest].
  - intros [= <- <- <- <-]. auto.
  - mstep. unfold on_fst, zoom. cbn. destruct (packet_handler h bytes c) as [o1 c1] eqn:E.
    intros [= <- <- <- <-]. eauto.
Qed.

#[global] Instance pipe_laws : SocketLaws Pipe unit.
Proof.
  split; intros C h c d w o c' d' w' E; apply receive_inv in E as [Hcid Hc]; [|done].
  destruct Hc as [[-> ->]|(bytes & E)]; [by left|]. unfold packet_handler in E.
  destruct (read_header_and_body bytes) as [[header body]|e].
  - destruct (VsockEvent.from_header header) as [event|e] eqn:Eh.
    + right. by exists header, event, body, o.
    + injection E as <- <-. by left.
  - injection E as <- <-. by left.
Qed.

Lemma pipe_receives cid' bytes rest out : receives (mkPipe cid' (bytes :: rest) out) tt bytes
  (mkPipe cid' rest out) tt.
Proof.
  intros C h c r c' E. simpl. unfold receive. mstep. cbn. mstep. cbn. by apply on_fst_val.
Qed.
End Pipe.

Section witnesses.
Import Pipe.
#[local] Instance checked : Profile := {| overflow_checks := true; debug_assertions := true |}.

Definition peer : VsockAddr := mkVsockAddr 2 42.

(** A header the peer sends to port 7 of the guest 66. *)
Definition from_peer (o : VirtioVsockOp) (n : Z) : VirtioVsockHdr :=
  VirtioVsockHdr.mkHdr 2 66 42 7 n 1 (VirtioVsockOp.as_u16 o) 0 100 0.
Definition event (t : VsockEventType) : VsockEvent :=
  VsockEvent.mkEvent peer (mkVsockAddr 66 7) (mkStatus 100 0) t None.

Definition rw : list Z := VirtioVsockHdr.as_bytes (from_peer VirtioVsockOp.Rw 3) ++ [1; 2; 3].
Definition request : list Z := VirtioVsockHdr.as_bytes (from_peer VirtioVsockOp.Request 0).

(** A manager with one connection, to [peer] from port 7. *)
Definition open (b : RB.RingBuffer) (shut : bool) : Connection :=
  CN.mkConnection (CN.info (CN.new peer 7 8)) b shut.
Definition one (b : RB.RingBuffer) (shut : bool) : Conns := mkConns [open b shut] 8 [0%nat] [].
Definition some_data : RB.RingBuffer := (RB.add [5; 6] (RB.new 8)).2.

Lemma some_data_ok : RB.ok some_data.
Proof.
  destruct (RB.add_contents [5; 6] (RB.new 8)) as (r & E & Hok & _); [by apply RB.new_ok|vm_compute; congruence|].
  unfold some_data. by rewrite E.
Qed.

Lemma one_ok b shut : RB.ok b → conns_ok (one b shut).
Proof.
  intros Hb. split; simpl; [by repeat constructor; simpl; lia|apply NoDup_singleton|by apply Forall_singleton|lia].
Qed.

(** The connection [poll_direct] hands out for a request of [peer] to port 7. *)
Definition offered : Connection :=
  let c := CN.new peer 7 8 in
  CN.set_info (update_for_event (event VsockEventType.ConnectionRequest) (CN.info c)) c.

Lemma poll_direct_offers :
  (Common.poll_direct (mkConns [] 8 [] [7], (mkPipe 66 [request] [], tt))).1 =
    Val (Ok (Some (VsockEvent.set_new_connection (Some offered)
      (event VsockEventType.ConnectionRequest)))).
Proof. reflexivity. Qed.

(** A peer that repeats its request, and a client that accepts what [poll_direct] reports: the
    manager lists two connections with the same peer and port. *)
Lemma accept_duplicates :
  keys (calls [CListen 7; CPollDirect; CAccept offered; CPollDirect; CAccept offered]
    (Common.new 8, (mkPipe 66 [request; request] [], tt))).2.1 =
  [Some (peer, 7); Some (peer, 7)].
Proof. reflexivity. Qed.

Lemma manager_invariant_witness :
  conns_ok (calls [CListen 7; CConnect peer 9; CPollDirect; CAccept offered; CPoll; CRecv peer 7 [0; 0];
      CConnect peer 7; CWaitForEvent (mret tt) 2]
    (Common.new 8, (mkPipe 66 [request; rw] [], tt))).2.1.
Proof.
  refine (manager_invariant 8 _ (mkPipe 66 [request; rw] []) tt _ _ _ _ (surjective_pairing _)).
  - lia.
  - do 3 (split; [exact I|]). split; [split|by repeat (split; [exact I|])].
    + by apply RB.new_ok.
    + intros Hin. vm_compute in Hin. apply list_elem_of_singleton in Hin. discriminate Hin.
Defined.

Lemma poll_received_witness : ∃ x', Common.poll (one some_data false, (mkPipe 66 [rw] [], tt)) =
    (Val (Ok (Some (event (VsockEventType.Received 3)))),
     (set_heap [x'] (one some_data false), (mkPipe 66 [] [], tt))) ∧
  RB.contents (CN.buffer x') = [5; 6; 1; 2; 3].
Proof.
  destruct (poll_received (one some_data false) (mkPipe 66 [rw] []) (mkPipe 66 [] []) tt tt rw
    (event (VsockEventType.Received 3)) [1; 2; 3] 3 0 0 (open some_data false)) as (x' & Hr & _ & Hb).
  - apply one_ok, some_data_ok.
  - reflexivity.
  - reflexivity.
  - by exists (from_peer VirtioVsockOp.Rw 3).
  - reflexivity.
  - apply pipe_receives.
  - exists x'. split; [exact Hr|]. rewrite Hb. reflexivity.
Defined.

Lemma poll_rerequest_witness :
  let e := event VsockEventType.ConnectionRequest in
  Common.poll (one some_data false, (mkPipe 66 [request] [], tt)) =
    (Val (Ok None),
     (mkConns [noted e (open some_data false)] 8 [] [],
      (mkPipe 66 [] [VirtioVsockHdr.mkHdr 66 2 7 42 0 1 3 0 8 0], tt))).
Proof.
  apply (poll_rerequest (one some_data false) (mkPipe 66 [request] []) (mkPipe 66 [] [])
    (mkPipe 66 [] [VirtioVsockHdr.mkHdr 66 2 7 42 0 1 3 0 8 0]) tt tt tt request
    (event VsockEventType.ConnectionRequest) [] 0 0 (open some_data false)).
  - reflexivity.
  - reflexivity.
  - by exists (from_peer VirtioVsockOp.Request 0).
  - reflexivity.
  - apply pipe_receives.
  - reflexivity.
Defined.

Lemma recv_reads_witness : ∃ x', Common.recv peer 7 [0; 0; 0] (one some_data true, (mkPipe 66 [] [], tt)) =
    (Val (Ok ([5; 6; 0], 2)), (mkConns [x'] 8 [] [],
      (mkPipe 66 [] [VirtioVsockHdr.mkHdr 66 2 7 42 0 1 3 0 8 2], tt))).
Proof.
  destruct (recv_reads (one some_data true) (mkPipe 66 [] [])
    (mkPipe 66 [] [VirtioVsockHdr.mkHdr 66 2 7 42 0 1 3 0 8 2]) tt tt peer 7 [0; 0; 0] 0 0 (open some_data true))
    as (x' & Hr & _).
  - apply one_ok, some_data_ok.
  - reflexivity.
  - reflexivity.
  - reflexivity.
  - exists x'. exact Hr.
Defined.

Lemma send_respects_credit_witness :
  (Vsock.send (mkSlice 64 3) 0 (one some_data false, (mkPipe 66 [] [], tt))).1 =
    Val (Err (SocketDeviceError InsufficientBufferSpaceInPeer)).
Proof.
  pose proof (send_respects_credit (one some_data false) (mkPipe 66 [] []) tt (mkSlice 64 3) 0
    (open some_data false) eq_refl) as E. cbv zeta in E. rewrite E. reflexivity.
Defined.

Lemma connect_spec_witness :
  Common.connect peer 7 (one some_data false, (mkPipe 66 [] [], tt)) =
    (Val (Err (SocketDeviceError ConnectionExists)), (one some_data false, (mkPipe 66 [] [], tt))).
Proof.
  exact (connect_spec (one some_data false) (mkPipe 66 [] [])
    (mkPipe 66 [] [VirtioVsockHdr.mkHdr 66 2 7 42 0 1 1 0 8 0]) tt tt peer 7 (Ok tt)
    (one_ok _ _ some_data_ok) eq_refl).
Defined.

Lemma poll_never_panics_witness :
  returns Common.poll (one some_data false, (mkPipe 66 [[1; 2]; rw] [], tt)).
Proof.
  apply poll_never_panics.
  - intros hdr b s. by eexists _, _.
  - intros C h x [p u] Hh. simpl. unfold receive. apply returns_bind; [by eexists _, _|].
    intros ? ? [= <- <-]. cbn. destruct (incoming p) as [|bytes rest]; [by eexists _, _|].
    apply returns_bind; [by eexists _, _|]. intros ? ? [= <- <-].
    assert (returns (packet_handler h bytes) x) as (r & x' & E).
    { unfold packet_handler. destruct (read_header_and_body bytes) as [[header body]|]; [|by eexists _, _].
      destruct (VsockEvent.from_header header); [apply Hh|by eexists _, _]. }
    eexists _, _. by apply on_fst_val.
  - apply one_ok, some_data_ok.
Defined.
End witnesses.
