(* ===== verification/VsockFlow.v ===== *)
(** * Flow control of a vsock connection

    A connection between two peers that run this crate, each with a connection manager over a
    driver or a device: the calls of [src/src/device/socket/connectionmanager.rs] either side
    makes, and the packets in flight between them. The credit scheme is sound: what one side
    sends, the other has room for. *)

From Stdlib Require Import Sorted.
From S2P Require Import Prelude Base Transport Bytes RingBuffer VsockProtocol VsockProps Vsock ConnectionManager ManagerInv ManagerProps.

(** ** One direction of a connection

    The accounting of the sender's [ConnectionInfo] and the receiver's [Connection], with the
    data and the buffer status in flight. [sent] and [received] are the bytes that left the
    sender and those the receiver's client has read. *)
Record Link := mkLink {
  sender : ConnectionInfo;
  receiver : Connection;
  data : list (list Z);
  status : list VsockBufferStatus;
  sent : list Z;
  received : list Z
}.

(** The bookkeeping of [len] more bytes. *)
Definition counted (len : Z) (i : ConnectionInfo) : ConnectionInfo :=
  CI.set_tx_cnt (wrapping_add 32 (CI.tx_cnt i) (wrap 32 len)) i.

Section flow.
Context `{Profile}.

(** The invariant. [F] is the number of bytes the receiver's client has read, [P] the part of
    them the sender knows of, [L] the number of bytes counted but not sent, [fs] the counts the
    status in flight carries. *)
Record link_ok (cap : Z) (l : Link) (F P L : Z) (fs : list Z) : Prop := {
  lk_buffer : RB.ok (CN.buffer (receiver l));
  lk_cap : RB.len (CN.buffer (receiver l)) = cap;
  lk_stream : sent l = received l ++ RB.contents (CN.buffer (receiver l)) ++ mjoin (data l);
  lk_F : F = Z.of_nat (length (received l));
  lk_fwd : CI.fwd_cnt (CN.info (receiver l)) = wrap 32 F;
  lk_alloc : CI.buf_alloc (CN.info (receiver l)) = cap;
  lk_tx : CI.tx_cnt (sender l) = wrap 32 (Z.of_nat (length (sent l)) + L);
  lk_peer_fwd : CI.peer_fwd_cnt (sender l) = wrap 32 P;
  lk_peer_alloc : 0 ≤ CI.peer_buf_alloc (sender l) ≤ cap;
  lk_status : status l = (λ f, mkStatus cap (wrap 32 f)) <$> fs;
  lk_fs : Forall (λ f, P ≤ f ≤ F) fs;
  lk_sorted : StronglySorted Z.le fs;
  lk_P : 0 ≤ P ≤ F;
  lk_lost : 0 ≤ L;
  lk_credit : Z.of_nat (length (sent l)) + L - P ≤ cap
}.

Lemma wrap_sub_small a b : 0 ≤ a - b < 2 ^ 32 → wrapping_sub 32 (wrap 32 a) (wrap 32 b) = a - b.
Proof.
  intros Hab. unfold wrapping_sub, wrap. rewrite <- Zminus_mod. by apply Z.mod_small.
Qed.

Lemma wrap_add_small a n : 0 ≤ n < 2 ^ 32 →
  wrapping_add 32 (wrap 32 a) (wrap 32 n) = wrap 32 (a + n).
Proof. intros Hn. unfold wrapping_add, wrap. by rewrite <- Zplus_mod. Qed.

Lemma link_ok_used cap l F P L fs : link_ok cap l F P L fs →
  Z.of_nat (length (sent l)) =
  F + RB.used (CN.buffer (receiver l)) + Z.of_nat (length (mjoin (data l))).
Proof.
  intros [Hb _ -> -> _ _ _ _ _ _ _ _ _ _ _]. rewrite !length_app.
  pose proof (RB.length_contents (CN.buffer (receiver l)) (proj1 (RB.ok_used _ Hb))). lia.
Qed.

(** An event changes what is known of the peer, and nothing else. *)
Lemma update_for_event_own e i : CI.fwd_cnt (update_for_event e i) = CI.fwd_cnt i ∧
  CI.buf_alloc (update_for_event e i) = CI.buf_alloc i ∧
  CI.tx_cnt (update_for_event e i) = CI.tx_cnt i.
Proof. unfold update_for_event. by destruct (VsockEvent.event_type e). Qed.

(** The accounting does not depend on the other direction. *)
Lemma link_ok_same cap i i' c c' d st s r F P L fs :
  link_ok cap (mkLink i c d st s r) F P L fs →
  CI.tx_cnt i' = CI.tx_cnt i → CI.peer_fwd_cnt i' = CI.peer_fwd_cnt i →
  CI.peer_buf_alloc i' = CI.peer_buf_alloc i → CN.buffer c' = CN.buffer c →
  CI.fwd_cnt (CN.info c') = CI.fwd_cnt (CN.info c) →
  CI.buf_alloc (CN.info c') = CI.buf_alloc (CN.info c) →
  link_ok cap (mkLink i' c' d st s r) F P L fs.
Proof. intros [] E1 E2 E3 E4 E5 E6. by split; simpl in *; rewrite ?E1, ?E2, ?E3, ?E4, ?E5, ?E6. Qed.

(** The credit the sender sees is not more than there is. *)
Lemma credit_bound cap i c d st s r n F P L fs : cap < 2 ^ 32 →
  link_ok cap (mkLink i c d st s r) F P L fs → 0 ≤ n ≤ CI.peer_free i →
  n = 0 ∨ Z.of_nat (length s) + L + n - P ≤ cap.
Proof.
  intros Hc I Hf. pose proof (link_ok_used _ _ _ _ _ _ I) as Hu. destruct I. simpl in *.
  pose proof (RB.ok_used _ lk_buffer0).
  unfold CI.peer_free, saturating_sub in Hf. rewrite lk_tx0, lk_peer_fwd0, wrap_sub_small in Hf; lia.
Qed.

Lemma send_ok cap i c d st s r body F P L fs : cap < 2 ^ 32 →
  link_ok cap (mkLink i c d st s r) F P L fs → Z.of_nat (length body) ≤ CI.peer_free i →
  link_ok cap (mkLink (counted (Z.of_nat (length body)) i) c (d ++ [body]) st (s ++ body) r) F P L fs.
Proof.
  intros Hc I Hf. destruct (credit_bound cap i c d st s r (Z.of_nat (length body)) F P L fs) as [Hn|Hn]; try done; [lia|..].
  all: pose proof (link_ok_used _ _ _ _ _ _ I) as Hu; destruct I; simpl in *; pose proof (RB.ok_used _ lk_buffer0).
  all: split; simpl; try done; [|rewrite lk_tx0, wrap_add_small by lia; f_equal|]; rewrite ?length_app; try lia.
  all: rewrite lk_stream0, join_app; simpl; by rewrite app_nil_r, <- !app_assoc.
Qed.

Lemma lost_ok cap i c d st s r n F P L fs : cap < 2 ^ 32 →
  link_ok cap (mkLink i c d st s r) F P L fs → 0 ≤ n ≤ CI.peer_free i →
  ∃ L', link_ok cap (mkLink (counted n i) c d st s r) F P L' fs.
Proof.
  intros Hc I Hf. exists (L + n).
  destruct (credit_bound cap i c d st s r n F P L fs) as [Hn|Hn]; try done.
  all: pose proof (link_ok_used _ _ _ _ _ _ I) as Hu; destruct I; simpl in *; pose proof (RB.ok_used _ lk_buffer0).
  all: split; simpl; try done; try lia; rewrite lk_tx0, wrap_add_small by lia; f_equal; lia.
Qed.

(** Data that arrives fits in the buffer. *)
Lemma deliver_fits cap i c body d st s r F P L fs :
  link_ok cap (mkLink i c (body :: d) st s r) F P L fs →
  Z.of_nat (length body) ≤ RB.len (CN.buffer c) - RB.used (CN.buffer c).
Proof.
  intros I. pose proof (link_ok_used _ _ _ _ _ _ I) as Hu. destruct I. simpl in *.
  rewrite length_app in Hu. lia.
Qed.

Lemma deliver_ok cap i c body d st s r F P L fs e o rb :
  link_ok cap (mkLink i c (body :: d) st s r) F P L fs → RB.add body (CN.buffer c) = (o, rb) →
  link_ok cap (mkLink i (CN.set_buffer rb (noted e c)) d st s r) F P L fs.
Proof.
  intros I Hadd. pose proof (deliver_fits _ _ _ _ _ _ _ _ _ _ _ _ I) as Hfit. destruct I. simpl in *.
  destruct (RB.add_contents body (CN.buffer c) lk_buffer0 Hfit) as (rb' & E & Hok & Hcont & Hl).
  rewrite E in Hadd. injection Hadd as <- <-.
  destruct (update_for_event_own e (CN.info c)) as (E1 & E2 & _).
  split; simpl; rewrite ?E1, ?E2; try done; [congruence|]. rewrite lk_stream0, Hcont. simpl. by rewrite <- !app_assoc.
Qed.

Lemma read_ok cap i c d st s r F P L fs out out' n rb : cap < 2 ^ 32 →
  link_ok cap (mkLink i c d st s r) F P L fs → RB.drain out (CN.buffer c) = (Val (out', n), rb) →
  link_ok cap (mkLink i (drained n rb c) d st s (r ++ take (Z.to_nat n) out')) (F + n) P L fs.
Proof.
  intros Hc I Hd. destruct I. simpl in *.
  destruct (RB.drain_run out (CN.buffer c) lk_buffer0) as [E Hok]. cbv zeta in E, Hok.
  rewrite E in Hd. injection Hd as <- <- <-.
  set (k := Z.min (RB.used (CN.buffer c)) (Z.of_nat (length out))) in *.
  pose proof (RB.ok_used _ lk_buffer0) as Hu.
  pose proof (RB.length_contents (CN.buffer c) (proj1 Hu)) as Hlc.
  assert (take (Z.to_nat k) (take (Z.to_nat k) (RB.contents (CN.buffer c)) ++ drop (Z.to_nat k) out) =
    take (Z.to_nat k) (RB.contents (CN.buffer c))) as Et.
  { apply take_app_length'. rewrite length_take_le; lia. }
  rewrite Et. split; simpl; try done; try lia.
  - rewrite RB.contents_drop by (done || lia). rewrite lk_stream0, <- !app_assoc. f_equal.
    rewrite app_assoc. f_equal. by rewrite take_drop.
  - rewrite length_app, length_take_le by lia. lia.
  - rewrite lk_fwd0, wrap_add_small by lia. done.
  - eapply Forall_impl; [done|]. simpl. lia.
Qed.

Lemma status_ok cap i c d st s r cid F P L fs :
  link_ok cap (mkLink i c d st s r) F P L fs →
  let h := CI.new_header (CN.info c) cid in
  link_ok cap (mkLink i c d
    (st ++ [mkStatus (VirtioVsockHdr.buf_alloc h) (VirtioVsockHdr.fwd_cnt h)]) s r) F P L (fs ++ [F]).
Proof.
  intros I h. destruct I. simpl in *. split; simpl; try done.
  - by rewrite fmap_app, lk_status0, lk_alloc0, lk_fwd0.
  - apply Forall_app. split; [done|]. repeat constructor; lia.
  - clear -lk_sorted0 lk_fs0. induction fs as [|f fs IH]; simpl; [repeat constructor|].
    inversion lk_sorted0; inversion lk_fs0; subst. constructor; [by apply IH|].
    apply Forall_app. split; [done|]. repeat constructor; lia.
Qed.

Lemma update_ok cap i c d st s r F P L fs e :
  link_ok cap (mkLink i c d (VsockEvent.buffer_status e :: st) s r) F P L fs → 0 < cap →
  ∃ f fs', link_ok cap (mkLink (update_for_event e i) c d st s r) F f L fs'.
Proof.
  intros I Hc. destruct I. simpl in *. destruct fs as [|f fs]; [done|].
  simpl in lk_status0. injection lk_status0 as E ->.
  apply Forall_cons in lk_fs0 as [Hf Hfs]. apply StronglySorted_inv in lk_sorted0 as [Hso Hall].
  exists f, fs.
  assert (∀ b, CI.tx_cnt (update_for_event e b) = CI.tx_cnt b ∧
    CI.peer_fwd_cnt (update_for_event e b) = wrap 32 f ∧
    CI.peer_buf_alloc (update_for_event e b) = cap) as Hup.
  { intros b. unfold update_for_event. rewrite E. by destruct (VsockEvent.event_type e). }
  destruct (Hup i) as (E1 & E2 & E3).
  split; simpl; try done; try lia; try (rewrite ?E1, ?E2, ?E3; done || lia).
  rewrite Forall_forall in Hfs, Hall |- *. intros x Hx. specialize (Hfs x Hx).
  specialize (Hall x Hx). lia.
Qed.

Definition sound (cap : Z) (l : Link) : Prop := ∃ F P L fs, link_ok cap l F P L fs.

(** ** Packets and turns *)
Definition Packet : Type := VirtioVsockHdr * list Z.

Definition status_of (p : Packet) : VsockBufferStatus :=
  mkStatus (VirtioVsockHdr.buf_alloc p.1) (VirtioVsockHdr.fwd_cnt p.1).

Definition data_of (p : Packet) : list (list Z) :=
  match VsockEvent.from_header p.1 with
  | Ok e => match VsockEvent.event_type e with VsockEventType.Received _ => [p.2] | _ => [] end
  | Err _ => []
  end.

Definition in_flight (l : list Packet) : list (list Z) := mjoin (data_of <$> l).

(** At most one packet without data, about the connection's credit. *)
Definition tells (cid : Z) (x : Connection) (ps : list Packet) : Prop :=
  ps = [] ∨ ∃ o, (o = VirtioVsockOp.CreditRequest ∨ o = VirtioVsockOp.CreditUpdate) ∧
    ps = [(VirtioVsockHdr.with_op (VirtioVsockOp.as_u16 o) (CI.new_header (CN.info x) cid), [])].

(** What one call does to the connection [x]: the packet it takes, the connection after it, the
    packets it sends, the bytes the client reads. *)
Inductive turn (cid : Z) (x : Connection) : list Packet → Connection → list Packet → list Z → Prop :=
| turn_send body :
    Z.of_nat (length body) ≤ CI.peer_free (CN.info x) →
    turn cid x [] (CN.set_info (counted (Z.of_nat (length body)) (CN.info x)) x)
      [(VirtioVsockHdr.with_len (wrap 32 (Z.of_nat (length body)))
          (VirtioVsockHdr.with_op (VirtioVsockOp.as_u16 VirtioVsockOp.Rw) (CI.new_header (CN.info x) cid)),
        body)] []
| turn_lost n :
    0 ≤ n ≤ CI.peer_free (CN.info x) →
    turn cid x [] (CN.set_info (counted n (CN.info x)) x) [] []
| turn_ask ps :
    tells cid x ps → turn cid x [] (CN.set_info (CI.set_pending true (CN.info x)) x) ps []
| turn_tell ps :
    tells cid x ps → turn cid x [] x ps []
| turn_recv out out' n rb :
    RB.drain out (CN.buffer x) = (Val (out', n), rb) →
    turn cid x [] (drained n rb x) [] (take (Z.to_nat n) out')
| turn_poll p e ps :
    VsockEvent.from_header p.1 = Ok e → tells cid (noted e x) ps →
    turn cid x [p] (stored e p.2 x) ps [].

Lemma in_flight_app l l' : in_flight (l ++ l') = in_flight l ++ in_flight l'.
Proof. unfold in_flight. by rewrite fmap_app, join_app. Qed.

Lemma tells_no_data cid x ps : tells cid x ps → in_flight ps = [].
Proof. by intros [->|(o & [->| ->] & ->)]. Qed.

Lemma from_header_status p e : VsockEvent.from_header p.1 = Ok e →
  status_of p = VsockEvent.buffer_status e.
Proof.
  unfold VsockEvent.from_header. destruct (VirtioVsockOp.try_from _) as [o|]; [|done].
  cbv zeta. by destruct o; try destruct (VirtioVsockHdr.check_data_is_empty _); intros [= <-].
Qed.

(** The sender's turn. *)
Lemma sender_turn cap cid x got x' ps rr y q1 q2 s r : 0 < cap < 2 ^ 32 →
  turn cid x got x' ps rr →
  sound cap (mkLink (CN.info x) y (in_flight q2) (status_of <$> got ++ q1) s r) →
  sound cap (mkLink (CN.info x') y (in_flight (q2 ++ ps)) (status_of <$> q1) (s ++ mjoin (in_flight ps)) r).
Proof.
  intros Hc Ht (F & P & L & fs & I). rewrite in_flight_app. destruct Ht as [body Hf|n Hn|ps Hp|ps Hp|out out' n rb Hd|p e ps He Hp].
  all: try rewrite (tells_no_data _ _ _ Hp).
  all: simpl in *; rewrite ?app_nil_r.
  - exists F, P, L, fs. apply send_ok; [lia|done..].
  - destruct (lost_ok cap _ _ _ _ _ _ n _ _ _ _ (proj2 Hc) I) as (L' & I'); [done|]. by exists F, P, L', fs.
  - exists F, P, L, fs. by eapply link_ok_same.
  - by exists F, P, L, fs.
  - exists F, P, L, fs. by eapply link_ok_same.
  - rewrite (from_header_status p e He) in I. destruct (update_ok _ _ _ _ _ _ _ _ _ _ _ e I) as (f & fs' & I'); [lia|].
    exists F, f, L, fs'. unfold stored. by destruct (VsockEvent.event_type e).
Qed.

Lemma tells_ok cap cid x i d st s r ps : tells cid x ps → sound cap (mkLink i x d st s r) →
  sound cap (mkLink i x d (st ++ (status_of <$> ps)) s r).
Proof.
  intros [->|(o & _ & ->)] (F & P & L & fs & I); simpl; [rewrite app_nil_r; by exists F, P, L, fs|].
  exists F, P, L, (fs ++ [F]). by apply (status_ok _ _ _ _ _ _ _ cid).
Qed.

Lemma sound_same cap i i' c c' d st s r : sound cap (mkLink i c d st s r) →
  CI.tx_cnt i' = CI.tx_cnt i → CI.peer_fwd_cnt i' = CI.peer_fwd_cnt i →
  CI.peer_buf_alloc i' = CI.peer_buf_alloc i → CN.buffer c' = CN.buffer c →
  CI.fwd_cnt (CN.info c') = CI.fwd_cnt (CN.info c) →
  CI.buf_alloc (CN.info c') = CI.buf_alloc (CN.info c) → sound cap (mkLink i' c' d st s r).
Proof. intros (F & P & L & fs & I) **. exists F, P, L, fs. by eapply link_ok_same. Qed.

(** A packet that the receiver takes. *)
Lemma stored_ok cap i x p e q st s r : VsockEvent.from_header p.1 = Ok e →
  sound cap (mkLink i x (in_flight (p :: q)) st s r) →
  sound cap (mkLink i (stored e p.2 x) (in_flight q) st s r).
Proof.
  intros He (F & P & L & fs & I). destruct (update_for_event_own e (CN.info x)) as (E1 & E2 & _).
  unfold in_flight in I. simpl in I. unfold data_of in I at 1. rewrite He in I. unfold stored.
  exists F, P, L, fs. destruct (VsockEvent.event_type e); simpl in I;
    try by (eapply link_ok_same; [exact I|..]).
  eapply deliver_ok; [done|apply surjective_pairing].
Qed.

(** The receiver's turn. *)
Lemma receiver_turn cap cid x got x' ps rr i q1 q2 s r : cap < 2 ^ 32 →
  turn cid x got x' ps rr →
  sound cap (mkLink i x (in_flight (got ++ q1)) (status_of <$> q2) s r) →
  sound cap (mkLink i x' (in_flight q1) (status_of <$> q2 ++ ps) s (r ++ rr)).
Proof.
  intros Hc Ht I. rewrite fmap_app. destruct Ht as [body Hf|n Hn|ps Hp|ps Hp|out out' n rb Hd|p e ps He Hp];
    simpl in *; rewrite ?app_nil_r.
  - destruct I as (F & P & L & fs & I). exists F, P, L, (fs ++ [F]).
    refine (link_ok_same _ _ i _ (CN.set_info _ x) _ _ _ _ _ _ _ _ (status_ok _ _ _ _ _ _ _ cid _ _ _ _ I) _ _ _ _ _ _); done.
  - by eapply sound_same.
  - eapply sound_same; [by eapply tells_ok|done..].
  - by eapply tells_ok.
  - destruct I as (F & P & L & fs & I). exists (F + n), P, L, fs. eapply read_ok; [lia|done..].
  - assert (sound cap (mkLink i (stored e p.2 x) (in_flight q1) (status_of <$> q2) s r)) as I1
      by (by apply stored_ok).
    destruct Hp as [->|(o & Ho & ->)]; [by rewrite app_nil_r|].
    destruct (update_for_event_own e (CN.info x)) as (E1 & E2 & _).
    apply (tells_ok _ cid); [|done]. right. exists o. split; [done|].
    unfold stored. by destruct (VsockEvent.event_type e).
Qed.

(** ** Both directions

    The packets in flight to one side, the bytes that left it, the bytes its client has read. *)
Record Tape := mkTape {
  inbox : list Packet;
  outgone : list Z;
  taken : list Z
}.

Definition addr_ok (a : VsockAddr) : Prop := fits 64 (cid a) ∧ fits 32 (port a).

(** A packet that the side [dst] reads as one of [src], about data or credit. *)
Definition from_to (src dst : VsockAddr) (p : Packet) : Prop :=
  (∀ rest, read_header_and_body (VirtioVsockHdr.as_bytes p.1 ++ p.2 ++ rest) = Ok p) ∧
  ∃ e, VsockEvent.from_header p.1 = Ok e ∧ VsockEvent.source e = src ∧
    VsockEvent.destination e = dst ∧
    match VsockEvent.event_type e with
    | VsockEventType.Received _ | VsockEventType.CreditRequest | VsockEventType.CreditUpdate => True
    | _ => False
    end.

(** The connection from [a] to [b]. *)
Definition between (a b : VsockAddr) (x : Connection) : Prop :=
  CI.dst (CN.info x) = b ∧ CI.src_port (CN.info x) = port a.

Definition one_way (x : Connection) (t : Tape) (y : Connection) (u : Tape) : Link :=
  mkLink (CN.info x) y (in_flight (inbox u)) (status_of <$> inbox t) (outgone t) (taken u).

(** The side [a], with a receive buffer of [n] bytes, and the side [b], with one of [m]. *)
Definition balanced (a b : VsockAddr) (n m : Z) (x : Connection) (t : Tape) (y : Connection)
    (u : Tape) : Prop :=
  Forall (from_to b a) (inbox t) ∧ Forall (from_to a b) (inbox u) ∧
  sound m (one_way x t y u) ∧ sound n (one_way y u x t).

Lemma header_from_to a b x len body o : addr_ok a → addr_ok b → between a b x →
  fits 32 (CI.buf_alloc (CN.info x)) → fits 32 (CI.fwd_cnt (CN.info x)) → fits 32 len →
  len = Z.of_nat (length body) →
  (o = VirtioVsockOp.Rw ∨ (o = VirtioVsockOp.CreditRequest ∨ o = VirtioVsockOp.CreditUpdate) ∧ len = 0) →
  from_to a b (VirtioVsockHdr.with_len len (VirtioVsockHdr.with_op (VirtioVsockOp.as_u16 o)
    (CI.new_header (CN.info x) (cid a))), body).
Proof.
  intros [Ha1 Ha2] [Hb1 Hb2] [Ed Es] H1 H2 H3 El Ho. split.
  - intros rest. apply read_packet; [|done]. unfold hdr_ok. simpl. rewrite Ed, Es.
    split_and!; try done. destruct Ho as [->|[[->| ->] _]]; by vm_compute.
  - destruct Ho as [->|[[->| ->] ->]]; (eexists; split; [reflexivity|]);
      unfold VirtioVsockHdr.source, VirtioVsockHdr.destination; simpl; rewrite Ed, Es;
      (split; [by destruct a|split; [by destruct b|done]]).
Qed.

Lemma sound_fits cap i x d st s r : 0 < cap < 2 ^ 32 → sound cap (mkLink i x d st s r) →
  fits 32 (CI.buf_alloc (CN.info x)) ∧ fits 32 (CI.fwd_cnt (CN.info x)) ∧ CI.peer_free i ≤ cap.
Proof.
  intros Hc (F & P & L & fs & I). destruct I. simpl in *. rewrite lk_alloc0, lk_fwd0.
  unfold fits, CI.peer_free, saturating_sub, wrapping_sub.
  pose proof (wrap_fits 32 F). pose proof (wrap_fits 32 (CI.tx_cnt i - CI.peer_fwd_cnt i)).
  unfold fits in *. lia.
Qed.

(** What a turn of [a] sends reaches [b] as [a]'s. *)
Lemma turn_emits a b n m x got x' ps rr i' y d st s r d' st' s' r' :
  addr_ok a → addr_ok b → 0 < n < 2 ^ 32 → 0 < m < 2 ^ 32 → between a b x →
  turn (cid a) x got x' ps rr →
  sound n (mkLink i' x d st s r) → sound m (mkLink (CN.info x) y d' st' s' r') →
  Forall (from_to a b) ps.
Proof.
  intros Ha Hb Hn Hm Hx Ht In Im. destruct (sound_fits _ _ _ _ _ _ _ Hn In) as (F1 & F2 & _).
  destruct (sound_fits _ _ _ _ _ _ _ Hm Im) as (_ & _ & F3).
  assert (∀ z, between a b z → fits 32 (CI.buf_alloc (CN.info z)) → fits 32 (CI.fwd_cnt (CN.info z)) →
    tells (cid a) z ps → Forall (from_to a b) ps) as Htell.
  { intros z Hz G1 G2 [->|(o & Ho & ->)]; [done|]. apply Forall_singleton.
    by apply (header_from_to a b z 0 [] o); auto. }
  destruct Ht as [body Hf|k Hk|ps Hp|ps Hp|out out' k rb Hd|p e ps He Hp]; try by eauto.
  - apply Forall_singleton. rewrite wrap_small by (unfold fits; lia).
    apply header_from_to; try done; [unfold fits; lia|by left].
  - destruct (update_for_event_own e (CN.info x)) as (E1 & E2 & _).
    destruct (update_for_event_key e (CN.info x)) as [E3 E4]. destruct Hx as [E5 E6].
    apply (Htell (noted e x)); simpl; [split; simpl|..]; congruence.
Qed.

Lemma turn_between a b x cid' got x' ps rr : between a b x → turn cid' x got x' ps rr → between a b x'.
Proof.
  intros [E1 E2] Ht. destruct Ht as [| | | | |p e]; try done.
  destruct (update_for_event_key e (CN.info x)) as [E3 E4].
  unfold stored. destruct (VsockEvent.event_type e); split; simpl; congruence.
Qed.

(** A turn of either side keeps the balance. *)
Lemma turn_balanced a b n m x got x' ps rr y t u q : addr_ok a → addr_ok b → 0 < n < 2 ^ 32 →
  0 < m < 2 ^ 32 → between a b x → turn (cid a) x got x' ps rr → inbox t = got ++ q →
  balanced a b n m x t y u →
  balanced a b n m x' (mkTape q (outgone t ++ mjoin (in_flight ps)) (taken t ++ rr))
    y (mkTape (inbox u ++ ps) (outgone u) (taken u)).
Proof.
  intros Ha Hb Hn Hm Hx Ht Hq (G1 & G2 & Im & In). unfold one_way in *. rewrite Hq in *.
  apply Forall_app in G1 as [_ G1]. split_and!; simpl.
  - done.
  - apply Forall_app. split; [done|]. by eapply (turn_emits a b n m).
  - by eapply sender_turn.
  - eapply receiver_turn; [lia|done..].
Qed.
End flow.

(** ** The calls of one side *)

(** What has left a driver: a packet it is given to send, or nothing when it fails. [payload] are
    the bytes of a slice. *)
Class Wire (D W : Type) `{VirtIOSocketManager D W} := {
  outbox : D * W → list Packet;
  payload : W → Slice → list Z;
  payload_length : ∀ w b, 0 ≤ s_len b → Z.of_nat (length (payload w b)) = s_len b;
  wire_send : ∀ h b d w r d' w', send_packet_to_queue h b (d, w) = (Val r, (d', w')) →
    local_cid d' = local_cid d ∧ ∃ ps, outbox (d', w') = outbox (d, w) ++ ps ∧
      (ps = [(h, payload w b)] ∨ ps = [])
}.

Section calls.
Context `{Profile} {D W : Type} `{Wire D W}.

Abbreviation St := (Conns * (D * W))%type.

(** The packets a call has sent. *)
Definition emitted (s s' : St) : list Packet := drop (length (outbox s.2)) (outbox s'.2).

(** The manager [s] of the side [a] has the open connection [x] to [b]. *)
Definition connected (a b : VsockAddr) (s : St) (x : Connection) : Prop :=
  (∃ i k, get_connection s.1 b (port a) = Ok (i, k) ∧ heap s.1 !! k = Some x) ∧
  local_cid s.2.1 = cid a ∧ CN.peer_requested_shutdown x = false.

(** A call of the side [a] about its connection to [b]: the packet its driver hands over, the
    packets it sends, the bytes its client reads. Anything else the manager does leaves the
    connection alone. *)
Inductive call (a b : VsockAddr) : St → list Packet → St → list Packet → list Z → Prop :=
| call_send buffer s r s' :
    0 ≤ s_len buffer →
    Common.send b (port a) buffer s = (Val r, s') →
    call a b s [] s' (emitted s s') []
| call_recv out s out' n s' :
    Common.recv b (port a) out s = (Val (Ok (out', n)), s') →
    call a b s [] s' (emitted s s') (take (Z.to_nat n) out')
| call_update_credit s r s' :
    Common.update_credit b (port a) s = (Val r, s') →
    call a b s [] s' (emitted s s') []
| call_poll p rest c d w d' w' r s' :
    receives d w (VirtioVsockHdr.as_bytes p.1 ++ p.2 ++ rest) d' w' →
    outbox (d', w') = outbox (d, w) → local_cid d' = local_cid d →
    Common.poll (c, (d, w)) = (Val r, s') →
    call a b (c, (d, w)) [p] s' (emitted (c, (d, w)) s') []
| call_other s s' :
    (∀ x, connected a b s x → connected a b s' x) →
    call a b s [] s' [] [].

Lemma connected_between a b s x : connected a b s x → between a b x.
Proof.
  intros [(i & k & Hg & Hx) _]. unfold get_connection in Hg.
  destruct (find_connection _ _) as [[i' k']|] eqn:E; [|done]. injection Hg as -> ->.
  apply find_connection_Some in E as (_ & x' & Hx' & E). assert (x' = x) as -> by congruence.
  apply is_connection_spec in E. by injection E.
Qed.

Lemma connected_update a b c (d d' : D) (w' : W) i k x x' :
  get_connection c b (port a) = Ok (i, k) → heap c !! k = Some x →
  local_cid d = cid a → local_cid d' = local_cid d →
  between a b x → between a b x' → CN.peer_requested_shutdown x' = false →
  connected a b (set_heap (<[k := x']> (heap c)) c, (d', w')) x'.
Proof.
  intros Hg Hx E1 E2 [B1 B2] [B3 B4] Hs. split; [|split; [simpl; congruence|done]]. exists i, k.
  apply lookup_lt_Some in Hx as Hlt. split; [|by apply list_lookup_insert_eq].
  unfold get_connection in *. cbn [fst]. rewrite (find_stable _ c k x x'); [done|done|].
  unfold is_connection. by rewrite B1, B2, B3, B4.
Qed.

Lemma emitted_app s s' ps : outbox s'.2 = outbox s.2 ++ ps → emitted s s' = ps.
Proof. intros E. unfold emitted. rewrite E. by rewrite drop_app_length. Qed.

Lemma emitted_same s s' : outbox s'.2 = outbox s.2 → emitted s s' = [].
Proof. intros E. apply emitted_app. by rewrite app_nil_r. Qed.

Lemma no_payload w : payload w no_data = [].
Proof. apply length_zero_iff_nil. pose proof (payload_length w no_data). simpl in *. lia. Qed.

(** Sending a header without data. *)
Lemma tell_run o d w r (d' : D) (w' : W) x :
  o = VirtioVsockOp.CreditRequest ∨ o = VirtioVsockOp.CreditUpdate →
  send_packet_to_queue (VirtioVsockHdr.with_op (VirtioVsockOp.as_u16 o)
    (CI.new_header (CN.info x) (local_cid d))) no_data (d, w) = (Val r, (d', w')) →
  local_cid d' = local_cid d ∧ ∃ ps, outbox (d', w') = outbox (d, w) ++ ps ∧ tells (local_cid d) x ps.
Proof.
  intros Ho [Hc (ps & Hps & Hp)]%wire_send. split; [done|]. exists ps. split; [done|].
  rewrite no_payload in Hp. destruct Hp as [->| ->]; [right; by exists o|by left].
Qed.

Lemma lookup_run b p c (dw : D * W) i k : get_connection c b p = Ok (i, k) →
  Common.lookup b p (c, dw) = (Val (Ok (i, k)), (c, dw)).
Proof. intros Hg. unfold Common.lookup, gets. simpl. by rewrite Hg. Qed.

Lemma send_turn a b buffer s r s' x : 0 ≤ s_len buffer → connected a b s x →
  Common.send b (port a) buffer s = (Val r, s') →
  ∃ x', connected a b s' x' ∧ turn (cid a) x [] x' (emitted s s') [].
Proof.
  intros Hl Hs E. pose proof (connected_between _ _ _ _ Hs) as Hb.
  destruct s as [c [d w]], Hs as [(i & k & Hg & Hx) [Hcid Hsh]]. simpl in Hg, Hx, Hcid.
  unfold Common.send in E. erewrite try_ok in E by (by apply lookup_run). cbv beta iota in E.
  rewrite (msend_run c d w buffer k x Hx) in E. cbv zeta in E.
  destruct (Z.leb_spec (s_len buffer) (CI.peer_free (CN.info x))) as [Hle|Hgt].
  - destruct (send_packet_to_queue _ _ _) as [r1 [d' w']] eqn:Es. injection E as -> <-.
    apply wire_send in Es as [Hc (ps & Hps & Hp)]. rewrite (emitted_app _ _ ps) by done.
    eexists. split; [by eapply connected_update|].
    rewrite <- (payload_length w buffer) in * by done. rewrite Hcid in Hp.
    destruct Hp as [->| ->]; [by apply turn_send|apply turn_lost; lia].
  - destruct (CI.has_pending_credit_request (CN.info x)).
    { injection E as <- <-. rewrite emitted_same by done. exists x. split; [|apply turn_tell; by left].
      split; [by exists i, k|done]. }
    destruct (send_packet_to_queue _ _ _) as [r1 [d' w']] eqn:Es.
    assert (∃ r2, r1 = Val r2) as [r2 ->] by (destruct r1 as [[]| |]; naive_solver).
    apply tell_run in Es as [Hc (ps & Hps & Ht)]; [|by left].
    assert (s' = (set_heap (<[k := CN.set_info (CI.set_pending true (CN.info x)) x]> (heap c)) c, (d', w'))) as ->
      by (by destruct r2; injection E).
    rewrite (emitted_app _ _ ps) by done. eexists. split; [by eapply connected_update|].
    apply turn_ask. by rewrite <- Hcid.
Qed.

Lemma recv_turn a b out s out' n s' x : RB.ok (CN.buffer x) → connected a b s x →
  Common.recv b (port a) out s = (Val (Ok (out', n)), s') →
  ∃ x', connected a b s' x' ∧ turn (cid a) x [] x' (emitted s s') (take (Z.to_nat n) out').
Proof.
  intros Hok Hs E. pose proof (connected_between _ _ _ _ Hs) as Hb.
  destruct s as [c [d w]], Hs as [(i & k & Hg & Hx) [Hcid Hsh]]. simpl in Hg, Hx, Hcid.
  destruct (RB.drain_run out (CN.buffer x) Hok) as [Hd _]. cbv zeta in Hd.
  rewrite (mrecv_run c d d w w b (port a) out i k x _ _ _ Hg Hx Hd) in E by (by rewrite Hsh).
  rewrite Hsh in E. injection E as <- <- <-. rewrite emitted_same by done.
  eexists. split; [|by eapply turn_recv]. by eapply connected_update.
Qed.

Lemma credit_update_run k c (d : D) (w : W) x : heap c !! k = Some x →
  Vsock.credit_update k (c, (d, w)) =
    (let '(r, s) := send_packet_to_queue (VirtioVsockHdr.with_op (VirtioVsockOp.as_u16 VirtioVsockOp.CreditUpdate)
       (CI.new_header (CN.info x) (local_cid d))) no_data (d, w) in (r, (c, s))).
Proof.
  intros Hx. unfold Vsock.credit_update. erewrite bind_val by (apply on_fst_val, lock_info_run; exact Hx).
  mstep. cbn [fst snd]. unfold on_snd, zoom. cbn [view update snd_lens fst snd].
  by destruct (send_packet_to_queue _ _ _).
Qed.

Lemma update_credit_turn a b s r s' x : connected a b s x →
  Common.update_credit b (port a) s = (Val r, s') →
  ∃ x', connected a b s' x' ∧ turn (cid a) x [] x' (emitted s s') [].
Proof.
  intros Hs E. destruct s as [c [d w]], Hs as [(i & k & Hg & Hx) [Hcid Hsh]]. simpl in Hg, Hx, Hcid.
  unfold Common.update_credit in E. erewrite try_ok in E by (by apply lookup_run). cbv beta iota in E.
  rewrite (credit_update_run k c d w x Hx) in E.
  destruct (send_packet_to_queue _ _ _) as [r1 [d' w']] eqn:Es. injection E as -> <-.
  apply tell_run in Es as [Hc (ps & Hps & Ht)]; [|by right].
  rewrite (emitted_app _ _ ps) by done. exists x. split.
  - split; [by exists i, k|]. simpl. by rewrite Hc.
  - apply turn_tell. by rewrite <- Hcid.
Qed.

(** A request for credit is answered. *)
Lemma poll_credit_run c (d d' : D) (w w' : W) bytes e body i k x :
  get_connection_for_event c e (local_cid d) = Some (i, k) → heap c !! k = Some x →
  packet bytes e body → VsockEvent.event_type e = VsockEventType.CreditRequest →
  receives d w bytes d' w' →
  Common.poll (c, (d, w)) =
    (let '(r, s) := send_packet_to_queue (VirtioVsockHdr.with_op (VirtioVsockOp.as_u16 VirtioVsockOp.CreditUpdate)
       (CI.new_header (CN.info (noted e x)) (local_cid d'))) no_data (d', w') in
     (match r with
      | Val (Ok _) => Val (Ok None) | Val (Err err) => Val (Err err) | Panic => Panic | Hang => Hang
      end, (set_heap (<[k := noted e x]> (heap c)) c, s))).
Proof.
  intros Hg Hx Hp He Hr. apply lookup_lt_Some in Hx as Hlt. unfold Common.poll. mstep. cbv zeta. cbn [fst snd].
  assert (Common.store_event e body k c = (Val (Ok (Some e)), set_heap (<[k := noted e x]> (heap c)) c)) as Hs
    by (apply store_run; [done|congruence]).
  assert (Common.poll_handler (local_cid d) e body c = Common.store_event e body k c) as Hh.
  { unfold Common.poll_handler. mstep. cbn. by rewrite Hg. }
  pose proof (Hr _ (Common.poll_handler (local_cid d)) c) as Hp'.
  rewrite (handler_run _ _ e body), Hh in Hp' by done. specialize (Hp' _ _ Hs).
  erewrite try_ok by exact Hp'. cbv beta iota. mstep. cbn [fst snd].
  rewrite (event_stable e _ c k x), Hg by done. mstep. rewrite He.
  unfold try, mbind, M_bind. rewrite (credit_update_run k _ d' w' (noted e x)) by (by apply list_lookup_insert_eq).
  by destruct (send_packet_to_queue _ _ _) as [[[]| |] s].
Qed.

Lemma find_ext f g c : (∀ i, f i = g i) → find_connection f c = find_connection g c.
Proof.
  intros E. unfold find_connection. generalize 0%nat. induction (connections c) as [|k l IH]; intros n; [done|].
  cbn [find_index]. unfold holds at 1 3. destruct (heap c !! k); rewrite ?E, IH; done.
Qed.

(** A packet of [b] to [a] is one of their connection. *)
Lemma packet_found a b c e i k : get_connection c b (port a) = Ok (i, k) →
  VsockEvent.source e = b → VsockEvent.destination e = a →
  get_connection_for_event c e (cid a) = Some (i, k).
Proof.
  intros Hg Hs Hd. unfold get_connection in Hg. unfold get_connection_for_event.
  rewrite (find_ext _ (is_connection b (port a))).
  { destruct (find_connection _ _); [by injection Hg as ->|done]. }
  intros z. unfold VsockEvent.matches_connection, is_connection. rewrite Hs, Hd, Z.eqb_refl, andb_true_r.
  rewrite (Z.eqb_sym (port a)). by rewrite (bool_decide_ext (b = CI.dst z) (CI.dst z = b)) by done.
Qed.

Lemma poll_turn a b p rest c d w d' w' r s' x : RB.ok (CN.buffer x) → from_to b a p →
  connected a b (c, (d, w)) x →
  receives d w (VirtioVsockHdr.as_bytes p.1 ++ p.2 ++ rest) d' w' →
  outbox (d', w') = outbox (d, w) → local_cid d' = local_cid d →
  Common.poll (c, (d, w)) = (Val r, s') →
  ∃ x', connected a b s' x' ∧ turn (cid a) x [p] x' (emitted (c, (d, w)) s') [].
Proof.
  intros Hok (Hrd & e & He & Hsrc & Hdst & Hty) Hs Hr Hout Hcd E.
  pose proof (connected_between _ _ _ _ Hs) as Hb.
  destruct Hs as [(i & k & Hg & Hx) [Hcid Hsh]]. simpl in Hg, Hx, Hcid.
  pose proof (packet_found a b c e i k Hg Hsrc Hdst) as Hf. rewrite <- Hcid in Hf.
  assert (packet (VirtioVsockHdr.as_bytes p.1 ++ p.2 ++ rest) e p.2) as Hp.
  { exists p.1. rewrite Hrd. by destruct p. }
  assert (∀ ps, tells (cid a) (noted e x) ps → turn (cid a) x [p] (stored e p.2 x) ps []) as Ht
    by (intros; by apply turn_poll).
  assert (between a b (stored e p.2 x)) as Hb'
    by (by eapply turn_between, (Ht []); [done|left]).
  destruct (VsockEvent.event_type e) eqn:Ee; try done.
  2:{ rewrite (poll_credit_run c d d' w w' _ e p.2 i k x) in E by done.
      destruct (send_packet_to_queue _ _ _) as [r1 [d2 w2]] eqn:Es.
      assert (∃ r2, r1 = Val r2) as [r2 ->] by (destruct r1 as [[]| |]; naive_solver).
      apply tell_run in Es as [Hc (ps & Hps & Htl)]; [|by right].
      assert (s' = (set_heap (<[k := noted e x]> (heap c)) c, (d2, w2))) as -> by (by destruct r2; injection E).
      rewrite (emitted_app _ _ ps) by (simpl; congruence). exists (stored e p.2 x).
      split; [|apply Ht; by rewrite <- Hcid, <- Hcd].
      replace (noted e x) with (stored e p.2 x) by (unfold stored; by rewrite Ee).
      eapply connected_update; try done; [congruence|]. unfold stored. by rewrite Ee. }
  all: destruct (poll_quiet_run c d d' w w' _ e p.2 i k x Hf Hx Hok Hp) as (r' & Hpoll & _); [by rewrite Ee|done|].
  all: rewrite Hpoll in E; injection E as -> <-; rewrite emitted_same by done.
  all: exists (stored e p.2 x); split; [|apply Ht; by left].
  all: eapply connected_update; try done; unfold stored; by rewrite Ee.
Qed.

Lemma call_turn a b s got s' ps rr x : RB.ok (CN.buffer x) → Forall (from_to b a) got →
  connected a b s x → call a b s got s' ps rr →
  ∃ x', connected a b s' x' ∧ turn (cid a) x got x' ps rr.
Proof.
  intros Hok Hgot Hs Hc. destruct Hc as [buffer s r s' Hl E|out s out' n s' E|s r s' E|p rest c d w d' w' r s' Hr Ho Hcd E|s s' Hk].
  - by eapply send_turn.
  - by eapply recv_turn.
  - by eapply update_credit_turn.
  - exact (poll_turn a b p rest c d w d' w' r s' x Hok (Forall_inv Hgot) Hs Hr Ho Hcd E).
  - exists x. split; [by apply Hk|]. apply turn_tell. by left.
Qed.

(** The next packet of data, when the driver hands it over, is accepted. *)
Definition accepts_next (s : St) (t : Tape) : Prop :=
  ∀ p q rest d' w', inbox t = p :: q → data_of p ≠ [] →
    receives s.2.1 s.2.2 (VirtioVsockHdr.as_bytes p.1 ++ p.2 ++ rest) d' w' →
    ∃ e s', Common.poll s = (Val (Ok (Some e)), s').

Lemma sound_accepts a b cap s x i t st sn : connected a b s x → Forall (from_to b a) (inbox t) →
  sound cap (mkLink i x (in_flight (inbox t)) st sn (taken t)) → accepts_next s t.
Proof.
  intros Hs Hall (F & P & L & fs & I) p q rest d' w' Ht Hd Hr. destruct s as [c [d w]]. cbn [fst snd] in Hr.
  destruct Hs as [(k & a' & Hg & Hx) [Hcid _]]. simpl in Hg, Hx, Hcid. rewrite Ht in *.
  apply Forall_cons in Hall as [(Hrd & e & He & Hsrc & Hdst & _) _].
  pose proof (packet_found a b c e k a' Hg Hsrc Hdst) as Hf. rewrite <- Hcid in Hf.
  unfold in_flight in I. simpl in I. unfold data_of in I at 1, Hd. rewrite He in I, Hd.
  destruct (VsockEvent.event_type e) eqn:Ee; try done. simpl in I.
  pose proof (lk_buffer _ _ _ _ _ _ I) as Hok. simpl in Hok.
  destruct (RB.add_contents p.2 (CN.buffer x) Hok) as (rb & Ea & _); [by eapply deliver_fits|].
  assert (packet (VirtioVsockHdr.as_bytes p.1 ++ p.2 ++ rest) e p.2) as Hpk
    by (exists p.1; rewrite Hrd; by destruct p).
  destruct (poll_quiet_run c d d' w w' _ e p.2 k a' x Hf Hx Hok Hpk ltac:(by rewrite Ee) Hr) as (r & Hp & Hacc).
  rewrite Hacc in Hp by (by rewrite Ea). by eexists _, _.
Qed.
End calls.

(** ** Two peers *)
Section peers.
Context `{Profile} {D1 W1 D2 W2 : Type} `{Wire D1 W1} `{Wire D2 W2}.

Record Peers := mkPeers {
  near : Conns * (D1 * W1);
  near_tape : Tape;
  far : Conns * (D2 * W2);
  far_tape : Tape
}.

(** Either side makes a call, which takes the next packet in flight to it, or none. *)
Inductive step (a b : VsockAddr) : Peers → Peers → Prop :=
| step_near s got s' ps rr q og tk f u :
    call a b s got s' ps rr →
    step a b (mkPeers s (mkTape (got ++ q) og tk) f u)
      (mkPeers s' (mkTape q (og ++ mjoin (in_flight ps)) (tk ++ rr))
         f (mkTape (inbox u ++ ps) (outgone u) (taken u)))
| step_far s t f got f' ps rr q og tk :
    call b a f got f' ps rr →
    step a b (mkPeers s t f (mkTape (got ++ q) og tk))
      (mkPeers s (mkTape (inbox t ++ ps) (outgone t) (taken t))
         f' (mkTape q (og ++ mjoin (in_flight ps)) (tk ++ rr))).

(** A connection with a receive buffer of [n] bytes that nothing was sent over, to a peer with
    one of [m] bytes. *)
Definition unused (n m : Z) (x : Connection) : Prop :=
  CN.buffer x = RB.new n ∧ CI.buf_alloc (CN.info x) = n ∧ CI.fwd_cnt (CN.info x) = 0 ∧
  CI.tx_cnt (CN.info x) = 0 ∧ CI.peer_fwd_cnt (CN.info x) = 0 ∧
  0 ≤ CI.peer_buf_alloc (CN.info x) ≤ m.

Definition established (a b : VsockAddr) (n m : Z) (p : Peers) : Prop :=
  (∃ x, connected a b (near p) x ∧ unused n m x) ∧ (∃ y, connected b a (far p) y ∧ unused m n y) ∧
  near_tape p = mkTape [] [] [] ∧ far_tape p = mkTape [] [] [].

Definition peers_ok (a b : VsockAddr) (n m : Z) (p : Peers) : Prop :=
  ∃ x y, connected a b (near p) x ∧ connected b a (far p) y ∧
    balanced a b n m x (near_tape p) y (far_tape p).

Lemma unused_sound n m x y : 0 < m < 2 ^ 32 → unused n m x → unused m n y →
  sound m (mkLink (CN.info x) y [] [] [] []).
Proof.
  intros Hm (_ & _ & _ & E1 & E2 & E3) (F1 & F2 & F3 & _). exists 0, 0, 0, [].
  destruct (RB.new_ok m) as (Hok & Hnil & Hl); [lia|].
  split; simpl; rewrite ?F1, ?F2, ?F3; try done; try lia; try constructor.
Qed.

Lemma established_ok a b n m p : 0 < n < 2 ^ 32 → 0 < m < 2 ^ 32 →
  established a b n m p → peers_ok a b n m p.
Proof.
  intros Hn Hm ((x & Hx & Ux) & (y & Hy & Uy) & E1 & E2). exists x, y. split; [done|]. split; [done|].
  rewrite E1, E2. split_and!; try done; by eapply unused_sound.
Qed.

Lemma balanced_sym a b n m x t y u : balanced a b n m x t y u → balanced b a m n y u x t.
Proof. intros (? & ? & ? & ?). by split_and!. Qed.

Lemma balanced_buffer a b n m x t y u : balanced a b n m x t y u → RB.ok (CN.buffer x).
Proof. intros (_ & _ & _ & F & P & L & fs & I). apply (lk_buffer _ _ _ _ _ _ I). Qed.

Lemma step_ok a b n m p p' : addr_ok a → addr_ok b → 0 < n < 2 ^ 32 → 0 < m < 2 ^ 32 →
  peers_ok a b n m p → step a b p p' → peers_ok a b n m p'.
Proof.
  intros Ha Hb Hn Hm (x & y & Hx & Hy & Hbal) Hs.
  destruct Hs as [s got s' ps rr q og tk f u Hc|s t f got f' ps rr q og tk Hc]; simpl in *.
  - pose proof (balanced_buffer _ _ _ _ _ _ _ _ Hbal) as Hok.
    pose proof Hbal as [[Hgot _]%Forall_app _].
    destruct (call_turn a b s got s' ps rr x Hok Hgot Hx Hc) as (x' & Hx' & Ht).
    exists x', y. split; [done|]. split; [done|].
    apply (turn_balanced a b n m x got x' ps rr y (mkTape (got ++ q) og tk) u q); try done.
    exact (connected_between _ _ _ _ Hx).
  - apply balanced_sym in Hbal. pose proof (balanced_buffer _ _ _ _ _ _ _ _ Hbal) as Hok.
    pose proof Hbal as [[Hgot _]%Forall_app _].
    destruct (call_turn b a f got f' ps rr y Hok Hgot Hy Hc) as (y' & Hy' & Ht).
    exists x, y'. split; [done|]. split; [done|]. apply balanced_sym.
    apply (turn_balanced b a m n y got y' ps rr x (mkTape (got ++ q) og tk) t q); try done.
    exact (connected_between _ _ _ _ Hy).
Qed.

(** The stream from the side with [t] to the connection [y] of the side with [u], whose receive
    buffer has [cap] bytes. *)
Definition intact (cap : Z) (t : Tape) (y : Connection) (u : Tape) : Prop :=
  outgone t = taken u ++ RB.contents (CN.buffer y) ++ mjoin (in_flight (inbox u)) ∧
  Z.of_nat (length (RB.contents (CN.buffer y) ++ mjoin (in_flight (inbox u)))) ≤ cap.

Lemma sound_intact cap x t y u : sound cap (one_way x t y u) → intact cap t y u.
Proof.
  intros (F & P & L & fs & I). pose proof (link_ok_used _ _ _ _ _ _ I) as Hu. destruct I. simpl in *.
  split; [done|]. pose proof (RB.length_contents _ (proj1 (RB.ok_used _ lk_buffer0))).
  rewrite length_app. lia.
Qed.

(** C12. Flow control is sound and both streams are intact. Two peers run this crate's managers,
    with receive buffers of any sizes from 1 to 2^32 - 1 bytes, over drivers that send a packet
    or fail; either side makes any sequence of [send], [recv], [update_credit] and [poll] calls
    on their connection, in any order between the two, each call of a side returning before its
    next one starts, with packets that arrive in order, whatever the counters wrapped around.
    Then in each direction the bytes sent are the bytes read, followed by those in the receive
    buffer, followed by those in flight; the bytes sent and not yet read never exceed the
    buffer; and the [poll] that takes the next data packet returns its event, never
    [OutputBufferTooShort]. *)
Theorem flow_control_sound a b n m p0 p : addr_ok a → addr_ok b → 0 < n < 2 ^ 32 → 0 < m < 2 ^ 32 →
  established a b n m p0 → rtc (step a b) p0 p →
  ∃ x y, connected a b (near p) x ∧ connected b a (far p) y ∧
    intact m (near_tape p) y (far_tape p) ∧ intact n (far_tape p) x (near_tape p) ∧
    accepts_next (near p) (near_tape p) ∧ accepts_next (far p) (far_tape p).
Proof.
  intros Ha Hb Hn Hm He%established_ok Hr; [|done..].
  assert (peers_ok a b n m p) as (x & y & Hx & Hy & G1 & G2 & I1 & I2).
  { revert He. induction Hr as [|p1 p2 p3 Hs _ IH]; [done|]. intros. by eapply IH, step_ok. }
  exists x, y. split_and!; [done|done|by eapply sound_intact..| |].
  - exact (sound_accepts _ _ _ _ _ _ _ _ _ Hx G1 I2).
  - exact (sound_accepts _ _ _ _ _ _ _ _ _ Hy G2 I1).
Qed.
End peers.

(** ** A concrete run

    A driver over lists of packets, with a memory. *)
Module Line.
Record Line := mkLine {
  l_cid : Z;
  incoming : list (list Z);
  outgoing : list Packet
}.

Definition bytes_of (mem : list Z) (b : Slice) : list Z :=
  (λ i, default 0 (mem !! Z.to_nat i)) <$> seqZ (s_ptr b) (s_len b).

Definition send (hdr : VirtioVsockHdr) (b : Slice) : M (Line * list Z) (Result unit) :=
  modify (λ s, (mkLine (l_cid s.1) (incoming s.1) (outgoing s.1 ++ [(hdr, bytes_of s.2 b)]), s.2));;
  mret (Ok tt).

Definition receive {C} (h : VsockEvent → list Z → M C (Result (option VsockEvent)))
    : M (C * (Line * list Z)) (Result (option VsockEvent)) :=
  p ← gets (λ s, s.2.1);
  match incoming p with
  | [] => mret (Ok None)
  | bytes :: rest =>
      modify (λ s, (s.1, (mkLine (l_cid p) rest (outgoing p), s.2.2)));;
      on_fst (packet_handler h bytes)
  end.

#[global] Instance line_manager : VirtIOSocketManager Line (list Z) :=
  {| local_cid := l_cid; send_packet_to_queue := send; poll := λ C, receive |}.

#[global] Instance line_wire : Wire Line (list Z).
Proof.
  refine {| outbox := λ s, outgoing s.1; payload := bytes_of |}.
  - intros w b Hl. unfold bytes_of. rewrite length_fmap, length_seqZ. lia.
  - intros h b d w r d' w' [= <- <- <-]. split; [done|]. eexists. split; [done|]. by left.
Defined.

Lemma line_receives cid' bytes rest out mem :
  receives (mkLine cid' (bytes :: rest) out) mem bytes (mkLine cid' rest out) mem.
Proof.
  intros C h c r c' E. simpl. unfold receive. mstep. cbn. mstep. cbn. by apply on_fst_val.
Qed.
End Line.

Section witnesses.
Import Line.
#[local] Instance checked : Profile := {| overflow_checks := true; debug_assertions := true |}.

(** Port 7 of the guest 66 connects to port 42 of the host, which listens. *)
Definition guest : VsockAddr := mkVsockAddr 66 7.
Definition host : VsockAddr := mkVsockAddr 2 42.

Definition to_host (o : VirtioVsockOp) (n : Z) : VirtioVsockHdr :=
  VirtioVsockHdr.mkHdr 66 2 7 42 n 1 (VirtioVsockOp.as_u16 o) 0 8 0.
Definition to_guest (o : VirtioVsockOp) : VirtioVsockHdr :=
  VirtioVsockHdr.mkHdr 2 66 42 7 0 1 (VirtioVsockOp.as_u16 o) 0 4 0.

Definition request_bytes : list Z := VirtioVsockHdr.as_bytes (to_host VirtioVsockOp.Request 0).
Definition response_bytes : list Z := VirtioVsockHdr.as_bytes (to_guest VirtioVsockOp.Response).
Definition data_bytes : list Z := VirtioVsockHdr.as_bytes (to_host VirtioVsockOp.Rw 3) ++ [1; 2; 3].

Definition memory : list Z := [1; 2; 3; 4; 5; 6].

(** The handshake. *)
Definition connected_guest : Conns * (Line * list Z) :=
  (Common.poll (Common.connect host 7
    (Common.new 8, (mkLine 66 [response_bytes] [], memory))).2).2.
Definition connected_host : Conns * (Line * list Z) :=
  (Common.poll (Common.listen 42
    (Common.new 4, (mkLine 2 [request_bytes; data_bytes] [], []))).2).2.

Definition p_open : Peers :=
  mkPeers connected_guest (mkTape [] [] []) connected_host (mkTape [] [] []).

Lemma handshake_established : established guest host 8 4 p_open.
Proof.
  split_and!; [| |done|done].
  - eexists. split; [split; [eexists 0%nat, 0%nat; split; vm_compute; reflexivity|by split]|].
    repeat split; vm_compute; congruence.
  - eexists. split; [split; [eexists 0%nat, 0%nat; split; vm_compute; reflexivity|by split]|].
    repeat split; vm_compute; congruence.
Qed.

Lemma near_calls {D1 W1 D2 W2 : Type} `{Wire D1 W1} `{Wire D2 W2} a b got ps rr q (p p' : @Peers D1 W1 D2 W2) :
  call a b (near p) got (near p') ps rr → inbox (near_tape p) = got ++ q →
  near_tape p' = mkTape q (outgone (near_tape p) ++ mjoin (in_flight ps)) (taken (near_tape p) ++ rr) →
  far p' = far p →
  far_tape p' = mkTape (inbox (far_tape p) ++ ps) (outgone (far_tape p)) (taken (far_tape p)) →
  step a b p p'.
Proof.
  destruct p as [s [i og tk] f u], p' as [s' t' f' u']. simpl. intros Hc -> -> -> ->. by apply step_near.
Qed.

Lemma far_calls {D1 W1 D2 W2 : Type} `{Wire D1 W1} `{Wire D2 W2} a b got ps rr q (p p' : @Peers D1 W1 D2 W2) :
  call b a (far p) got (far p') ps rr → inbox (far_tape p) = got ++ q →
  far_tape p' = mkTape q (outgone (far_tape p) ++ mjoin (in_flight ps)) (taken (far_tape p) ++ rr) →
  near p' = near p →
  near_tape p' = mkTape (inbox (near_tape p) ++ ps) (outgone (near_tape p)) (taken (near_tape p)) →
  step a b p p'.
Proof.
  destruct p as [s t f [i og tk]], p' as [s' t' f' u']. simpl. intros Hc -> -> -> ->. by apply step_far.
Qed.

(** The guest sends three of its bytes, the host takes the packet and reads two of them, the
    guest tries to send three more and asks for credit instead. *)
Definition g1 : Conns * (Line * list Z) := (Common.send host 7 (mkSlice 0 3) connected_guest).2.
Definition h1 : Conns * (Line * list Z) := (Common.poll connected_host).2.
Definition h2 : Conns * (Line * list Z) := (Common.recv guest 42 [0; 0] h1).2.
Definition g2 : Conns * (Line * list Z) := (Common.send host 7 (mkSlice 3 3) g1).2.

Definition packet_rw : Packet := (to_host VirtioVsockOp.Rw 3, [1; 2; 3]).
Definition packet_ask : Packet := (to_host VirtioVsockOp.CreditRequest 0, []).

Definition p_sent : Peers :=
  mkPeers g1 (mkTape [] [1; 2; 3] []) connected_host (mkTape [packet_rw] [] []).
Definition p_arrived : Peers := mkPeers g1 (mkTape [] [1; 2; 3] []) h1 (mkTape [] [] []).
Definition p_read : Peers := mkPeers g1 (mkTape [] [1; 2; 3] []) h2 (mkTape [] [] [1; 2]).
Definition p_asked : Peers := mkPeers g2 (mkTape [] [1; 2; 3] []) h2 (mkTape [packet_ask] [] [1; 2]).

Lemma arrives : step guest host p_sent p_arrived.
Proof.
  apply (far_calls _ _ [packet_rw] [] [] []); try reflexivity.
  replace [] with (emitted connected_host h1) at 2 by (vm_compute; reflexivity).
  refine (call_poll _ _ packet_rw [] connected_host.1 connected_host.2.1 connected_host.2.2 _ _
    (Ok (Some (VsockEvent.mkEvent guest host (mkStatus 8 0) (VsockEventType.Received 3) None))) _
    (line_receives 2 data_bytes [] [(to_guest VirtioVsockOp.Response, [])] []) _ _ _);
    vm_compute; reflexivity.
Qed.

Lemma peers_run : rtc (step guest host) p_open p_asked.
Proof.
  apply (rtc_l _ _ p_sent).
  { apply (near_calls _ _ [] [packet_rw] [] []); try reflexivity.
    replace [packet_rw] with (emitted connected_guest g1) by (vm_compute; reflexivity).
    apply (call_send _ _ (mkSlice 0 3) _ (Ok tt)); [done|vm_compute; reflexivity]. }
  apply (rtc_l _ _ p_arrived); [apply arrives|]. apply (rtc_l _ _ p_read).
  { apply (far_calls _ _ [] [] [1; 2] []); try reflexivity.
    replace [] with (emitted h1 h2) at 2 by (vm_compute; reflexivity).
    apply (call_recv _ _ [0; 0] _ [1; 2] 2). vm_compute. reflexivity. }
  apply rtc_once. apply (near_calls _ _ [] [packet_ask] [] []); try reflexivity.
  replace [packet_ask] with (emitted g1 g2) by (vm_compute; reflexivity).
  apply (call_send _ _ (mkSlice 3 3) _ (Err (SocketDeviceError InsufficientBufferSpaceInPeer))); [done|].
  vm_compute. reflexivity.
Qed.

Lemma flow_control_sound_witness : ∃ y, connected host guest h2 y ∧
  [1; 2; 3] = [1; 2] ++ RB.contents (CN.buffer y).
Proof.
  destruct (flow_control_sound guest host 8 4 p_open p_asked) as (x & y & _ & Hy & [Hi _] & _);
    [done|done|lia|lia|apply handshake_established|apply peers_run|].
  exists y. split; [exact Hy|]. simpl in Hi. by rewrite app_nil_r in Hi.
Defined.
End witnesses.
