(* ===== verification/SocketLaws.v ===== *)
(** * The two sockets satisfy the manager's laws

    [OwningQueue::poll] and [DeviceVirtQueue::poll] call their handler at most once, return
    what it returned when they succeed, and do not touch what it captured otherwise. *)

From S2P Require Import Prelude Base Transport QueueData Queue DeviceQueue Owning Bytes.
From S2P Require Import RingBuffer VsockProtocol Vsock ConnectionManager ManagerInv.
Module OQ := Owning.OwningQueue.
Module DQ := DeviceQueue.DeviceVirtQueue.

(** Only [c] of the [poll] of a queue: [h] ran on [c], or [c] is unchanged. *)
Definition called {C A} (h : list Z → M C (Result (option A))) (c c' : C)
    (o : outcome (Result (option A))) : Prop :=
  (c' = c ∧ ∀ x, o ≠ Val (Ok (Some x))) ∨
  ∃ bytes oh, h bytes c = (oh, c') ∧ ∀ x, o = Val (Ok (Some x)) → oh = o.

(** What follows the handler does not touch [c] and returns the handler's result or an error. *)
Definition follows {C B A} (r : Result (option A)) (m : M (C * B) (Result (option A))) : Prop :=
  ∀ s o s', m s = (o, s') → s'.1 = s.1 ∧ ∀ x, o = Val (Ok (Some x)) → Val r = o.

Lemma follows_ret {C B A} (r : Result (option A)) : follows (C := C) (B := B) r (mret r).
Proof. intros s o s' [= <- <-]. done. Qed.

Lemma follows_step {C B A E} (r : Result (option A)) (m : M B E) (k : E → M (C * B) (Result (option A))) :
  (∀ a, follows r (k a)) → follows r (on_snd m ≫= k).
Proof.
  intros Hk s o s' E1. unfold mbind, M_bind in E1.
  destruct (on_snd m s) as [[a| |] s1] eqn:Em; pose proof (on_snd_inv _ _ _ _ Em) as H1.
  - destruct (Hk a _ _ _ E1) as [H2 H3]. split; [congruence|done].
  - injection E1 as <- <-. by split.
  - injection E1 as <- <-. by split.
Qed.

Lemma follows_try {C B A E} (r : Result (option A)) (m : M B (Result E))
    (k : E → M (C * B) (Result (option A))) :
  (∀ a, follows r (k a)) → follows r (try (on_snd m) k).
Proof.
  intros Hk. apply follows_step. intros [a|e]; [apply Hk|]. intros s o s' [= <- <-]. by split.
Qed.

(** The handler, then what follows it. *)
Lemma called_handler {C B A} (h : list Z → M C (Result (option A))) bytes
    (k : Result (option A) → M (C * B) (Result (option A))) s o s' :
  (∀ r, follows r (k r)) → (on_fst (h bytes) ≫= k) s = (o, s') → called h s.1 s'.1 o.
Proof.
  intros Hk E. destruct s as [c b]. right. exists bytes. unfold mbind, M_bind, on_fst, zoom in E.
  simpl in E. destruct (h bytes c) as [[r| |] c1] eqn:Eh.
  - destruct (Hk r _ _ _ E) as [E1 E2]. exists (Val r). simpl in E1. rewrite E1. split; [done|]. apply E2.
  - injection E as <- <-. by exists Panic.
  - injection E as <- <-. by exists Hang.
Qed.

(** Steps before the handler. *)
Lemma called_before {C B A E} (h : list Z → M C (Result (option A))) (m : M B E)
    (k : E → M (C * B) (Result (option A))) s o s' :
  (∀ a s1 o s', k a s1 = (o, s') → called h s1.1 s'.1 o) →
  (on_snd m ≫= k) s = (o, s') → called h s.1 s'.1 o.
Proof.
  intros Hk E1. unfold mbind, M_bind in E1.
  destruct (on_snd m s) as [[a| |] s1] eqn:Em; pose proof (on_snd_inv _ _ _ _ Em) as <-.
  - by apply (Hk a).
  - injection E1 as <- <-. by left.
  - injection E1 as <- <-. by left.
Qed.

Lemma called_ret {C B A} (h : list Z → M C (Result (option A))) r (s : C * B) o s' :
  (∀ x, r ≠ Ok (Some x)) → mret (M := M (C * B)) r s = (o, s') → called h s.1 s'.1 o.
Proof. intros Hr [= <- <-]. left. split; [done|]. intros x [= E]. by apply (Hr x). Qed.

Lemma called_try {C B A E} (h : list Z → M C (Result (option A))) (m : M B (Result E))
    (k : E → M (C * B) (Result (option A))) s o s' :
  (∀ a s1 o s', k a s1 = (o, s') → called h s1.1 s'.1 o) →
  try (on_snd m) k s = (o, s') → called h s.1 s'.1 o.
Proof.
  intros Hk. apply called_before. intros [a|e] s1 o1 s1'; [apply Hk|]. by apply called_ret.
Qed.

Section queues.
Context `{Profile} {W : Type}.

Lemma owning_called `{Hal W, Allocator W, Mem W} {T} `{Transport T W} {C A} SIZE BUFFER_SIZE
    (h : list Z → M C (Result (option A))) (s : C * (OQ.OwningQueue * (T * W))) o s' :
  OQ.poll SIZE BUFFER_SIZE h s = (o, s') → called h s.1 s'.1 o.
Proof.
  apply called_try. intros [[buffer token]|]; [|intros s1 o1 s1'; by apply called_ret].
  intros s1 o1 s1'. apply called_before. intros bytes s2 o2 s2'. apply called_handler.
  intros r. apply follows_try. intros _. apply follows_ret.
Qed.

Lemma device_called `{DeviceHal W, Mem W} {T} `{DeviceTransport T W} {C A} SIZE fuel
    (h : list Z → M C (Result (option A))) (s : C * (DQ.DeviceVirtQueue * (T * W))) o s' :
  DQ.poll SIZE fuel h s = (o, s') → called h s.1 s'.1 o.
Proof.
  apply called_try. intros [popped|]; [|intros s1 o1 s1'; by apply called_ret].
  intros s1 o1 s1'. destruct (negb _); [by apply called_ret|].
  apply called_before. intros bytes s2 o2 s2'. apply called_handler.
  intros r. apply follows_step. intros _. apply follows_step. intros _. apply follows_ret.
Qed.
End queues.

(** A call of the packet handler is a call of the event handler, or none. *)
Lemma called_packet {C} (h : VsockEvent → list Z → M C (Result (option VsockEvent))) c c' o :
  called (packet_handler h) c c' o →
  (c' = c ∧ ∀ e, o ≠ Val (Ok (Some e))) ∨
  ∃ header event body oh, VsockEvent.from_header header = Ok event ∧
    h event body c = (oh, c') ∧ ∀ e, o = Val (Ok (Some e)) → oh = o.
Proof.
  intros [?|(bytes & oh & E & Ho)]; [by left|]. unfold packet_handler in E.
  destruct (read_header_and_body bytes) as [[header body]|e].
  - destruct (VsockEvent.from_header header) as [event|e] eqn:Eh.
    + right. by exists header, event, body, oh.
    + injection E as <- <-. left. split; [done|]. intros x Hx. by specialize (Ho x Hx); subst.
  - injection E as <- <-. left. split; [done|]. intros x Hx. by specialize (Ho x Hx); subst.
Qed.

Section laws.
Context `{Profile} {W T : Type} `{Hal W} `{Allocator W} `{Mem W} `{Stack W} `{Device W}.
Context `{Transport T W} (RX_BUFFER_SIZE : Z) (fuel : nat).

Lemma socket_laws :
  @SocketLaws (VirtIOSocket T) W (VirtIOSocket.socket_manager RX_BUFFER_SIZE fuel).
Proof.
  split; intros C h c d w o c' d' w' E; simpl in E; unfold VirtIOSocket.poll_rx, zoom in E; simpl in E;
    destruct (OQ.poll _ _ _ _) as [o1 [c1 [q1 [t1 w1]]]] eqn:Ep; simpl in E; injection E as <- <- <- <-.
  - apply owning_called in Ep. simpl in Ep. by apply called_packet.
  - done.
Qed.
End laws.

Section device_laws.
Context `{Profile} {W T : Type} `{DeviceHal W} `{Mem W} `{DeviceTransport T W}.
Context (driver_step : Shared → W → Shared * W) (fuel : nat).

Lemma socket_device_laws : @SocketLaws (VirtIOSocketDevice T) W
  (VirtIOSocketDevice.socket_device_manager driver_step fuel).
Proof.
  split; intros C h c d w o c' d' w' E; simpl in E; unfold VirtIOSocketDevice.poll_tx, zoom in E; simpl in E;
    destruct (DQ.poll _ _ _ _) as [o1 [c1 [q1 [t1 w1]]]] eqn:Ep; simpl in E; injection E as <- <- <- <-.
  - apply device_called in Ep. simpl in Ep. by apply called_packet.
  - done.
Qed.
End device_laws.
