(* ===== verification/VsockQueue.v ===== *)
(** * The vsock driver over its receive queue

    What the driver promises the connection manager ([ManagerProps.receives]) holds of the
    driver's receive queue: a used buffer is one packet. *)

From S2P Require Import Prelude Base Transport QueueData Queue QueueInv QueueSpec QueueNew QueueWait Owning OwningProps.
From S2P Require Import FakeHal FakeTransport Bench Bytes RingBuffer VsockProtocol Vsock ConnectionManager ManagerInv ManagerProps.
Module OQ := Owning.OwningQueue.
Module VQ := Queue.VirtQueue.

Section rx.
Context `{Profile} {W : Type} `{HalSpec W} `{MemorySpec W} `{Stack W} `{Device W}.
Context {T : Type} `{Transport T W}.
Context (RX_BUFFER_SIZE : Z) (fuel : nat).
#[local] Instance socket : VirtIOSocketManager (VirtIOSocket T) W :=
  VirtIOSocket.socket_manager RX_BUFFER_SIZE fuel.

(** When the device returns a receive buffer with a length that fits, [poll] of the driver
    hands the connection manager exactly the bytes the device wrote, whatever the manager's
    handler does with them, and puts the buffer back: the driver implements the interface the
    manager's theorems assume. *)
Theorem socket_receives (d : VirtIOSocket T) (w : W) rest e :
  0 < RX_BUFFER_SIZE < 2 ^ 32 → owning_ok QUEUE_SIZE RX_BUFFER_SIZE (VirtIOSocket.rx d) w rest →
  next_used QUEUE_SIZE (OQ.queue (VirtIOSocket.rx d)) = Some e →
  wrap 16 (ue_id e) < QUEUE_SIZE → ue_len e ≤ RX_BUFFER_SIZE →
  notify_ok (W := W) (VQ.queue_idx (OQ.queue (VirtIOSocket.rx d))) (VirtIOSocket.transport d) →
  ∃ p d' w1 w', index (OQ.buffers (VirtIOSocket.rx d)) (wrap 16 (ue_id e)) = Some p ∧
    taken_back RX_BUFFER_SIZE p w w1 ∧
    receives d w (bytes_of w1 (mkSlice p (ue_len e))) d' w' ∧
    owning_ok QUEUE_SIZE RX_BUFFER_SIZE (VirtIOSocket.rx d') w' rest ∧
    VirtIOSocket.guest_cid d' = VirtIOSocket.guest_cid d.
Proof.
  intros HB Ho Hu Hid Hlen Hn. assert (0 ≤ wrap 16 (ue_id e)) as Hw0 by (apply (wrap_fits 16); lia).
  destruct (owns_token QUEUE_SIZE RX_BUFFER_SIZE _ w rest (wrap 16 (ue_id e)) Ho) as [p Hp]; [lia|].
  destruct (poll_run QUEUE_SIZE RX_BUFFER_SIZE eq_refl HB _ _ w rest e p Ho Hu Hp Hlen Hn)
    as (q' & t' & w1 & w' & Hun & Ho' & _ & Hrun).
  exists p, (VirtIOSocket.mkSocket t' (OQ.set_queue q' (VirtIOSocket.rx d)) (VirtIOSocket.tx d)
    (VirtIOSocket.event d) (VirtIOSocket.guest_cid d)), w1, w'. split_and!; try done.
  intros C h c r c' Hh. simpl. unfold VirtIOSocket.poll_rx, zoom. simpl.
  by rewrite (Hrun _ _ _ _ _ _ Hh).
Qed.
End rx.

Section witnesses.
Import Bench.

(** Header buffers are allocations of their own. *)
#[local] Instance fake_stack : Stack FakeHal.World := fix slots vars :=
  match vars with
  | [] => mret []
  | bytes :: vars =>
    p ← FakeHal.alloc_zeroed (FakeHal.Block (Z.of_nat (length bytes))) (Z.of_nat (length bytes));
    mem_write p bytes;;
    l ← slots vars;
    mret (mkSlice p (Z.of_nat (length bytes)) :: l)
  end.

(** A driver whose first receive buffer the device has used for 5 bytes. *)
Definition q8 : VQ.VirtQueue := initial_queue 8 layout0 0 false false.
Definition rx8 : OQ.OwningQueue :=
  match (OQ.new 8 64 (q8, w0)).1 with Val (Ok o) => o | _ => OQ.mkOwningQueue q8 [] end.
Definition w8 : FakeHal.World := (OQ.new 8 64 (q8, w0)).2.2.
Definition socket8 : VirtIOSocket FakeTransport.FakeTransport :=
  VirtIOSocket.mkSocket t0 (use_first rx8) q8 q8 66.

Lemma rx8_ok : ∃ rest, owning_ok 8 64 (use_first rx8) w8 rest.
Proof.
  destruct (owning_new_run 8 64 eq_refl ltac:(lia) q8 w0 []) as (o & q' & w' & ps & Hrun & Ho & _).
  { exact (initial_inv 8 eq_refl layout0 0 false false w0). }
  eexists. apply use_first_ok. unfold rx8, w8. rewrite Hrun. exact Ho.
Qed.

Lemma socket_receives_witness : ∃ bytes d' w',
  receives (H0 := VirtIOSocket.socket_manager 64 1) socket8 w8 bytes d' w'.
Proof.
  destruct rx8_ok as (rest & Ho).
  assert (next_used 8 (OQ.queue (use_first rx8)) = Some (mkUsedElem 0 5)) as Hu by (vm_compute; reflexivity).
  assert (VQ.queue_idx (OQ.queue (use_first rx8)) = 0) as Ei by (vm_compute; reflexivity).
  revert Ho Hu Ei. unfold socket8. generalize (use_first rx8) w8. intros o w Ho Hu Ei.
  destruct (socket_receives 64 1 (VirtIOSocket.mkSocket t0 o q8 q8 66) w rest (mkUsedElem 0 5))
    as (p & d' & w1 & w' & _ & _ & Hr & _).
  - lia.
  - exact Ho.
  - exact Hu.
  - reflexivity.
  - simpl. lia.
  - simpl. rewrite Ei. exact t0_notify.
  - exact (ex_intro _ _ (ex_intro _ _ (ex_intro _ _ Hr))).
Defined.
End witnesses.
