(* ===== verification/Threads.v ===== *)
(** * Threads and locks

    Methods that take [&self] may run in several threads at once; what they share is behind the
    locks of [src/src/lib.rs] ([Lock], [LockFactory], [SpinLock]). A call is a program that takes
    and releases locks and acts on the shared state in between, and threads interleave at each of
    these steps. A lock is what the mutex of the crate [spin] documents: [lock] waits until no one
    holds the guard, and is not reentrant; dropping the guard releases it. *)

From S2P Require Import Prelude.

(** ** Programs *)
Section programs.
Context {S L : Type} `{EqDecision L}.

(** [Act o c k] is one access: to what the lock [o] protects, or, with [None], to a value that
    needs no lock (an immutable field, an allocation). *)
Inductive prog (A : Type) : Type :=
| Ret (a : A)
| Act {B : Type} (o : option L) (c : M S B) (k : B → prog A)
| Acquire (l : L) (k : prog A)
| Release (l : L) (k : prog A).
#[global] Arguments Ret {A} a.
#[global] Arguments Act {A B} o c k.
#[global] Arguments Acquire {A} l k.
#[global] Arguments Release {A} l k.

#[export] Instance prog_ret : MRet prog := @Ret.

#[export] Instance prog_bind : MBind prog := λ A B f, fix go p :=
  match p with
  | Ret a => f a
  | Act o c k => Act o c (λ b, go (k b))
  | Acquire l k => Acquire l (go k)
  | Release l k => Release l (go k)
  end.

(** The operator [?]. *)
Definition ptry {A B E} (p : prog (result A E)) (k : A → prog (result B E)) : prog (result B E) :=
  r ← p; match r with Ok a => k a | Err e => Ret (Err e) end.

(** [l.lock()] and the drop of its guard. *)
Definition acquire (l : L) : prog unit := Acquire l (Ret tt).
Definition release (l : L) : prog unit := Release l (Ret tt).
(** An access under the lock [l], and one to unprotected data. *)
Definition under {B} (l : L) (c : M S B) : prog B := Act (Some l) c Ret.
Definition plain {B} (c : M S B) : prog B := Act None c Ret.
(** A block that ends with the drop of the guard. *)
Definition locked {A} (l : L) (p : prog A) : prog A :=
  Acquire l (x ← p; Release l (Ret x)).

(** ** One thread *)

(** A program run while no other thread runs, with the locks [held]: taking a lock twice waits
    forever. *)
Fixpoint solo {A} (held : list L) (p : prog A) : M S A :=
  match p with
  | Ret a => mret a
  | Act o c k => b ← c; solo held (k b)
  | Acquire l k => if bool_decide (l ∈ held) then hang else solo (l :: held) k
  | Release l k => solo (filter (λ h, h ≠ l) held) k
  end.

(** The program without its locks. *)
Fixpoint erase {A} (p : prog A) : M S A :=
  match p with
  | Ret a => mret a
  | Act o c k => b ← c; erase (k b)
  | Acquire l k => erase k
  | Release l k => erase k
  end.

Lemma erase_bind {A B} (p : prog A) (k : A → prog B) s :
  erase (p ≫= k) s = (a ← erase p; erase (k a)) s.
Proof.
  revert s. induction p as [a|B' o c k' IH|l p IH|l p IH]; intros s; [done| |exact (IH s)|exact (IH s)].
  cbn [erase mbind prog_bind]. unfold mbind, M_bind. by destruct (c s) as [[b| |] s'].
Qed.

(** ** Several threads *)

Inductive thread : Type :=
| Running (p : prog unit) (held : list L)
| Panicked.

Definition held_by (t : thread) : list L := match t with Running _ held => held | Panicked => [] end.
Definition free (l : L) (ts : list thread) : Prop := Forall (λ t, l ∉ held_by t) ts.

(** One step of the thread [i]. A panic unwinds the thread and drops its guards; a loop that has
    not heard of the device goes on waiting. *)
Inductive step : list thread * S → list thread * S → Prop :=
| step_act ts i s B o (c : M S B) k held b s' :
    ts !! i = Some (Running (Act o c k) held) → c s = (Val b, s') →
    step (ts, s) (<[i := Running (k b) held]> ts, s')
| step_panic ts i s B o (c : M S B) k held s' :
    ts !! i = Some (Running (Act o c k) held) → c s = (Panic, s') →
    step (ts, s) (<[i := Panicked]> ts, s')
| step_wait ts i s B o (c : M S B) k held s' :
    ts !! i = Some (Running (Act o c k) held) → c s = (Hang, s') → step (ts, s) (ts, s')
| step_acquire ts i s l k held :
    ts !! i = Some (Running (Acquire l k) held) → free l ts →
    step (ts, s) (<[i := Running k (l :: held)]> ts, s)
| step_release ts i s l k held :
    ts !! i = Some (Running (Release l k) held) →
    step (ts, s) (<[i := Running k (filter (λ h, h ≠ l) held)]> ts, s).

Definition steps : relation (list thread * S) := rtc step.

(** The threads that start with the given programs. *)
Definition spawn (ps : list (prog unit)) : list thread := (λ p, Running p []) <$> ps.

(** A thread that has not ended, one that waits for a lock, one that is about to access what a
    lock it does not hold protects. *)
Definition unfinished (t : thread) : Prop :=
  match t with Running (Ret _) _ | Panicked => False | _ => True end.
Definition waiting (ts : list thread) (t : thread) : Prop :=
  match t with Running (Acquire l _) _ => ¬ free l ts | _ => False end.
Definition racing (t : thread) : Prop :=
  match t with Running (Act (Some l) _ _) held => l ∉ held | _ => False end.

(** Every thread that has not ended waits for a lock, and there is one. *)
Definition deadlock (ts : list thread) : Prop :=
  Exists unfinished ts ∧ Forall (λ t, unfinished t → waiting ts t) ts.

(** A thread that waits cannot step, so a deadlock lasts. *)
Lemma deadlock_stuck ts s c : deadlock ts → ¬ step (ts, s) c.
Proof.
  intros [_ Hall] Hs. rewrite Forall_lookup in Hall.
  inversion Hs; subst; match goal with Hi : _ !! _ = Some _ |- _ => by specialize (Hall _ _ Hi I) end.
Qed.

(** ** Schedules

    The step of the thread [i], when it can make one and does not panic or wait for a device. *)
Definition exec (i : nat) (c : list thread * S) : option (list thread * S) :=
  match c.1 !! i with
  | Some (Running (Act o m k) held) =>
      match m c.2 with
      | (Val b, s') => Some (<[i := Running (k b) held]> c.1, s')
      | _ => None
      end
  | Some (Running (Acquire l k) held) =>
      if forallb (λ t, bool_decide (l ∉ held_by t)) c.1
      then Some (<[i := Running k (l :: held)]> c.1, c.2) else None
  | Some (Running (Release l k) held) => Some (<[i := Running k (filter (λ h, h ≠ l) held)]> c.1, c.2)
  | _ => None
  end.
Fixpoint execs (l : list nat) (c : list thread * S) : option (list thread * S) :=
  match l with
  | [] => Some c
  | i :: l => match exec i c with Some c' => execs l c' | None => None end
  end.

Lemma exec_step i c c' : exec i c = Some c' → step c c'.
Proof.
  destruct c as [ts s]. unfold exec. cbn [fst snd].
  destruct (ts !! i) as [[[a|B o m k|l k|l k] held|]|] eqn:Hi; try done.
  - destruct (m s) as [[b| |] s'] eqn:Hm; try done. intros [= <-]. by eapply step_act.
  - destruct (forallb _ ts) eqn:Hf; [|done]. intros [= <-]. apply step_acquire; [done|].
    rewrite forallb_forall in Hf. apply Forall_forall. intros t Ht.
    specialize (Hf t (proj1 (list_elem_of_In _ _) Ht)). by apply bool_decide_eq_true in Hf.
  - intros [= <-]. by eapply step_release.
Qed.

Lemma execs_steps l c c' : execs l c = Some c' → steps c c'.
Proof.
  revert c. induction l as [|i l IH]; intros c; simpl; [intros [= <-]; by left|].
  destruct (exec i c) as [c1|] eqn:E; [|done]. intros Hl. econstructor; [by eapply exec_step|by apply IH].
Qed.

Definition finished (t : thread) : bool := match t with Running (Ret _) _ => true | _ => false end.

(** ** Lock order *)
Lemma filter_fresh (l : L) h : l ∉ h → filter (λ x, x ≠ l) (l :: h) = h.
Proof.
  intros Hl. rewrite filter_cons_False by naive_solver.
  induction h as [|x h IH]; [done|]. rewrite not_elem_of_cons in Hl.
  rewrite filter_cons_True by naive_solver. f_equal. tauto.
Qed.

Context (rank : L → nat).

(** Locks are taken in the order of their ranks, accesses are made under their lock, and from the
    locks [held] the program ends with [held']. *)
Fixpoint ordered {A} (held : list L) (p : prog A) (held' : list L) : Prop :=
  match p with
  | Ret _ => held = held'
  | Act o c k => (∀ l, o = Some l → l ∈ held) ∧ ∀ b, ordered held (k b) held'
  | Acquire l k => Forall (λ h, rank h < rank l)%nat held ∧ ordered (l :: held) k held'
  | Release l k => ordered (filter (λ h, h ≠ l) held) k held'
  end.

Lemma ordered_bind {A B} (p : prog A) (k : A → prog B) h h1 h2 :
  ordered h p h1 → (∀ a, ordered h1 (k a) h2) → ordered h (p ≫= k) h2.
Proof.
  intros Hp Hk. revert h Hp. induction p as [a|B' o c k' IH|l p IH|l p IH]; intros h Hp; simpl in *.
  - subst. apply Hk.
  - destruct Hp as [Ho Hp]. split; [done|]. intros b. by apply IH.
  - destruct Hp as [Hr Hp]. split; [done|]. by apply IH.
  - by apply IH.
Qed.

Lemma ordered_try {A B E} (p : prog (result A E)) (k : A → prog (result B E)) h h1 :
  ordered h p h1 → (∀ a, ordered h1 (k a) h1) → ordered h (ptry p k) h1.
Proof. intros Hp Hk. eapply ordered_bind; [done|]. by intros [a|e]. Qed.

Lemma ordered_locked {A} l (p : prog A) h :
  Forall (λ x, rank x < rank l)%nat h → ordered (l :: h) p (l :: h) → ordered h (locked l p) h.
Proof.
  intros Hr Hp. simpl. split; [done|]. eapply ordered_bind; [done|]. intros a. simpl.
  apply filter_fresh. intros Hin. rewrite Forall_forall in Hr. specialize (Hr l Hin). lia.
Qed.

Lemma ordered_release {A} l (k : prog A) h h' :
  l ∉ h → ordered h k h' → ordered (l :: h) (release l;; k) h'.
Proof. intros Hl Hk. simpl. by rewrite filter_fresh. Qed.

Lemma ordered_under {A} l (c : M S A) h : l ∈ h → ordered h (under l c) h.
Proof. intros Hl. simpl. split; [by intros ? [= <-]|done]. Qed.

Lemma ordered_plain {A} (c : M S A) h : ordered h (plain c) h.
Proof. simpl. by split. Qed.

(** One thread that takes its locks in order never waits for itself: it computes what is left of
    the program without the locks. *)
Lemma ordered_solo {A} (p : prog A) h h' s : ordered h p h' → solo h p s = erase p s.
Proof.
  revert h s. induction p as [a|B o c k IH|l p IH|l p IH]; intros h s Hp; cbn [solo erase ordered] in *.
  - done.
  - unfold mbind, M_bind. destruct (c s) as [[b| |] s']; try done. apply IH, Hp.
  - destruct Hp as [Hr Hp]. rewrite bool_decide_eq_false_2; [by apply IH|].
    rewrite Forall_forall in Hr. intros Hl. specialize (Hr l Hl). lia.
  - by apply IH.
Qed.

Lemma solo_bind {A B} (p : prog A) (k : A → prog B) h h1 s : ordered h p h1 →
  solo h (p ≫= k) s = (a ← solo h p; solo h1 (k a)) s.
Proof.
  revert h s. induction p as [a|B' o c k' IH|l p IH|l p IH]; intros h s Hp; simpl in Hp.
  - by subst.
  - simpl. unfold mbind, M_bind. destruct (c s) as [[b| |] s']; try done. apply IH, Hp.
  - change ((Acquire l p ≫= k)) with (Acquire l (p ≫= k)). cbn [solo].
    unfold mbind, M_bind. case_bool_decide; [done|]. apply IH, Hp.
  - change ((Release l p ≫= k)) with (Release l (p ≫= k)). cbn [solo]. by apply IH.
Qed.

Lemma solo_then {A B} (p : prog A) (f : A → B) h s :
  solo h (p ≫= λ a, Ret (f a)) s = (a ← solo h p; mret (f a)) s.
Proof.
  revert h s. induction p as [a|B' o c k IH|l p IH|l p IH]; intros h s.
  - done.
  - simpl. unfold mbind, M_bind. destruct (c s) as [[b| |] s']; [apply IH|done..].
  - change (Acquire l p ≫= λ a, Ret (f a)) with (Acquire l (p ≫= λ a, Ret (f a))). cbn [solo].
    unfold mbind, M_bind. case_bool_decide; [done|]. apply IH.
  - change (Release l p ≫= λ a, Ret (f a)) with (Release l (p ≫= λ a, Ret (f a))). cbn [solo]. apply IH.
Qed.

(** The invariant of a pool of ordered threads. *)
Definition ordered_thread (t : thread) : Prop :=
  match t with Running p held => ordered held p [] | Panicked => True end.

Lemma ordered_step ts s ts' s' :
  Forall ordered_thread ts → step (ts, s) (ts', s') → Forall ordered_thread ts'.
Proof.
  intros Hts Hs. inversion Hs; subst; try done; apply Forall_insert; try done;
    rewrite Forall_lookup in Hts;
    match goal with H : _ !! _ = Some _ |- _ => specialize (Hts _ _ H) end; simpl in *; tauto || naive_solver.
Qed.

Lemma steps_keep (I : list thread * S → Prop) c c' :
  (∀ a b, I a → step a b → I b) → I c → steps c c' → I c'.
Proof. intros HI Hc Hs. induction Hs; eauto. Qed.

Lemma ordered_steps ps s ts s' :
  Forall (λ p, ordered [] p []) ps → steps (spawn ps, s) (ts, s') → Forall ordered_thread ts.
Proof.
  intros Hps Hs. apply (steps_keep (λ c, Forall ordered_thread c.1)) in Hs; [done| |by apply Forall_fmap].
  intros [ts1 s1] [ts2 s2]. apply ordered_step.
Qed.

(** A thread that maximises [f] among those with the property [P]. *)
Lemma highest (P : thread → Prop) (f : thread → nat) ts :
  (∀ t, Decision (P t)) → Exists P ts → ∃ t, t ∈ ts ∧ P t ∧ ∀ t', t' ∈ ts → P t' → (f t' ≤ f t)%nat.
Proof.
  intros Hdec. induction ts as [|t ts IH]; [by intros ?%Exists_nil|]. intros Hex.
  destruct (decide (Exists P ts)) as [Hts|Hts].
  - destruct (IH Hts) as (u & Hu & HPu & Hmax).
    destruct (decide (P t ∧ f u < f t)%nat) as [[HPt Hlt]|Hno].
    + exists t. split_and!; [by left|done|]. intros t' [->|Ht']%elem_of_cons HP; [done|].
      specialize (Hmax t' Ht' HP). lia.
    + exists u. split_and!; [by right|done|]. intros t' [->|Ht']%elem_of_cons HP; [|by apply Hmax].
      destruct (decide (f u < f t)%nat); [tauto|lia].
  - apply Exists_cons in Hex as [HPt|?]; [|done]. exists t. split_and!; [by left|done|].
    intros t' [->|Ht']%elem_of_cons HP; [done|]. destruct Hts. apply Exists_exists. eauto.
Qed.

(** The lock a thread asks for next. *)
Definition wants (t : thread) : option L :=
  match t with Running (Acquire l _) _ => Some l | _ => None end.

Lemma waiting_wants ts t : waiting ts t → ∃ l, wants t = Some l ∧ ∃ u, u ∈ ts ∧ l ∈ held_by u.
Proof.
  destruct t as [[| |l k|] held|]; try done. simpl. intros Hf. exists l. split; [done|].
  destruct (decide (Exists (λ u, l ∈ held_by u) ts)) as [Hex|Hno].
  - apply Exists_exists in Hex. done.
  - destruct Hf. apply Forall_forall. intros u Hu Hin. apply Hno, Exists_exists. eauto.
Qed.

Lemma holder_unfinished t l : ordered_thread t → l ∈ held_by t → unfinished t.
Proof.
  destruct t as [[a|B o c k|l' k|l' k] held|]; simpl; try done.
  - intros ->. by intros ?%not_elem_of_nil.
  - by intros _ ?%not_elem_of_nil.
Qed.

Lemma ordered_wants t l l' : ordered_thread t → wants t = Some l' → l ∈ held_by t →
  (rank l < rank l')%nat.
Proof.
  destruct t as [[| |l1 k|] held|]; try done. simpl. intros [Hr _] [= <-] Hin.
  rewrite Forall_forall in Hr. by apply Hr.
Qed.

Lemma ordered_no_deadlock ts : Forall ordered_thread ts → ¬ deadlock ts.
Proof.
  rewrite Forall_forall. intros Hord [Hex Hall]. rewrite Forall_forall in Hall.
  destruct (highest (λ t, is_Some (wants t)) (λ t, from_option rank O (wants t)) ts)
    as (t & Ht & [l Hl] & Hmax); [apply _| |].
  { apply Exists_exists in Hex as (t & Ht & Hu). apply Exists_exists. exists t. split; [done|].
    destruct (waiting_wants ts t (Hall t Ht Hu)) as (l & Hl & _). by exists l. }
  assert (waiting ts t) as Hw.
  { apply Hall; [done|]. by destruct t as [[]|]. }
  apply waiting_wants in Hw as (l0 & Hl0 & u & Hu & Hin). rewrite Hl in Hl0. injection Hl0 as <-.
  pose proof (holder_unfinished u l (Hord u Hu) Hin) as Huf.
  destruct (waiting_wants ts u (Hall u Hu Huf)) as (l' & Hl' & _).
  pose proof (ordered_wants u l l' (Hord u Hu) Hl' Hin) as Hlt.
  specialize (Hmax u Hu (ltac:(by exists l'))). rewrite Hl, Hl' in Hmax. simpl in Hmax. lia.
Qed.

Lemma ordered_no_race ts : Forall ordered_thread ts → Forall (λ t, ¬ racing t) ts.
Proof.
  intros Hts. eapply Forall_impl; [done|]. intros [[a|B [l|] c k|l k|l k] held|]; simpl; try tauto.
  intros [Ho _] Hr. by apply Hr, Ho.
Qed.
End programs.

(** ** Reasoning about interference

    A thread that holds a lock can rely on what the lock protects. [same l] says that a step left
    what [l] protects as it was, [ext] what every step respects, [inv] what holds between steps. *)
Section rely.
Context {S L : Type} `{EqDecision L}.
Context (same : L → relation S) (ext : relation S) (inv : S → Prop).
Context `{!∀ l, PreOrder (same l)} `{!PreOrder ext}.

(** What the other threads may do while this one holds the locks [held], and what this one may. *)
Definition rely (held : list L) (s s' : S) : Prop :=
  ext s s' ∧ inv s' ∧ ∀ l, l ∈ held → same l s s'.
Definition guar (held : list L) (s s' : S) : Prop :=
  ext s s' ∧ inv s' ∧ ∀ l, l ∉ held → same l s s'.

(** From the state [s], with the locks [held], and whatever the others do in between, the program
    does not panic, keeps to its guarantee, and ends with [Q] of its locks, result and state. *)
Fixpoint safe {A} (held : list L) (p : @prog S L A) (Q : list L → A → S → Prop) (s : S) : Prop :=
  match p with
  | Ret a => Q held a s
  | Act o c k => ∀ s1, rely held s s1 →
      match c s1 with
      | (Val b, s2) => guar held s1 s2 ∧ safe held (k b) Q s2
      | (Panic, _) => False
      | (Hang, s2) => guar held s1 s2 ∧ rely held s1 s2
      end
  | Acquire l k => ∀ s1, rely held s s1 → safe (l :: held) k Q s1
  | Release l k => safe (filter (λ h, h ≠ l) held) k Q s
  end.

Lemma rely_trans held s s1 s2 : rely held s s1 → rely held s1 s2 → rely held s s2.
Proof.
  intros (H1 & _ & H3) (H4 & H5 & H6). split_and!; [by etrans|done|].
  intros l Hl. etrans; [by apply H3|by apply H6].
Qed.

Lemma rely_less held held' s s' : rely held s s' → (∀ l, l ∈ held' → l ∈ held) → rely held' s s'.
Proof. intros (H1 & H2 & H3) Hh. split_and!; auto. Qed.

Lemma safe_mono {A} (p : @prog S L A) held (Q Q' : list L → A → S → Prop) s :
  safe held p Q s → (∀ h a s, Q h a s → Q' h a s) → safe held p Q' s.
Proof.
  revert held s. induction p as [a|B o c k IH|l p IH|l p IH]; intros held s Hp HQ; simpl in *.
  - auto.
  - intros s1 Hr. specialize (Hp s1 Hr). destruct (c s1) as [[b| |] s2]; [|done|done].
    destruct Hp. split; [done|]. by eapply IH.
  - intros s1 Hr. by eapply IH; [apply Hp|].
  - by eapply IH.
Qed.

Lemma safe_bind {A B} (p : @prog S L A) (k : A → prog B) held Q s :
  safe held p (λ h a s, safe h (k a) Q s) s → safe held (p ≫= k) Q s.
Proof.
  revert held s. induction p as [a|B' o c k' IH|l p IH|l p IH]; intros held s Hp.
  - done.
  - intros s1 Hr. specialize (Hp s1 Hr). simpl. destruct (c s1) as [[b| |] s2]; [|done|done].
    destruct Hp. split; [done|]. by apply IH.
  - intros s1 Hr. by apply IH, Hp.
  - by apply IH.
Qed.

(** A safe program stays so under interference. *)
Lemma safe_rely {A} (p : @prog S L A) held Q s s' :
  (∀ h a s s', Q h a s → rely h s s' → Q h a s') →
  safe held p Q s → rely held s s' → safe held p Q s'.
Proof.
  intros HQ. revert held s s'. induction p as [a|B o c k IH|l p IH|l p IH]; intros held s s' Hp Hr; simpl in *.
  - by eapply HQ.
  - intros s1 Hr1. apply Hp. by eapply rely_trans.
  - intros s1 Hr1. apply Hp. by eapply rely_trans.
  - eapply IH; [done|]. eapply rely_less; [done|]. intros x Hx. by apply list_elem_of_filter in Hx as [_ Hx].
Qed.

(** The invariant of a pool of safe threads. *)
Definition safe_thread (s : S) (t : thread) : Prop :=
  match t with Running p held => safe held p (λ _ _ _, True) s | Panicked => False end.
Definition exclusive (ts : list (@thread S L)) : Prop :=
  ∀ i j t u, ts !! i = Some t → ts !! j = Some u → i ≠ j → ∀ l : L, l ∈ held_by t → l ∉ held_by u.
Definition safe_pool (c : list thread * S) : Prop :=
  inv c.2 ∧ Forall (safe_thread c.2) c.1 ∧ exclusive c.1.

Lemma safe_others ts s s' i t : Forall (safe_thread s) ts → exclusive ts → ts !! i = Some t →
  guar (held_by t) s s' → ∀ j u, ts !! j = Some u → j ≠ i → safe_thread s' u.
Proof.
  rewrite Forall_lookup. intros Hts Hex Hi (H1 & H2 & H3) j u Hj Hne. specialize (Hts j u Hj).
  destruct u as [p held|]; [|done]. simpl in *. eapply safe_rely; [done|done|].
  split_and!; [done|done|]. intros l Hl. apply H3. intros Hin. by apply (Hex i j t _ Hi Hj (not_eq_sym Hne) l Hin).
Qed.

Lemma exclusive_less ts i t u : exclusive ts → ts !! i = Some t → (∀ l, l ∈ held_by u → l ∈ held_by t) →
  exclusive (<[i := u]> ts).
Proof.
  intros Hex Hi Hu j1 j2 t1 t2 H1 H2 Hne l Hl1 Hl2. apply lookup_lt_Some in Hi as Hlt.
  apply list_lookup_insert_Some in H1 as [(-> & -> & _)|[Hn1 H1]];
    apply list_lookup_insert_Some in H2 as [(-> & -> & _)|[Hn2 H2]]; try done.
  - by apply (Hex j1 j2 t t2 Hi H2 Hne l (Hu _ Hl1)).
  - by apply (Hex j1 j2 t1 t H1 Hi Hne l Hl1 (Hu _ Hl2)).
  - by apply (Hex j1 j2 t1 t2 H1 H2 Hne l).
Qed.

Lemma exclusive_acquire ts i p q held l : exclusive ts → ts !! i = Some (Running p held) → free l ts →
  exclusive (<[i := Running q (l :: held)]> ts).
Proof.
  intros Hex Hi Hf j1 j2 t1 t2 H1 H2 Hne x Hx1 Hx2. unfold free in Hf. rewrite Forall_lookup in Hf.
  apply list_lookup_insert_Some in H1 as [(-> & <- & _)|[Hn1 H1]];
    apply list_lookup_insert_Some in H2 as [(-> & <- & _)|[Hn2 H2]]; try done.
  - simpl in Hx1. apply elem_of_cons in Hx1 as [->|Hx1]; [by apply (Hf j2 t2)|].
    by apply (Hex j1 j2 _ t2 Hi H2 Hne x).
  - simpl in Hx2. apply elem_of_cons in Hx2 as [->|Hx2]; [by apply (Hf j1 t1)|].
    by apply (Hex j1 j2 t1 _ H1 Hi Hne x).
  - by apply (Hex j1 j2 t1 t2 H1 H2 Hne x).
Qed.

Lemma safe_insert ts s i t : Forall (safe_thread s) ts ∨ (∀ j u, ts !! j = Some u → j ≠ i → safe_thread s u) →
  safe_thread s t → Forall (safe_thread s) (<[i := t]> ts).
Proof.
  intros Hts Ht. apply Forall_lookup. intros j u [(-> & <- & _)|[Hne Hj]]%list_lookup_insert_Some; [done|].
  destruct Hts as [Hts|Hts]; [by rewrite Forall_lookup in Hts; apply (Hts j)|by apply (Hts j)].
Qed.

Lemma rely_refl held s : inv s → rely held s s.
Proof. intros. by split_and!. Qed.

Lemma safe_step c c' : safe_pool c → step c c' → safe_pool c'.
Proof.
  intros (Hinv & Hts & Hex) Hs. assert (Hall := Hts). rewrite Forall_lookup in Hall.
  destruct Hs as [ts i s B o c k held b s' Hi Hc|ts i s B o c k held s' Hi Hc|ts i s B o c k held s' Hi Hc
    |ts i s l k held Hi Hf|ts i s l k held Hi]; simpl in *; pose proof (Hall i _ Hi) as Ht; simpl in Ht.
  - specialize (Ht s (rely_refl held s Hinv)). rewrite Hc in Ht. destruct Ht as [Hg Ht].
    split_and!; simpl; [apply Hg| |by eapply exclusive_less].
    apply safe_insert; [|done]. right. by apply (safe_others ts s s' i _ Hts Hex Hi).
  - specialize (Ht s (rely_refl held s Hinv)). by rewrite Hc in Ht.
  - pose proof (Ht s (rely_refl held s Hinv)) as Ha. rewrite Hc in Ha. destruct Ha as [Hg Hr].
    split_and!; simpl; [apply Hg| |done]. rewrite <- (list_insert_id ts i _ Hi).
    apply safe_insert; [right; by apply (safe_others ts s s' i _ Hts Hex Hi)|].
    simpl. intros s1 Hr1. apply Ht. by eapply rely_trans.
  - split_and!; simpl; [done| |by eapply exclusive_acquire].
    apply safe_insert; [by left|]. apply Ht. by apply rely_refl.
  - split_and!; simpl; [done| |eapply exclusive_less; [done|done|]].
    + apply safe_insert; [by left|done].
    + simpl. intros x Hx. by apply list_elem_of_filter in Hx as [_ Hx].
Qed.

(** Threads that are safe on their own never panic together, and the invariant holds throughout. *)
Lemma safe_steps ps s ts s' : inv s → (∀ p, p ∈ ps → safe [] p (λ _ _ _, True) s) →
  steps (spawn ps, s) (ts, s') → inv s' ∧ Panicked ∉ ts.
Proof.
  intros Hinv Hps Hs. apply (steps_keep safe_pool) in Hs; [|by intros; eapply safe_step|].
  - destruct Hs as (Hi & Hts & _). split; [done|]. rewrite Forall_forall in Hts.
    intros Hin. by apply (Hts _ Hin).
  - split_and!; simpl; [done| |].
    + unfold spawn. apply Forall_fmap, Forall_forall. exact Hps.
    + intros i j t u Hi Hj _ l Hl. unfold spawn in Hi. apply list_lookup_fmap_Some in Hi as (p & -> & _).
      by apply not_elem_of_nil in Hl.
Qed.
End rely.
