(* ===== verification/ManagerThreads.v ===== *)
(** * The connection manager's calls as programs with locks

    [src/src/device/socket/connectionmanager.rs] and the provided methods of
    [VirtIOSocketManager] in [vsock.rs] once more, with every [lock()] and every drop of a guard:
    of the manager's list ([Inner]), of the queue packets arrive on ([Rx]), of the queue they are
    sent to ([Tx]), of a connection ([Conn a]). What happens between two of these steps is that of
    [Vsock.v] and [ConnectionManager.v]. *)

From S2P Require Import Prelude Base Transport QueueData Queue DeviceQueue Owning Bytes.
From S2P Require Import RingBuffer VsockProtocol Vsock ConnectionManager Threads.

Inductive lock_name := Inner | Rx | Tx | Conn (a : Arc).
#[global] Instance lock_name_eq_dec : EqDecision lock_name.
Proof. solve_decision. Defined.

(** The two halves of [poll] of a driver or a device, before and after the handler: taking the
    next packet out of the queue, and giving its buffer back. *)
Class SocketParts (D W : Type) `{VirtIOSocketManager D W} := {
  Popped : Type;
  rx_pop : M (D * W) (Result (option (Popped * list Z)));
  rx_push : Popped → M (D * W) (Result unit);
  poll_parts : ∀ C (h : VsockEvent → list Z → M C (Result (option VsockEvent))) s,
    Vsock.poll h s =
      (p ←? on_snd rx_pop;
       match p with
       | None => mret (Ok None)
       | Some (x, bytes) =>
         result ← on_fst (packet_handler h bytes);
         _ ←? on_snd (rx_push x);
         mret result
       end) s
}.

Module Locked.
Section locked.
Context `{Profile} {D W : Type} `{SocketParts D W}.

Abbreviation St := (Conns * (D * W))%type.
Abbreviation P := (@prog St lock_name).

(** ** The methods of [VirtIOSocketManager] *)

Definition get_cid : P Z := plain (gets (λ s, local_cid s.2.1)).

(** [send_packet_to_queue] of both implementations. *)
Definition packet (header : VirtioVsockHdr) (buffer : Slice) : P (Result unit) :=
  locked Tx (under Tx (on_snd (send_packet_to_queue header buffer))).

Definition accept (info : ConnectionInfo) : P (Result unit) :=
  cid ← get_cid;
  packet (VirtioVsockHdr.with_op (VirtioVsockOp.as_u16 VirtioVsockOp.Response)
    (ConnectionInfo.new_header info cid)) no_data.

(** A packet without data, with a header made from the connection under its lock. *)
Definition tell (f : VirtioVsockHdr → VirtioVsockHdr) (connection : Arc) : P (Result unit) :=
  header ← locked (Conn connection) (
    info ← under (Conn connection) (on_fst (lock_info connection));
    cid ← get_cid;
    Ret (f (ConnectionInfo.new_header info cid)));
  packet header no_data.

Definition with_op (o : VirtioVsockOp) : VirtioVsockHdr → VirtioVsockHdr :=
  VirtioVsockHdr.with_op (VirtioVsockOp.as_u16 o).

Definition request_credit (connection : Arc) : P (Result unit) :=
  tell (with_op VirtioVsockOp.CreditRequest) connection.
Definition credit_update (connection : Arc) : P (Result unit) :=
  tell (with_op VirtioVsockOp.CreditUpdate) connection.
Definition shutdown (connection : Arc) : P (Result unit) :=
  tell (λ h, VirtioVsockHdr.with_flags (Z.lor StreamShutdown.SEND StreamShutdown.RECEIVE)
    (with_op VirtioVsockOp.Shutdown h)) connection.
Definition force_close (connection : Arc) : P (Result unit) :=
  ptry (tell (with_op VirtioVsockOp.Rst) connection) (λ _, Ret (Ok tt)).
Definition connect (connection : Arc) : P (Result unit) :=
  tell (with_op VirtioVsockOp.Request) connection.

(** The guard is dropped on every way out, and before the request of credit is sent. *)
Definition check_peer_buffer_is_sufficient (connection : Arc) (buffer_len : Z) : P (Result Arc) :=
  acquire (Conn connection);;
  info ← under (Conn connection) (on_fst (lock_info connection));
  if buffer_len <=? ConnectionInfo.peer_free info then
    release (Conn connection);; Ret (Ok connection)
  else if negb (ConnectionInfo.has_pending_credit_request info) then
    under (Conn connection) (on_fst (modify_info connection (ConnectionInfo.set_pending true)));;
    release (Conn connection);;
    ptry (request_credit connection) (λ _,
    Ret (Err (SocketDeviceError InsufficientBufferSpaceInPeer)))
  else
    release (Conn connection);;
    Ret (Err (SocketDeviceError InsufficientBufferSpaceInPeer)).

(** The credit is checked and used under two guards. *)
Definition send (buffer : Slice) (connection : Arc) : P (Result unit) :=
  ptry (check_peer_buffer_is_sufficient connection (s_len buffer)) (λ connection,
  let len := wrap 32 (s_len buffer) in
  header ← locked (Conn connection) (
    info ← under (Conn connection) (on_fst (lock_info connection));
    cid ← get_cid;
    under (Conn connection) (on_fst (modify_info connection (λ i,
      ConnectionInfo.set_tx_cnt (wrapping_add 32 (ConnectionInfo.tx_cnt i) len) i)));;
    Ret (VirtioVsockHdr.with_len len
      (with_op VirtioVsockOp.Rw (ConnectionInfo.new_header info cid))));
  packet header buffer).

(** The closure passed to the queue. *)
Definition packet_handler (handler : VsockEvent → list Z → P (Result (option VsockEvent)))
    (buffer : list Z) : P (Result (option VsockEvent)) :=
  match read_header_and_body buffer with
  | Err e => Ret (Err e)
  | Ok (header, body) =>
    match VsockEvent.from_header header with
    | Err e => Ret (Err e)
    | Ok event => handler event body
    end
  end.

(** [poll]: the handler runs with the queue locked. *)
Definition poll_with (handler : VsockEvent → list Z → P (Result (option VsockEvent)))
    : P (Result (option VsockEvent)) :=
  locked Rx (
    ptry (under Rx (on_snd rx_pop)) (λ p,
    match p with
    | None => Ret (Ok None)
    | Some (x, bytes) =>
      result ← packet_handler handler bytes;
      ptry (under Rx (on_snd (rx_push x))) (λ _, Ret result)
    end)).

(** ** [VsockConnectionManagerCommon] *)

(** [iter().enumerate().find(..)], which locks each connection in turn. *)
Fixpoint find_loop (f : ConnectionInfo → bool) (i : nat) (l : list Arc) : P (option (nat * Arc)) :=
  match l with
  | [] => Ret None
  | a :: l =>
    found ← locked (Conn a) (under (Conn a) (gets (λ s, holds s.1 f a)));
    if found : bool then Ret (Some (i, a)) else find_loop f (S i) l
  end.
Definition find (f : ConnectionInfo → bool) : P (option (nat * Arc)) :=
  l ← under Inner (gets (λ s, connections s.1));
  find_loop f 0 l.

Definition get_connection (peer : VsockAddr) (local_port : Z) : P (Result (nat * Arc)) :=
  x ← find (is_connection peer local_port);
  Ret (match x with Some x => Ok x | None => Err (SocketDeviceError NotConnected) end).

Definition get_connection_for_event (event : VsockEvent) (cid : Z) : P (option (nat * Arc)) :=
  find (λ i, VsockEvent.matches_connection event i cid).

Definition listen (port : Z) : P unit := locked Inner (under Inner (Common.listen port)).
Definition unlisten (port : Z) : P unit := locked Inner (under Inner (Common.unlisten port)).

(** A method that finds the connection and hands it to the driver without the list's lock. *)
Definition with_connection {A} (peer : VsockAddr) (port : Z) (k : Arc → P (Result A))
    : P (Result A) :=
  ptry (locked Inner (get_connection peer port)) (λ '(_, connection), k connection).

Definition send_to (destination : VsockAddr) (src_port : Z) (buffer : Slice) : P (Result unit) :=
  with_connection destination src_port (send buffer).
Definition update_credit (peer : VsockAddr) (src_port : Z) : P (Result unit) :=
  with_connection peer src_port credit_update.
Definition shutdown_of (destination : VsockAddr) (src_port : Z) : P (Result unit) :=
  with_connection destination src_port shutdown.

Definition remove_at (i : nat) : P unit := under Inner (Common.remove_at i).

(** The connection an event is for is locked while the event is stored. *)
Definition store_event (event : VsockEvent) (body : list Z) (connection : Arc)
    : P (Result (option VsockEvent)) :=
  locked (Conn connection)
    (under (Conn connection) (on_fst (Common.store_event event body connection))).

(** [Arc::new(Lock::new(c))] and the push on the list. *)
Definition new_arc (c : Connection) : P Arc := plain (on_fst (arc_new c)).
Definition push (a : Arc) : P unit :=
  under Inner (on_fst (modify (λ c, set_connections (connections c ++ [a]) c))).

(** The handler of [poll], called with the list locked. *)
Definition poll_handler (local_cid : Z) (event : VsockEvent) (body : list Z)
    : P (Result (option VsockEvent)) :=
  x ← get_connection_for_event event local_cid;
  match x with
  | Some (_, connection) => store_event event body connection
  | None =>
    if bool_decide (VsockEvent.event_type event = VsockEventType.ConnectionRequest) then
      if negb (cid (VsockEvent.destination event) =? local_cid) then Ret (Ok None) else
      capacity ← under Inner (gets (λ s, per_connection_buffer_capacity s.1));
      new_connection ← new_arc (Connection.new (VsockEvent.source event)
        (port (VsockEvent.destination event)) capacity);
      push new_connection;;
      store_event event body new_connection
    else Ret (Ok None)
  end.

(** What [poll] does with the event, from the list locked to the list unlocked. In
    [self.driver.accept(connection.lock().info.clone())?] the guard is dropped at the end of the
    statement, after the packet is sent. *)
Definition poll_event (event : VsockEvent) (connection_index : nat) (connection : Arc)
    : P (Result (option VsockEvent)) :=
  match VsockEvent.event_type event with
  | VsockEventType.ConnectionRequest =>
      listening ← under Inner (gets (λ s,
        bool_decide (port (VsockEvent.destination event) ∈ listening_ports s.1)));
      if listening : bool then
        release Inner;;
        ptry (locked (Conn connection) (
          info ← under (Conn connection) (on_fst (lock_info connection)); accept info)) (λ _,
        Ret (Ok (Some event)))
      else
        remove_at connection_index;;
        release Inner;;
        ptry (force_close connection) (λ _, Ret (Ok None))
  | VsockEventType.Disconnected reason =>
      acquire (Conn connection);;
      c ← under (Conn connection) (on_fst (lock connection));
      if RingBuffer.is_empty (Connection.buffer c) then
        remove_at connection_index;;
        release (Conn connection);;
        release Inner;;
        if bool_decide (reason = DisconnectReason.Shutdown) then
          ptry (force_close connection) (λ _, Ret (Ok (Some event)))
        else Ret (Ok (Some event))
      else
        under (Conn connection) (on_fst (lock_set connection (Connection.set_shutdown true c)));;
        release (Conn connection);;
        release Inner;;
        Ret (Ok (Some event))
  | VsockEventType.CreditRequest =>
      release Inner;;
      ptry (credit_update connection) (λ _, Ret (Ok None))
  | VsockEventType.Connected | VsockEventType.Received _ | VsockEventType.CreditUpdate =>
      release Inner;;
      Ret (Ok (Some event))
  end.

Definition poll : P (Result (option VsockEvent)) :=
  acquire Inner;;
  cid ← get_cid;
  result ← poll_with (poll_handler cid);
  match result with
  | Err e => release Inner;; Ret (Err e)
  | Ok None => release Inner;; Ret (Ok None)
  | Ok (Some event) =>
    x ← get_connection_for_event event cid;
    '(connection_index, connection) ← plain (unwrap x);
    poll_event event connection_index connection
  end.

(** The handler of [poll_direct] takes the list's lock itself. *)
Definition poll_direct_handler (local_cid : Z) (event : VsockEvent) (body : list Z)
    : P (Result (option VsockEvent)) :=
  if negb (cid (VsockEvent.destination event) =? local_cid) then Ret (Ok None) else
  acquire Inner;;
  if bool_decide (VsockEvent.event_type event = VsockEventType.ConnectionRequest) then
    inner ← under Inner (gets fst);
    release Inner;;
    if negb (bool_decide (port (VsockEvent.destination event) ∈ listening_ports inner))
    then Ret (Ok None)
    else
      let c := Connection.new (VsockEvent.source event) (port (VsockEvent.destination event))
                 (per_connection_buffer_capacity inner) in
      let c := Connection.set_info (update_for_event event (Connection.info c)) c in
      Ret (Ok (Some (VsockEvent.set_new_connection (Some c) event)))
  else
    x ← get_connection_for_event event local_cid;
    match x with
    | None => release Inner;; Ret (Ok None)
    | Some (connection_index, existing_connection) =>
      if bool_decide (VsockEvent.event_type event =
                      VsockEventType.Disconnected DisconnectReason.Reset) then
        remove_at connection_index;; release Inner;; Ret (Ok (Some event))
      else release Inner;; store_event event body existing_connection
    end.

Definition poll_direct : P (Result (option VsockEvent)) :=
  cid ← get_cid;
  poll_with (poll_direct_handler cid).

Definition recv (peer : VsockAddr) (src_port : Z) (buffer : list Z) : P (Result (list Z * Z)) :=
  acquire Inner;;
  r ← get_connection peer src_port;
  match r with
  | Err e => release Inner;; Ret (Err e)
  | Ok (connection_index, connection) =>
    acquire (Conn connection);;
    '(buffer, bytes_read) ← under (Conn connection) (on_fst (Common.buffer_drain connection buffer));
    under (Conn connection)
      (on_fst (modify_info connection (ConnectionInfo.done_forwarding bytes_read)));;
    c ← under (Conn connection) (on_fst (lock connection));
    if Connection.peer_requested_shutdown c && RingBuffer.is_empty (Connection.buffer c) then
      remove_at connection_index;;
      release (Conn connection);;
      release Inner;;
      ptry (force_close connection) (λ _, Ret (Ok (buffer, bytes_read)))
    else
      release (Conn connection);;
      release Inner;;
      Ret (Ok (buffer, bytes_read))
  end.

Definition recv_buffer_available_bytes (peer : VsockAddr) (src_port : Z) : P (Result Z) :=
  locked Inner (
    ptry (get_connection peer src_port) (λ '(_, connection),
    c ← locked (Conn connection) (under (Conn connection) (on_fst (lock connection)));
    Ret (Ok (RingBuffer.used (Connection.buffer c))))).

(** Each round is a [poll]. *)
Fixpoint wait_for_event (fuel : nat) : P (Result VsockEvent) :=
  match fuel with
  | O => plain hang
  | S fuel =>
    ptry poll (λ e,
    match e with
    | Some event => Ret (Ok event)
    | None => wait_for_event fuel
    end)
  end.

Definition force_close_of (destination : VsockAddr) (src_port : Z) : P (Result unit) :=
  ptry (locked Inner (
    ptry (get_connection destination src_port) (λ '(index, connection),
    remove_at index;; Ret (Ok connection)))) (λ connection,
  ptry (force_close connection) (λ _, Ret (Ok tt))).

(** [accept] and [connect] take a connection they have just pushed off the list when the peer
    cannot be told; others may have changed the list meanwhile. *)
Definition retain_others (a : Arc) : P unit :=
  locked Inner (under Inner (on_fst (modify (λ i,
    set_connections (filter (λ b, b ≠ a) (connections i)) i)))).

Definition accept_connection (c : Connection) : P (Result unit) :=
  let info := Connection.info c in
  new_connection ← new_arc c;
  locked Inner (push new_connection);;
  r ← accept info;
  match r with
  | Ok _ => Ret (Ok tt)
  | Err e => retain_others new_connection;; Ret (Err e)
  end.

(** The last step is the lock taken for the log message. *)
Definition connect_to (destination : VsockAddr) (src_port : Z) : P (Result unit) :=
  acquire Inner;;
  x ← find (is_connection destination src_port);
  match x with
  | Some _ => release Inner;; Ret (Err (SocketDeviceError ConnectionExists))
  | None =>
    capacity ← under Inner (gets (λ s, per_connection_buffer_capacity s.1));
    new_connection ← new_arc (Connection.new destination src_port capacity);
    push new_connection;;
    release Inner;;
    r ← connect new_connection;
    match r with
    | Ok _ => locked (Conn new_connection) (Ret tt);; Ret (Ok tt)
    | Err e => retain_others new_connection;; Ret (Err e)
    end
  end.

(** ** Calls *)
Inductive Op :=
| OListen (port : Z)
| OUnlisten (port : Z)
| OAccept (c : Connection)
| OConnect (peer : VsockAddr) (port : Z)
| OSend (peer : VsockAddr) (port : Z) (buffer : Slice)
| OPoll
| OPollDirect
| OWait (fuel : nat)
| ORecv (peer : VsockAddr) (port : Z) (buffer : list Z)
| OAvailable (peer : VsockAddr) (port : Z)
| OUpdateCredit (peer : VsockAddr) (port : Z)
| OShutdown (peer : VsockAddr) (port : Z)
| OForceClose (peer : VsockAddr) (port : Z).

(** What a call returns. *)
Definition Answer (x : Op) : Type :=
  match x with
  | OListen _ | OUnlisten _ => unit
  | OPoll | OPollDirect => Result (option VsockEvent)
  | OWait _ => Result VsockEvent
  | ORecv _ _ _ => Result (list Z * Z)
  | OAvailable _ _ => Result Z
  | OAccept _ | OConnect _ _ | OSend _ _ _ | OUpdateCredit _ _ | OShutdown _ _ | OForceClose _ _ =>
      Result unit
  end.

Definition run_op (x : Op) : P (Answer x) :=
  match x return P (Answer x) with
  | OListen p => listen p
  | OUnlisten p => unlisten p
  | OAccept c => accept_connection c
  | OConnect a p => connect_to a p
  | OSend a p b => send_to a p b
  | OPoll => poll
  | OPollDirect => poll_direct
  | OWait n => wait_for_event n
  | ORecv a p b => recv a p b
  | OAvailable a p => recv_buffer_available_bytes a p
  | OUpdateCredit a p => update_credit a p
  | OShutdown a p => shutdown_of a p
  | OForceClose a p => force_close_of a p
  end.

(** A thread that makes the calls one after the other, with their answers. *)
Fixpoint run_calls (xs : list Op) : P (list {x : Op & Answer x}) :=
  match xs with
  | [] => Ret []
  | x :: xs => a ← run_op x; l ← run_calls xs; Ret (existT x a :: l)
  end.
Definition run_ops (xs : list Op) : P unit := run_calls xs;; Ret tt.

End locked.
End Locked.

(** ** The halves of [poll]

    The driver's [poll] takes a used buffer out of its receive queue, runs the handler and puts
    the buffer back; the device's pops an available chain, runs the handler and returns the chain.
    Both are the two halves the threads run around their handler. *)

(** Both sides of an equation on a state, by cases on what they call. *)
Ltac project := cbn [view update fst snd VirtIOSocket.transport VirtIOSocket.rx VirtIOSocket.tx VirtIOSocket.event
  VirtIOSocket.guest_cid VirtIOSocketDevice.transport VirtIOSocketDevice.rx VirtIOSocketDevice.tx VirtIOSocketDevice.event] in *.
Ltac halves :=
  unfold zoom, try, on_fst, on_snd, zoom, mbind, M_bind, mret, M_ret, fst_lens, snd_lens, OQ.world_lens, DQ.device_lens;
  project;
  repeat (match goal with
    | |- context [match ?x with _ => _ end] =>
        lazymatch x with context [match _ with _ => _ end] => fail | _ => destruct x eqn:? end
    end; project; simplify_eq);
  try reflexivity.

Section driver.
Context `{Profile} {W T : Type} `{Hal W} `{Allocator W} `{Mem W} `{Stack W} `{Device W}.
Context `{Transport T W} (RX_BUFFER_SIZE : Z) (fuel : nat).

Definition socket_rx : lens (VirtIOSocket T * W) (OQ.OwningQueue * (T * W)) :=
  {| view := λ s, (VirtIOSocket.rx s.1, (VirtIOSocket.transport s.1, s.2));
     update := λ a s, (VirtIOSocket.mkSocket a.2.1 a.1 (VirtIOSocket.tx s.1)
       (VirtIOSocket.event s.1) (VirtIOSocket.guest_cid s.1), a.2.2) |}.

(** The beginning of [OwningQueue::poll]. *)
Definition socket_pop : M (VirtIOSocket T * W) (Result (option (Z * list Z))) :=
  zoom socket_rx (
    p ←? zoom OQ.world_lens (OQ.pop QUEUE_SIZE RX_BUFFER_SIZE);
    match p with
    | None => mret (Ok None)
    | Some (buffer, token) =>
      bytes ← on_snd (on_snd (mem_read buffer));
      mret (Ok (Some (token, bytes)))
    end).

(** The end of it. *)
Definition socket_push (token : Z) : M (VirtIOSocket T * W) (Result unit) :=
  zoom socket_rx (OQ.add_buffer_to_queue QUEUE_SIZE RX_BUFFER_SIZE token).

Definition socket_parts : @SocketParts (VirtIOSocket T) W (VirtIOSocket.socket_manager RX_BUFFER_SIZE fuel).
Proof.
  refine {| Popped := Z; rx_pop := socket_pop; rx_push := socket_push |}.
  intros C h [c [[t rx tx ev cid'] w]].
  cbn [Vsock.poll VirtIOSocket.socket_manager]. unfold VirtIOSocket.poll_rx, OQ.poll, socket_pop, socket_push, VirtIOSocket.rx_lens, socket_rx.
  halves.
Defined.
End driver.

Section device.
Context `{Profile} {W T : Type} `{DeviceHal W} `{Mem W} `{DeviceTransport T W}.
Context (driver_step : Shared → W → Shared * W) (fuel : nat).

Definition device_tx : lens (VirtIOSocketDevice T * W) (DQ.DeviceVirtQueue * (T * W)) :=
  {| view := λ s, (VirtIOSocketDevice.tx s.1, (VirtIOSocketDevice.transport s.1, s.2));
     update := λ a s, (VirtIOSocketDevice.mkSocketDevice a.2.1 (VirtIOSocketDevice.rx s.1) a.1
       (VirtIOSocketDevice.event s.1), a.2.2) |}.

(** The beginning of [DeviceVirtQueue::poll]. *)
Definition device_pop
    : M (VirtIOSocketDevice T * W) (Result (option (DQ.DescriptorBuffers * list Z))) :=
  zoom device_tx (
    p ←? zoom DQ.device_lens (DQ.pop_avail QUEUE_SIZE fuel);
    match p with
    | None => mret (Ok None)
    | Some popped =>
      if negb (bool_decide (DQ.write_buffers popped = [])) then mret (Err Unsupported) else
      tmp ← on_snd (on_snd (DQ.read_all (DQ.read_buffers popped)));
      mret (Ok (Some (popped, tmp)))
    end).

(** The end of it. *)
Definition device_push (popped : DQ.DescriptorBuffers) : M (VirtIOSocketDevice T * W) (Result unit) :=
  zoom device_tx (
    zoom DQ.device_lens (DQ.add_used QUEUE_SIZE (DQ.db_head popped) 0);;
    DQ.notify_driver;;
    mret (Ok tt)).

Definition socket_device_parts : @SocketParts (VirtIOSocketDevice T) W
  (VirtIOSocketDevice.socket_device_manager driver_step fuel).
Proof.
  refine {| Popped := DQ.DescriptorBuffers; rx_pop := device_pop; rx_push := device_push |}.
  intros C h [c [[t rx tx ev] w]]. cbn [Vsock.poll VirtIOSocketDevice.socket_device_manager].
  unfold VirtIOSocketDevice.poll_tx, DQ.poll, device_pop, device_push, VirtIOSocketDevice.tx_lens, device_tx.
  halves.
Defined.
End device.
