(* ===== verification/ManagerOrder.v ===== *)
(** * Locks of the connection manager: order, and runs of one thread

    Every call takes its locks in the order: the list, the receive queue, a connection, the send
    queue; but [poll_direct] takes the receive queue before the list. So threads do not deadlock
    as long as [poll] and [poll_direct] are not both in use. Alone, a thread does what the
    sequential definitions of [ConnectionManager.v] do. *)

From S2P Require Import Prelude Base Transport Bytes RingBuffer VsockProtocol Vsock.
From S2P Require Import ConnectionManager Threads ManagerThreads.
Import Locked.

(** Connections are locked after the list and the receive queue, before the send queue. *)
Class LockOrder (rank : lock_name → nat) : Prop :=
  rank_conn a : (rank Inner < rank (Conn a) ∧ rank Rx < rank (Conn a) ∧ rank (Conn a) < rank Tx)%nat.

(** Held locks: order, membership, freshness. *)
Ltac rank_lia := repeat match goal with
  | |- context [?rank (Conn ?a)] => let Ha := fresh in pose proof (rank_conn a) as Ha;
      generalize dependent (rank (Conn a)); intros
  end; pose proof (rank_conn 0%nat); lia.
Ltac held := repeat first [assumption | match goal with Hh : ∀ a, Forall _ _ |- _ => apply Hh end
  | apply Forall_nil_2 | apply Forall_cons_2; [first [assumption | rank_lia]|]].
Ltac fresh_lock := rewrite ?not_elem_of_cons; repeat split; try done; apply not_elem_of_nil.
Ltac is_held := first [assumption | rewrite ?elem_of_cons; tauto].

(** One step along a program, with the lemmas [thm] for the programs it calls. *)
Ltac ord_step :=
  lazymatch goal with
  | |- ordered _ _ (Ret _) _ => reflexivity
  | |- ordered _ _ (acquire _ ≫= _) _ => split; [held|]; cbn [mbind prog_bind]
  | |- ordered _ _ (release _ ≫= _) _ => apply ordered_release; [fresh_lock|]
  | |- ordered _ _ (under _ _ ≫= _) _ => eapply ordered_bind; [apply ordered_under; is_held|intros ?]
  | |- ordered _ _ (plain _ ≫= _) _ => eapply ordered_bind; [apply ordered_plain|intros ?]
  | |- ordered _ _ (under _ _) _ => apply ordered_under; is_held
  | |- ordered _ _ (plain _) _ => apply ordered_plain
  | |- ordered _ _ (locked _ _ ≫= _) _ => eapply ordered_bind; [apply ordered_locked; [held|]|intros ?]
  | |- ordered _ _ (locked _ _) _ => apply ordered_locked; [held|]
  | |- ordered _ _ (match ?x with _ => _ end) _ => destruct x
  | |- ordered _ _ (ptry _ _) _ => eapply ordered_try; [eauto with ord|intros ?]
  | |- ordered _ _ (_ ≫= _) _ => eapply ordered_bind; [eauto with ord|intros ?]
  | |- ordered _ _ _ _ => solve [eauto with ord]
  end.
Ltac ord := repeat (ord_step; cbv beta zeta).

Create HintDb ord.
#[export] Hint Extern 1 (Forall _ _) => solve [held] : ord.
#[export] Hint Extern 1 (_ ∈ _) => solve [is_held] : ord.

Section order.
Context `{Profile} {D W : Type} `{SocketParts D W}.
Context (rank : lock_name → nat).
Abbreviation below l h := (Forall (λ x, rank x < rank l)%nat h).

Context `{!LockOrder rank}.

Lemma packet_ord hdr b h : below Tx h → ordered rank h (packet hdr b) h.
Proof. intros. unfold packet. ord. Qed.
#[local] Hint Resolve packet_ord : ord.

Lemma accept_ord info h : below Tx h → ordered rank h (accept info) h.
Proof. intros. unfold accept, get_cid. ord. Qed.
#[local] Hint Resolve accept_ord : ord.

Lemma tell_ord f a : ordered rank [] (tell f a) [].
Proof. unfold tell, get_cid. ord. Qed.
#[local] Hint Resolve tell_ord : ord.

Lemma force_close_ord a : ordered rank [] (force_close a) [].
Proof. unfold force_close. ord. Qed.
#[local] Hint Resolve force_close_ord : ord.

Lemma send_ord b a : ordered rank [] (send b a) [].
Proof. unfold send, check_peer_buffer_is_sufficient, get_cid. ord. Qed.
#[local] Hint Resolve send_ord : ord.

Lemma find_loop_ord f i l h : (∀ a, below (Conn a) h) → ordered rank h (find_loop (D := D) (W := W) f i l) h.
Proof. intros Hh. revert i. induction l as [|a l IH]; intros i; cbn [find_loop]; ord. Qed.

Lemma find_ord f h : Inner ∈ h → (∀ a, below (Conn a) h) → ordered rank h (find (D := D) (W := W) f) h.
Proof. intros Hi Hh. unfold find. ord. by apply find_loop_ord. Qed.
#[local] Hint Resolve find_ord : ord.

Lemma get_connection_ord peer p h : Inner ∈ h → (∀ a, below (Conn a) h) →
  ordered rank h (get_connection (D := D) (W := W) peer p) h.
Proof. intros. unfold get_connection. ord. Qed.
#[local] Hint Resolve get_connection_ord : ord.

Lemma with_connection_ord {A} peer p (k : Arc → prog (Result A)) :
  (∀ a, ordered rank [] (k a) []) → ordered rank [] (with_connection (D := D) (W := W) peer p k) [].
Proof. intros Hk. unfold with_connection. ord. Qed.

Lemma store_event_ord e body a h : below (Conn a) h →
  ordered rank h (store_event (D := D) (W := W) e body a) h.
Proof. intros. unfold store_event. ord. Qed.
#[local] Hint Resolve store_event_ord : ord.

Lemma poll_with_ord handler h : below Rx h → (∀ e b, ordered rank (Rx :: h) (handler e b) (Rx :: h)) →
  ordered rank h (poll_with handler) h.
Proof. intros Hh Hk. unfold poll_with, packet_handler. ord. Qed.

Lemma poll_event_ord e i a : ordered rank [Inner] (poll_event e i a) [].
Proof.
  unfold poll_event, remove_at, credit_update.
  destruct (VsockEvent.event_type e); ord.
Qed.
#[local] Hint Resolve poll_event_ord : ord.

Lemma poll_ord : (rank Inner < rank Rx)%nat → ordered rank [] poll [].
Proof.
  intros Hr. unfold poll, get_cid. ord_step. ord_step.
  eapply ordered_bind.
  { apply poll_with_ord; [held|]. intros e b.
    unfold poll_handler, get_connection_for_event, new_arc, push. ord. }
  unfold get_connection_for_event. intros ?. ord.
Qed.
#[local] Hint Resolve poll_ord : ord.

Lemma poll_direct_ord : (rank Rx < rank Inner)%nat → ordered rank [] poll_direct [].
Proof.
  intros Hr. unfold poll_direct, get_cid. ord_step. apply poll_with_ord; [held|]. intros e b.
  unfold poll_direct_handler, get_connection_for_event, remove_at. ord.
Qed.
#[local] Hint Resolve poll_direct_ord : ord.

Lemma wait_ord n : (rank Inner < rank Rx)%nat → ordered rank [] (wait_for_event n) [].
Proof. intros Hr. induction n as [|n IH]; cbn [wait_for_event]; ord. Qed.
#[local] Hint Resolve wait_ord : ord.

Lemma recv_ord peer p b : ordered rank [] (recv peer p b) [].
Proof. unfold recv, remove_at. ord. Qed.

Lemma retain_others_ord a : ordered rank [] (retain_others (D := D) (W := W) a) [].
Proof. unfold retain_others. ord. Qed.
#[local] Hint Resolve recv_ord retain_others_ord with_connection_ord : ord.

(** Calls that keep to the order of [poll], and to that of [poll_direct]. *)
Definition op_allowed (x : Op) : Prop :=
  match x with
  | OPoll | OWait _ => rank Inner < rank Rx
  | OPollDirect => rank Rx < rank Inner
  | _ => True
  end%nat.

Lemma run_op_ord x : op_allowed x → ordered rank [] (run_op x) [].
Proof.
  unfold op_allowed, run_op, listen, unlisten, accept_connection, connect_to, send_to, update_credit,
    shutdown_of, recv_buffer_available_bytes, force_close_of, new_arc, push, remove_at, connect,
    credit_update, shutdown.
  intros Hx. destruct x; ord.
Qed.

Lemma run_calls_ord xs : Forall op_allowed xs → ordered rank [] (run_calls xs) [].
Proof.
  induction 1 as [|x xs Hx _ IH]; cbn [run_calls]; [done|].
  eapply ordered_bind; [by apply run_op_ord|]. intros a. by eapply ordered_bind.
Qed.

Lemma run_ops_ord xs : Forall op_allowed xs → ordered rank [] (run_ops xs) [].
Proof.
  intros Hxs. eapply ordered_bind; [by apply run_calls_ord|done].
Qed.
End order.
