(* ===== verification/ManagerSolo.v ===== *)
(** * A single thread of the connection manager

    With no other thread, the programs of [ManagerThreads.v] do what the sequential definitions
    of [ConnectionManager.v] do: no call takes a lock it holds. *)

From S2P Require Import Prelude Base Transport Bytes RingBuffer VsockProtocol Vsock.
From S2P Require Import ConnectionManager Threads ManagerThreads ManagerOrder.
Import Locked.

(** ** Programs without their locks *)
Section erases.
Context {S L : Type}.

(** Without its locks, [p] is [m]. *)
Definition erases {A} (p : @prog S L A) (m : M S A) : Prop := ∀ s, erase p s = m s.

Lemma erases_bind {A B} (p : @prog S L A) (k : A → prog B) m f :
  erases p m → (∀ a, erases (k a) (f a)) → erases (p ≫= k) (m ≫= f).
Proof.
  intros Hp Hk s. rewrite erase_bind. unfold mbind, M_bind. rewrite Hp.
  destruct (m s) as [[a| |] s']; try done. apply Hk.
Qed.

Lemma erases_try {A B E} (p : @prog S L (result A E)) (k : A → prog (result B E)) m f :
  erases p m → (∀ a, erases (k a) (f a)) → erases (ptry p k) (try m f).
Proof. intros Hp Hk. apply erases_bind; [done|]. by intros [a|e]. Qed.

Lemma erases_ret {A} (a : A) : erases (Ret a) (mret a).
Proof. done. Qed.

Lemma erases_act {A} (o : option L) (c : M S A) : erases (Act o c Ret) c.
Proof. intros s. simpl. unfold mbind, M_bind. by destruct (c s) as [[b| |] s']. Qed.

Lemma erases_locked {A} l (p : @prog S L A) m : erases p m → erases (locked l p) m.
Proof.
  intros Hp s. unfold locked. cbn [erase]. rewrite erase_bind. unfold mbind, M_bind. rewrite Hp.
  by destruct (m s) as [[b| |] s'].
Qed.

Lemma erases_eq {A} (p : @prog S L A) m m' : erases p m → (∀ s, m s = m' s) → erases p m'.
Proof. intros Hp He s. by rewrite Hp. Qed.
End erases.

Ltac er_step :=
  lazymatch goal with
  | |- erases (Ret _) _ => first [apply erases_ret | intros ?; reflexivity]
  | |- erases (acquire _ ≫= ?k) ?m => change (erases (k tt) m)
  | |- erases (release _ ≫= ?k) ?m => change (erases (k tt) m)
  | |- erases (under _ _) _ => apply erases_act
  | |- erases (plain _) _ => apply erases_act
  | |- erases (locked _ _) _ => apply erases_locked
  | |- erases (match ?x with _ => _ end) _ => destruct x
  | |- erases (ptry _ _) _ => eapply erases_try; [|intros ?]
  | |- erases (_ ≫= _) _ => eapply erases_bind; [|intros ?]
  end.
Ltac er := repeat (er_step; cbv beta); eauto with er.

(** The sequential side: both computations on the state, by cases on what they call. *)
Ltac same_run :=
  intros [? [? ?]]; unfold with_op, on_fst, on_snd, zoom, try, mbind, M_bind, gets, mret, M_ret, fst_lens, snd_lens;
  cbn [view update fst snd];
  repeat (match goal with
    | |- context [match ?x with _ => _ end] =>
        lazymatch x with context [match _ with _ => _ end] => fail | _ => destruct x eqn:? end
    end; cbn [view update fst snd] in *; simplify_eq);
  try reflexivity.

Section solo.
Context `{Profile} {D W : Type} `{SocketParts D W}.
Abbreviation St := (Conns * (D * W))%type.
Create HintDb er.

Lemma packet_er hdr b : erases (packet hdr b) (on_snd (send_packet_to_queue hdr b)).
Proof. unfold packet. er. Qed.
#[local] Hint Extern 1 (erases _ _) => apply packet_er : er.

Lemma accept_er info : erases (accept info) (on_snd (Vsock.accept info)).
Proof.
  unfold accept, get_cid. eapply erases_eq; [er|]. unfold Vsock.accept. same_run.
Qed.
#[local] Hint Extern 1 (erases _ _) => apply accept_er : er.

(** The five packets made from a connection, in one definition. *)
Definition tell_seq (f : VirtioVsockHdr → VirtioVsockHdr) (a : Arc) : M St (Result unit) :=
  info ← on_fst (lock_info a);
  d ← gets (λ s, s.2.1);
  on_snd (send_packet_to_queue (f (ConnectionInfo.new_header info (local_cid d))) no_data).

Lemma tell_er f a : erases (tell f a) (tell_seq f a).
Proof. unfold tell, get_cid. eapply erases_eq; [er|]. unfold tell_seq. same_run. Qed.
#[local] Hint Extern 1 (erases _ _) => apply tell_er : er.

Lemma force_close_er a : erases (force_close a) (Vsock.force_close a).
Proof. unfold force_close. eapply erases_eq; [er|]. unfold Vsock.force_close, tell_seq. same_run. Qed.
#[local] Hint Extern 1 (erases _ _) => apply force_close_er : er.

Lemma check_er a n : erases (check_peer_buffer_is_sufficient a n)
  (Vsock.check_peer_buffer_is_sufficient a n).
Proof.
  unfold check_peer_buffer_is_sufficient, Vsock.check_peer_buffer_is_sufficient, request_credit. er.
Qed.
#[local] Hint Extern 1 (erases _ _) => apply check_er : er.

Lemma send_er b a : erases (send b a) (Vsock.send b a).
Proof.
  unfold send, get_cid. eapply erases_try; [apply check_er|]. intros c. cbv zeta.
  eapply erases_eq; [er|]. same_run.
Qed.
#[local] Hint Extern 1 (erases _ _) => apply send_er : er.

Lemma find_existsb f c :
  (if find_connection f c then true else false) = existsb (holds c f) (connections c).
Proof.
  unfold find_connection. generalize (connections c), 0%nat. intros l.
  induction l as [|a l IH]; intros i; [done|]. simpl. by destruct (holds c f a).
Qed.

Lemma find_loop_er f i l : erases (find_loop (D := D) (W := W) f i l)
  (gets (λ s, find_index (holds s.1 f) i l)).
Proof.
  revert i. induction l as [|a l IH]; intros i; [done|]. cbn [find_loop].
  eapply erases_eq.
  - eapply erases_bind; [er|]. intros found. instantiate (1 := λ found : bool,
      if found then mret (Some (i, a)) else gets (λ s, find_index (holds s.1 f) (S i) l)).
    destruct found; [done|apply IH].
  - intros s. unfold mbind, M_bind, gets. simpl. by destruct (holds s.1 f a).
Qed.

Lemma find_er f : erases (find f) (gets (λ s : St, find_connection f s.1)).
Proof.
  unfold find. eapply erases_eq; [eapply erases_bind; [er|]; intros l; apply find_loop_er|]. done.
Qed.
#[local] Hint Extern 1 (erases _ _) => apply find_er : er.

Lemma get_connection_er peer p : erases (get_connection peer p) (Common.lookup (D := D) (W := W) peer p).
Proof. unfold get_connection. eapply erases_eq; [er|]. done. Qed.
#[local] Hint Extern 1 (erases _ _) => apply get_connection_er : er.

Lemma with_connection_er {A} peer p (k : Arc → prog (Result A)) (m : Arc → M St (Result A)) :
  (∀ a, erases (k a) (m a)) →
  erases (with_connection peer p k) ('(_, a) ←? Common.lookup (D := D) (W := W) peer p; m a).
Proof. intros Hk. unfold with_connection. er. Qed.

Lemma store_event_er e body a :
  erases (store_event e body a) (on_fst (B := D * W) (Common.store_event e body a)).
Proof. unfold store_event. er. Qed.
#[local] Hint Extern 1 (erases _ _) => apply store_event_er : er.

Lemma packet_handler_er handler (m : VsockEvent → list Z → M Conns (Result (option VsockEvent))) bytes :
  (∀ e b, erases (handler e b) (on_fst (m e b))) →
  erases (packet_handler (D := D) (W := W) handler bytes) (on_fst (Vsock.packet_handler m bytes)).
Proof.
  intros Hk. unfold packet_handler, Vsock.packet_handler.
  destruct (read_header_and_body bytes) as [[header body]|e]; [|by intros [? ?]].
  destruct (VsockEvent.from_header header); [apply Hk|by intros [? ?]].
Qed.

Lemma poll_with_er handler (m : VsockEvent → list Z → M Conns (Result (option VsockEvent))) :
  (∀ e b, erases (handler e b) (on_fst (m e b))) → erases (poll_with handler) (Vsock.poll m).
Proof.
  intros Hk. unfold poll_with. eapply erases_eq; [|intros s; symmetry; apply poll_parts].
  er. by apply packet_handler_er.
Qed.

Lemma poll_handler_er cid' e body :
  erases (poll_handler cid' e body) (on_fst (B := D * W) (Common.poll_handler cid' e body)).
Proof.
  unfold poll_handler, get_connection_for_event, new_arc, push.
  eapply erases_eq.
  - eapply erases_bind; [er|]. intros x. instantiate (1 := λ x : option (nat * Arc), match x with
      | Some (_, a) => on_fst (Common.store_event e body a)
      | None =>
        if bool_decide (VsockEvent.event_type e = VsockEventType.ConnectionRequest) then
          if negb (cid (VsockEvent.destination e) =? cid') then mret (Ok None) else
          capacity ← gets (λ s, per_connection_buffer_capacity s.1);
          a ← on_fst (arc_new (Connection.new (VsockEvent.source e)
            (port (VsockEvent.destination e)) capacity));
          on_fst (modify (λ c, set_connections (connections c ++ [a]) c));;
          on_fst (Common.store_event e body a)
        else mret (Ok None) end).
    cbv beta. er.
  - intros [c dw]. unfold Common.poll_handler, on_fst, zoom, mbind, M_bind, gets, arc_new, modify.
    cbn [view update fst_lens fst snd id]. unfold ConnectionManager.get_connection_for_event.
    destruct (find_connection _ c) as [[i a]|]; [done|].
    case_bool_decide; [|done]. by destruct (negb _).
Qed.

(** The end of [poll], on the manager as the lookup left it. *)
Definition poll_event_seq (e : VsockEvent) (i : nat) (a : Arc) : M St (Result (option VsockEvent)) :=
  match VsockEvent.event_type e with
  | VsockEventType.ConnectionRequest =>
      inner ← gets fst;
      if bool_decide (port (VsockEvent.destination e) ∈ listening_ports inner) then
        info ← on_fst (lock_info a);
        _ ←? on_snd (Vsock.accept info);
        mret (Ok (Some e))
      else
        Common.remove_at i;;
        _ ←? Vsock.force_close a;
        mret (Ok None)
  | VsockEventType.Disconnected reason =>
      c ← on_fst (lock a);
      if RingBuffer.is_empty (Connection.buffer c) then
        Common.remove_at i;;
        if bool_decide (reason = DisconnectReason.Shutdown) then
          _ ←? Vsock.force_close a;
          mret (Ok (Some e))
        else mret (Ok (Some e))
      else
        on_fst (lock_set a (Connection.set_shutdown true c));;
        mret (Ok (Some e))
  | VsockEventType.CreditRequest => _ ←? Vsock.credit_update a; mret (Ok None)
  | _ => mret (Ok (Some e))
  end.

Lemma poll_event_er e i a : erases (poll_event e i a) (poll_event_seq e i a).
Proof.
  unfold poll_event, poll_event_seq, remove_at, credit_update.
  destruct (VsockEvent.event_type e) as [| |reason| | |]; try by er.
  eapply erases_eq.
  - eapply erases_bind; [er|]. intros b. instantiate (1 := λ b : bool, if b then
        _ ←? (info ← on_fst (lock_info a); on_snd (Vsock.accept info));
        mret (Ok (Some e))
      else Common.remove_at i;; _ ←? Vsock.force_close a; mret (Ok None)).
    cbv beta. er.
  - same_run.
Qed.

Lemma poll_er : erases poll Common.poll.
Proof.
  unfold poll, get_cid. er_step. cbv beta. eapply erases_eq.
  - eapply erases_bind; [er|]. intros cid'. instantiate (1 := λ cid',
      result ← Vsock.poll (Common.poll_handler cid');
      match result with
      | Err e => mret (Err e)
      | Ok None => mret (Ok None)
      | Ok (Some event) =>
        x ← gets (λ s, ConnectionManager.get_connection_for_event s.1 event cid');
        '(i, a) ← unwrap x;
        poll_event_seq event i a
      end). cbv beta. eapply erases_bind; [apply poll_with_er, poll_handler_er|].
    intros [[event|]|e]; try by er. unfold get_connection_for_event. er. apply poll_event_er.
  - intros [c [d w]]. unfold Common.poll, try, mbind, M_bind, gets. cbn [fst snd].
    destruct (Vsock.poll _ _) as [[[[event|]|e]| |] [c' dw]]; try done. cbn [fst].
    destruct (ConnectionManager.get_connection_for_event c' event (local_cid d)) as [[i a]|]; [|done].
    unfold unwrap, mret, M_ret, poll_event_seq. by destruct (VsockEvent.event_type event).
Qed.

Lemma poll_direct_handler_er cid' e body : erases (poll_direct_handler cid' e body)
  (on_fst (B := D * W) (Common.poll_direct_handler cid' e body)).
Proof.
  unfold poll_direct_handler, Common.poll_direct_handler. destruct (negb _); [by intros [? ?]|].
  er_step. cbv beta. case_bool_decide.
  - intros [c dw]. unfold on_fst, zoom. cbn [erase under release mbind prog_bind]. unfold mbind, M_bind, gets, id.
    cbn [fst snd view update fst_lens]. by destruct (negb _).
  - unfold get_connection_for_event, remove_at. eapply erases_eq.
    + eapply erases_bind; [er|]. intros x. instantiate (1 := λ x : option (nat * Arc), match x with
        | None => mret (Ok None)
        | Some (i, a) =>
          if bool_decide (VsockEvent.event_type e = VsockEventType.Disconnected DisconnectReason.Reset)
          then Common.remove_at i;; mret (Ok (Some e))
          else on_fst (Common.store_event e body a) end). cbv beta. er.
    + intros [c dw]. unfold on_fst, zoom, mbind, M_bind, gets. cbn [fst snd view update fst_lens id].
      unfold ConnectionManager.get_connection_for_event.
      destruct (find_connection _ c) as [[i a]|]; [|done]. by case_bool_decide.
Qed.

Lemma poll_direct_er : erases poll_direct Common.poll_direct.
Proof.
  unfold poll_direct, get_cid. eapply erases_eq.
  - eapply erases_bind; [er|]. intros cid'. apply poll_with_er, poll_direct_handler_er.
  - by intros [c [d w]].
Qed.

Lemma recv_er peer p b : erases (recv peer p b) (Common.recv peer p b).
Proof. unfold recv, remove_at, Common.recv, try. er. Qed.

Lemma available_er peer p : erases (recv_buffer_available_bytes (D := D) (W := W) peer p)
  (Common.recv_buffer_available_bytes peer p).
Proof. unfold recv_buffer_available_bytes, Common.recv_buffer_available_bytes. er. Qed.

Lemma wait_er n : erases (wait_for_event n) (Common.wait_for_event (mret tt) n).
Proof.
  induction n as [|n IH]; cbn [wait_for_event Common.wait_for_event]; [er|].
  eapply erases_try; [apply poll_er|]. intros [e|]; [er|]. intros s. rewrite IH. done.
Qed.

Lemma force_close_of_er peer p : erases (force_close_of peer p) (Common.force_close peer p).
Proof.
  unfold force_close_of, remove_at, Common.force_close. eapply erases_eq.
  - eapply erases_try; [apply erases_locked, (erases_try _ _ (Common.lookup peer p) (λ '(i, a),
      Common.remove_at i;; mret (Ok a))); [er|intros [i a]; er]|intros a; er].
  - unfold Common.lookup. same_run.
Qed.

Lemma retain_er a : erases (retain_others (D := D) (W := W) a) (on_fst (modify (λ i,
  set_connections (filter (λ b, b ≠ a) (connections i)) i))).
Proof. unfold retain_others. er. Qed.
#[local] Hint Extern 1 (erases _ _) => apply retain_er : er.

Lemma accept_connection_er c : erases (accept_connection c) (Common.accept c).
Proof. unfold accept_connection, Common.accept, Common.register, new_arc, push. er. Qed.

Lemma connect_to_er peer p : erases (connect_to peer p) (Common.connect peer p).
Proof.
  unfold connect_to, new_arc, push, connect. er_step. cbv beta. eapply erases_eq.
  - eapply erases_bind; [er|]. intros x. instantiate (1 := λ x : option (nat * Arc), match x with
      | Some _ => mret (Err (SocketDeviceError ConnectionExists))
      | None =>
        capacity ← gets (λ s, per_connection_buffer_capacity s.1);
        Common.register (Connection.new peer p capacity) Vsock.connect end). cbv beta.
    destruct x as [[i a]|]; [er|]. unfold Common.register. er. by intros ?.
  - intros [c dw]. unfold Common.connect, mbind, M_bind, gets. cbn [fst].
    rewrite <- find_existsb. by destruct (find_connection _ c) as [[i a]|].
Qed.

(** The sequential calls. *)
Definition seq_op (x : Op) : M St (Answer x) :=
  match x return M St (Answer x) with
  | OListen p => Common.listen p
  | OUnlisten p => Common.unlisten p
  | OAccept c => Common.accept c
  | OConnect a p => Common.connect a p
  | OSend a p b => Common.send a p b
  | OPoll => Common.poll
  | OPollDirect => Common.poll_direct
  | OWait n => Common.wait_for_event (mret tt) n
  | ORecv a p b => Common.recv a p b
  | OAvailable a p => Common.recv_buffer_available_bytes a p
  | OUpdateCredit a p => Common.update_credit a p
  | OShutdown a p => Common.shutdown a p
  | OForceClose a p => Common.force_close a p
  end.

Lemma run_op_er x : erases (run_op x) (seq_op x).
Proof.
  destruct x; unfold run_op, seq_op.
  - unfold listen. er.
  - unfold unlisten. er.
  - apply accept_connection_er.
  - apply connect_to_er.
  - apply with_connection_er, send_er.
  - apply poll_er.
  - apply poll_direct_er.
  - apply wait_er.
  - apply recv_er.
  - apply available_er.
  - apply with_connection_er, tell_er.
  - apply with_connection_er, tell_er.
  - apply force_close_of_er.
Qed.
End solo.
