(* ===== verification/ManagerSafe.v ===== *)
(** * Threads of the connection manager do not disturb each other

    Whatever the other threads do, a call finds the connections it looked up, its buffers
    consistent, and, in [poll], the event's connection still in the list: no call panics. *)

From S2P Require Import Prelude Base Transport Bytes RingBuffer VsockProtocol Vsock.
From S2P Require Import ConnectionManager ManagerInv Threads ManagerThreads.
Import Locked.

(** ** What the locks protect *)

(** A driver that does not panic: [driver_ok] holds between its calls, [popped_ok x] while the
    packet [x] is out of the queue. *)
Class QuietDriver (D W : Type) `{SocketParts D W} := {
  driver_ok : D * W → Prop;
  popped_ok : Popped → D * W → Prop;
  quiet_send hdr b s o s' : driver_ok s → send_packet_to_queue hdr b s = (o, s') →
    o ≠ Panic ∧ driver_ok s' ∧ local_cid s'.1 = local_cid s.1 ∧ ∀ x, popped_ok x s → popped_ok x s';
  quiet_pop s o s' : driver_ok s → rx_pop s = (o, s') →
    o ≠ Panic ∧ driver_ok s' ∧ local_cid s'.1 = local_cid s.1 ∧
    (∀ x bytes, o = Val (Ok (Some (x, bytes))) → popped_ok x s') ∧
    (o = Hang → ∀ x, popped_ok x s → popped_ok x s');
  quiet_push x s o s' : driver_ok s → popped_ok x s → rx_push x s = (o, s') →
    o ≠ Panic ∧ driver_ok s' ∧ local_cid s'.1 = local_cid s.1 ∧
    (o = Hang → ∀ x, popped_ok x s → popped_ok x s')
}.

(** The list refers to allocated connections, and receive buffers are consistent. *)
Record shared_ok (c : Conns) : Prop := {
  sk_valid : Forall (λ a, (a < length (heap c))%nat) (connections c);
  sk_buffers : Forall (λ x, RB.ok (CN.buffer x)) (heap c);
  sk_capacity : 0 < per_connection_buffer_capacity c < 2 ^ 32
}.

Section safe.
Context `{Profile} {D W : Type} `{QuietDriver D W}.
Abbreviation St := (Conns * (D * W))%type.
Implicit Types (s : St) (h : list lock_name).

Definition same (l : lock_name) (s s' : St) : Prop :=
  match l with
  | Inner => connections s'.1 = connections s.1 ∧ listening_ports s'.1 = listening_ports s.1 ∧
      per_connection_buffer_capacity s'.1 = per_connection_buffer_capacity s.1
  | Conn a => ∀ x, heap s.1 !! a = Some x → heap s'.1 !! a = Some x
  | Rx => ∀ x, popped_ok x s.2 → popped_ok x s'.2
  | Tx => True
  end.

(** Connections stay allocated, under their keys; the local identifier does not change. *)
Definition ext (s s' : St) : Prop :=
  local_cid s'.2.1 = local_cid s.2.1 ∧
  ∀ a x, heap s.1 !! a = Some x → ∃ y, heap s'.1 !! a = Some y ∧ key y = key x.

Definition inv (s : St) : Prop := shared_ok s.1 ∧ driver_ok s.2.

#[local] Instance same_preorder l : PreOrder (same l).
Proof.
  destruct l; split; unfold Reflexive, Transitive, same; try done; [|eauto|eauto].
  intros ??? (-> & -> & ->) (-> & -> & ->). done.
Qed.

#[local] Instance ext_preorder : PreOrder ext.
Proof.
  split.
  - intros s. split; [done|eauto].
  - intros s1 s2 s3 [C1 Ha] [C2 Hb]. split; [congruence|]. intros a x Hx.
    destruct (Ha a x Hx) as (y & Hy & Ky). destruct (Hb a y Hy) as (z & Hz & Kz).
    exists z. split; [done|congruence].
Qed.

Abbreviation rely := (rely same ext inv).
Abbreviation guar := (guar same ext inv).
Abbreviation safe := (safe same ext inv).

(** What a call leaves alone: the list and the packet it has taken, when their locks are held. *)
Definition calm h s s' : Prop :=
  ext s s' ∧ inv s' ∧ (Inner ∈ h → same Inner s s') ∧ (Rx ∈ h → same Rx s s').

Lemma rely_calm h s s' : rely h s s' → calm h s s'.
Proof. intros (Ha & Hb & Hc). split_and!; auto. Qed.

Lemma calm_trans h s s1 s2 : calm h s s1 → calm h s1 s2 → calm h s s2.
Proof.
  intros (E1 & _ & I1 & R1) (E2 & V & I2 & R2). split_and!; [by etrans|done| |];
    intros Hl; (etrans; [by apply I1 || by apply R1|by apply I2 || by apply R2]).
Qed.

Lemma calm_refl h s : inv s → calm h s s.
Proof. intros. by split_and!. Qed.

Lemma calm_less h h' s s' : calm h s s' → (∀ l, l ∈ h' → l ∈ h) → calm h' s s'.
Proof. intros (E & V & I & R) Hh. split_and!; auto. Qed.

(** A connection an [Arc] points to. *)
Definition valid (a : Arc) s : Prop := is_Some (heap s.1 !! a).

Lemma valid_ext a s s' : valid a s → ext s s' → valid a s'.
Proof. intros [x Hx] [_ He]. destruct (He a x Hx) as (y & Hy & _). by exists y. Qed.

(** ** Rules *)

Lemma safe_locked {A} l (p : @prog St lock_name A) h Q s : l ∉ h →
  (∀ s1, rely h s s1 → safe (l :: h) p (λ h' a s', h' = l :: h ∧ Q h a s') s1) →
  safe h (locked l p) Q s.
Proof.
  intros Hl Hp s1 Hr. apply safe_bind. eapply safe_mono; [by apply Hp|].
  intros h' a s' [-> HQ]. cbn [Threads.safe]. by rewrite filter_fresh.
Qed.

Lemma safe_acquire {A} l (k : @prog St lock_name A) h Q s :
  (∀ s1, rely h s s1 → safe (l :: h) k Q s1) → safe h (acquire l;; k) Q s.
Proof. done. Qed.

Lemma safe_release {A} l (k : @prog St lock_name A) h Q s : l ∉ h →
  safe h k Q s → safe (l :: h) (release l;; k) Q s.
Proof. intros Hl Hk. change (safe (l :: h) (Release l k) Q s). cbn [Threads.safe]. by rewrite filter_fresh. Qed.

(** *** Accesses to a connection *)

(** A computation that changes the connection [a] alone, under its key. *)
Definition conn_act {A} (a : Arc) (m : M Conns A) : Prop := ∀ c x, shared_ok c → heap c !! a = Some x →
  ∃ b y, m c = (Val b, set_heap (<[a := y]> (heap c)) c) ∧ key y = key x ∧ RB.ok (CN.buffer y).

Lemma shared_update c a y : shared_ok c → RB.ok (CN.buffer y) → shared_ok (set_heap (<[a := y]> (heap c)) c).
Proof.
  intros [Hv Hb Hc] Hy. split; simpl; [|by apply Forall_insert|done]. by rewrite length_insert.
Qed.

Lemma update_ext c (dw : D * W) a x y : heap c !! a = Some x → key y = key x →
  ext (c, dw) (set_heap (<[a := y]> (heap c)) c, dw).
Proof.
  intros Hx Hk. split; [done|]. simpl. intros b z Hz. destruct (decide (a = b)) as [<-|Hne].
  - exists y. rewrite list_lookup_insert_eq by (by eapply lookup_lt_Some). split; congruence.
  - exists z. by rewrite list_lookup_insert_ne.
Qed.

Lemma update_guar h c (dw : D * W) a x y : Conn a ∈ h → inv (c, dw) → heap c !! a = Some x →
  key y = key x → RB.ok (CN.buffer y) →
  let s' := (set_heap (<[a := y]> (heap c)) c, dw) in guar h (c, dw) s' ∧ calm h (c, dw) s'.
Proof.
  intros Hl [Hs Hd] Hx Hk Hy. assert (inv (set_heap (<[a := y]> (heap c)) c, dw)) as Hi.
  { split; [by apply shared_update|done]. }
  pose proof (update_ext c dw a x y Hx Hk) as He. split; split_and!; try done; [|by intros _ z].
  intros [| | |b] Hb; try done; intros z Hz; [done|]. simpl. by rewrite list_lookup_insert_ne by congruence.
Qed.

Lemma safe_conn_val {A} a (m : M Conns A) h Q s : Conn a ∈ h → conn_act a m → valid a s →
  (∀ b s2 c c', calm h s s2 → m c = (Val b, c') → Q h b s2) → safe h (under (Conn a) (on_fst m)) Q s.
Proof.
  intros Hl Hm Hv HQ [c dw] Hr. destruct (valid_ext a s (c, dw) Hv (proj1 Hr)) as [x Hx].
  pose proof Hr as (_ & Hi & _). destruct (Hm c x (proj1 Hi) Hx) as (b & y & E & Hk & Hy).
  rewrite (on_fst_val _ _ _ _ _ E).
  destruct (update_guar h c dw a x y Hl Hi Hx Hk Hy) as [Hg Hc]. split; [done|].
  eapply HQ; [|done]. eapply calm_trans; [by apply rely_calm|done].
Qed.

Lemma safe_conn {A} a (m : M Conns A) h Q s : Conn a ∈ h → conn_act a m → valid a s →
  (∀ b s2, calm h s s2 → Q h b s2) → safe h (under (Conn a) (on_fst m)) Q s.
Proof. intros Hl Hm Hv HQ. apply safe_conn_val; eauto. Qed.

Lemma set_heap_same c a x : heap c !! a = Some x → set_heap (<[a := x]> (heap c)) c = c.
Proof. intros Hx. rewrite list_insert_id by done. by destruct c. Qed.

Lemma shared_buffer c a x : shared_ok c → heap c !! a = Some x → RB.ok (CN.buffer x).
Proof. intros [_ Hb _] Hx. rewrite Forall_lookup in Hb. by eapply Hb. Qed.

(** Reading the connection, which nobody changes while its lock is held. *)
Lemma safe_lock a h Q s : Conn a ∈ h → valid a s →
  (∀ x s2, calm h s s2 → heap s2.1 !! a = Some x → Q h x s2) →
  safe h (under (Conn a) (on_fst (lock a))) Q s.
Proof.
  intros Hl Hv HQ [c dw] Hr. destruct (valid_ext a s (c, dw) Hv (proj1 Hr)) as [x Hx].
  rewrite (on_fst_val _ _ _ x c); [|by unfold lock, mbind, M_bind; simpl; simpl in Hx; rewrite Hx].
  pose proof Hr as (_ & Hi & _). split; [by split_and!|]. apply HQ; [|done]. by apply rely_calm.
Qed.

Lemma safe_lock_set a x y h Q s : Conn a ∈ h → heap s.1 !! a = Some x → key y = key x →
  RB.ok (CN.buffer y) → (∀ s2, calm h s s2 → Q h tt s2) →
  safe h (under (Conn a) (on_fst (lock_set a y))) Q s.
Proof.
  intros Hl Hx Hk Hy HQ [c dw] Hr. pose proof Hr as (_ & Hi & Hs). specialize (Hs _ Hl x Hx). simpl in Hs.
  rewrite (on_fst_val _ _ _ tt (set_heap (<[a := y]> (heap c)) c)) by done.
  destruct (update_guar h c dw a x y Hl Hi Hs Hk Hy) as [Hg Hc]. split; [done|]. apply HQ.
  eapply calm_trans; [by apply rely_calm|done].
Qed.

Lemma conn_lock_info a : conn_act a (lock_info a).
Proof.
  intros c x Hs Hx. exists (CN.info x), x. split_and!; [|done|by eapply shared_buffer].
  rewrite set_heap_same by done. unfold lock_info, lock, mbind, M_bind. simpl. by rewrite Hx.
Qed.

Lemma conn_modify_info a f : (∀ i, CI.dst (f i) = CI.dst i ∧ CI.src_port (f i) = CI.src_port i) →
  conn_act a (modify_info a f).
Proof.
  intros Hf c x Hs Hx. exists tt, (CN.set_info (f (CN.info x)) x). split_and!.
  - unfold modify_info, lock, mbind, M_bind. simpl. by rewrite Hx.
  - unfold key. simpl. by destruct (Hf (CN.info x)) as [-> ->].
  - exact (shared_buffer c a x Hs Hx).
Qed.

Lemma conn_bind {A B} a (m : M Conns A) (k : A → M Conns B) :
  conn_act a m → (∀ b, conn_act a (k b)) → conn_act a (m ≫= k).
Proof.
  intros Hm Hk c x Hs Hx. destruct (Hm c x Hs Hx) as (b & y & E & Ky & Hy).
  assert (heap (set_heap (<[a := y]> (heap c)) c) !! a = Some y) as Hy'.
  { simpl. apply list_lookup_insert_eq. by eapply lookup_lt_Some. }
  destruct (Hk b _ y (shared_update c a y Hs Hy) Hy') as (d & z & E2 & Kz & Hz).
  exists d, z. split_and!; [|congruence|done]. erewrite bind_val by done. rewrite E2. simpl.
  by rewrite list_insert_insert_eq.
Qed.

Lemma conn_ret {A} a (r : A) : conn_act a (mret r).
Proof.
  intros c x Hs Hx. exists r, x. rewrite set_heap_same by done. split_and!; [done|done|by eapply shared_buffer].
Qed.

Lemma conn_buffer_add a body : conn_act a (Common.buffer_add a body).
Proof.
  intros c x Hs Hx. unfold Common.buffer_add, lock, mbind, M_bind. simpl. rewrite Hx. simpl.
  destruct (RB.add body (CN.buffer x)) as [o r] eqn:E.
  destruct (add_keeps_ok body _ _ _ (shared_buffer c a x Hs Hx) E) as [Hr [b ->]].
  by exists b, (CN.set_buffer r x).
Qed.

Lemma conn_buffer_drain a out : conn_act a (Common.buffer_drain a out).
Proof.
  intros c x Hs Hx. unfold Common.buffer_drain, lock, mbind, M_bind. simpl. rewrite Hx. simpl.
  destruct (RB.drain_run out (CN.buffer x) (shared_buffer c a x Hs Hx)) as [Ed Hr]. cbv zeta in Ed, Hr.
  rewrite Ed. by eexists _, (CN.set_buffer _ x).
Qed.

Lemma conn_store_event a e body : conn_act a (Common.store_event e body a).
Proof.
  unfold Common.store_event. apply conn_bind; [apply conn_modify_info, update_for_event_key|]. intros _.
  destruct (VsockEvent.event_type e); try apply conn_ret.
  apply conn_bind; [apply conn_buffer_add|]. intros []; apply conn_ret.
Qed.

(** *** Accesses to the list *)

Lemma guar_refl h s : inv s → guar h s s.
Proof. intros. by split_and!. Qed.

Lemma safe_read {A} o (f : St → A) h Q s :
  (∀ s2, calm h s s2 → Q h (f s2) s2) → safe h (Act o (gets f) Ret) Q s.
Proof.
  intros HQ s1 Hr. pose proof Hr as (_ & Hi & _). cbn. split; [by apply guar_refl|]. by apply HQ, rely_calm.
Qed.

(** A change of the list, from a state [s1] with the list of [s]. *)
Lemma safe_inner {A} (m : M Conns A) h Q s : Inner ∈ h →
  (∀ s1, rely h s s1 → ∃ b c', m s1.1 = (Val b, c') ∧ heap c' = heap s1.1 ∧ shared_ok c' ∧
    Q h b (c', s1.2)) →
  safe h (under Inner (on_fst m)) Q s.
Proof.
  intros Hl HQ [c dw] Hr. destruct (HQ _ Hr) as (b & c' & E & Hh & Hok & HQ').
  rewrite (on_fst_val _ _ _ _ _ E). pose proof Hr as (_ & [_ Hd] & _). split; [|done]. split_and!.
  - split; [done|]. simpl. rewrite Hh. eauto.
  - by split.
  - intros [| | |a] Hn; try done; intros x Hx; [done|]. simpl. by rewrite Hh.
Qed.

(** A connection of the list whose key satisfies [g]. *)
Definition listed (g : VsockAddr * Z → bool) s : Prop :=
  ∃ a x, a ∈ connections s.1 ∧ heap s.1 !! a = Some x ∧ g (key x) = true.

Lemma listed_calm g h s s' : Inner ∈ h → listed g s → calm h s s' → listed g s'.
Proof.
  intros Hl (a & x & Ha & Hx & Hg) ([_ He] & _ & Hi & _). destruct (Hi Hl) as (Ec & _).
  destruct (He a x Hx) as (y & Hy & Hk). exists a, y. rewrite Ec, Hk. done.
Qed.

(** A predicate on connections that only looks at the key. *)
Definition on_key (f : ConnectionInfo → bool) (g : VsockAddr * Z → bool) : Prop :=
  ∀ i, f i = g (CI.dst i, CI.src_port i).

Lemma safe_find_loop f g h Q s0 l i pre s : Inner ∈ h → (∀ a, Conn a ∉ h) → on_key f g →
  calm h s0 s → connections s.1 = pre ++ l →
  Forall (λ a, ∃ x, heap s.1 !! a = Some x ∧ g (key x) = false) pre →
  (∀ r s2, calm h s0 s2 → (∀ i a, r = Some (i, a) → valid a s2 ∧ listed g s2) →
    (r = None → ¬ listed g s2) → Q h r s2) →
  safe h (find_loop f i l) Q s.
Proof.
  intros Hl Hconn Hf. revert i pre s. induction l as [|a l IH]; intros i pre s Hc Hcs Hpre HQ.
  - apply HQ; [done|done|]. intros _ (a & x & Ha & Hx & Hg). rewrite app_nil_r in Hcs. rewrite Hcs in Ha.
    rewrite Forall_forall in Hpre. destruct (Hpre a Ha) as (y & Hy & Hgy). congruence.
  - cbn [find_loop]. apply safe_bind. apply safe_locked; [done|]. intros s1 Hr1.
    apply safe_read. intros s2 Hc2. split; [done|].
    assert (calm h s s2) as Hcs2.
    { eapply calm_trans; [by apply rely_calm|]. eapply calm_less; [done|]. intros. by right. }
    assert (calm h s0 s2) as Hc02 by (by eapply calm_trans).
    destruct Hcs2 as ([_ He] & [Hok _] & Hin & _). destruct (Hin Hl) as (Ec & _).
    rewrite Hcs in Ec. pose proof (sk_valid _ Hok) as Hval. rewrite Ec, Forall_forall in Hval.
    destruct (lookup_lt_is_Some_2 (heap s2.1) a) as [x Hx]; [apply Hval; set_solver|].
    unfold holds. rewrite Hx, Hf. destruct (g (CI.dst (CN.info x), CI.src_port (CN.info x))) eqn:Hg.
    + apply HQ; [done| |done]. intros ? ? [= <- <-]. split; [by exists x|]. exists a, x.
      split_and!; [rewrite Ec; set_solver|done|done].
    + apply (IH _ (pre ++ [a])); [done|by rewrite <- app_assoc| |done]. apply Forall_app. split.
      * eapply Forall_impl; [done|]. intros b (y & Hy & Hgy). destruct (He b y Hy) as (z & Hz & Hk).
        exists z. by rewrite Hk.
      * apply Forall_singleton. by exists x.
Qed.

Lemma safe_find f g h Q s : Inner ∈ h → (∀ a, Conn a ∉ h) → on_key f g →
  (∀ r s2, calm h s s2 → (∀ i a, r = Some (i, a) → valid a s2 ∧ listed g s2) →
    (r = None → ¬ listed g s2) → Q h r s2) →
  safe h (find f) Q s.
Proof.
  intros Hl Hconn Hf HQ. unfold find. apply safe_bind, safe_read. intros s2 Hc.
  by apply (safe_find_loop f g h Q s _ _ []).
Qed.

(** ** Programs that leave the list and the packet alone *)
Definition quiet {A} h (p : @prog St lock_name A) s : Prop :=
  ∀ Q, (∀ a s2, calm h s s2 → Q h a s2) → safe h p Q s.

Lemma quiet_ret {A} h (a : A) s : inv s → quiet h (Ret a) s.
Proof. intros Hi Q HQ. by apply HQ, calm_refl. Qed.

Lemma quiet_bind {A B} h (p : @prog St lock_name A) (k : A → prog B) s :
  quiet h p s → (∀ a s2, calm h s s2 → quiet h (k a) s2) → quiet h (p ≫= k) s.
Proof.
  intros Hp Hk Q HQ. apply safe_bind, Hp. intros a s2 Hc. apply (Hk a s2 Hc). intros b s3 Hc3.
  apply HQ. by eapply calm_trans.
Qed.

Lemma calm_inv h s s' : calm h s s' → inv s'.
Proof. by intros (_ & ? & _). Qed.

Lemma quiet_try {A B E} h (p : @prog St lock_name (result A E)) (k : A → prog (result B E)) s :
  quiet h p s → (∀ a s2, calm h s s2 → quiet h (k a) s2) → quiet h (ptry p k) s.
Proof.
  intros Hp Hk. apply quiet_bind; [done|]. intros [a|e] s2 Hc; [by apply Hk|].
  by apply quiet_ret, (calm_inv h s).
Qed.

Lemma quiet_locked {A} l h (p : @prog St lock_name A) s : l ∉ h →
  (∀ s1, calm h s s1 → quiet (l :: h) p s1) → quiet h (locked l p) s.
Proof.
  intros Hl Hp Q HQ. apply safe_locked; [done|]. intros s1 Hr. apply (Hp s1 (rely_calm h s s1 Hr)).
  intros a s2 Hc. split; [done|]. apply HQ. eapply calm_trans; [by apply rely_calm|].
  eapply calm_less; [done|]. intros. by right.
Qed.

(** A lock taken and released by hand. *)
Lemma quiet_acquire {A} l h (k : @prog St lock_name A) Q s :
  (∀ s1, calm h s s1 → safe (l :: h) k Q s1) → safe h (acquire l;; k) Q s.
Proof. intros Hk. apply safe_acquire. intros s1 Hr. by apply Hk, rely_calm. Qed.

Lemma quiet_conn {A} a (m : M Conns A) h s : Conn a ∈ h → conn_act a m → valid a s →
  quiet h (under (Conn a) (on_fst m)) s.
Proof. intros Hl Hm Hv Q HQ. by apply safe_conn. Qed.

Lemma quiet_read {A} o (f : St → A) h s : quiet h (Act o (gets f) Ret) s.
Proof. intros Q HQ. apply safe_read. auto. Qed.

Lemma on_snd_guar h c (dw dw' : D * W) : inv (c, dw) → driver_ok dw' → local_cid dw'.1 = local_cid dw.1 →
  (Rx ∈ h ∨ ∀ x, popped_ok x dw → popped_ok x dw') → guar h (c, dw) (c, dw').
Proof.
  intros [Hs Hd] Hd' Hcid HRx. split_and!; [split; [done|eauto]|by split|].
  intros [| | |a] Hn; try done; [|by intros x]. destruct HRx as [HRx|HRx]; [done|exact HRx].
Qed.

Lemma on_snd_calm h c (dw dw' : D * W) : inv (c, dw) → driver_ok dw' → local_cid dw'.1 = local_cid dw.1 →
  (∀ x, popped_ok x dw → popped_ok x dw') → rely h (c, dw) (c, dw').
Proof.
  intros [Hs Hd] Hd' Hcid HRx. split_and!; [split; [done|eauto]|by split|]. intros [| | |a] Hn; try done. by intros x.
Qed.

Lemma quiet_packet hdr b h s : Tx ∉ h → quiet h (packet hdr b) s.
Proof.
  intros Hl. apply quiet_locked; [done|]. intros s1 _ Q HQ [c dw] Hr.
  pose proof Hr as (_ & Hi & _). unfold on_snd, zoom. cbn [view update snd_lens fst snd].
  destruct (send_packet_to_queue hdr b dw) as [o dw'] eqn:E.
  destruct (quiet_send _ _ _ _ _ (proj2 Hi) E) as (Ho & Hd & Hcid & HRx).
  assert (guar (Tx :: h) (c, dw) (c, dw')) as Hg by (apply on_snd_guar; auto).
  assert (rely (Tx :: h) (c, dw) (c, dw')) as Hr' by (by apply on_snd_calm).
  destruct o as [r| |]; [|done|done]. split; [done|]. apply HQ.
  eapply calm_trans; by apply rely_calm.
Qed.

Lemma quiet_accept info h s : Tx ∉ h → quiet h (accept info) s.
Proof. intros Hl. apply quiet_bind; [apply quiet_read|]. intros. by apply quiet_packet. Qed.

Lemma calm_valid h a s s' : valid a s → calm h s s' → valid a s'.
Proof. intros Hv (He & _). by eapply valid_ext. Qed.

Ltac fresh_lock := rewrite ?not_elem_of_cons; repeat split; try done; apply not_elem_of_nil.
Ltac is_held := first [assumption | rewrite ?elem_of_cons; tauto].
Ltac qstep := first
  [ apply quiet_ret; by eapply calm_inv
  | apply quiet_read
  | apply quiet_packet; fresh_lock
  | apply quiet_conn; [is_held|solve [apply conn_lock_info | apply conn_modify_info; done | apply conn_store_event]|
      by repeat (eapply calm_valid; [|eassumption])]
  | apply quiet_locked; [fresh_lock|intros ? ?]
  | apply quiet_try; [|intros ? ? ?]
  | apply quiet_bind; [|intros ? ? ?] ].

Lemma quiet_tell f a s : valid a s → quiet [] (tell f a) s.
Proof. intros Hv. unfold tell, get_cid. repeat qstep. Qed.

Lemma quiet_force_close a s : valid a s → quiet [] (force_close a) s.
Proof. intros Hv. apply quiet_try; [by apply quiet_tell|]. intros. qstep. Qed.

Lemma calm_step l h s s1 s2 : calm h s s1 → calm (l :: h) s1 s2 → calm h s s2.
Proof. intros H1' H2'. eapply calm_trans; [done|]. eapply calm_less; [done|]. intros. by right. Qed.

(** The connection [check_peer_buffer_is_sufficient] returns is the one it is given. *)
Lemma safe_check_same a n s Q : valid a s →
  (∀ r s2, calm [] s s2 → (∀ b, r = Ok b → b = a) → Q [] r s2) →
  safe [] (check_peer_buffer_is_sufficient a n) Q s.
Proof.
  intros Hv HQ. apply quiet_acquire. intros s1 Hc1. apply safe_bind.
  apply safe_conn; [is_held|apply conn_lock_info|by eapply calm_valid|]. intros info s2 Hc2.
  pose proof (calm_step _ _ _ _ _ Hc1 Hc2) as Hc. destruct (_ <=? _).
  - apply safe_release; [fresh_lock|]. apply HQ; [done|congruence].
  - destruct (negb _); [|apply safe_release; [fresh_lock|]; by apply HQ].
    apply safe_bind, safe_conn; [is_held|by apply conn_modify_info|by eapply calm_valid|]. intros [] s3 Hc3.
    pose proof (calm_step _ _ _ _ _ Hc Hc3) as Hc'. apply safe_release; [fresh_lock|].
    apply safe_bind, quiet_tell; [by eapply calm_valid|]. intros [r|e] s4 Hc4; apply HQ; try done; by eapply calm_trans.
Qed.

Lemma quiet_send_to b a s : valid a s → quiet [] (send b a) s.
Proof.
  intros Hv Q HQ. apply safe_bind, safe_check_same; [done|]. intros [c|e] s2 Hc Hr; [|by apply HQ].
  rewrite (Hr c eq_refl). cbv zeta. assert (valid a s2) as Hv2 by (by eapply calm_valid).
  match goal with |- Threads.safe _ _ _ [] ?p Q s2 => assert (quiet [] p s2) as Hq end.
  { unfold get_cid. repeat qstep. }
  apply Hq. intros r s3 Hc3. apply HQ. by eapply calm_trans.
Qed.

Lemma is_connection_key peer p : on_key (is_connection peer p) (λ k, bool_decide (k = (peer, p))).
Proof.
  intros i. apply eq_bool_prop_intro. rewrite !Is_true_true, is_connection_spec, bool_decide_eq_true. done.
Qed.

Definition event_key (e : VsockEvent) (cid' : Z) (k : VsockAddr * Z) : bool :=
  bool_decide (k = (VsockEvent.source e, port (VsockEvent.destination e))) &&
  (cid (VsockEvent.destination e) =? cid').

Lemma matches_key e cid' : on_key (λ i, VsockEvent.matches_connection e i cid') (event_key e cid').
Proof.
  intros i. apply eq_bool_prop_intro. unfold event_key.
  rewrite !Is_true_true, matches_spec, andb_true_iff, bool_decide_eq_true, Z.eqb_eq. done.
Qed.

Lemma safe_get_connection peer p h Q s : Inner ∈ h → (∀ a, Conn a ∉ h) →
  (∀ r s2, calm h s s2 → (∀ i a, r = Ok (i, a) → valid a s2) → Q h r s2) →
  safe h (get_connection peer p) Q s.
Proof.
  intros Hl Hconn HQ. apply safe_bind. eapply safe_find; [done|done|apply is_connection_key|].
  intros [[i a]|] s2 Hc Hs _; apply HQ; try done. intros ? ? [= <- <-]. by destruct (Hs i a eq_refl).
Qed.

(** ** Calls

    A call ends with no lock held. *)
Definition ends {A} h (p : @prog St lock_name A) s : Prop :=
  ∀ Q, (∀ a s2, inv s2 → Q [] a s2) → safe h p Q s.

Lemma quiet_ends {A} (p : @prog St lock_name A) s : quiet [] p s → ends [] p s.
Proof. intros Hp Q HQ. apply Hp. intros a s2 Hc. by eapply HQ, calm_inv. Qed.

Lemma ends_bind {A B} h (p : @prog St lock_name A) (k : A → prog B) s :
  ends h p s → (∀ a s2, inv s2 → ends [] (k a) s2) → ends h (p ≫= k) s.
Proof. intros Hp Hk Q HQ. apply safe_bind, Hp. intros a s2 Hi. by apply Hk. Qed.

Lemma ends_ret {A} (a : A) s : inv s → ends [] (Ret a) s.
Proof. intros Hi Q HQ. by apply HQ. Qed.

Lemma ends_release {A} l (k : @prog St lock_name A) s : ends [] k s → ends [l] (release l;; k) s.
Proof. intros Hk Q HQ. apply safe_release; [fresh_lock|]. by apply Hk. Qed.

Lemma ends_acquire {A} l (k : @prog St lock_name A) s :
  (∀ s1, inv s1 → ends [l] k s1) → ends [] (acquire l;; k) s.
Proof. intros Hk Q HQ. apply safe_acquire. intros s1 (_ & Hi & _). by apply Hk. Qed.

(** After a packet about a connection taken off the list, or accepted. *)
Lemma ends_try_quiet {A B E} (p : @prog St lock_name (result A E)) (r : A → result B E) s :
  quiet [] p s → ends [] (ptry p (λ x, Ret (r x))) s.
Proof.
  intros Hp. apply ends_bind; [by apply quiet_ends|]. intros [a|e] s2 Hi; by apply ends_ret.
Qed.

Lemma with_connection_ends {A} peer p (k : Arc → @prog St lock_name (Result A)) s :
  (∀ a s2, valid a s2 → ends [] (k a) s2) → ends [] (with_connection peer p k) s.
Proof.
  intros Hk Q HQ. apply safe_bind. apply safe_locked; [fresh_lock|]. intros s1 Hr.
  apply safe_get_connection; [is_held|intros; fresh_lock|]. intros [[i a]|e] s2 Hc Hv.
  - split; [done|]. apply Hk; [by eapply Hv|done].
  - split; [done|]. by eapply HQ, calm_inv.
Qed.

(** ** Changes of the list *)

(** What remains known when the list may have changed. *)
Definition loose h s s' : Prop := ext s s' ∧ inv s' ∧ (Rx ∈ h → same Rx s s').

Lemma calm_loose h s s' : calm h s s' → loose h s s'.
Proof. by intros (He & Hi & _ & HR). Qed.

Lemma loose_trans h s s1 s2 : loose h s s1 → loose h s1 s2 → loose h s s2.
Proof.
  intros (E1 & _ & R1) (E2 & I2 & R2). split_and!; [by etrans|done|]. intros Hl. etrans; eauto.
Qed.

Lemma loose_valid h a s s' : valid a s → loose h s s' → valid a s'.
Proof. intros Hv (He & _). by eapply valid_ext. Qed.

Lemma shared_sub c l : shared_ok c → (∀ a, a ∈ l → a ∈ connections c) → shared_ok (set_connections l c).
Proof.
  intros [Hv Hb Hc] Hl. split; [|done|done]. simpl. apply Forall_forall. intros a Ha.
  rewrite Forall_forall in Hv. auto.
Qed.

Lemma swap_remove_sub {A} (i : nat) (l : list A) x : x ∈ swap_remove i l → x ∈ l.
Proof.
  unfold swap_remove. destruct (last l) as [y|] eqn:E; [|done]. apply last_Some in E as [l' ->].
  rewrite removelast_last. intros Hx. apply elem_of_app. destruct (decide _); [by left|].
  apply list_elem_of_lookup in Hx as [j Hj]. apply list_lookup_insert_Some in Hj as [(_ & -> & _)|[_ Hj]].
  - right. set_solver.
  - left. by eapply list_elem_of_lookup_2.
Qed.

Lemma list_change_loose h s s1 c' : rely h s s1 → heap c' = heap s1.1 → shared_ok c' →
  loose h s (c', s1.2).
Proof.
  intros Hr Hh Hok. eapply loose_trans; [by apply calm_loose, rely_calm|].
  destruct Hr as (_ & [_ Hd] & _). split_and!; [split; [done|]|by split|by intros _ x].
  simpl. rewrite Hh. eauto.
Qed.

(** A change that only takes connections off the list. *)
Lemma safe_less (f : Conns → list Arc) h Q s : Inner ∈ h → (∀ c a, a ∈ f c → a ∈ connections c) →
  (∀ s2, loose h s s2 → Q h tt s2) →
  safe h (under Inner (on_fst (modify (λ c, set_connections (f c) c)))) Q s.
Proof.
  intros Hl Hf HQ. apply safe_inner; [done|]. intros s1 Hr. pose proof Hr as (_ & [Hok _] & _).
  assert (shared_ok (set_connections (f s1.1) s1.1)) as Hok' by (apply shared_sub; auto).
  eexists _, _. split_and!; [done|done|done|]. apply HQ. by apply list_change_loose.
Qed.

Lemma safe_remove i h Q s : Inner ∈ h → (∀ s2, loose h s s2 → Q h tt s2) → safe h (remove_at i) Q s.
Proof. intros Hl HQ. apply safe_less; [done| |done]. intros c a. apply swap_remove_sub. Qed.

Lemma safe_push a h Q s : Inner ∈ h → valid a s →
  (∀ s2, loose h s s2 → a ∈ connections s2.1 → Q h tt s2) → safe h (push a) Q s.
Proof.
  intros Hl Hv HQ. apply safe_inner; [done|]. intros s1 Hr. pose proof Hr as (He & [Hok _] & _).
  assert (shared_ok (set_connections (connections s1.1 ++ [a]) s1.1)) as Hok'.
  { destruct Hok as [Hval Hb Hc]. split; [|done|done]. simpl. apply Forall_app. split; [done|].
    apply Forall_singleton. destruct (valid_ext a s s1 Hv He) as [x Hx]. by eapply lookup_lt_Some. }
  eexists _, _. split_and!; [done|done|done|]. apply HQ; [by apply list_change_loose|]. simpl. set_solver.
Qed.

Lemma safe_ports (f : Conns → list Z) h Q s : Inner ∈ h → (∀ s2, loose h s s2 → Q h tt s2) →
  safe h (under Inner (on_fst (modify (λ c, set_listening_ports (f c) c)))) Q s.
Proof.
  intros Hl HQ. apply safe_inner; [done|]. intros s1 Hr. pose proof Hr as (_ & [Hok _] & _).
  assert (shared_ok (set_listening_ports (f s1.1) s1.1)) as Hok' by (by destruct Hok).
  eexists _, _. split_and!; [done|done|done|]. apply HQ. by apply list_change_loose.
Qed.

(** A new connection. *)
Lemma safe_new_arc x h Q s : RB.ok (CN.buffer x) →
  (∀ a s2, calm h s s2 → heap s2.1 !! a = Some x → Q h a s2) → safe h (new_arc x) Q s.
Proof.
  intros Hx HQ [c dw] Hr. pose proof Hr as (_ & [Hok Hd] & _). cbn.
  assert (shared_ok (set_heap (heap c ++ [x]) c)) as Hok'.
  { destruct Hok as [Hv Hb Hc]. split; [| |done]; simpl in *.
    - rewrite length_app. eapply Forall_impl; [done|]. simpl. lia.
    - apply Forall_app. split; [done|]. by apply Forall_singleton. }
  assert (∀ a y, heap c !! a = Some y → (heap c ++ [x]) !! a = Some y) as Hold.
  { intros a y Ha. by apply lookup_app_l_Some. }
  assert (ext (c, dw) (set_heap (heap c ++ [x]) c, dw)) as He by (split; [done|simpl; eauto]).
  split; [split_and!; [done|by split|]|].
  - intros [| | |a] Hn; try done; intros y; [done|]. simpl. apply Hold.
  - apply HQ; [|simpl; by rewrite lookup_app_r, Nat.sub_diag by lia].
    eapply calm_trans; [by apply rely_calm|]. split_and!; [done|by split|done|by intros _ y].
Qed.

(** ** Polling *)

Lemma safe_pop h Q s : Rx ∈ h →
  (∀ r s2, loose [] s s2 → (Inner ∈ h → same Inner s s2) →
    (∀ x bytes, r = Ok (Some (x, bytes)) → popped_ok x s2.2) → Q h r s2) →
  safe h (under Rx (on_snd rx_pop)) Q s.
Proof.
  intros Hl HQ [c dw] Hr. pose proof Hr as (He & Hi & Hs). unfold on_snd, zoom.
  cbn [view update snd_lens fst snd]. destruct (rx_pop dw) as [o dw'] eqn:E.
  destruct (quiet_pop _ _ _ (proj2 Hi) E) as (Ho & Hd & Hcid & Hp & Hh).
  assert (guar h (c, dw) (c, dw')) as Hg by (apply on_snd_guar; auto).
  destruct o as [r| |]; [|done|by split; [|apply on_snd_calm; auto]]. split; [done|]. apply HQ.
  - split_and!; [etrans; [done|apply Hg]|apply Hg|by intros ?%not_elem_of_nil].
  - intros HI. exact (Hs Inner HI).
  - intros x bytes ->. by eapply Hp.
Qed.

Lemma safe_push_back x h Q s : Rx ∈ h → popped_ok x s.2 →
  (∀ r s2, loose [] s s2 → (Inner ∈ h → same Inner s s2) → Q h r s2) →
  safe h (under Rx (on_snd (rx_push x))) Q s.
Proof.
  intros Hl Hx HQ [c dw] Hr. pose proof Hr as (He & Hi & Hs). unfold on_snd, zoom.
  cbn [view update snd_lens fst snd]. destruct (rx_push x dw) as [o dw'] eqn:E.
  destruct (quiet_push _ _ _ _ (proj2 Hi) (Hs Rx Hl x Hx) E) as (Ho & Hd & Hcid & Hh).
  assert (guar h (c, dw) (c, dw')) as Hg by (apply on_snd_guar; auto).
  destruct o as [r| |]; [|done|by split; [|apply on_snd_calm; auto]]. split; [done|]. apply HQ.
  - split_and!; [etrans; [done|apply Hg]|apply Hg|by intros ?%not_elem_of_nil].
  - intros HI. exact (Hs Inner HI).
Qed.

(** A handler that ends with [R] of the event it passes on; [R] must not depend on the queue. *)
Definition handles h (R : VsockEvent → St → Prop)
    (handler : VsockEvent → list Z → @prog St lock_name (Result (option VsockEvent))) : Prop :=
  ∀ e body s Q, inv s →
    (∀ r s2, loose [Rx] s s2 → (∀ e', r = Ok (Some e') → R e' s2) → Q (Rx :: h) r s2) →
    safe (Rx :: h) (handler e body) Q s.

Lemma handles_packet h R handler bytes s Q : handles h R handler → inv s →
  (∀ r s2, loose [Rx] s s2 → (∀ e', r = Ok (Some e') → R e' s2) → Q (Rx :: h) r s2) →
  safe (Rx :: h) (packet_handler handler bytes) Q s.
Proof.
  intros Hh Hi HQ. assert (∀ e, Q (Rx :: h) (Err e) s) as Herr.
  { intros e. apply HQ; [|done]. by split_and!. }
  unfold packet_handler. destruct (read_header_and_body bytes) as [[header body]|e]; [|apply Herr].
  destruct (VsockEvent.from_header header) as [event|e]; [by apply Hh|apply Herr].
Qed.

Lemma safe_poll_with handler h (R : VsockEvent → St → Prop) Q s : Rx ∉ h → handles h R handler →
  (∀ e s1 s2, R e s1 → ext s1 s2 → (Inner ∈ h → same Inner s1 s2) → R e s2) →
  (∀ r s2, inv s2 → local_cid s2.2.1 = local_cid s.2.1 → (∀ e, r = Ok (Some e) → R e s2) → Q h r s2) →
  safe h (poll_with handler) Q s.
Proof.
  intros Hl Hh HR HQ. apply safe_locked; [done|]. intros s1 Hr1. apply safe_bind, safe_pop; [is_held|].
  intros r s2 (He2 & Hi2 & _) _ Hpop. assert (ext s s2) as He02 by (etrans; [apply Hr1|done]).
  destruct r as [[[x bytes]|]|e]; [|by split; [|apply HQ; [done|apply He02|]]..].
  apply safe_bind, (handles_packet h R); [done|done|]. intros r s3 (He3 & Hi3 & Hx3) HR3.
  apply safe_bind, safe_push_back; [is_held|apply Hx3; [set_solver|by eapply Hpop]|].
  intros r' s4 (He4 & Hi4 & _) HI4. assert (ext s s4) as He04 by (by do 2 (etrans; [done|])).
  destruct r' as [[]|e]; (split; [done|]); (apply HQ; [done|apply He04|]); [|done].
  intros e' He'. apply (HR _ s3); [by apply HR3|done|]. intros HI. apply HI4. by right.
Qed.

Lemma store_event_value e body a c r c' e' :
  Common.store_event e body a c = (Val r, c') → r = Ok (Some e') → e' = e.
Proof.
  unfold Common.store_event. intros (? & c1 & _ & E)%bind_val_inv ->.
  destruct (VsockEvent.event_type e); try by injection E.
  apply bind_val_inv in E as ([] & c2 & _ & E); by injection E.
Qed.

Lemma safe_store_event e body a h Q s : Conn a ∉ h → valid a s →
  (∀ r s2, calm h s s2 → (∀ e', r = Ok (Some e') → e' = e) → Q h r s2) →
  safe h (store_event e body a) Q s.
Proof.
  intros Hl Hv HQ. apply safe_locked; [done|]. intros s1 Hr. apply rely_calm in Hr.
  apply safe_conn_val; [is_held|apply conn_store_event|by eapply calm_valid|].
  intros r s2 c c' Hc E. split; [done|]. apply HQ; [by eapply calm_step|].
  intros e' He'. by eapply store_event_value.
Qed.

Lemma listed_stable g s1 s2 : listed g s1 → ext s1 s2 → same Inner s1 s2 → listed g s2.
Proof.
  intros (a & x & Ha & Hx & Hg) [_ He] (Ec & _). destruct (He a x Hx) as (y & Hy & Hk).
  exists a, y. rewrite Ec, Hk. done.
Qed.

Lemma capacity_ok c peer p : shared_ok c → RB.ok (CN.buffer (CN.new peer p (per_connection_buffer_capacity c))).
Proof. intros [_ _ Hc]. by apply new_connection_ok. Qed.

Lemma poll_handler_handles cid' :
  handles [Inner] (λ e, listed (event_key e cid')) (poll_handler cid').
Proof.
  intros e body s Q Hi HQ. assert (∀ s2, calm [Rx; Inner] s s2 → loose [Rx] s s2) as Hcl.
  { intros s2 (He & Hi2 & _ & HR). split_and!; [done|done|]. intros _. apply HR. set_solver. }
  apply safe_bind. eapply safe_find; [is_held|intros; fresh_lock|apply matches_key|].
  intros [[i a]|] s2 Hc Hsome _.
  - destruct (Hsome i a eq_refl) as [Hv Hlist]. apply safe_store_event; [fresh_lock|done|].
    intros r s3 Hc3 Hr. apply HQ; [apply Hcl; by eapply calm_trans|].
    intros e' He'. rewrite (Hr e' He'). eapply listed_calm; [|done|done]. set_solver.
  - case_bool_decide; [|apply HQ; [by apply Hcl|done]].
    destruct (cid (VsockEvent.destination e) =? cid') eqn:Hcid; cbn [negb]; [|apply HQ; [by apply Hcl|done]].
    apply safe_bind, safe_read. intros s3 Hc3.
    apply safe_bind, safe_new_arc; [apply capacity_ok, (calm_inv _ _ _ Hc3)|]. intros a s4 Hc4 Ha.
    apply safe_bind, safe_push; [is_held|by exists (CN.new (VsockEvent.source e) (port (VsockEvent.destination e)) (per_connection_buffer_capacity s3.1))|].
    intros s5 Hl5 Hin. destruct Hl5 as (He5 & Hi5 & HR5). destruct (proj2 He5 a _ Ha) as (y & Hy & Hk).
    apply safe_store_event; [fresh_lock|by exists y|]. intros r s6 Hc6 Hr. apply HQ.
    + eapply loose_trans; [apply Hcl; by do 2 (eapply calm_trans; [done|])|].
      eapply loose_trans; [|apply calm_loose; eapply calm_less; [done|set_solver]].
      split_and!; [done|done|]. intros _. apply HR5. set_solver.
    + intros e' He'. rewrite (Hr e' He'). eapply listed_calm; [|exists a, y; split_and!; [done|done|]|done]; [set_solver|].
      rewrite Hk. unfold event_key, key. simpl. by rewrite bool_decide_eq_true_2.
Qed.

Lemma poll_event_ends e i a s : inv s → valid a s → ends [Inner] (poll_event e i a) s.
Proof.
  intros Hi Hv. unfold poll_event. destruct (VsockEvent.event_type e) as [| |reason| | |];
    try (apply ends_release, ends_ret; done).
  - intros Q HQ. apply safe_bind, safe_read. intros s1 Hc1. pose proof (calm_valid _ _ _ _ Hv Hc1) as Hv1.
    case_bool_decide.
    + apply safe_release; [fresh_lock|]. apply (ends_try_quiet _ (λ _, Ok (Some e))); [|done].
      apply quiet_locked; [fresh_lock|]. intros s2 Hc2. apply quiet_bind; [qstep|].
      intros info s3 Hc3. apply quiet_accept. fresh_lock.
    + apply safe_bind, safe_remove; [is_held|]. intros s2 Hl2. apply safe_release; [fresh_lock|].
      apply (ends_try_quiet _ (λ _, Ok None)); [|done]. apply quiet_force_close. by eapply loose_valid.
  - intros Q HQ. apply quiet_acquire. intros s1 Hc1. apply safe_bind, safe_lock; [is_held|by eapply calm_valid|].
    intros x s2 Hc2 Hx. assert (valid a s2) as Hv2 by (by exists x). destruct (RB.is_empty _).
    + apply safe_bind, safe_remove; [is_held|]. intros s3 Hl3. apply safe_release; [fresh_lock|].
      apply safe_release; [fresh_lock|]. case_bool_decide.
      * apply (ends_try_quiet _ (λ _, Ok (Some e))); [|done]. apply quiet_force_close. by eapply loose_valid.
      * apply HQ, Hl3.
    + apply safe_bind, (safe_lock_set _ x); [is_held|done|done|exact (shared_buffer s2.1 a x (proj1 (calm_inv _ _ _ Hc2)) Hx)|].
      intros s3 Hc3. do 2 (apply safe_release; [fresh_lock|]). by eapply HQ, calm_inv.
  - apply ends_release, (ends_try_quiet _ (λ _, Ok None)), quiet_tell. done.
Qed.

(** The connection of the event the handler passed on is still in the list. *)
Lemma poll_ends s : ends [] poll s.
Proof.
  intros Q HQ. apply quiet_acquire. intros s1 Hc1. apply safe_bind, safe_read. intros s2 Hc2.
  apply safe_bind. eapply safe_poll_with; [fresh_lock|apply poll_handler_handles| |].
  { intros e s3 s4 Hlist He Hsame. apply (listed_stable _ s3 s4 Hlist He). apply Hsame. set_solver. }
  intros [[e|]|e] s3 Hi3 Hcid HR; [|by apply safe_release; [fresh_lock|]; apply HQ..].
  apply safe_bind. eapply safe_find; [is_held|intros; fresh_lock|apply matches_key|].
  intros r s4 Hc4 Hsome Hnone. destruct r as [[i a]|].
  - apply safe_bind. intros s5 Hr5. cbn. pose proof Hr5 as (_ & Hi5 & _). split; [by apply guar_refl|].
    apply poll_event_ends; [done| |done]. eapply calm_valid; [|by apply rely_calm].
    by destruct (Hsome i a eq_refl).
  - destruct (Hnone eq_refl). eapply listed_calm; [|by apply HR|done]. set_solver.
Qed.

Lemma wait_ends n s : inv s → ends [] (wait_for_event n) s.
Proof.
  revert s. induction n as [|n IH]; intros s Hi; cbn [wait_for_event].
  - intros Q HQ s1 Hr. pose proof Hr as (_ & Hi1 & _). cbn. split; [by apply guar_refl|]. by split_and!.
  - apply ends_bind; [apply poll_ends|]. intros [[e|]|e] s2 Hi2; [by apply ends_ret|by apply IH|by apply ends_ret].
Qed.

Lemma poll_direct_handler_handles cid' : handles [] (λ _ _, True) (poll_direct_handler cid').
Proof.
  intros e body s Q Hi HQ. unfold poll_direct_handler.
  destruct (negb _); [by apply HQ; [split_and!|]|]. apply quiet_acquire. intros s1 Hc1.
  assert (∀ s2, calm [Inner; Rx] s1 s2 → loose [Rx] s s2) as Hcl.
  { intros s2 Hc2. eapply loose_trans; [by apply calm_loose|].
    eapply calm_loose, calm_less; [done|]. set_solver. }
  case_bool_decide.
  - apply safe_bind, safe_read. intros s2 Hc2. apply safe_release; [fresh_lock|].
    destruct (negb _); by apply HQ; [apply Hcl|].
  - apply safe_bind. eapply safe_find; [is_held|intros; fresh_lock|apply matches_key|].
    intros [[i a]|] s2 Hc2 Hsome _; [|by apply safe_release; [fresh_lock|]; apply HQ; [apply Hcl|]].
    destruct (Hsome i a eq_refl) as [Hv _]. case_bool_decide.
    + apply safe_bind, safe_remove; [is_held|]. intros s3 Hl3. apply safe_release; [fresh_lock|].
      apply HQ; [|done]. eapply loose_trans; [by apply Hcl|]. destruct Hl3 as (? & ? & HR).
      split_and!; [done|done|]. intros _. apply HR. set_solver.
    + apply safe_release; [fresh_lock|]. apply safe_store_event; [fresh_lock|done|].
      intros r s3 Hc3 _. apply HQ; [|done]. eapply loose_trans; [by apply Hcl|by apply calm_loose].
Qed.

Lemma poll_direct_ends s : ends [] poll_direct s.
Proof.
  intros Q HQ. apply safe_bind, safe_read. intros s1 Hc1.
  eapply safe_poll_with; [fresh_lock|apply poll_direct_handler_handles|done|]. intros r s2 Hi2 _ _. by apply HQ.
Qed.

(** ** The other calls *)

Lemma recv_ends peer p b s : ends [] (recv peer p b) s.
Proof.
  intros Q HQ. apply quiet_acquire. intros s1 _. apply safe_bind, safe_get_connection; [is_held|intros; fresh_lock|].
  intros [[i a]|e] s2 Hc2 Hv; [|by apply safe_release; [fresh_lock|]; eapply HQ, calm_inv].
  specialize (Hv i a eq_refl). apply quiet_acquire. intros s3 Hc3.
  apply safe_bind, safe_conn; [is_held|apply conn_buffer_drain|by eapply calm_valid|]. intros [b' n] s4 Hc4.
  assert (valid a s4) as Hv4 by (by do 2 (eapply calm_valid; [|done])).
  apply safe_bind, safe_conn; [is_held|by apply conn_modify_info|done|]. intros [] s5 Hc5.
  apply safe_bind, safe_lock; [is_held|by eapply calm_valid|]. intros x s6 Hc6 Hx. destruct (_ && _).
  - apply safe_bind, safe_remove; [is_held|]. intros s7 Hl7. do 2 (apply safe_release; [fresh_lock|]).
    apply (ends_try_quiet _ (λ _, Ok (b', n))); [|done]. apply quiet_force_close.
    eapply loose_valid; [|done]. by exists x.
  - do 2 (apply safe_release; [fresh_lock|]). by eapply HQ, calm_inv.
Qed.

Lemma available_ends peer p s : ends [] (recv_buffer_available_bytes (D := D) (W := W) peer p) s.
Proof.
  intros Q HQ. apply safe_locked; [fresh_lock|]. intros s1 _.
  apply safe_bind, safe_get_connection; [is_held|intros; fresh_lock|].
  intros [[i a]|e] s2 Hc2 Hv; [|by split; [|eapply HQ, calm_inv]].
  apply safe_bind, safe_locked; [fresh_lock|]. intros s3 Hr3.
  apply safe_lock; [is_held|eapply calm_valid; [by eapply Hv|by apply rely_calm]|].
  intros x s4 Hc4 Hx. split; [done|]. split; [done|]. by eapply HQ, calm_inv.
Qed.

Lemma force_close_of_ends peer p s : ends [] (force_close_of peer p) s.
Proof.
  intros Q HQ. apply safe_bind, safe_locked; [fresh_lock|]. intros s1 _.
  apply safe_bind, safe_get_connection; [is_held|intros; fresh_lock|].
  intros [[i a]|e] s2 Hc2 Hv; [|by split; [|eapply HQ, calm_inv]].
  apply safe_bind, safe_remove; [is_held|]. intros s3 Hl3. split; [done|].
  apply (ends_try_quiet _ (λ _, Ok tt)); [|done]. apply quiet_force_close. eapply loose_valid; [|done]. by eapply Hv.
Qed.

Lemma retain_ends a s : ends [] (retain_others (D := D) (W := W) a) s.
Proof.
  intros Q HQ. apply safe_locked; [fresh_lock|]. intros s1 _.
  apply (safe_less (λ i, filter (λ b, b ≠ a) (connections i))); [is_held| |].
  - intros c b Hb. by apply list_elem_of_filter in Hb as [_ Hb].
  - intros s2 Hl. split; [done|]. apply HQ, Hl.
Qed.

(** The end of [accept] and [connect]. *)
Lemma register_ends (r : Result unit) a (k : @prog St lock_name (Result unit)) s : inv s → ends [] k s →
  ends [] (match r with Ok _ => k | Err e => retain_others a;; Ret (Err e) end) s.
Proof.
  intros Hi Hk. destruct r as [[]|e]; [done|]. apply ends_bind; [apply retain_ends|]. intros. by apply ends_ret.
Qed.

Lemma accept_connection_ends c s : RB.ok (CN.buffer c) → ends [] (accept_connection c) s.
Proof.
  intros Hb Q HQ. apply safe_bind, safe_new_arc; [done|]. intros a s1 Hc1 Ha.
  apply safe_bind, safe_locked; [fresh_lock|]. intros s2 Hr2.
  apply safe_push; [is_held|eapply calm_valid; [by exists c|by apply rely_calm]|]. intros s3 Hl3 _.
  split; [done|]. apply safe_bind, quiet_accept; [fresh_lock|]. intros r s4 Hc4.
  apply register_ends; [by eapply calm_inv|apply ends_ret; by eapply calm_inv|done].
Qed.

Lemma connect_to_ends peer p s : ends [] (connect_to peer p) s.
Proof.
  intros Q HQ. apply quiet_acquire. intros s1 _. apply safe_bind.
  eapply safe_find; [is_held|intros; fresh_lock|apply is_connection_key|].
  intros [[i a]|] s2 Hc2 _ _; [by apply safe_release; [fresh_lock|]; eapply HQ, calm_inv|].
  apply safe_bind, safe_read. intros s3 Hc3.
  apply safe_bind, safe_new_arc; [apply capacity_ok, (calm_inv _ _ _ Hc3)|]. intros a s4 Hc4 Ha.
  assert (valid a s4) as Hv by (by eexists).
  apply safe_bind, safe_push; [is_held|done|]. intros s5 Hl5 _. apply safe_release; [fresh_lock|].
  apply safe_bind, quiet_tell; [by eapply loose_valid|]. intros r s6 Hc6.
  apply register_ends; [by eapply calm_inv| |done]. apply quiet_ends.
  apply quiet_bind; [apply quiet_locked; [fresh_lock|]; intros s7 Hc7; qstep|]. intros; qstep.
Qed.

Lemma listen_ends p s : ends [] (listen (D := D) (W := W) p) s.
Proof.
  intros Q HQ. apply safe_locked; [fresh_lock|]. intros s1 _ [c dw] Hr. pose proof Hr as (_ & [Hok Hd] & _).
  unfold Common.listen, mbind, M_bind, gets. cbn [fst]. case_bool_decide.
  - cbn. split; [by apply guar_refl|]. split; [done|]. by apply HQ.
  - cbn. assert (shared_ok (set_listening_ports (listening_ports c ++ [p]) c)) as Hok' by (by destruct Hok).
    split; [|split; [done|]; by apply HQ]. split_and!; [split; [done|eauto]|by split|].
    intros [| | |a] Hn; try done; [set_solver|by intros x|by intros x].
Qed.

Lemma unlisten_ends p s : ends [] (unlisten (D := D) (W := W) p) s.
Proof.
  intros Q HQ. apply safe_locked; [fresh_lock|]. intros s1 _.
  apply (safe_ports (λ c, filter (λ q, q ≠ p) (listening_ports c))); [is_held|]. intros s2 Hl.
  split; [done|]. apply HQ, Hl.
Qed.

(** A connection given to [accept] has a consistent buffer, as those [poll_direct] makes. *)
Definition op_ok (x : Op) : Prop := match x with OAccept c => RB.ok (CN.buffer c) | _ => True end.

Lemma run_op_ends x s : op_ok x → inv s → ends [] (run_op x) s.
Proof.
  intros Hx Hi. destruct x; unfold run_op.
  - apply listen_ends.
  - apply unlisten_ends.
  - by apply accept_connection_ends.
  - apply connect_to_ends.
  - apply with_connection_ends. intros. by apply quiet_ends, quiet_send_to.
  - apply poll_ends.
  - apply poll_direct_ends.
  - by apply wait_ends.
  - apply recv_ends.
  - apply available_ends.
  - apply with_connection_ends. intros. by apply quiet_ends, quiet_tell.
  - apply with_connection_ends. intros. by apply quiet_ends, quiet_tell.
  - apply force_close_of_ends.
Qed.

Lemma run_calls_ends xs s : Forall op_ok xs → inv s → ends [] (run_calls xs) s.
Proof.
  intros Hxs. revert s. induction Hxs as [|x xs Hx _ IH]; intros s Hi; cbn [run_calls].
  - by apply ends_ret.
  - apply ends_bind; [by apply run_op_ends|]. intros.
    apply ends_bind; [by apply IH|]. intros. by apply ends_ret.
Qed.

Lemma run_ops_ends xs s : Forall op_ok xs → inv s → ends [] (run_ops xs) s.
Proof. intros Hxs Hi. apply ends_bind; [by apply run_calls_ends|]. intros. by apply ends_ret. Qed.

Lemma pool_safe xss s ts s' : inv s → Forall (Forall op_ok) xss →
  steps (spawn (run_ops <$> xss), s) (ts, s') → inv s' ∧ Panicked ∉ ts.
Proof.
  intros Hi Hx Hs. eapply (safe_steps same ext inv); [done| |exact Hs].
  intros p (xs & -> & Hin)%list_elem_of_fmap. rewrite Forall_forall in Hx.
  apply run_ops_ends; [by apply Hx|done|done].
Qed.
End safe.
