(* ===== verification/ManagerConcurrency.v ===== *)
(** * Theorems on concurrent use of the connection manager

    Any number of threads may call the methods of a manager, which take [&self]. *)

From S2P Require Import Prelude Base Transport Bytes RingBuffer VsockProtocol Vsock ConnectionManager.
From S2P Require Import ManagerInv ManagerProps Threads ManagerThreads ManagerOrder ManagerSolo ManagerSafe.
Import Locked.

(** The orders of [poll] and of [poll_direct]. *)
Definition rank_poll (l : lock_name) : nat :=
  match l with Inner => 0 | Rx => 1 | Conn _ => 2 | Tx => 3 end.
Definition rank_direct (l : lock_name) : nat :=
  match l with Rx => 0 | Inner => 1 | Conn _ => 2 | Tx => 3 end.
#[local] Instance rank_poll_order : LockOrder rank_poll.
Proof. intros a. simpl. lia. Qed.
#[local] Instance rank_direct_order : LockOrder rank_direct.
Proof. intros a. simpl. lia. Qed.

Definition uses_poll (x : Op) : bool := match x with OPoll | OWait _ => true | _ => false end.
Definition uses_poll_direct (x : Op) : bool := match x with OPollDirect => true | _ => false end.

Lemma allowed_poll x : uses_poll_direct x = false → op_allowed rank_poll x.
Proof. by destruct x; simpl; lia || done. Qed.
Lemma allowed_direct x : uses_poll x = false → op_allowed rank_direct x.
Proof. by destruct x; simpl; lia || done. Qed.

Section theorems.
Context `{Profile} {D W : Type}.

Lemma ordered_pool `{SocketParts D W} rank `{!LockOrder rank} xss (s : Conns * (D * W)) ts s' :
  Forall (Forall (op_allowed rank)) xss → steps (spawn (run_ops <$> xss), s) (ts, s') →
  ¬ deadlock ts ∧ Forall (λ t, ¬ racing t) ts.
Proof.
  intros Hx Hs. apply (ordered_steps rank) in Hs.
  - split; [by apply (ordered_no_deadlock rank)|by apply (ordered_no_race rank)].
  - apply Forall_fmap. eapply Forall_impl; [done|]. intros xs. by apply run_ops_ord.
Qed.

(** C13. Threads that call the manager's methods in any order and interleaving do not deadlock, as long
    as they poll in one way: all with [poll] and [wait_for_event], or all with [poll_direct].
    And every access to the list, a queue or a connection is made under its lock. *)
Theorem threads_no_deadlock `{SocketParts D W} xss (s : Conns * (D * W)) ts s' :
  Forall (Forall (λ x, uses_poll_direct x = false)) xss ∨ Forall (Forall (λ x, uses_poll x = false)) xss →
  steps (spawn (run_ops <$> xss), s) (ts, s') →
  ¬ deadlock ts ∧ Forall (λ t, ¬ racing t) ts.
Proof.
  intros [Hx|Hx]; [apply (ordered_pool rank_poll)|apply (ordered_pool rank_direct)];
    (eapply Forall_impl; [done|]; intros xs Hxs; eapply Forall_impl; [done|]; intros y).
  - apply allowed_poll.
  - apply allowed_direct.
Qed.

(** C14. Whatever the threads' calls and their interleaving, over a driver whose queues do not panic,
    no call panics: in particular the connection [poll] unwraps is in the list. The list refers
    to allocated connections and the receive buffers stay consistent. *)
Theorem threads_never_panic `{QuietDriver D W} xss c (dw : D * W) ts c' dw' :
  shared_ok c → driver_ok dw → Forall (Forall op_ok) xss →
  steps (spawn (run_ops <$> xss), (c, dw)) (ts, (c', dw')) →
  Panicked ∉ ts ∧ shared_ok c' ∧ driver_ok dw'.
Proof.
  intros Hc Hd Hx Hs. by destruct (pool_safe xss (c, dw) ts (c', dw') (conj Hc Hd) Hx Hs) as [[??] ?].
Qed.

Fixpoint seq_ops `{SocketParts D W} (xs : list Op) : M (Conns * (D * W)) (list {x : Op & Answer x}) :=
  match xs with
  | [] => mret []
  | x :: xs => a ← seq_op x; l ← seq_ops xs; mret (existT x a :: l)
  end.

Lemma allowed_order x : ∃ rank, LockOrder rank ∧ op_allowed rank x.
Proof.
  destruct (uses_poll_direct x) eqn:E.
  - exists rank_direct. split; [apply _|]. apply allowed_direct. by destruct x.
  - exists rank_poll. split; [apply _|]. by apply allowed_poll.
Qed.

(** C40. A thread alone: its calls, which take and release locks, have the results, the panics
    and the effects of the sequential definitions, and no call waits for a lock the thread itself
    holds. *)
Theorem thread_alone `{SocketParts D W} xs (s : Conns * (D * W)) : solo [] (run_calls xs) s = seq_ops xs s.
Proof.
  revert s. induction xs as [|x xs IH]; intros s; [done|]. cbn [run_calls seq_ops].
  destruct (allowed_order x) as (rank & Hr & Hx).
  erewrite solo_bind by (by apply (run_op_ord rank)). apply bind_ext.
  - rewrite (ordered_solo rank _ [] []) by (by apply run_op_ord). apply run_op_er.
  - intros a s1. rewrite solo_then. by apply bind_ext.
Qed.

(** C15. [poll] locks the list and then the receive queue; [poll_direct] locks the receive queue and
    then, when a packet for this host has arrived, the list. Two threads that do one each can
    deadlock. *)
Theorem poll_poll_direct_deadlock `{SocketParts D W} c (dw dw' : D * W) x bytes header body e :
  rx_pop dw = (Val (Ok (Some (x, bytes))), dw') → read_header_and_body bytes = Ok (header, body) →
  VsockEvent.from_header header = Ok e → cid (VsockEvent.destination e) = local_cid dw.1 →
  ∃ ts, steps (spawn [run_ops [OPoll]; run_ops [OPollDirect]], (c, dw)) (ts, (c, dw')) ∧
    deadlock ts ∧ ∀ c'', ¬ step (ts, (c, dw')) c''.
Proof.
  intros Hpop Hread Hev Hcid.
  assert (∃ k1 k2, steps (spawn [run_ops [OPoll]; run_ops [OPollDirect]], (c, dw))
    ([Running (Acquire Rx k1) [Inner]; Running (Acquire Inner k2) [Rx]], (c, dw'))) as (k1 & k2 & Hs).
  { eexists _, _. do 2 (eapply rtc_l; [apply (exec_step 0); reflexivity|]).
    do 2 (eapply rtc_l; [apply (exec_step 1); reflexivity|]).
    eapply rtc_l; [eapply (step_act _ 1); [reflexivity|apply on_snd_val, Hpop]|]. cbn.
    unfold packet_handler. rewrite Hread, Hev. unfold poll_direct_handler. rewrite Hcid, Z.eqb_refl. cbn.
    apply rtc_refl. }
  eexists. split; [exact Hs|]. assert (deadlock [Running (Acquire Rx k1) [Inner]; Running (Acquire Inner k2) [Rx]]) as Hd.
  { split; [by left|]. apply Forall_cons_2; [|apply Forall_cons_2; [|done]]; intros _ Hf;
      apply Forall_cons in Hf as [H1' Hf]; apply Forall_cons in Hf as [H2' _]; simpl in *; set_solver. }
  split; [done|]. intros c''. by apply deadlock_stuck.
Qed.
End theorems.

(** ** Concrete runs *)
Section witnesses.
Import Pipe.
#[local] Instance checked : Profile := {| overflow_checks := true; debug_assertions := true |}.

(** The pipe of [ManagerProps.v]: packets are taken from a list, and there is no buffer to return. *)
#[local] Instance pipe_parts : SocketParts Pipe unit.
Proof.
  refine {| Popped := unit;
    rx_pop := p ← gets fst;
      match incoming p with
      | [] => mret (Ok None)
      | bytes :: rest => modify (λ s, (mkPipe (p_cid p) rest (outgoing p), s.2));; mret (Ok (Some (tt, bytes)))
      end;
    rx_push := λ _, mret (Ok tt) |}.
  intros C h [c [[cid' [|bytes rest] out] []]]; [done|]. simpl. unfold receive, on_fst, on_snd, zoom, try, mbind, M_bind.
  cbn. by destruct (Vsock.packet_handler h bytes c) as [[r| |] c'].
Defined.

#[local] Instance pipe_quiet : QuietDriver Pipe unit.
Proof.
  refine {| driver_ok := λ _, True; popped_ok := λ _ _, True |}.
  - intros hdr b [p []] o s' _ [= <- <-]. done.
  - intros [[cid' [|bytes rest] out] []] o s' _ [= <- <-]; done.
  - intros x s o s' _ _ [= <- <-]. done.
Defined.

(** One connection, to [peer] from port 7, whose peer has room for eight bytes. *)
Definition conn8 : Connection :=
  CN.set_info (CI.set_peer 8 0 (CN.info (open some_data false))) (open some_data false).
Definition manager8 (packets : list (list Z)) : Conns * (Pipe * unit) :=
  (mkConns [conn8] 8 [0%nat] [], (mkPipe 66 packets [], tt)).
Definition eight : Slice := mkSlice 4096 8.

(** The number of bytes of data sent. *)
Definition data_sent (p : Pipe) : Z := foldr (λ h n, VirtioVsockHdr.len h + n) 0 (outgoing p).

Definition send8 : Op := OSend peer 7 eight.

(** Both threads look up the connection and check its credit, then both send. *)
Definition both_check : list nat :=
  replicate 9 0%nat ++ replicate 9 1%nat ++ replicate 8 0%nat ++ replicate 8 1%nat.

Definition overrun (c : option (list (@thread (Conns * (Pipe * unit)) lock_name) * (Conns * (Pipe * unit)))) : bool :=
  match c with
  | Some (ts, (_, (p, _))) => forallb finished ts && (data_sent p =? 16)
  | None => false
  end.

(** C16. [send] checks the credit of the connection and uses it up under two different guards. Two
    threads that send at the same time both see the credit of eight bytes, and send sixteen; one
    after the other, the second is refused. *)
Theorem concurrent_sends_overrun :
  (∃ ts c p, steps (spawn [run_ops [send8]; run_ops [send8]], manager8 []) (ts, (c, (p, tt))) ∧
    Forall (λ t, finished t = true) ts ∧ data_sent p = 16) ∧
  CI.peer_free (CN.info conn8) = 8 ∧ data_sent (seq_ops [send8; send8] (manager8 [])).2.2.1 = 8.
Proof.
  split; [|done]. assert (overrun (execs both_check (spawn [run_ops [send8]; run_ops [send8]], manager8 [])) = true)
    as E by (vm_compute; reflexivity).
  destruct (execs _ _) as [[ts [c [p []]]]|] eqn:Ex; [|done]. unfold overrun in E.
  apply andb_true_iff in E as [Ef Ed]. exists ts, c, p. split_and!.
  - by eapply execs_steps.
  - apply Forall_forall. intros t Ht. rewrite forallb_forall in Ef. by apply Ef, list_elem_of_In.
  - by apply Z.eqb_eq.
Qed.

(** Three threads, stopped when the third holds the list and a connection and the others wait. *)
Definition three : list (list Op) :=
  [[OListen 9; OPoll]; [OWait 2; send8]; [ORecv peer 7 [0; 0]; OShutdown peer 7]].
Definition third_first : list nat := replicate 6 2%nat.
Definition reached : option (list (@thread (Conns * (Pipe * unit)) lock_name) * (Conns * (Pipe * unit))) :=
  execs third_first (spawn (run_ops <$> three), manager8 [rw]).

Lemma reached_some : match reached with Some _ => true | None => false end = true.
Proof. vm_compute. reflexivity. Qed.

Lemma threads_no_deadlock_witness : match reached with Some (ts, _) => ¬ deadlock ts | None => False end.
Proof.
  pose proof reached_some as Hr. destruct reached as [[ts s]|] eqn:E; [|discriminate Hr].
  apply (threads_no_deadlock three (manager8 [rw]) ts s).
  - left. repeat (apply Forall_cons_2; [repeat (apply Forall_cons_2; [reflexivity|]); apply Forall_nil_2|]).
    apply Forall_nil_2.
  - apply (execs_steps third_first), E.
Defined.

Lemma manager8_ok packets : shared_ok (manager8 packets).1.
Proof.
  split; simpl; [repeat constructor; lia|repeat constructor; apply some_data_ok|lia].
Qed.

Lemma threads_never_panic_witness : match reached with Some (ts, _) => Panicked ∉ ts | None => False end.
Proof.
  pose proof reached_some as Hr. destruct reached as [[ts [c dw]]|] eqn:E; [|discriminate Hr].
  apply (threads_never_panic three (manager8 [rw]).1 (manager8 [rw]).2 ts c dw).
  - apply manager8_ok.
  - exact I.
  - repeat (apply Forall_cons_2; [repeat (apply Forall_cons_2; [exact I|]); apply Forall_nil_2|]).
    apply Forall_nil_2.
  - apply (execs_steps third_first), E.
Defined.

Lemma poll_poll_direct_deadlock_witness :
  ∃ ts, steps (spawn [run_ops [OPoll]; run_ops [OPollDirect]], manager8 [rw])
    (ts, manager8 []) ∧ deadlock ts ∧ ∀ c, ¬ step (ts, manager8 []) c.
Proof.
  apply (poll_poll_direct_deadlock (H1 := pipe_parts) (manager8 []).1 (manager8 [rw]).2 (manager8 []).2 tt rw
    (from_peer VirtioVsockOp.Rw 3) [1; 2; 3] (event (VsockEventType.Received 3))); vm_compute; reflexivity.
Defined.
End witnesses.
