(* ===== verification/Volatile.v ===== *)
(** * Memory-mapped registers

    [src/src/volatile.rs]: volatile accesses to registers. A register block is a list of fields
    in declaration order; a field's offset is the size of the fields before it ([repr(C)],
    every field aligned by the ones before it). *)

From S2P Require Import Prelude.

(** [vread] and [vwrite] of a register of [n] bytes. What a register does is the hardware's. *)
Class Volatile (W : Type) := {
  vread : ∀ (n addr : Z), M W Z;
  vwrite : ∀ (n addr value : Z), M W unit
}.

(** The offset of a field, and its size in bytes: [None] if it is not a field. *)
Fixpoint field_at {R} `{EqDecision R} (fields : list (R * Z)) (r : R) (offset : Z)
    : option (Z * Z) :=
  match fields with
  | [] => None
  | (r', n) :: fields => if decide (r = r') then Some (offset, n) else field_at fields r (offset + n)
  end.
Definition offset_of {R} `{EqDecision R} (fields : list (R * Z)) (r : R) : Z :=
  match field_at fields r 0 with Some (o, _) => o | None => 0 end.
Definition size_of_field {R} `{EqDecision R} (fields : list (R * Z)) (r : R) : Z :=
  match field_at fields r 0 with Some (_, n) => n | None => 0 end.

Section access.
Context {W R : Type} `{Volatile W} `{EqDecision R} (fields : list (R * Z)).

(** The macros [volread!] and [volwrite!]. *)
Definition volread (base : Z) (r : R) : M W Z :=
  vread (size_of_field fields r) (base + offset_of fields r).
Definition volwrite (base : Z) (r : R) (value : Z) : M W unit :=
  vwrite (size_of_field fields r) (base + offset_of fields r) value.
End access.
