(* ===== verification/PciBus.v ===== *)
(** * PCI buses

    [src/src/transport/pci/bus.rs]: configuration space accesses, enumeration of a bus, base
    address registers and capability lists. The mechanism that accesses the configuration
    space is the trait [ConfigurationAccess]; [MmioCam] implements it by memory-mapped words. *)

From S2P Require Import Prelude Base Volatile.

Definition INVALID_READ : Z := 0xffffffff.
Definition MAX_DEVICES : Z := 32.
Definition MAX_FUNCTIONS : Z := 8.
Definition STATUS_COMMAND_OFFSET : Z := 4.
Definition BAR0_OFFSET : Z := 0x10.
Definition PCI_CAP_ID_VNDR : Z := 9.

(** ** Registers *)
Module PciStatus.
Definition INTERRUPT_STATUS : Z := Z.shiftl 1 3.
Definition CAPABILITIES_LIST : Z := Z.shiftl 1 4.
Definition MHZ_66_CAPABLE : Z := Z.shiftl 1 5.
Definition FAST_BACK_TO_BACK_CAPABLE : Z := Z.shiftl 1 7.
Definition MASTER_DATA_PARITY_ERROR : Z := Z.shiftl 1 8.
Definition SIGNALED_TARGET_ABORT : Z := Z.shiftl 1 11.
Definition RECEIVED_TARGET_ABORT : Z := Z.shiftl 1 12.
Definition RECEIVED_MASTER_ABORT : Z := Z.shiftl 1 13.
Definition SIGNALED_SYSTEM_ERROR : Z := Z.shiftl 1 14.
Definition DETECTED_PARITY_ERROR : Z := Z.shiftl 1 15.
Definition all : Z := foldr Z.lor 0
  [INTERRUPT_STATUS; CAPABILITIES_LIST; MHZ_66_CAPABLE; FAST_BACK_TO_BACK_CAPABLE;
   MASTER_DATA_PARITY_ERROR; SIGNALED_TARGET_ABORT; RECEIVED_TARGET_ABORT;
   RECEIVED_MASTER_ABORT; SIGNALED_SYSTEM_ERROR; DETECTED_PARITY_ERROR].
End PciStatus.

Module PciCommand.
Definition IO_SPACE : Z := Z.shiftl 1 0.
Definition MEMORY_SPACE : Z := Z.shiftl 1 1.
Definition BUS_MASTER : Z := Z.shiftl 1 2.
Definition SPECIAL_CYCLES : Z := Z.shiftl 1 3.
Definition MEMORY_WRITE_AND_INVALIDATE_ENABLE : Z := Z.shiftl 1 4.
Definition VGA_PALETTE_SNOOP : Z := Z.shiftl 1 5.
Definition PARITY_ERROR_RESPONSE : Z := Z.shiftl 1 6.
Definition SERR_ENABLE : Z := Z.shiftl 1 8.
Definition FAST_BACK_TO_BACK_ENABLE : Z := Z.shiftl 1 9.
Definition INTERRUPT_DISABLE : Z := Z.shiftl 1 10.
Definition all : Z := foldr Z.lor 0
  [IO_SPACE; MEMORY_SPACE; BUS_MASTER; SPECIAL_CYCLES; MEMORY_WRITE_AND_INVALIDATE_ENABLE;
   VGA_PALETTE_SNOOP; PARITY_ERROR_RESPONSE; SERR_ENABLE; FAST_BACK_TO_BACK_ENABLE;
   INTERRUPT_DISABLE].
End PciCommand.

Inductive PciError := InvalidBarType.

(** ** Functions of devices *)
Record DeviceFunction := mkDeviceFunction { bus : Z; device : Z; function : Z }.

#[export] Instance DeviceFunction_eq_dec : EqDecision DeviceFunction.
Proof. solve_decision. Defined.

Definition valid (df : DeviceFunction) : bool := (device df <? 32) && (function df <? 8).

Inductive HeaderType :=
| Standard
| PciPciBridge
| PciCardbusBridge
| Unrecognised (value : Z).

Definition HeaderType_from (value : Z) : HeaderType :=
  match value with
  | 0 => Standard
  | 1 => PciPciBridge
  | 2 => PciCardbusBridge
  | _ => Unrecognised value
  end.

Record DeviceFunctionInfo := mkDeviceFunctionInfo {
  vendor_id : Z;
  device_id : Z;
  class : Z;
  subclass : Z;
  prog_if : Z;
  revision : Z;
  header_type : HeaderType
}.

(** ** Base address registers *)
Inductive MemoryBarType := Width32 | Below1MiB | Width64.

#[export] Instance MemoryBarType_eq_dec : EqDecision MemoryBarType.
Proof. solve_decision. Defined.

Definition MemoryBarType_as_u8 (t : MemoryBarType) : Z :=
  match t with Width32 => 0 | Below1MiB => 1 | Width64 => 2 end.
Definition MemoryBarType_try_from (value : Z) : result MemoryBarType PciError :=
  match value with
  | 0 => Ok Width32
  | 1 => Ok Below1MiB
  | 2 => Ok Width64
  | _ => Err InvalidBarType
  end.

Inductive BarInfo :=
| MemoryBar (address_type : MemoryBarType) (prefetchable : bool) (address size : Z)
| IOBar (address size : Z).

Definition takes_two_entries (b : BarInfo) : bool :=
  match b with MemoryBar Width64 _ _ _ => true | _ => false end.
Definition memory_address_size (b : BarInfo) : option (Z * Z) :=
  match b with MemoryBar _ _ address size => Some (address, size) | IOBar _ _ => None end.

(** ** Access to the configuration space *)

(** The trait [ConfigurationAccess]; its implementations act on the world. *)
Class ConfigurationAccess (W : Type) := {
  read_word : DeviceFunction → Z → M W Z;
  write_word : DeviceFunction → Z → Z → M W unit
}.

Inductive Cam := CamMmio | CamEcam.

Definition Cam_size (c : Cam) : Z :=
  match c with CamMmio => 0x1000000 | CamEcam => 0x10000000 end.

(** [x << n] on 32 bits. *)
Definition shl32 (x n : Z) : Z := wrap 32 (Z.shiftl x n).

Definition cam_offset {S} (c : Cam) (df : DeviceFunction) (register_offset : Z) : M S Z :=
  assert (valid df);;
  let bdf := Z.lor (Z.lor (shl32 (bus df) 8) (shl32 (device df) 3)) (function df) in
  let address := Z.lor (shl32 bdf (match c with CamMmio => 8 | CamEcam => 12 end)) register_offset in
  assert (address <? Cam_size c);;
  assert (Z.land address 0x3 =? 0);;
  mret address.

Module MmioCam.
Record MmioCam := mkMmioCam { mmio_base : Z; cam : Cam }.

Definition new {S} (mmio_base : Z) (cam : Cam) : M S MmioCam :=
  assert (Z.land mmio_base 0x3 =? 0);; mret (mkMmioCam mmio_base cam).

Section access.
Context {W : Type} `{Volatile W} (m : MmioCam).

(** [mmio_base.add(address >> 2)] counts words. *)
Definition read_word (df : DeviceFunction) (register_offset : Z) : M W Z :=
  address ← cam_offset (cam m) df register_offset;
  vread 4 (mmio_base m + 4 * Z.shiftr address 2).
Definition write_word (df : DeviceFunction) (register_offset data : Z) : M W unit :=
  address ← cam_offset (cam m) df register_offset;
  vwrite 4 (mmio_base m + 4 * Z.shiftr address 2) data.

Definition access : ConfigurationAccess W := {|
  PciBus.read_word := read_word;
  PciBus.write_word := write_word
|}.
End access.
End MmioCam.

(** ** The root complex *)
Record CapabilityInfo := mkCapabilityInfo { offset : Z; id : Z; private_header : Z }.

Section root.
Context `{Profile} {W : Type} `{ConfigurationAccess W}.

Definition get_status_command (df : DeviceFunction) : M W (Z * Z) :=
  status_command ← read_word df STATUS_COMMAND_OFFSET;
  mret (truncate_flags PciStatus.all (wrap 16 (Z.shiftr status_command 16)),
        truncate_flags PciCommand.all (wrap 16 status_command)).

Definition set_command (df : DeviceFunction) (command : Z) : M W unit :=
  write_word df STATUS_COMMAND_OFFSET command.

Definition capabilities_offset (df : DeviceFunction) : M W (option Z) :=
  '(status, _) ← get_status_command df;
  if contains status PciStatus.CAPABILITIES_LIST then
    v ← read_word df 0x34;
    mret (Some (wrap 8 (Z.land v 0xfc)))
  else mret None.

(** [BAR0_OFFSET + 4 * bar_index] on [u8]. *)
Definition bar_offset {S} (bar_index : Z) : M S Z :=
  x ← mul_u 8 4 bar_index; add_u 8 BAR0_OFFSET x.

Definition bar_info (df : DeviceFunction) (bar_index : Z) : M W (result BarInfo PciError) :=
  o ← bar_offset bar_index;
  bar_orig ← read_word df o;
  write_word df o 0xffffffff;;
  size_mask ← read_word df o;
  let size := wrapping_add 32 (Z.lxor 0xffffffff (Z.land size_mask 0xfffffff0)) 1 in
  write_word df o bar_orig;;
  if Z.land bar_orig 0x00000001 =? 0x00000001 then
    mret (Ok (IOBar (Z.land bar_orig 0xfffffffc) size))
  else
    let address := Z.land bar_orig 0xfffffff0 in
    let prefetchable := negb (Z.land bar_orig 0x00000008 =? 0) in
    match MemoryBarType_try_from (wrap 8 (Z.shiftr (Z.land bar_orig 0x00000006) 1)) with
    | Err e => mret (Err e)
    | Ok address_type =>
      if bool_decide (address_type = Width64) then
        if 5 <=? bar_index then mret (Err InvalidBarType) else
        next ← add_u 8 bar_index 1;
        o' ← bar_offset next;
        address_top ← read_word df o';
        mret (Ok (MemoryBar address_type prefetchable
                    (Z.lor address (Z.shiftl address_top 32)) size))
      else mret (Ok (MemoryBar address_type prefetchable address size))
    end.

(** The loop of [bars]; at most six rounds are needed. *)
Fixpoint bars_loop (fuel : nat) (df : DeviceFunction) (bar_index : Z)
    (bars : list (option BarInfo)) : M W (result (list (option BarInfo)) PciError) :=
  if bar_index <? 6 then
    match fuel with
    | O => hang
    | S fuel =>
      info ←? bar_info df bar_index;
      bar_index' ← add_u 8 bar_index (if takes_two_entries info then 2 else 1);
      bars_loop fuel df bar_index' (<[Z.to_nat bar_index := Some info]> bars)
    end
  else mret (Ok bars).
Definition bars (df : DeviceFunction) : M W (result (list (option BarInfo)) PciError) :=
  bars_loop 6 df 0 (replicate 6 None).

Definition set_bar_32 (df : DeviceFunction) (bar_index address : Z) : M W unit :=
  o ← bar_offset bar_index; write_word df o address.

Definition set_bar_64 (df : DeviceFunction) (bar_index address : Z) : M W unit :=
  o ← bar_offset bar_index;
  write_word df o (wrap 32 address);;
  next ← add_u 8 bar_index 1;
  o' ← bar_offset next;
  write_word df o' (wrap 32 (Z.shiftr address 32)).

(** *** Capabilities *)

(** The iterator's state is [next_capability_offset]. *)
Definition capability_next (df : DeviceFunction) (next : option Z)
    : M W (option CapabilityInfo * option Z) :=
  match next with
  | None => mret (None, None)
  | Some offset =>
    capability_header ← read_word df offset;
    let id := wrap 8 capability_header in
    let next_offset := wrap 8 (Z.shiftr capability_header 8) in
    let private_header := wrap 16 (Z.shiftr capability_header 16) in
    let next' :=
      if next_offset =? 0 then None
      else if (next_offset <? 64) || negb (Z.land next_offset 0x3 =? 0) then None
      else Some next_offset in
    mret (Some (mkCapabilityInfo offset id private_header), next')
  end.

(** Collecting the iterator. *)
Fixpoint capability_collect (fuel : nat) (df : DeviceFunction) (next : option Z)
    : M W (list CapabilityInfo) :=
  match fuel with
  | O => hang
  | S fuel =>
    '(x, next) ← capability_next df next;
    match x with
    | None => mret []
    | Some c => cs ← capability_collect fuel df next; mret (c :: cs)
    end
  end.
Definition capabilities (fuel : nat) (df : DeviceFunction) : M W (list CapabilityInfo) :=
  o ← capabilities_offset df; capability_collect fuel df o.

(** *** Enumeration *)

(** The information on a function, whose first word is [device_vendor]. *)
Definition function_info (current : DeviceFunction) (device_vendor : Z) : M W DeviceFunctionInfo :=
  class_revision ← read_word current 8;
  bist_type_latency_cache ← read_word current 12;
  mret (mkDeviceFunctionInfo (wrap 16 device_vendor) (wrap 16 (Z.shiftr device_vendor 16))
    (wrap 8 (Z.shiftr class_revision 24)) (wrap 8 (Z.shiftr class_revision 16))
    (wrap 8 (Z.shiftr class_revision 8)) (wrap 8 class_revision)
    (HeaderType_from (Z.land (wrap 8 (Z.shiftr bist_type_latency_cache 16)) 0x7f))).

(** [BusDeviceIterator::next]: the item, and the iterator's next function. *)
Fixpoint bus_next (fuel : nat) (next : DeviceFunction)
    : M W (option (DeviceFunction * DeviceFunctionInfo) * DeviceFunction) :=
  if device next <? MAX_DEVICES then
    match fuel with
    | O => hang
    | S fuel =>
      let current := next in
      device_vendor ← read_word current 0;
      f ← add_u 8 (function next) 1;
      next' ← (if MAX_FUNCTIONS <=? f then
                 d ← add_u 8 (device next) 1; mret (mkDeviceFunction (bus next) d 0)
               else mret (mkDeviceFunction (bus next) (device next) f));
      if negb (device_vendor =? INVALID_READ) then
        info ← function_info current device_vendor;
        mret (Some (current, info), next')
      else bus_next fuel next'
    end
  else mret (None, next).

(** Collecting the iterator of [enumerate_bus]; a bus has 256 functions. *)
Fixpoint bus_collect (fuel : nat) (next : DeviceFunction)
    : M W (list (DeviceFunction * DeviceFunctionInfo)) :=
  match fuel with
  | O => hang
  | S fuel =>
    '(x, next) ← bus_next 256 next;
    match x with
    | None => mret []
    | Some i => l ← bus_collect fuel next; mret (i :: l)
    end
  end.
Definition enumerate_bus (b : Z) : M W (list (DeviceFunction * DeviceFunctionInfo)) :=
  bus_collect 257 (mkDeviceFunction b 0 0).
End root.
