(* ===== verification/PciBusProps.v ===== *)
(** * Properties of PCI buses

    Configuration space offsets are in range and distinct; enumeration lists every function
    that answers, in order; probing a base address register finds its address and size and
    restores it; the capability list is walked to its end, if it has one. *)

From S2P Require Import Prelude Base PciBus.

(** ** Bits *)
Lemma lor_shiftl a b n : 0 ≤ n → 0 ≤ b < 2 ^ n → Z.lor (Z.shiftl a n) b = a * 2 ^ n + b.
Proof.
  intros Hn Hb. rewrite <- Z.shiftl_mul_pow2 by done.
  assert (Z.land (Z.shiftl a n) b = 0) as Hl.
  { apply Z.bits_inj'. intros i Hi. rewrite Z.land_spec, Z.bits_0.
    destruct (decide (i < n)) as [Hlt|Hge].
    - by rewrite Z.shiftl_spec_low.
    - replace b with (b mod 2 ^ n) by (by apply Z.mod_small).
      rewrite Z.mod_pow2_bits_high by lia. apply andb_false_r. }
  by rewrite Z.add_nocarry_lxor, Z.lxor_lor.
Qed.

Lemma shl32_small x n : 0 ≤ n → 0 ≤ x * 2 ^ n < 2 ^ 32 → shl32 x n = Z.shiftl x n.
Proof. intros Hn Hx. unfold shl32, wrap. rewrite Z.shiftl_mul_pow2 by done. by apply Z.mod_small. Qed.

(** ** Offsets in the configuration access region *)
Definition df_ok (df : DeviceFunction) : Prop :=
  0 ≤ bus df < 256 ∧ 0 ≤ device df < 32 ∧ 0 ≤ function df < 8.

Definition cam_shift (c : Cam) : Z := match c with CamMmio => 8 | CamEcam => 12 end.

Lemma cam_offset_run {S} c df reg (s : S) : df_ok df → 0 ≤ reg < 256 → reg mod 4 = 0 →
  cam_offset c df reg s =
    (Val (((bus df * 32 + device df) * 8 + function df) * 2 ^ cam_shift c + reg), s).
Proof.
  intros (Hb & Hd & Hf) Hr Ha. unfold cam_offset, valid.
  rewrite (proj2 (Z.ltb_lt (device df) 32)), (proj2 (Z.ltb_lt (function df) 8)) by lia. mstep. cbv zeta.
  rewrite (shl32_small (bus df) 8), (shl32_small (device df) 3) by lia.
  assert (Z.lor (Z.lor (Z.shiftl (bus df) 8) (Z.shiftl (device df) 3)) (function df) =
    (bus df * 32 + device df) * 8 + function df) as ->.
  { replace (Z.shiftl (bus df) 8) with (Z.shiftl (Z.shiftl (bus df) 5) 3) by (by rewrite Z.shiftl_shiftl by lia).
    rewrite <- Z.shiftl_lor, lor_shiftl by lia. by rewrite lor_shiftl by lia. }
  set (bdf := (bus df * 32 + device df) * 8 + function df).
  assert (0 ≤ bdf < 2 ^ 16) as Hbdf by (unfold bdf; lia).
  fold (cam_shift c). assert (cam_shift c = 8 ∨ cam_shift c = 12) as Hk by (destruct c; auto).
  assert (2 ^ cam_shift c = 256 ∨ 2 ^ cam_shift c = 4096) as Hp by (destruct c; auto).
  rewrite shl32_small by (destruct c; simpl; lia). rewrite lor_shiftl by lia.
  assert (bdf * 2 ^ cam_shift c + reg < Cam_size c) as Hsz by (destruct c; simpl in *; lia).
  rewrite (proj2 (Z.ltb_lt _ _)) by done. mstep.
  replace (Z.land (bdf * 2 ^ cam_shift c + reg) 3) with 0; [done|].
  change 3 with (2 ^ 2 - 1). rewrite land_mask by lia. change (2 ^ 2) with 4.
  destruct c; simpl; Z.to_euclidean_division_equations; lia.
Qed.

(** ** Hardware

    Reading a register has no effect; writing one changes the bits of it that are writable. *)
Class PciSpec (W : Type) `{ConfigurationAccess W} := {
  reg : W → DeviceFunction → Z → Z;
  writable : DeviceFunction → Z → Z;
  reg_fits : ∀ w df o, 0 ≤ reg w df o < 2 ^ 32;
  read_word_spec : ∀ df o w, df_ok df → 0 ≤ o < 256 → o mod 4 = 0 →
    read_word df o w = (Val (reg w df o), w);
  write_word_spec : ∀ df o v w, df_ok df → 0 ≤ o < 256 → o mod 4 = 0 → ∃ w',
    write_word df o v w = (Val tt, w') ∧
    ∀ df' o', reg w' df' o' =
      if decide (df' = df ∧ o' = o)
      then Z.lor (Z.land v (writable df o)) (Z.ldiff (reg w df o) (writable df o))
      else reg w df' o'
}.

Section bus.
Context `{Profile} {W : Type} `{PciSpec W}.

(** *** Enumeration *)
Definition info_of (w : W) (df : DeviceFunction) : DeviceFunctionInfo :=
  let v := reg w df 0 in let c := reg w df 8 in
  mkDeviceFunctionInfo (wrap 16 v) (wrap 16 (Z.shiftr v 16)) (wrap 8 (Z.shiftr c 24))
    (wrap 8 (Z.shiftr c 16)) (wrap 8 (Z.shiftr c 8)) (wrap 8 c)
    (HeaderType_from (Z.land (wrap 8 (Z.shiftr (reg w df 12) 16)) 0x7f)).

(** The [i]-th function of bus [b]. *)
Definition nth_function (b i : Z) : DeviceFunction := mkDeviceFunction b (i / 8) (i mod 8).

(** The functions from the [i]-th on that answer. *)
Definition answering (w : W) (b : Z) (idx : list Z) : list (DeviceFunction * DeviceFunctionInfo) :=
  omap (λ i, let df := nth_function b i in
    if reg w df 0 =? INVALID_READ then None else Some (df, info_of w df)) idx.

Lemma nth_ok b i : 0 ≤ b < 256 → 0 ≤ i < 256 → df_ok (nth_function b i).
Proof. intros. unfold df_ok, nth_function. simpl. Z.to_euclidean_division_equations. lia. Qed.

Lemma bus_step b i w (fuel : nat) : 0 ≤ b < 256 → 0 ≤ i < 256 →
  bus_next (S fuel) (nth_function b i) w =
    if reg w (nth_function b i) 0 =? INVALID_READ then bus_next fuel (nth_function b (i + 1)) w
    else (Val (Some (nth_function b i, info_of w (nth_function b i)), nth_function b (i + 1)), w).
Proof.
  intros Hb Hi. pose proof (nth_ok b i Hb Hi) as Hdf. unfold bus_next at 1. fold (bus_next (W := W)).
  assert (device (nth_function b i) < MAX_DEVICES) as Hd by (destruct Hdf as (_ & ? & _); unfold MAX_DEVICES; lia).
  rewrite (proj2 (Z.ltb_lt _ _)) by done. cbv zeta.
  erewrite bind_val by (by apply read_word_spec). unfold add_u.
  erewrite bind_val by (apply arith_fits; destruct Hdf as (_ & _ & ?); unfold fits; lia).
  erewrite bind_val with (a := nth_function b (i + 1)) (s' := w).
  2:{ destruct (Z.leb_spec MAX_FUNCTIONS (function (nth_function b i) + 1)) as [Hge|Hlt];
        unfold MAX_FUNCTIONS, nth_function in *; simpl in *.
      - erewrite bind_val by (apply arith_fits; unfold fits; Z.to_euclidean_division_equations; lia).
        unfold mret, M_ret. do 3 f_equal; Z.to_euclidean_division_equations; lia.
      - unfold mret, M_ret. do 3 f_equal; Z.to_euclidean_division_equations; lia. }
  destruct (_ =? INVALID_READ); [done|]. cbn [negb]. unfold function_info.
  erewrite bind_val; [done|].
  erewrite bind_val by (apply read_word_spec; done || lia).
  erewrite bind_val by (apply read_word_spec; done || lia). done.
Qed.

(** One call of the iterator, from function [i] with [n] functions left. *)
Lemma bus_next_run b w n : ∀ i (fuel : nat), 0 ≤ b < 256 → 0 ≤ i → i + Z.of_nat n = 256 → (n ≤ fuel)%nat →
  match answering w b (seqZ i (Z.of_nat n)) with
  | [] => bus_next fuel (nth_function b i) w = (Val (None, nth_function b 256), w)
  | x :: xs => ∃ j, i < j ≤ 256 ∧ bus_next fuel (nth_function b i) w = (Val (Some x, nth_function b j), w) ∧
      answering w b (seqZ j (256 - j)) = xs
  end.
Proof.
  induction n as [|n IH]; intros i fuel Hb Hi Hn Hf.
  { simpl. replace i with 256 by lia. by destruct fuel. }
  destruct fuel as [|fuel]; [lia|]. rewrite bus_step by lia. rewrite seqZ_cons by lia.
  replace (Z.pred (Z.of_nat (S n))) with (Z.of_nat n) by lia. change (Z.succ i) with (i + 1).
  cbn [answering omap list_omap]. cbv zeta.
  destruct (reg w (nth_function b i) 0 =? INVALID_READ).
  - specialize (IH (i + 1) fuel Hb ltac:(lia) ltac:(lia) ltac:(lia)). fold (answering w b).
    unfold answering in *. destruct (omap _ _); [done|]. destruct IH as (j & Hj & IH). exists j. split; [lia|done].
  - exists (i + 1). split; [lia|]. split; [done|]. by replace (256 - (i + 1)) with (Z.of_nat n) by lia.
Qed.

Lemma bus_collect_run b w n : ∀ i (fuel : nat), 0 ≤ b < 256 → 0 ≤ i → 256 - i = Z.of_nat n → (n < fuel)%nat →
  bus_collect fuel (nth_function b i) w = (Val (answering w b (seqZ i (256 - i))), w).
Proof.
  induction (lt_wf n) as [n _ IH]. intros i fuel Hb Hi Hn Hf. destruct fuel as [|fuel]; [lia|].
  pose proof (bus_next_run b w n i 256 Hb Hi ltac:(lia) ltac:(lia)) as Hr. rewrite Hn.
  cbn [bus_collect]. destruct (answering w b (seqZ i (Z.of_nat n))) as [|x xs].
  - by erewrite bind_val by exact Hr.
  - destruct Hr as (j & Hj & Hr & <-). erewrite bind_val by exact Hr. cbv beta iota.
    erewrite bind_val; [done|]. apply (IH (Z.to_nat (256 - j))); lia.
Qed.

(** *** Base address registers *)
Lemma ldiff_restore v mask : Z.lor (Z.land v mask) (Z.ldiff v mask) = v.
Proof.
  apply Z.bits_inj'. intros i Hi. rewrite Z.lor_spec, Z.land_spec, Z.ldiff_spec.
  by destruct (Z.testbit v i), (Z.testbit mask i).
Qed.

Lemma ldiff_twice a b mask :
  Z.ldiff (Z.lor (Z.land a mask) (Z.ldiff b mask)) mask = Z.ldiff b mask.
Proof.
  apply Z.bits_inj'. intros i Hi. rewrite !Z.ldiff_spec, Z.lor_spec, Z.land_spec, Z.ldiff_spec.
  by destruct (Z.testbit a i), (Z.testbit b i), (Z.testbit mask i).
Qed.

Lemma bar_offset_run {S} i (s : S) : 0 ≤ i < 6 → bar_offset i s = (Val (16 + 4 * i), s).
Proof.
  intros Hi. unfold bar_offset, mul_u, add_u.
  erewrite bind_val by (apply arith_fits; unfold fits; lia).
  apply arith_fits. unfold fits, BAR0_OFFSET. lia.
Qed.

(** Probing: all ones are written, the register is read back and restored. *)
Lemma probe_run df o w : df_ok df → 0 ≤ o < 256 → o mod 4 = 0 → ∃ w1 w2,
  write_word df o 0xffffffff w = (Val tt, w1) ∧
  read_word df o w1 = (Val (Z.lor (Z.land 0xffffffff (writable df o)) (Z.ldiff (reg w df o) (writable df o))), w1) ∧
  write_word df o (reg w df o) w1 = (Val tt, w2) ∧ ∀ df' o', reg w2 df' o' = reg w df' o'.
Proof.
  intros Hdf Ho Ha. destruct (write_word_spec df o 0xffffffff w Hdf Ho Ha) as (w1 & E1 & R1).
  destruct (write_word_spec df o (reg w df o) w1 Hdf Ho Ha) as (w2 & E2 & R2).
  exists w1, w2. split_and!; try done.
  - rewrite read_word_spec by done. by rewrite R1, decide_True.
  - intros df' o'. rewrite R2, !R1. rewrite (decide_True (P := df = df ∧ o = o)) by done.
    case_decide as Hd; [|done]. destruct Hd as [-> ->]. by rewrite ldiff_twice, ldiff_restore.
Qed.

(** The size a register of which the bits from [k] on are writable reports. *)
Lemma size_of_mask k fixed : 4 ≤ k ≤ 32 → 0 ≤ fixed < 2 ^ 4 →
  wrapping_add 32 (Z.lxor 0xffffffff (Z.land
    (Z.lor (Z.land 0xffffffff (2 ^ 32 - 2 ^ k)) (Z.ldiff fixed (2 ^ 32 - 2 ^ k))) 0xfffffff0)) 1 = wrap 32 (2 ^ k).
Proof.
  intros Hk Hf.
  assert (2 ^ 32 - 2 ^ k = Z.shiftl (Z.ones (32 - k)) k) as Em.
  { rewrite Z.shiftl_mul_pow2, Z.ones_equiv by lia. replace (2 ^ 32) with (2 ^ (32 - k) * 2 ^ k); [lia|].
    rewrite <- Z.pow_add_r by lia. f_equal. lia. }
  assert (Z.land (Z.lor (Z.land 0xffffffff (2 ^ 32 - 2 ^ k)) (Z.ldiff fixed (2 ^ 32 - 2 ^ k))) 0xfffffff0 =
    2 ^ 32 - 2 ^ k) as ->.
  { rewrite Em. change 0xfffffff0 with (Z.shiftl (Z.ones 28) 4). change 0xffffffff with (Z.ones 32).
    apply Z.bits_inj'. intros i Hi. rewrite Z.land_spec, Z.lor_spec, Z.land_spec, Z.ldiff_spec, !Z.shiftl_spec by lia.
    destruct (decide (i < k)) as [Hlt|Hge].
    { rewrite (Z.testbit_neg_r (Z.ones (32 - k))) by lia. rewrite andb_false_r. simpl. rewrite andb_true_r.
      destruct (decide (i < 4)); [by rewrite (Z.testbit_neg_r (Z.ones 28)) by lia; rewrite andb_false_r|].
      replace fixed with (fixed mod 2 ^ 4) by (by apply Z.mod_small).
      by rewrite Z.mod_pow2_bits_high by lia. }
    rewrite !Z.testbit_ones by lia.
    destruct (decide (i < 32)).
    - replace (_ && (i <? 32)) with true by (symmetry; rewrite andb_true_iff; lia).
      replace (_ && (i - k <? 32 - k)) with true by (symmetry; rewrite andb_true_iff; lia).
      replace (_ && (i - 4 <? 28)) with true by (symmetry; rewrite andb_true_iff; lia). done.
    - replace (i <? 32) with false by lia. replace (i - k <? 32 - k) with false by lia.
      replace (i - 4 <? 28) with false by lia. by rewrite !andb_false_r. }
  assert (Z.lxor 0xffffffff (2 ^ 32 - 2 ^ k) = 2 ^ k - 1) as ->.
  { rewrite Em. change 0xffffffff with (Z.ones 32). replace (2 ^ k - 1) with (Z.ones k) by (rewrite Z.ones_equiv; lia).
    apply Z.bits_inj'. intros i Hi. rewrite Z.lxor_spec, Z.shiftl_spec by lia.
    destruct (decide (i < k)).
    - rewrite (Z.testbit_neg_r (Z.ones (32 - k))), !Z.ones_spec_low by lia. done.
    - rewrite (Z.ones_spec_high k) by lia. rewrite !Z.testbit_ones by lia.
      destruct (decide (i < 32)); [|replace (i <? 32) with false by lia;
        replace (i - k <? 32 - k) with false by lia; by rewrite !andb_false_r].
      replace (i <? 32) with true by lia. replace (i - k <? 32 - k) with true by lia.
      by rewrite !(proj2 (Z.leb_le _ _)) by lia. }
  unfold wrapping_add. f_equal. lia.
Qed.

Lemma land_low b f m : 0 ≤ f < 16 → 0 ≤ m < 16 → Z.land (b * 16 + f) m = Z.land f m.
Proof.
  intros Hf Hm. change 16 with (2 ^ 4) in *. rewrite <- lor_shiftl by lia.
  rewrite Z.land_lor_distr_l. replace (Z.land (Z.shiftl b 4) m) with 0; [done|].
  symmetry. apply Z.bits_inj'. intros i Hi. rewrite Z.land_spec, Z.bits_0.
  destruct (decide (i < 4)); [by rewrite Z.shiftl_spec_low|].
  replace m with (m mod 2 ^ 4) by (by apply Z.mod_small).
  rewrite Z.mod_pow2_bits_high by lia. apply andb_false_r.
Qed.

Lemma land_high b f : 0 ≤ f < 16 → 0 ≤ b < 2 ^ 28 → Z.land (b * 16 + f) 0xfffffff0 = b * 16.
Proof.
  intros Hf Hb. change 16 with (2 ^ 4) in *. rewrite <- lor_shiftl by lia.
  rewrite Z.land_lor_distr_l. change 0xfffffff0 with (Z.shiftl (Z.ones 28) 4).
  rewrite <- Z.shiftl_land, Z.land_ones, (Z.mod_small b) by lia.
  replace (Z.land f (Z.shiftl (Z.ones 28) 4)) with 0.
  - by rewrite Z.lor_0_r, Z.shiftl_mul_pow2 by lia.
  - symmetry. apply Z.bits_inj'. intros i Hi. rewrite Z.land_spec, Z.bits_0.
    destruct (decide (i < 4)); [by rewrite Z.shiftl_spec_low, andb_false_r by lia|].
    replace f with (f mod 2 ^ 4) by (by apply Z.mod_small). by rewrite Z.mod_pow2_bits_high by lia.
Qed.

Lemma ldiff_base base k f : 4 ≤ k ≤ 32 → 0 ≤ f < 16 → 0 ≤ base * 2 ^ k < 2 ^ 32 →
  Z.ldiff (base * 2 ^ k + f) (2 ^ 32 - 2 ^ k) = Z.ldiff f (2 ^ 32 - 2 ^ k).
Proof.
  intros Hk Hf Hb.
  assert (2 ^ 4 ≤ 2 ^ k) by (apply Z.pow_le_mono_r; lia).
  assert (2 ^ 32 - 2 ^ k = Z.shiftl (Z.ones (32 - k)) k) as ->.
  { rewrite Z.shiftl_mul_pow2, Z.ones_equiv by lia. replace (2 ^ 32) with (2 ^ (32 - k) * 2 ^ k); [lia|].
    rewrite <- Z.pow_add_r by lia. f_equal. lia. }
  rewrite <- lor_shiftl by lia. apply Z.bits_inj'. intros i Hi.
  rewrite !Z.ldiff_spec, Z.lor_spec, !Z.shiftl_spec by lia.
  destruct (decide (i < k)); [by rewrite (Z.testbit_neg_r base) by lia|].
  destruct (decide (i < 32)).
  - rewrite Z.ones_spec_low by lia. by rewrite !andb_false_r.
  - replace (Z.testbit base (i - k)) with (Z.testbit (base * 2 ^ k) i)
      by (rewrite Z.mul_pow2_bits by lia; done).
    replace (base * 2 ^ k) with ((base * 2 ^ k) mod 2 ^ 32) by (by apply Z.mod_small).
    by rewrite Z.mod_pow2_bits_high by lia.
Qed.

(** The flag bits of a memory register. *)
Definition bar_flags (t : MemoryBarType) (prefetchable : bool) : Z :=
  2 * MemoryBarType_as_u8 t + (if prefetchable then 8 else 0).

Lemma bar_flags_decode t p : let f := bar_flags t p in
  0 ≤ f < 16 ∧ Z.land f 1 = 0 ∧ negb (Z.land f 8 =? 0) = p ∧
  MemoryBarType_try_from (wrap 8 (Z.shiftr (Z.land f 6) 1)) = Ok t.
Proof. destruct t, p; vm_compute; split_and!; try done; by intros [=]. Qed.
End bus.

(** ** Theorems *)
Section theorems.
Context `{Profile}.

(** Every register of every function of a bus has an offset in the configuration access
    region, found without panicking, and no two have the same. *)
Theorem cam_offset_injective {S} c df df' r r' (s : S) :
  df_ok df → df_ok df' → 0 ≤ r < 256 → 0 ≤ r' < 256 → r mod 4 = 0 → r' mod 4 = 0 →
  ∃ a a', cam_offset c df r s = (Val a, s) ∧ cam_offset c df' r' s = (Val a', s) ∧
    0 ≤ a < Cam_size c ∧ a mod 4 = 0 ∧ (a = a' → df = df' ∧ r = r').
Proof.
  intros Hd Hd' Hr Hr' Hm Hm'. eexists _, _.
  split; [by apply cam_offset_run|]. split; [by apply cam_offset_run|].
  destruct df as [b d f], df' as [b' d' f']. unfold df_ok in *. simpl in *.
  destruct c; simpl.
  - change (2 ^ 8) with 256. split; [lia|]. split; [Z.to_euclidean_division_equations; lia|].
    intros E. assert (r = r' ∧ f = f' ∧ d = d' ∧ b = b') as (-> & -> & -> & ->); [lia|done].
  - change (2 ^ 12) with 4096. split; [lia|]. split; [Z.to_euclidean_division_equations; lia|].
    intros E. assert (r = r' ∧ f = f' ∧ d = d' ∧ b = b') as (-> & -> & -> & ->); [lia|done].
Qed.

Context {W : Type} `{PciSpec W}.

(** C38. Enumerating a bus ends and lists, in order, exactly the functions whose first word is not
    all ones, with the fields of their headers. *)
Theorem enumerate_bus_complete b w : 0 ≤ b < 256 →
  enumerate_bus b w = (Val (answering w b (seqZ 0 256)), w).
Proof. intros Hb. apply (bus_collect_run b w 256 0 257); lia. Qed.

(** Probing a memory register that decodes [2^k] bytes: its type, whether it is
    prefetchable, its address, with the upper half of a 64-bit one, and its size modulo [2^32]
    are found; a 64-bit register in the last position is refused; every register of every
    function is restored. *)
Theorem bar_info_memory df i w t p base k : df_ok df → 0 ≤ i < 6 → 4 ≤ k ≤ 32 →
  reg w df (16 + 4 * i) = base * 2 ^ k + bar_flags t p → 0 ≤ base →
  writable df (16 + 4 * i) = 2 ^ 32 - 2 ^ k →
  let address := base * 2 ^ k + (if bool_decide (t = Width64) then reg w df (16 + 4 * (i + 1)) * 2 ^ 32 else 0) in
  ∃ w', bar_info df i w =
      (Val (if bool_decide (t = Width64) && (i =? 5) then Err InvalidBarType
            else Ok (MemoryBar t p address (wrap 32 (2 ^ k)))), w') ∧
    ∀ df' o', reg w' df' o' = reg w df' o'.
Proof.
  intros Hdf Hi Hk Hreg Hbase Hw address. destruct (bar_flags_decode t p) as (Hf & F1 & F8 & F6).
  destruct (probe_run df (16 + 4 * i) w Hdf ltac:(lia)) as (w1 & w2 & E1 & E2 & E3 & Hrest).
  { Z.to_euclidean_division_equations; lia. }
  exists w2. split; [|done]. unfold bar_info.
  erewrite bind_val by (by apply bar_offset_run).
  erewrite bind_val by (apply read_word_spec; [done|lia|Z.to_euclidean_division_equations; lia]).
  do 2 (erewrite bind_val by eassumption). cbv zeta. erewrite bind_val by exact E3.
  pose proof (reg_fits w df (16 + 4 * i)) as Hfit. rewrite Hreg, Hw in *.
  assert (∃ b, base * 2 ^ k = b * 16 ∧ 0 ≤ b < 2 ^ 28) as (b & Eb & Hb).
  { exists (base * 2 ^ (k - 4)). replace (2 ^ k) with (2 ^ (k - 4) * 16) in *
      by (change 16 with (2 ^ 4); rewrite <- Z.pow_add_r by lia; f_equal; lia). lia. }
  assert (Z.ldiff (base * 2 ^ k + bar_flags t p) (2 ^ 32 - 2 ^ k) = Z.ldiff (bar_flags t p) (2 ^ 32 - 2 ^ k)) as ->.
  { apply ldiff_base; lia. }
  rewrite size_of_mask by (done || lia). unfold address. rewrite Eb in *.
  rewrite (land_low b _ 1), (land_low b _ 8), (land_low b _ 6), land_high, F1, F8, F6 by lia.
  cbn [Z.eqb].
  case_bool_decide as Ht; simpl.
  - destruct (Z.leb_spec 5 i), (Z.eqb_spec i 5); try lia; [done|]. unfold add_u.
    erewrite bind_val by (apply arith_fits; unfold fits; lia).
    erewrite bind_val by (apply bar_offset_run; lia).
    erewrite bind_val by (apply read_word_spec; [done|lia|Z.to_euclidean_division_equations; lia]).
    rewrite Hrest, Z.lor_comm, lor_shiftl by lia. unfold mret, M_ret. do 4 f_equal. lia.
  - by rewrite Z.add_0_r.
Qed.

(** An I/O register that decodes [2^k] bytes is reported with a size of at least 16 bytes,
    because the mask that isolates the address bits is that of a memory register. *)
Theorem bar_info_io_size df i w base k : df_ok df → 0 ≤ i < 6 → 2 ≤ k ≤ 4 →
  reg w df (16 + 4 * i) = base * 16 + 1 → 0 ≤ base →
  writable df (16 + 4 * i) = 2 ^ 32 - 2 ^ k →
  ∃ w', bar_info df i w = (Val (Ok (IOBar (base * 16) 16)), w').
Proof.
  intros Hdf Hi Hk Hreg Hbase Hw.
  destruct (probe_run df (16 + 4 * i) w Hdf ltac:(lia)) as (w1 & w2 & E1 & E2 & E3 & _).
  { Z.to_euclidean_division_equations; lia. }
  exists w2. unfold bar_info. erewrite bind_val by (by apply bar_offset_run).
  erewrite bind_val by (apply read_word_spec; [done|lia|Z.to_euclidean_division_equations; lia]).
  do 2 (erewrite bind_val by eassumption). cbv zeta. erewrite bind_val by exact E3.
  pose proof (reg_fits w df (16 + 4 * i)) as Hfit. rewrite Hreg, Hw in *.
  assert (Z.land (base * 16 + 1) 0xfffffffc = base * 16) as ->.
  { replace 0xfffffffc with (Z.lor 0xfffffff0 12) by done.
    rewrite Z.land_lor_distr_r, land_high, land_low by lia. apply Z.lor_0_r. }
  rewrite (land_low base 1 1) by lia. cbn [Z.eqb Z.land]. do 4 f_equal.
  replace (Z.land (Z.lor _ _) 0xfffffff0) with 0xfffffff0; [done|].
  rewrite Z.land_lor_distr_l. rewrite <- Z.land_assoc.
  replace (Z.land (2 ^ 32 - 2 ^ k) 0xfffffff0) with 0xfffffff0
    by (assert (k = 2 ∨ k = 3 ∨ k = 4) as [-> | [-> | ->]] by lia; done).
  change (Z.land 0xffffffff 0xfffffff0) with 0xfffffff0.
  apply Z.bits_inj'. intros j Hj. rewrite Z.lor_spec, Z.land_spec, Z.ldiff_spec.
  destruct (Z.testbit 0xfffffff0 j) eqn:Ej; [done|]. by rewrite andb_false_r.
Qed.

(** *** Capabilities *)

(** The header of the capability at [o], and the one that follows it. *)
Definition cap_at (w : W) (df : DeviceFunction) (o : Z) : CapabilityInfo :=
  mkCapabilityInfo o (wrap 8 (reg w df o)) (wrap 16 (Z.shiftr (reg w df o) 16)).
Definition cap_next (w : W) (df : DeviceFunction) (o : Z) : option Z :=
  let n := wrap 8 (Z.shiftr (reg w df o) 8) in
  if (n =? 0) || (n <? 64) || negb (Z.land n 3 =? 0) then None else Some n.

(** [l] is the list of capabilities from [o] on. *)
Fixpoint cap_list (w : W) (df : DeviceFunction) (o : option Z) (l : list Z) : Prop :=
  match l, o with
  | [], None => True
  | x :: l, Some y => x = y ∧ cap_list w df (cap_next w df y) l
  | _, _ => False
  end.

Lemma cap_next_ok w df o n : cap_next w df o = Some n → 0 ≤ n < 256 ∧ n mod 4 = 0.
Proof.
  unfold cap_next. pose proof (wrap_fits 8 (Z.shiftr (reg w df o) 8)) as Hf. unfold fits in Hf.
  destruct (_ || _ || negb _) eqn:E; [done|]. intros [= <-]. apply orb_false_iff in E as [_ E].
  split; [lia|]. apply negb_false_iff, Z.eqb_eq in E. by rewrite (land_mask 2) in E by lia.
Qed.

Lemma capability_next_run df w o : df_ok df → 0 ≤ o < 256 → o mod 4 = 0 →
  capability_next df (Some o) w = (Val (Some (cap_at w df o), cap_next w df o), w).
Proof.
  intros Hdf Ho Ha. unfold capability_next. erewrite bind_val by (by apply read_word_spec).
  unfold cap_next, cap_at, mret, M_ret. cbv zeta. do 4 f_equal.
  destruct (_ =? 0); [done|]. by destruct (_ <? 64), (negb _).
Qed.

(** The status register announces a list of capabilities; where it starts. *)
Definition has_capabilities (w : W) (df : DeviceFunction) : bool :=
  contains (truncate_flags PciStatus.all (wrap 16 (Z.shiftr (reg w df 4) 16))) PciStatus.CAPABILITIES_LIST.
Definition first_cap (w : W) (df : DeviceFunction) : Z := wrap 8 (Z.land (reg w df 0x34) 0xfc).

Lemma first_cap_ok w df : 0 ≤ first_cap w df < 256 ∧ first_cap w df mod 4 = 0.
Proof.
  unfold first_cap. split; [apply (wrap_fits 8); lia|]. unfold wrap.
  rewrite <- (land_mask 8), <- (land_mask 2), <- !Z.land_assoc by lia.
  change (Z.land 0xfc (Z.land (2 ^ 8 - 1) (2 ^ 2 - 1))) with 0. apply Z.land_0_r.
Qed.

Lemma capabilities_offset_run df w : df_ok df →
  capabilities_offset df w = (Val (if has_capabilities w df then Some (first_cap w df) else None), w).
Proof.
  intros Hdf. unfold capabilities_offset, get_status_command.
  erewrite bind_val by (erewrite bind_val by (apply read_word_spec; [done|unfold STATUS_COMMAND_OFFSET; lia|done]); reflexivity).
  cbv beta iota. unfold STATUS_COMMAND_OFFSET. fold (has_capabilities w df).
  destruct (has_capabilities w df); [|done].
  by erewrite bind_val by (apply read_word_spec; [done|lia|done]).
Qed.

Lemma capability_collect_run df w l : ∀ o fuel, df_ok df → (∀ x, o = Some x → 0 ≤ x < 256 ∧ x mod 4 = 0) →
  cap_list w df o l → (length l < fuel)%nat →
  capability_collect fuel df o w = (Val (cap_at w df <$> l), w).
Proof.
  induction l as [|x l IH]; intros o fuel Hdf Ho Hl Hf; (destruct fuel as [|fuel]; [lia|]); cbn [capability_collect].
  - destruct o; [done|]. done.
  - destruct o as [y|]; [|done]. destruct Hl as [-> Hl]. destruct (Ho y eq_refl) as [Hy Hya].
    erewrite bind_val by (by apply capability_next_run). cbv beta iota.
    erewrite bind_val; [done|]. apply IH; [done| |done|simpl in Hf; lia].
    intros n Hn. by apply (cap_next_ok w df y).
Qed.

(** The capabilities of a function whose list ends are all found, in order; a function whose
    list leads from a capability back to itself makes the iterator run forever. *)
Theorem capabilities_walk df w : df_ok df → has_capabilities w df = true →
  (∀ l fuel, cap_list w df (Some (first_cap w df)) l → (length l < fuel)%nat →
     capabilities fuel df w = (Val (cap_at w df <$> l), w)) ∧
  (∀ fuel, cap_next w df (first_cap w df) = Some (first_cap w df) →
     ∃ w', capabilities fuel df w = (Hang, w')).
Proof.
  intros Hdf Hst. pose proof (first_cap_ok w df) as Hfirst.
  pose proof (capabilities_offset_run df w Hdf) as Ho. rewrite Hst in Ho.
  split.
  - intros l fuel Hl Hf. unfold capabilities. erewrite bind_val by exact Ho.
    apply capability_collect_run; try done. by intros x [= <-].
  - intros fuel Hc. unfold capabilities. erewrite bind_val by exact Ho. exists w.
    induction fuel as [|fuel IH]; [done|]. cbn [capability_collect].
    erewrite bind_val by (apply capability_next_run; tauto). cbv beta iota. rewrite Hc.
    by apply bind_hang.
Qed.
End theorems.

(** ** A concrete configuration space

    A function 1.0 on bus 0 with a memory register of 4096 bytes, an I/O register of 8 bytes
    and two capabilities; nothing else answers. *)
Module FakePci.
Definition World : Type := DeviceFunction → Z → Z.

Definition mask (o : Z) : Z := if o =? 0x10 then 0xfffff000 else if o =? 0x14 then 0xfffffff8 else 0.
Definition fun0 : DeviceFunction := mkDeviceFunction 0 1 0.

Definition w0 : World := λ df o,
  if bool_decide (df = fun0) then
    match o with
    | 0 => 0x10421af4
    | 4 => 0x00100007
    | 8 => 0x02000001
    | 0x10 => 0xfe001008
    | 0x14 => 0xc041
    | 0x34 => 0x40
    | 0x40 => 0x01105009
    | 0x50 => 0x02140009
    | _ => 0
    end
  else INVALID_READ.

#[global] Instance access : ConfigurationAccess World := {|
  read_word := λ df o w, (Val (Z.land (w df o) (Z.ones 32)), w);
  write_word := λ df o v w, (Val tt, λ df' o',
    if decide (df' = df ∧ o' = o)
    then Z.lor (Z.land v (mask o)) (Z.ldiff (Z.land (w df o) (Z.ones 32)) (mask o)) else w df' o')
|}.

Lemma mask_ones o : Z.land (mask o) (Z.ones 32) = mask o.
Proof. unfold mask. by repeat destruct (_ =? _). Qed.

#[global, refine] Instance spec : PciSpec World := {|
  reg w df o := Z.land (w df o) (Z.ones 32);
  writable df o := mask o
|}.
Proof.
  - intros w df o. rewrite Z.land_ones by lia. apply Z.mod_pos_bound. lia.
  - done.
  - intros df o v w _ _ _. eexists. split; [done|]. intros df' o'. simpl. case_decide; [|done].
    rewrite <- (mask_ones o). generalize (mask o). intros m.
    apply Z.bits_inj'. intros i Hi.
    rewrite !Z.land_spec, !Z.lor_spec, !Z.land_spec, !Z.ldiff_spec, !Z.land_spec.
    by destruct (Z.testbit v i), (Z.testbit m i), (Z.testbit (w df o) i), (Z.testbit (Z.ones 32) i).
Defined.
End FakePci.

Section witnesses.
Import FakePci.
#[local] Instance checked : Profile := {| overflow_checks := true; debug_assertions := true |}.

Lemma fun0_ok : df_ok fun0.
Proof. unfold df_ok, fun0. simpl. lia. Qed.

Lemma cam_offset_injective_witness : ∃ a a',
  cam_offset CamEcam fun0 0x10 tt = (Val a, tt) ∧ cam_offset CamEcam fun0 0x14 tt = (Val a', tt) ∧ a ≠ a'.
Proof.
  destruct (cam_offset_injective CamEcam fun0 fun0 0x10 0x14 tt) as (a & a' & E & E' & _ & _ & Hne);
    [apply fun0_ok|apply fun0_ok|lia|lia|reflexivity|reflexivity|].
  exists a, a'. split; [exact E|]. split; [exact E'|]. intros Ha. by apply Hne in Ha as [_ Ha].
Defined.

Lemma enumerate_bus_complete_witness : enumerate_bus 0 w0 =
  (Val [(fun0, mkDeviceFunctionInfo 0x1af4 0x1042 2 0 0 1 Standard)], w0).
Proof.
  rewrite (enumerate_bus_complete 0 w0) by lia. vm_compute. reflexivity.
Defined.

Lemma bar_info_memory_witness : ∃ w', bar_info fun0 0 w0 =
  (Val (Ok (MemoryBar Width32 true 0xfe001000 4096)), w').
Proof.
  destruct (bar_info_memory fun0 0 w0 Width32 true 0xfe001 12) as (w' & E & _);
    [apply fun0_ok|lia|lia|reflexivity|lia|reflexivity|].
  exists w'. exact E.
Defined.

Lemma bar_info_io_size_witness : ∃ w', bar_info fun0 1 w0 = (Val (Ok (IOBar 0xc040 16)), w').
Proof.
  apply (bar_info_io_size fun0 1 w0 0xc04 3); [apply fun0_ok|lia|lia|reflexivity|lia|reflexivity].
Defined.

Lemma capabilities_walk_witness : capabilities 3 fun0 w0 =
  (Val [mkCapabilityInfo 0x40 9 0x110; mkCapabilityInfo 0x50 9 0x214], w0).
Proof.
  assert (has_capabilities w0 fun0 = true) as Hc by (vm_compute; reflexivity).
  apply (capabilities_walk fun0 w0 fun0_ok Hc) with (l := [0x40; 0x50]); [|simpl; lia].
  vm_compute. tauto.
Defined.
End witnesses.
