(* ===== verification/ExamplePci.v ===== *)
(** * PCI set-up of the aarch64 example

    [examples/aarch64/src/main.rs]: the 32-bit memory range that the device tree gives, the
    allocator that hands out parts of it, and the assignment of addresses to the base address
    registers of a device. *)

From S2P Require Import Prelude Base QueueData PciBus PciBusProps.

(** ** Ranges of the device tree *)
Inductive PciRangeType := ConfigurationSpace | IoSpace | Memory32 | Memory64.

Definition PciRangeType_from {S} (value : Z) : M S PciRangeType :=
  match value with
  | 0 => mret ConfigurationSpace
  | 1 => mret IoSpace
  | 2 => mret Memory32
  | 3 => mret Memory64
  | _ => panic
  end.

(** An item of [FdtNode::ranges]: its fields are those the code reads. *)
Record MemoryRange := mkMemoryRange {
  child_bus_address_hi : Z;
  child_bus_address : Z;
  parent_bus_address : Z;
  range_size : Z
}.

(** ** The allocator *)
Module PciMemory32Allocator.
Record PciMemory32Allocator := mkPciMemory32Allocator { start : Z; end_ : Z }.

(** [u32::try_from(x).unwrap()]. *)
Definition u32 {S} (x : Z) : M S Z := assert (fitsb 32 x);; mret x.

Section allocator.
Context `{Profile}.

(** A round of the loop over the ranges, on [memory_32_address] and [memory_32_size]. *)
Definition range_round {S} (range : MemoryRange) (best : Z * Z) : M S (Z * Z) :=
  let prefetchable := negb (Z.land (child_bus_address_hi range) 0x40000000 =? 0) in
  range_type ← PciRangeType_from (Z.shiftr (Z.land (child_bus_address_hi range) 0x03000000) 24);
  let bus_address := child_bus_address range in
  let cpu_physical := parent_bus_address range in
  let size := range_size range in
  if negb prefetchable
    && match range_type with Memory32 | Memory64 => true | _ => false end
    && (best.2 <? size)
  then
    top ← add_u 64 bus_address size;
    if top <? 2 ^ 32 - 1 then
      assert (bus_address =? cpu_physical);;
      a ← u32 cpu_physical;
      n ← u32 size;
      mret (a, n)
    else mret best
  else mret best.

Fixpoint ranges_loop {S} (ranges : list MemoryRange) (best : Z * Z) : M S (Z * Z) :=
  match ranges with
  | [] => mret best
  | range :: ranges => best ← range_round range best; ranges_loop ranges best
  end.

Definition for_pci_ranges {S} (ranges : list MemoryRange) : M S PciMemory32Allocator :=
  '(memory_32_address, memory_32_size) ← ranges_loop ranges (0, 0);
  if memory_32_size =? 0 then panic else
  e ← add_u 32 memory_32_address memory_32_size;
  mret (mkPciMemory32Allocator memory_32_address e).

Definition align_up {S} (value alignment : Z) : M S Z :=
  v ← sub_u 32 value 1;
  a ← sub_u 32 alignment 1;
  add_u 32 (Z.lor v a) 1.

Definition allocate_memory_32 (size : Z) : M PciMemory32Allocator Z :=
  assert (is_power_of_two size);;
  s ← gets start;
  allocated_address ← align_up s size;
  top ← add_u 32 allocated_address size;
  e ← gets end_;
  assert (top <=? e);;
  top' ← add_u 32 allocated_address size;
  modify (λ a, mkPciMemory32Allocator top' (end_ a));;
  mret allocated_address.
End allocator.
End PciMemory32Allocator.
Abbreviation PciMemory32Allocator := PciMemory32Allocator.PciMemory32Allocator.

(** ** Assignment of addresses *)
Section bars.
Context `{Profile} {W : Type} `{ConfigurationAccess W}.
Abbreviation St := (PciMemory32Allocator * W)%type.



End bars.

(** ** Alignment *)

(** The least multiple of [n] that is at least [x]. *)
Definition round_up (x n : Z) : Z := (x + n - 1) / n * n.

Lemma round_up_spec x n : 0 < n → x ≤ round_up x n < x + n ∧ (n | round_up x n).
Proof.
  intros Hn. unfold round_up. pose proof (Z.div_mod (x + n - 1) n ltac:(lia)).
  pose proof (Z.mod_pos_bound (x + n - 1) n Hn). split; [nia|apply Z.divide_factor_r].
Qed.

Lemma lor_low_ones x k : 0 ≤ k → Z.lor x (2 ^ k - 1) = x / 2 ^ k * 2 ^ k + (2 ^ k - 1).
Proof.
  intros Hk. pose proof (Z.pow_pos_nonneg 2 k). rewrite <- lor_shiftl by lia.
  rewrite <- Z.shiftr_div_pow2 by done. replace (2 ^ k - 1) with (Z.ones k) by (rewrite Z.ones_equiv; lia).
  apply Z.bits_inj'. intros i Hi. rewrite !Z.lor_spec. destruct (decide (i < k)).
  - by rewrite Z.ones_spec_low, !orb_true_r by lia.
  - rewrite Z.shiftl_spec, Z.shiftr_spec by lia. by replace (i - k + k) with i by lia.
Qed.

Lemma lor_round_up x n : is_power_of_two n = true → Z.lor (x - 1) (n - 1) + 1 = round_up x n.
Proof.
  intros (k & Hk & ->)%power_of_two_eq. pose proof (Z.pow_pos_nonneg 2 k).
  rewrite lor_low_ones by done. unfold round_up.
  replace (x + 2 ^ k - 1) with (x - 1 + 1 * 2 ^ k) by lia. rewrite Z.div_add by lia. lia.
Qed.

Module AllocatorLemmas.
Import PciMemory32Allocator.
Section allocator.
Context `{Profile}.

Lemma align_up_32_run {S} x n (s : S) : is_power_of_two n = true → 1 ≤ x < 2 ^ 32 → n < 2 ^ 32 →
  round_up x n < 2 ^ 32 → align_up x n s = (Val (round_up x n), s).
Proof.
  intros Hp Hx Hn Hr. pose proof (power_of_two_eq n Hp) as (k & Hk & ->).
  pose proof (Z.pow_pos_nonneg 2 k). pose proof (round_up_spec x (2 ^ k)).
  unfold align_up, sub_u, add_u.
  erewrite bind_val by (apply arith_fits; unfold fits; lia).
  erewrite bind_val by (apply arith_fits; unfold fits; lia).
  rewrite lor_round_up by done. apply arith_fits. unfold fits. lia.
Qed.

(** Without an address in 32 bits the addition overflows. *)
Lemma align_up_overflow {S} x n (s : S) : overflow_checks = true → is_power_of_two n = true →
  1 ≤ x < 2 ^ 32 → n < 2 ^ 32 → 2 ^ 32 ≤ round_up x n → align_up x n s = (Panic, s).
Proof.
  intros Hc Hp Hx Hn Hr. pose proof (power_of_two_eq n Hp) as (k & Hk & ->).
  pose proof (Z.pow_pos_nonneg 2 k). unfold align_up, sub_u, add_u.
  erewrite bind_val by (apply arith_fits; unfold fits; lia).
  erewrite bind_val by (apply arith_fits; unfold fits; lia).
  rewrite lor_round_up by done. apply arith_overflow; [unfold fits; lia|done].
Qed.

(** What the allocator does, on every path: [start] is not zero, and the range is inside the
    32-bit address space. *)
Definition alloc_ok (a : PciMemory32Allocator) : Prop := 1 ≤ start a ∧ end_ a < 2 ^ 32.
Definition fits_range (a : PciMemory32Allocator) (size : Z) : bool :=
  is_power_of_two size && (round_up (start a) size + size <=? end_ a).
Definition allocated (a : PciMemory32Allocator) (size : Z) : PciMemory32Allocator :=
  mkPciMemory32Allocator (round_up (start a) size + size) (end_ a).

Lemma allocate_run size a : alloc_ok a → fits_range a size = true →
  allocate_memory_32 size a = (Val (round_up (start a) size), allocated a size).
Proof.
  intros [Hs He] [Hp Hr%Z.leb_le]%andb_true_iff. pose proof (power_of_two_eq size Hp) as (k & Hk & Hsz).
  pose proof (Z.pow_pos_nonneg 2 k). pose proof (round_up_spec (start a) size ltac:(lia)).
  unfold allocate_memory_32, add_u. rewrite Hp. erewrite bind_val by done. erewrite bind_val by done.
  erewrite bind_val by (apply align_up_32_run; [done|lia..]).
  erewrite bind_val by (apply arith_fits; unfold fits; lia). erewrite bind_val by done.
  rewrite (proj2 (Z.leb_le _ _)) by done. erewrite bind_val by done.
  by erewrite bind_val by (apply arith_fits; unfold fits; lia).
Qed.

Lemma allocate_panics size a : overflow_checks = true → alloc_ok a → start a < 2 ^ 32 →
  size < 2 ^ 32 → fits_range a size = false → allocate_memory_32 size a = (Panic, a).
Proof.
  intros Hc [Hs He] Hs' Hn Hf. unfold fits_range in Hf. unfold allocate_memory_32, add_u.
  destruct (is_power_of_two size) eqn:Hp; cbn in Hf; [|by apply bind_panic].
  apply Z.leb_gt in Hf. pose proof (power_of_two_eq size Hp) as (k & Hk & Hsz).
  pose proof (Z.pow_pos_nonneg 2 k). pose proof (round_up_spec (start a) size ltac:(lia)).
  erewrite bind_val by done. erewrite bind_val by done.
  destruct (decide (round_up (start a) size < 2 ^ 32)) as [Hr|Hr].
  - erewrite bind_val by (apply align_up_32_run; [done|lia..]).
    destruct (decide (round_up (start a) size + size < 2 ^ 32)).
    + erewrite bind_val by (apply arith_fits; unfold fits; lia). erewrite bind_val by done.
      rewrite (proj2 (Z.leb_gt _ _)) by done. by apply bind_panic.
    + apply bind_panic, arith_overflow; [unfold fits; lia|done].
  - apply bind_panic, align_up_overflow; [done..|lia|lia|lia].
Qed.

(** A successful call, whatever the arguments. *)
Lemma allocate_inv size a x a' : overflow_checks = true → alloc_ok a → start a < 2 ^ 32 →
  size < 2 ^ 32 → allocate_memory_32 size a = (Val x, a') →
  x = round_up (start a) size ∧ a' = allocated a size ∧ fits_range a size = true.
Proof.
  intros Hc Ha Hs Hn E. destruct (fits_range a size) eqn:Hf.
  - rewrite allocate_run in E by done. by simplify_eq.
  - by rewrite allocate_panics in E by done.
Qed.

End allocator.
End AllocatorLemmas.
Import AllocatorLemmas.

(** ** The range *)
Section ranges.
Context `{Profile}.
Import PciMemory32Allocator.

(** Non-prefetchable memory whose end fits into 32 bits. *)
Definition space (r : MemoryRange) : Z := Z.land (Z.shiftr (child_bus_address_hi r) 24) 3.
Definition usable (r : MemoryRange) : bool :=
  (Z.land (child_bus_address_hi r) 0x40000000 =? 0) && (2 <=? space r) &&
  (child_bus_address r + range_size r <? 2 ^ 32 - 1).

(** A range that a device tree describes: inside the 64-bit address space, and the usable ones
    are mapped one to one. *)
Definition range_ok (r : MemoryRange) : Prop :=
  0 ≤ child_bus_address r ∧ 0 ≤ range_size r ∧ child_bus_address r + range_size r < 2 ^ 64 ∧
  (usable r = true → parent_bus_address r = child_bus_address r).

Definition better (best : Z * Z) (r : MemoryRange) : Z * Z :=
  if usable r && (best.2 <? range_size r) then (child_bus_address r, range_size r) else best.

Lemma space_type {S} r (s : S) : ∃ t,
  PciRangeType_from (Z.shiftr (Z.land (child_bus_address_hi r) 0x03000000) 24) s = (Val t, s) ∧
  match t with Memory32 | Memory64 => true | _ => false end = (2 <=? space r).
Proof.
  rewrite Z.shiftr_land. change (Z.shiftr 0x03000000 24) with 3. unfold space.
  set (x := Z.land (Z.shiftr (child_bus_address_hi r) 24) 3).
  assert (0 ≤ x < 4) as Hx.
  { unfold x. change 3 with (Z.ones 2). rewrite Z.land_ones by done. by apply Z.mod_pos_bound. }
  clearbody x. assert (x = 0 ∨ x = 1 ∨ x = 2 ∨ x = 3) as [-> | [-> | [-> | ->]]] by lia; by eexists.
Qed.

Lemma range_round_run {S} r best (s : S) : range_ok r → range_round r best s = (Val (better best r), s).
Proof.
  intros (Hb & Hn & Hf & Hsame). unfold range_round, better, u32.
  destruct (space_type r s) as (t & E & Ht). erewrite bind_val by exact E. cbv beta.
  rewrite Ht, negb_involutive. unfold usable in *.
  destruct (_ && (2 <=? _)); cbn [andb] in *; [|done].
  destruct (best.2 <? range_size r) eqn:Hlt; [|by rewrite andb_false_r]. rewrite andb_true_r.
  erewrite bind_val by (apply arith_fits; unfold fits; lia).
  destruct (_ <? 2 ^ 32 - 1) eqn:Htop; [|done]. apply Z.ltb_lt in Htop. rewrite Hsame by done.
  rewrite Z.eqb_refl. erewrite bind_val by done.
  rewrite !(proj2 (fitsb_spec 32 _)) by (unfold fits; lia). done.
Qed.

Lemma ranges_loop_run {S} rs best (s : S) : Forall range_ok rs →
  ranges_loop rs best s = (Val (foldl better best rs), s).
Proof.
  intros Hrs. revert best. induction Hrs as [|r rs Hr Hrs IH]; intros best; [done|]. cbn [ranges_loop foldl].
  by erewrite bind_val by by apply range_round_run.
Qed.

(** The best range is none of them, or the largest usable one. *)
Lemma foldl_better rs best : let b := foldl better best rs in
  (b = best ∨ ∃ r, r ∈ rs ∧ usable r = true ∧ b = (child_bus_address r, range_size r) ∧ best.2 < range_size r) ∧
  best.2 ≤ b.2 ∧ ∀ r, r ∈ rs → usable r = true → range_size r ≤ b.2.
Proof.
  revert best. induction rs as [|r rs IH]; intros best; cbn [foldl].
  { split_and!; [by left|lia|]. by intros r ?%not_elem_of_nil. }
  destruct (IH (better best r)) as (H1 & H2 & H3). set (b := foldl better (better best r) rs) in *.
  clearbody b. unfold better in H1, H2. destruct (usable r && (best.2 <? range_size r)) eqn:Hb; cbn in *.
  - apply andb_true_iff in Hb as [Hu Hlt%Z.ltb_lt]. split_and!; [|lia|].
    + right. destruct H1 as [-> | (r' & Hin & Hu' & -> & Hl)]; [exists r|exists r'];
        split_and!; try done; [apply list_elem_of_here|by apply list_elem_of_further|lia].
    + intros r' [-> | Hin]%elem_of_cons Hu'; [lia|by apply H3].
  - split_and!; [|lia|].
    + destruct H1 as [-> | (r' & Hin & Hu' & -> & Hl)]; [by left|right]. exists r'.
      split_and!; try done. by apply list_elem_of_further.
    + intros r' [-> | Hin]%elem_of_cons Hu'; [|by apply H3]. rewrite Hu' in Hb. cbn in Hb.
      apply Z.ltb_ge in Hb. lia.
Qed.
End ranges.

(** ** Registers *)


Section shape.
Context `{Profile} {W : Type} `{PciSpec W}.




End shape.




Section rounds.
Context `{Profile} {W : Type} `{PciSpec W}.
Import PciMemory32Allocator.
















End rounds.




Section total.
Context `{Profile} {W : Type} `{PciSpec W}.





End total.

(** ** Theorems *)
Section theorems.
Context `{Profile} {W : Type} `{PciSpec W}.
Import PciMemory32Allocator.

(** [PciMemory32Allocator::for_pci_ranges] takes the largest range of non-prefetchable memory that
    lies below 4 GiB, if there is one that is not empty, and panics otherwise. *)
Theorem for_pci_ranges_largest {S} rs (s : S) : Forall range_ok rs →
  (∃ r, r ∈ rs ∧ usable r = true ∧ 0 < range_size r ∧
    (∀ r', r' ∈ rs → usable r' = true → range_size r' ≤ range_size r) ∧
    for_pci_ranges rs s =
    (Val (mkPciMemory32Allocator (child_bus_address r) (child_bus_address r + range_size r)), s)) ∨
  (∀ r, r ∈ rs → usable r = true → range_size r = 0) ∧ for_pci_ranges rs s = (Panic, s).
Proof.
  intros Hrs. unfold for_pci_ranges, add_u. erewrite bind_val by by apply ranges_loop_run.
  destruct (foldl_better rs (0, 0)) as ([E|(r & Hin & Hu & E & Hn)] & _ & Hmax); rewrite E in *; cbn in *.
  - right. split; [|done]. intros r Hin Hu. pose proof (Hmax r Hin Hu).
    rewrite Forall_forall in Hrs. destruct (Hrs r Hin). lia.
  - left. exists r. split_and!; try done. rewrite (proj2 (Z.eqb_neq _ 0)) by lia.
    rewrite Forall_forall in Hrs. destruct (Hrs r Hin) as (Hb & _).
    unfold usable in Hu. apply andb_true_iff in Hu as [_ Hu%Z.ltb_lt].
    by erewrite bind_val by (apply arith_fits; unfold fits; lia).
Qed.

End theorems.

(** Where overflows are not checked, as in a release build: when the next aligned address is the end
    of the 32-bit address space, [align_up] wraps around, and the allocator hands out address 0, below
    its range, and goes back to [size]. *)
Theorem allocate_wraps `{Profile} a size : overflow_checks = false → alloc_ok a →
  PciMemory32Allocator.start a < 2 ^ 32 → is_power_of_two size = true →
  round_up (PciMemory32Allocator.start a) size = 2 ^ 32 → size ≤ PciMemory32Allocator.end_ a →
  PciMemory32Allocator.allocate_memory_32 size a =
  (Val 0, PciMemory32Allocator.mkPciMemory32Allocator size (PciMemory32Allocator.end_ a)).
Proof.
  intros Hc [Hs He] Hs' Hp Hr Hn. pose proof (power_of_two_eq size Hp) as (k & Hk & Hsz).
  pose proof (Z.pow_pos_nonneg 2 k).
  unfold PciMemory32Allocator.allocate_memory_32, PciMemory32Allocator.align_up, sub_u, add_u.
  rewrite Hp. erewrite bind_val by done. erewrite bind_val by done. erewrite bind_val.
  2: { erewrite bind_val by (apply arith_fits; unfold fits; lia).
    erewrite bind_val by (apply arith_fits; unfold fits; lia). rewrite lor_round_up, Hr by done.
    unfold arith. rewrite Hc. reflexivity. }
  change (wrap 32 (2 ^ 32)) with 0. rewrite Z.add_0_l.
  erewrite bind_val by (apply arith_fits; unfold fits; lia). erewrite bind_val by done.
  rewrite (proj2 (Z.leb_le _ _)) by done. erewrite bind_val by done.
  by erewrite bind_val by (apply arith_fits; unfold fits; lia).
Qed.

(** ** Witnesses *)
Section witnesses.
Import PciMemory32Allocator FakePci.

Lemma allocate_wraps_witness :
  allocate_memory_32 (H := {| overflow_checks := false; debug_assertions := false |})
    (2 ^ 31) (mkPciMemory32Allocator (2 ^ 31 + 4096) (2 ^ 32 - 4096)) =
  (Val 0, mkPciMemory32Allocator (2 ^ 31) (2 ^ 32 - 4096)).
Proof.
  apply (allocate_wraps (H := {| overflow_checks := false; debug_assertions := false |})
    (mkPciMemory32Allocator (2 ^ 31 + 4096) (2 ^ 32 - 4096)) (2 ^ 31)); try reflexivity.
  - split; vm_compute; congruence.
  - vm_compute. congruence.
Defined.

#[local] Instance checked : Profile := {| overflow_checks := true; debug_assertions := true |}.

(** The ranges that qemu describes: I/O, 32-bit memory and 64-bit memory. *)
Definition qemu_ranges : list MemoryRange := [
  mkMemoryRange 0x01000000 0 0x3eff0000 0x10000;
  mkMemoryRange 0x02000000 0x10000000 0x10000000 0x2eff0000;
  mkMemoryRange 0x03000000 0x8000000000 0x8000000000 0x8000000000].

Lemma for_pci_ranges_largest_witness :
  for_pci_ranges qemu_ranges tt = (Val (mkPciMemory32Allocator 0x10000000 0x3eff0000), tt).
Proof.
  destruct (for_pci_ranges_largest qemu_ranges tt) as [(r & Hin & Hu & _ & _ & E)|[Hno _]].
  - repeat (apply Forall_cons; split; [split_and!; vm_compute; congruence|]). apply Forall_nil_2.
  - rewrite E. repeat (apply elem_of_cons in Hin as [-> | Hin]; [try discriminate Hu; reflexivity|]).
    by apply not_elem_of_nil in Hin.
  - specialize (Hno (mkMemoryRange 0x02000000 0x10000000 0x10000000 0x2eff0000)). exfalso.
    assert (0x2eff0000 = 0) as E; [|discriminate E]. apply Hno; [|reflexivity].
    apply list_elem_of_further, list_elem_of_here.
Defined.

End witnesses.
