(* ===== verification/Mmio.v ===== *)
(** * The MMIO transport

    [src/src/transport/mmio.rs]: the register block [VirtIOHeader] and [MmioTransport], an
    implementation of [Transport] over it. *)

From S2P Require Import Prelude Base Transport QueueData Bytes Volatile.

Module Mmio.

Definition MAGIC_VALUE : Z := 0x74726976.
Definition LEGACY_VERSION : Z := 1.
Definition MODERN_VERSION : Z := 2.
Definition CONFIG_SPACE_OFFSET : Z := 0x100.

Inductive MmioError :=
| BadMagic (magic : Z)
| UnsupportedVersion (version : Z)
| ZeroDeviceId
| MmioRegionTooSmall.

Inductive MmioVersion := VLegacy | VModern.

Definition MmioVersion_try_from (version : Z) : result MmioVersion MmioError :=
  if version =? LEGACY_VERSION then Ok VLegacy
  else if version =? MODERN_VERSION then Ok VModern
  else Err (UnsupportedVersion version).
Definition MmioVersion_as_u32 (v : MmioVersion) : Z :=
  match v with VLegacy => LEGACY_VERSION | VModern => MODERN_VERSION end.

(** ** Registers *)
Inductive Reg :=
| magic | version | device_id | vendor_id | device_features | device_features_sel | r1
| driver_features | driver_features_sel | legacy_guest_page_size | r2 | queue_sel
| queue_num_max | queue_num | legacy_queue_align | legacy_queue_pfn | queue_ready | r3
| queue_notify | r4 | interrupt_status | interrupt_ack | r5 | status | r6
| queue_desc_low | queue_desc_high | r7 | queue_driver_low | queue_driver_high | r8
| queue_device_low | queue_device_high | r9 | config_generation.

#[global] Instance Reg_eq_dec : EqDecision Reg.
Proof. solve_decision. Defined.

Definition VirtIOHeader : list (Reg * Z) :=
  [(magic, 4); (version, 4); (device_id, 4); (vendor_id, 4); (device_features, 4);
   (device_features_sel, 4); (r1, 8); (driver_features, 4); (driver_features_sel, 4);
   (legacy_guest_page_size, 4); (r2, 4); (queue_sel, 4); (queue_num_max, 4); (queue_num, 4);
   (legacy_queue_align, 4); (legacy_queue_pfn, 4); (queue_ready, 4); (r3, 8);
   (queue_notify, 4); (r4, 12); (interrupt_status, 4); (interrupt_ack, 4); (r5, 8);
   (status, 4); (r6, 12); (queue_desc_low, 4); (queue_desc_high, 4); (r7, 8);
   (queue_driver_low, 4); (queue_driver_high, 4); (r8, 8); (queue_device_low, 4);
   (queue_device_high, 4); (r9, 84); (config_generation, 4)].

(** ** The transport *)
Record MmioTransport := mkMmio { header : Z; mmio_version : MmioVersion; config_space_size : Z }.

Section mmio.
Context `{Profile} {W : Type} `{Volatile W}.
Abbreviation St := (MmioTransport * W)%type.

Definition new (hdr mmio_size : Z) : M W (result MmioTransport MmioError) :=
  m ← volread VirtIOHeader hdr magic;
  if negb (m =? MAGIC_VALUE) then mret (Err (BadMagic m)) else
  d ← volread VirtIOHeader hdr device_id;
  if d =? 0 then mret (Err ZeroDeviceId) else
  match checked_sub mmio_size CONFIG_SPACE_OFFSET with
  | None => mret (Err MmioRegionTooSmall)
  | Some config_space_size =>
    v ← volread VirtIOHeader hdr version;
    match MmioVersion_try_from v with
    | Err e => mret (Err e)
    | Ok v => mret (Ok (mkMmio hdr v config_space_size))
    end
  end.

Definition rd (r : Reg) : M St Z :=
  t ← gets fst; on_snd (volread VirtIOHeader (header t) r).
Definition wr (r : Reg) (v : Z) : M St unit :=
  t ← gets fst; on_snd (volwrite VirtIOHeader (header t) r v).

(** [MmioTransport::vendor_id]. *)
Definition get_vendor_id : M St Z := rd vendor_id.

Definition device_type : M St DeviceType := d ← rd device_id; mret (DeviceType_from d).

Definition read_device_features : M St Z :=
  wr device_features_sel 0;;
  low ← rd device_features;
  wr device_features_sel 1;;
  high ← rd device_features;
  add_u 64 low (Z.shiftl high 32).

Definition write_driver_features (features : Z) : M St unit :=
  wr driver_features_sel 0;;
  wr driver_features (wrap 32 features);;
  wr driver_features_sel 1;;
  wr driver_features (wrap 32 (Z.shiftr features 32)).

Definition max_queue_size (queue : Z) : M St Z := wr queue_sel queue;; rd queue_num_max.

Definition notify (queue : Z) : M St unit := wr queue_notify queue.

Definition get_status : M St Z := rd status.
Definition set_status (s : Z) : M St unit := wr status s.

Definition set_guest_page_size (size : Z) : M St unit :=
  t ← gets fst;
  match mmio_version t with
  | VLegacy => wr legacy_guest_page_size size
  | VModern => mret tt
  end.

Definition requires_legacy_layout : M St bool :=
  t ← gets fst; mret (match mmio_version t with VLegacy => true | VModern => false end).

(** The checks of the legacy layout: the result is the page number. *)
Definition legacy_pfn (size descriptors driver_area device_area : Z) : M St Z :=
  d1 ← sub_u 64 driver_area descriptors;
  n1 ← mul_u 64 16 size;
  assert (d1 =? n1);;
  d2 ← sub_u 64 device_area descriptors;
  s3 ← add_u 64 size 3;
  n2 ← mul_u 64 2 s3;
  n3 ← add_u 64 n1 n2;
  a ← align_up n3;
  assert (d2 =? a);;
  let pfn := wrap 32 (descriptors / PAGE_SIZE) in
  p ← mul_u 64 pfn PAGE_SIZE;
  assert (p =? descriptors);;
  mret pfn.

Definition queue_set (queue size descriptors driver_area device_area : Z) : M St unit :=
  t ← gets fst;
  match mmio_version t with
  | VLegacy =>
    pfn ← legacy_pfn size descriptors driver_area device_area;
    wr queue_sel queue;;
    wr queue_num size;;
    wr legacy_queue_align (wrap 32 PAGE_SIZE);;
    wr legacy_queue_pfn pfn
  | VModern =>
    wr queue_sel queue;;
    wr queue_num size;;
    wr queue_desc_low (wrap 32 descriptors);;
    wr queue_desc_high (wrap 32 (Z.shiftr descriptors 32));;
    wr queue_driver_low (wrap 32 driver_area);;
    wr queue_driver_high (wrap 32 (Z.shiftr driver_area 32));;
    wr queue_device_low (wrap 32 device_area);;
    wr queue_device_high (wrap 32 (Z.shiftr device_area 32));;
    wr queue_ready 1
  end.

(** [while volread!(queue_ready) != 0 {}]. *)
Fixpoint wait_not_ready (fuel : nat) : M St unit :=
  match fuel with
  | O => hang
  | S fuel => v ← rd queue_ready; if v =? 0 then mret tt else wait_not_ready fuel
  end.

Definition queue_unset (fuel : nat) (queue : Z) : M St unit :=
  t ← gets fst;
  match mmio_version t with
  | VLegacy =>
    wr queue_sel queue;;
    wr queue_num 0;;
    wr legacy_queue_align 0;;
    wr legacy_queue_pfn 0
  | VModern =>
    wr queue_sel queue;;
    wr queue_ready 0;;
    wait_not_ready fuel;;
    wr queue_num 0;;
    wr queue_desc_low 0;;
    wr queue_desc_high 0;;
    wr queue_driver_low 0;;
    wr queue_driver_high 0;;
    wr queue_device_low 0;;
    wr queue_device_high 0
  end.

Definition queue_used (queue : Z) : M St bool :=
  wr queue_sel queue;;
  t ← gets fst;
  match mmio_version t with
  | VLegacy => v ← rd legacy_queue_pfn; mret (negb (v =? 0))
  | VModern => v ← rd queue_ready; mret (negb (v =? 0))
  end.

Definition ack_interrupt : M St Z :=
  interrupt ← rd interrupt_status;
  if negb (interrupt =? 0) then
    wr interrupt_ack interrupt;;
    mret (truncate_flags InterruptStatus.all interrupt)
  else mret InterruptStatus.empty.

Definition read_config_generation : M St Z := rd config_generation.

(** A read of [size] bytes with the alignment [align] of the type. *)
Definition read_config_space (size align offset : Z) : M St (Result (list Z)) :=
  assert (align <=? 4);;
  assert (offset mod align =? 0);;
  t ← gets fst;
  e ← add_u 64 offset size;
  if config_space_size t <? e then mret (Err ConfigSpaceTooSmall) else
  v ← on_snd (vread size (header t + CONFIG_SPACE_OFFSET + offset));
  mret (Ok (le (Z.to_nat size) v)).

Definition write_config_space (align offset : Z) (value : list Z) : M St (Result unit) :=
  assert (align <=? 4);;
  assert (offset mod align =? 0);;
  t ← gets fst;
  e ← add_u 64 offset (Z.of_nat (length value));
  if config_space_size t <? e then mret (Err ConfigSpaceTooSmall) else
  on_snd (vwrite (Z.of_nat (length value)) (header t + CONFIG_SPACE_OFFSET + offset) (of_le value));;
  mret (Ok tt).

(** [Drop]. *)
Definition drop : M St unit := set_status DeviceStatus.empty.

Definition transport (fuel : nat) : Transport MmioTransport W := {|
  Transport.device_type := device_type;
  Transport.read_device_features := read_device_features;
  Transport.write_driver_features := write_driver_features;
  Transport.max_queue_size := max_queue_size;
  Transport.notify := notify;
  Transport.get_status := get_status;
  Transport.set_status := set_status;
  Transport.try_set_status := default_try_set_status set_status;
  Transport.set_guest_page_size := set_guest_page_size;
  Transport.requires_legacy_layout := requires_legacy_layout;
  Transport.queue_set := queue_set;
  Transport.queue_unset := queue_unset fuel;
  Transport.queue_used := queue_used;
  Transport.ack_interrupt := ack_interrupt;
  Transport.read_config_generation := read_config_generation;
  Transport.read_config_space := read_config_space;
  Transport.write_config_space := write_config_space
|}.
End mmio.
End Mmio.
