(* ===== verification/MmioProps.v ===== *)
(** * Properties of the MMIO transport

    The device behind the registers is described by the register semantics of the VirtIO
    specification (sections 4.2.2 and 4.2.4): [read_reg] and [write_reg] on its state. *)

From S2P Require Import Prelude Base Transport QueueData Layout Bytes Volatile Mmio.
Import Mmio.

(** ** The device's registers *)

(** Those of one queue. A device that is told to stop using a queue may take its time: [g_lag] is
    the number of reads of [queue_ready] that will still find it ready. *)
Record QueueRegs := mkQueueRegs {
  g_num : Z; g_align : Z; g_pfn : Z; g_ready : Z; g_lag : nat;
  g_desc_low : Z; g_desc_high : Z; g_driver_low : Z; g_driver_high : Z;
  g_device_low : Z; g_device_high : Z
}.
Definition unused_queue : QueueRegs := mkQueueRegs 0 0 0 0 0 0 0 0 0 0 0.

(** What a read of [queue_ready] gives, and what it leaves. *)
Definition ready_now (q : QueueRegs) : Z := match g_lag q with O => g_ready q | S _ => 1 end.
Definition ticked (q : QueueRegs) : QueueRegs :=
  let 'mkQueueRegs n al p rd lag dl dh rl rh vl vh := q in
  mkQueueRegs n al p rd (Nat.pred lag) dl dh rl rh vl vh.

Record Regs := mkRegs {
  g_id : Z;
  g_version : Z;
  g_features : Z;
  g_accepts : Z → bool;
  g_features_sel : Z;
  g_driver : Z * Z;
  g_driver_sel : Z;
  g_page_size : Z;
  g_queue_sel : Z;
  g_num_max : Z;
  g_queues : Z → QueueRegs;
  g_status : Z;
  g_notified : list Z
}.

Definition selected (g : Regs) : QueueRegs := g_queues g (g_queue_sel g).

Definition set_queue (q : QueueRegs) (g : Regs) : Regs :=
  mkRegs (g_id g) (g_version g) (g_features g) (g_accepts g) (g_features_sel g) (g_driver g) (g_driver_sel g)
    (g_page_size g) (g_queue_sel g) (g_num_max g)
    (λ i, if i =? g_queue_sel g then q else g_queues g i)
    (g_status g) (g_notified g).

(** The value of a register that may be read, and the registers after the read. Nothing is said of
    the others: the vendor, the interrupts, the generation, the registers to write and the reserved
    ones. *)
Definition read_reg (r : Reg) (g : Regs) : option (Z * Regs) :=
  match r with
  | magic => Some (MAGIC_VALUE, g)
  | version => Some (g_version g, g)
  | device_id => Some (g_id g, g)
  | device_features => Some (
      if g_features_sel g =? 0 then wrap 32 (g_features g)
      else if g_features_sel g =? 1 then wrap 32 (Z.shiftr (g_features g) 32) else 0, g)
  | queue_num_max => Some (g_num_max g, g)
  | legacy_queue_pfn => Some (g_pfn (selected g), g)
  | queue_ready => Some (ready_now (selected g), set_queue (ticked (selected g)) g)
  | status => Some (g_status g, g)
  | _ => None
  end.

(** The registers of the selected queue. A device that was using it goes on for [n] reads of
    [queue_ready] after it is told to stop. *)
Definition queue_reg (n : nat) (r : Reg) (v : Z) (q : QueueRegs) : option QueueRegs :=
  let 'mkQueueRegs num al p rd lag dl dh rl rh vl vh := q in
  match r with
  | queue_num => Some (mkQueueRegs v al p rd lag dl dh rl rh vl vh)
  | legacy_queue_align => Some (mkQueueRegs num v p rd lag dl dh rl rh vl vh)
  | legacy_queue_pfn => Some (mkQueueRegs num al v rd lag dl dh rl rh vl vh)
  | queue_ready =>
      let lag' := if v =? 0 then if rd =? 0 then lag else n else O in
      Some (mkQueueRegs num al p v lag' dl dh rl rh vl vh)
  | queue_desc_low => Some (mkQueueRegs num al p rd lag v dh rl rh vl vh)
  | queue_desc_high => Some (mkQueueRegs num al p rd lag dl v rl rh vl vh)
  | queue_driver_low => Some (mkQueueRegs num al p rd lag dl dh v rh vl vh)
  | queue_driver_high => Some (mkQueueRegs num al p rd lag dl dh rl v vl vh)
  | queue_device_low => Some (mkQueueRegs num al p rd lag dl dh rl rh v vh)
  | queue_device_high => Some (mkQueueRegs num al p rd lag dl dh rl rh vl v)
  | _ => None
  end.

(** The registers of the device. Writing zero to the status resets it; it leaves [FEATURES_OK]
    out of its status if it does not accept the driver's features. *)
Definition device_reg (r : Reg) (v : Z) (g : Regs) : option Regs :=
  let 'mkRegs id ve f acc fs d ds p qs mx q st n := g in
  match r with
  | device_features_sel => Some (mkRegs id ve f acc v d ds p qs mx q st n)
  | driver_features_sel => Some (mkRegs id ve f acc fs d v p qs mx q st n)
  | driver_features => Some (
      mkRegs id ve f acc fs (if ds =? 0 then (v, d.2) else if ds =? 1 then (d.1, v) else d) ds p qs mx q st n)
  | legacy_guest_page_size => Some (mkRegs id ve f acc fs d ds v qs mx q st n)
  | queue_sel => Some (mkRegs id ve f acc fs d ds p v mx q st n)
  | queue_notify => Some (mkRegs id ve f acc fs d ds p qs mx q st (n ++ [v]))
  | status => Some (
      if v =? 0 then mkRegs id ve f acc fs (0, 0) ds p qs mx (λ _, unused_queue) 0 []
      else mkRegs id ve f acc fs d ds p qs mx q
        (if acc (d.1 + 2 ^ 32 * d.2) then v else Z.ldiff v DeviceStatus.FEATURES_OK) n)
  | _ => None
  end.

Definition write_reg (n : nat) (r : Reg) (v : Z) (g : Regs) : option Regs :=
  match queue_reg n r v (selected g) with
  | Some q => Some (set_queue q g)
  | None => device_reg r v g
  end.

Lemma write_device n r v g : queue_reg n r v unused_queue = None → write_reg n r v g = device_reg r v g.
Proof. unfold write_reg, unused_queue. destruct (selected g), r; done. Qed.

(** A world in which a VirtIO MMIO device is mapped at [base], that stops using a queue within
    [patience] reads of [queue_ready]. *)
Class MmioSpec (W : Type) `{Volatile W} (base : Z) := {
  regs : W → Regs;
  patience : nat;
  mmio_read_spec : ∀ r w v g, read_reg r (regs w) = Some (v, g) → ∃ w',
    vread (size_of_field VirtIOHeader r) (base + offset_of VirtIOHeader r) w = (Val v, w') ∧
    regs w' = g;
  mmio_write_spec : ∀ r v w, is_Some (write_reg 0 r v (regs w)) → ∃ w' n, (n ≤ patience)%nat ∧
    vwrite (size_of_field VirtIOHeader r) (base + offset_of VirtIOHeader r) v w = (Val tt, w') ∧
    write_reg n r v (regs w) = Some (regs w')
}.

(** A transport that was made for the device at [base]. *)
Definition made_for `{MmioSpec W base} (t : MmioTransport) (w : W) : Prop :=
  header t = base ∧ MmioVersion_as_u32 (mmio_version t) = g_version (regs w).

Section runs.
Context `{Profile} {W : Type} `{Volatile W} (base : Z) `{!MmioSpec W base}.

Lemma rd_run t w r v g : header t = base → read_reg r (regs w) = Some (v, g) → ∃ w',
  rd r (t, w) = (Val v, (t, w')) ∧ regs w' = g.
Proof.
  intros E Hr. destruct (mmio_read_spec (base := base) r w v g Hr) as (w' & Hw & Hg). exists w'. split; [|done].
  unfold rd. mstep. apply on_snd_val. simpl. by rewrite E.
Qed.

Lemma wr_run t w r v : header t = base → is_Some (write_reg 0 r v (regs w)) → ∃ w' n, (n ≤ patience)%nat ∧
  wr r v (t, w) = (Val tt, (t, w')) ∧ write_reg n r v (regs w) = Some (regs w').
Proof.
  intros E Hs. destruct (mmio_write_spec (base := base) r v w Hs) as (w' & n & Hn & Hw & Hr). exists w', n.
  split_and!; try done. unfold wr. mstep. apply on_snd_val. simpl. by rewrite E.
Qed.

(** [MmioTransport::new] on a device of a known version. *)
Lemma new_made size w : g_id (regs w) ≠ 0 → CONFIG_SPACE_OFFSET ≤ size →
  g_version (regs w) = LEGACY_VERSION ∨ g_version (regs w) = MODERN_VERSION → ∃ t w',
  new base size w = (Val (Ok t), w') ∧ made_for t w' ∧ regs w' = regs w ∧
  config_space_size t = size - CONFIG_SPACE_OFFSET.
Proof.
  intros Hid Hsz Hv. unfold new, volread.
  destruct (mmio_read_spec (base := base) magic w _ _ eq_refl) as (w1 & E1 & R1). erewrite bind_val by exact E1.
  rewrite Z.eqb_refl. cbn [negb].
  destruct (mmio_read_spec (base := base) device_id w1 _ _ eq_refl) as (w2 & E2 & R2). erewrite bind_val by exact E2.
  rewrite R1, (proj2 (Z.eqb_neq _ _)) by done. unfold checked_sub. rewrite (proj2 (Z.leb_le _ _)) by lia.
  destruct (mmio_read_spec (base := base) version w2 _ _ eq_refl) as (w3 & E3 & R3). erewrite bind_val by exact E3.
  assert (regs w3 = regs w) as R by congruence. assert (g_version (regs w2) = g_version (regs w)) as -> by congruence.
  destruct Hv as [Hv|Hv]; rewrite Hv; cbn; eexists _, w3; (split; [done|]); split_and!; try done;
    split; try done; rewrite R, Hv; done.
Qed.
End runs.

(** The registers of the queues after a write to one of the selected queue [q]. *)
Definition at_queue (g : Regs) (q : Z) (x : QueueRegs) (g0 : Regs) : Prop :=
  g_queue_sel g = q ∧ ∀ j, g_queues g j = if j =? q then x else g_queues g0 j.

Section queue_regs.
Context `{Profile} {W : Type} `{Volatile W} (base : Z) `{!MmioSpec W base}.

Lemma wr_queue_run t (w : W) r v q x g0 : header t = base → at_queue (regs w) q x g0 →
  is_Some (queue_reg 0 r v x) → ∃ w' n x', (n ≤ patience)%nat ∧
  wr r v (t, w) = (Val tt, (t, w')) ∧ queue_reg n r v x = Some x' ∧ at_queue (regs w') q x' g0.
Proof.
  intros Hh [Hq Hx] [x0 Hr].
  assert (selected (regs w) = x) as Hs by (unfold selected; by rewrite Hx, Hq, Z.eqb_refl).
  destruct (wr_run base t w r v Hh) as (w' & n & Hn & E & R); [unfold write_reg; rewrite Hs, Hr; eauto|].
  unfold write_reg in R. rewrite Hs in R.
  assert (is_Some (queue_reg n r v x)) as [x' Hx'] by (destruct x, r; done || eauto).
  rewrite Hx' in R. injection R as R. exists w', n, x'. split_and!; try done. rewrite <- R.
  split; [done|]. intros j. simpl. rewrite Hq, Hx. by destruct (j =? q).
Qed.

Lemma wr_sel_run t (w : W) q : header t = base → ∃ w',
  wr queue_sel q (t, w) = (Val tt, (t, w')) ∧
  at_queue (regs w') q (g_queues (regs w) q) (regs w) ∧ g_version (regs w') = g_version (regs w).
Proof.
  intros Hh. destruct (wr_run base t w queue_sel q Hh) as (w' & n & _ & E & R).
  { rewrite write_device by done. destruct (regs w). simpl. eauto. }
  exists w'. split; [done|]. rewrite write_device in R by done. destruct (regs w). injection R as <-.
  split; [|done]. split; [done|]. intros j. simpl. by destruct (Z.eqb_spec j q) as [->|].
Qed.

Lemma rd_ready_run t (w : W) q x g0 : header t = base → at_queue (regs w) q x g0 → ∃ w',
  rd queue_ready (t, w) = (Val (ready_now x), (t, w')) ∧ at_queue (regs w') q (ticked x) g0.
Proof.
  intros Hh [Hq Hx].
  assert (selected (regs w) = x) as Hs by (unfold selected; by rewrite Hx, Hq, Z.eqb_refl).
  destruct (rd_run base t w queue_ready _ _ Hh eq_refl) as (w' & E & R). rewrite Hs in E, R.
  exists w'. split; [done|]. rewrite R. split; [done|]. intros j. simpl. rewrite Hq, Hx. by destruct (j =? q).
Qed.

(** The registers once the device has stopped. *)
Definition stopped (x : QueueRegs) : QueueRegs :=
  let 'mkQueueRegs n al p rd lag dl dh rl rh vl vh := x in mkQueueRegs n al p rd 0 dl dh rl rh vl vh.

Lemma stop_run t fuel : ∀ (w : W) q x g0, header t = base → at_queue (regs w) q x g0 → g_ready x = 0 →
  (g_lag x < fuel)%nat → ∃ w',
  wait_not_ready fuel (t, w) = (Val tt, (t, w')) ∧ at_queue (regs w') q (stopped x) g0.
Proof.
  induction fuel as [|fuel IH]; intros w q x g0 Hh A Hr Hl; [lia|]. cbn [wait_not_ready].
  destruct (rd_ready_run t w q x g0 Hh A) as (w' & E & A'). erewrite bind_val by exact E.
  destruct x as [n al p rdy [|lag] dl dh rl rh vl vh]; simpl in Hr, Hl; subst rdy; cbn [ready_now g_lag g_ready].
  - by exists w'.
  - destruct (IH w' q _ g0 Hh A') as (w2 & E2 & A2); [done|simpl; lia|]. by exists w2.
Qed.
End queue_regs.

(** Runs the next write to a register of the selected queue. *)
Ltac wq_step :=
  match goal with
  | A : at_queue (regs ?w) ?q _ _, Hh : header ?t = ?b |- context [?m (?t, ?w)] =>
    let w' := fresh "w" in let E := fresh "Hw" in let A' := fresh "Aw" in let n := fresh "n" in
    let x' := fresh "x" in let Hn := fresh "Hn" in let Hx := fresh "Hx" in
    match m with
    | wr ?r ?v =>
      edestruct (wr_queue_run b t w r v q _ _ Hh A) as (w' & n & x' & Hn & E & Hx & A'); [by eexists|]; rewrite E
    | (wr ?r ?v ≫= _) =>
      edestruct (wr_queue_run b t w r v q _ _ Hh A) as (w' & n & x' & Hn & E & Hx & A'); [by eexists|];
      erewrite bind_val by exact E; cbv beta
    end; injection Hx as <-; clear E A
  end.

(** A 64-bit address in two registers. *)
Lemma halves x : fits 64 x → wrap 32 x + 2 ^ 32 * wrap 32 (Z.shiftr x 32) = x.
Proof.
  intros [H0 H1]. unfold wrap. rewrite Z.shiftr_div_pow2 by lia.
  change (2 ^ 32) with 4294967296 in *. change (2 ^ 64) with 18446744073709551616 in *.
  Z.to_euclidean_division_equations. lia.
Qed.

(** Runs the next access to a register of the device. *)
Ltac wd_step :=
  match goal with
  | A : regs ?w = _, Hh : header ?t = ?b |- context [?m (?t, ?w)] =>
    let w' := fresh "w" in let E := fresh "Hw" in let A' := fresh "Aw" in let n := fresh "n" in
    match m with
    | wr ?r ?v =>
      destruct (wr_run b t w r v Hh) as (w' & n & _ & E & A'); [rewrite write_device, A by done; by eexists|]; rewrite E;
      rewrite write_device, A in A' by done; cbn [device_reg Z.eqb fst snd] in A';
      apply (inj Some) in A'; symmetry in A'; clear E A
    | (wr ?r ?v ≫= _) =>
      destruct (wr_run b t w r v Hh) as (w' & n & _ & E & A'); [rewrite write_device, A by done; by eexists|];
      erewrite bind_val by exact E; cbv beta;
      rewrite write_device, A in A' by done; cbn [device_reg Z.eqb fst snd] in A';
      apply (inj Some) in A'; symmetry in A'; clear E A
    | (rd ?r ≫= _) =>
      destruct (rd_run b t w r _ _ Hh eq_refl) as (w' & E & A'); erewrite bind_val by exact E;
      rewrite A in A'; rewrite A; cbv beta; clear E A
    end
  end.

Section theorems.
Context `{Profile} {W : Type} `{Volatile W} (base : Z) `{!MmioSpec W base}.

Lemma modern_set_run t w q size d dr dv : header t = base → mmio_version t = VModern → ∃ w1,
  queue_set q size d dr dv (t, w) = (Val tt, (t, w1)) ∧
  ∀ j, g_queues (regs w1) j =
    if j =? q then mkQueueRegs size (g_align (g_queues (regs w) q)) (g_pfn (g_queues (regs w) q)) 1 0
      (wrap 32 d) (wrap 32 (Z.shiftr d 32)) (wrap 32 dr) (wrap 32 (Z.shiftr dr 32))
      (wrap 32 dv) (wrap 32 (Z.shiftr dv 32))
    else g_queues (regs w) j.
Proof.
  intros Hh Hv. unfold queue_set. mstep. simpl. rewrite Hv.
  destruct (wr_sel_run base t w q Hh) as (w1 & E1 & A & _). erewrite bind_val by exact E1. clear E1.
  destruct (g_queues (regs w) q). do 8 wq_step. eexists. split; [done|].
  match goal with A : at_queue _ _ _ _ |- _ => by destruct A as [_ ?] end.
Qed.

Lemma used_run t w q : header t = base → mmio_version t = VModern → ∃ w1,
  queue_used q (t, w) = (Val (negb (ready_now (g_queues (regs w) q) =? 0)), (t, w1)) ∧
  ∀ j, g_queues (regs w1) j = if j =? q then ticked (g_queues (regs w) q) else g_queues (regs w) j.
Proof.
  intros Hh Hv. unfold queue_used. destruct (wr_sel_run base t w q Hh) as (w1 & E1 & A & _).
  erewrite bind_val by exact E1. mstep. simpl. rewrite Hv.
  destruct (rd_ready_run base t w1 q _ _ Hh A) as (w2 & E2 & A2). erewrite bind_val by exact E2.
  exists w2. split; [done|]. by destruct A2.
Qed.

Lemma modern_unset_run t w q fuel : header t = base → mmio_version t = VModern →
  g_ready (g_queues (regs w) q) ≠ 0 → (patience < fuel)%nat → ∃ w1,
  queue_unset fuel q (t, w) = (Val tt, (t, w1)) ∧
  ∀ j, g_queues (regs w1) j =
    if j =? q then mkQueueRegs 0 (g_align (g_queues (regs w) q)) (g_pfn (g_queues (regs w) q)) 0 0 0 0 0 0 0 0
    else g_queues (regs w) j.
Proof.
  intros Hh Hv Hrd Hf. unfold queue_unset. mstep. simpl. rewrite Hv.
  destruct (wr_sel_run base t w q Hh) as (w1 & E1 & A & _). erewrite bind_val by exact E1. clear E1.
  destruct (g_queues (regs w) q) as [num al p rdy lag dl dh rl rh vl vh]. simpl in Hrd. wq_step.
  rewrite (proj2 (Z.eqb_neq _ _) Hrd) in Aw.
  destruct (stop_run base t fuel _ q _ _ Hh Aw) as (w3 & E3 & A3); [done|simpl; lia|].
  erewrite bind_val by exact E3. cbn [stopped] in A3. clear Aw E3.
  do 7 wq_step. eexists. split; [done|].
  match goal with A : at_queue _ _ _ _ |- _ => by destruct A as [_ ?] end.
Qed.

(** C33. A modern queue over MMIO, by a transport as [MmioTransport::new] makes it: setting it makes it used and gives the device its size and the
    full 64-bit addresses of its three parts; unsetting it waits until the device, which may take
    up to [patience] reads of the register, has stopped using it, makes it unused again and
    clears them; the registers of no other queue change. *)
Theorem mmio_queue_lifecycle t w q size d dr dv fuel : made_for t w → g_version (regs w) = MODERN_VERSION →
  (patience < fuel)%nat → fits 64 d → fits 64 dr → fits 64 dv → ∃ w1 w2 w3 w4,
  queue_set q size d dr dv (t, w) = (Val tt, (t, w1)) ∧
  queue_used q (t, w1) = (Val true, (t, w2)) ∧
  queue_unset fuel q (t, w2) = (Val tt, (t, w3)) ∧
  queue_used q (t, w3) = (Val false, (t, w4)) ∧
  (let g := g_queues (regs w1) q in
   g_num g = size ∧ g_desc_low g + 2 ^ 32 * g_desc_high g = d ∧
   g_driver_low g + 2 ^ 32 * g_driver_high g = dr ∧ g_device_low g + 2 ^ 32 * g_device_high g = dv) ∧
  (let g := g_queues (regs w4) q in
   g_num g = 0 ∧ g_ready g = 0 ∧ g_lag g = 0%nat ∧ g_desc_low g = 0 ∧ g_desc_high g = 0 ∧
   g_driver_low g = 0 ∧ g_driver_high g = 0 ∧ g_device_low g = 0 ∧ g_device_high g = 0) ∧
  (∀ j, j ≠ q → g_queues (regs w1) j = g_queues (regs w) j ∧ g_queues (regs w4) j = g_queues (regs w) j).
Proof.
  intros [Hh Hver] Hm Hf Hd Hdr Hdv.
  assert (mmio_version t = VModern) as Hv by (rewrite Hm in Hver; by destruct (mmio_version t)).
  destruct (modern_set_run t w q size d dr dv Hh Hv) as (w1 & E1 & R1).
  destruct (used_run t w1 q Hh Hv) as (w2 & E2 & R2). rewrite (R1 q), Z.eqb_refl in E2, R2.
  assert (g_ready (g_queues (regs w2) q) ≠ 0) as Hr2 by (rewrite R2, Z.eqb_refl; done).
  destruct (modern_unset_run t w2 q fuel Hh Hv Hr2 Hf) as (w3 & E3 & R3).
  destruct (used_run t w3 q Hh Hv) as (w4 & E4 & R4). rewrite (R3 q), Z.eqb_refl in E4, R4.
  exists w1, w2, w3, w4. split_and!; try done.
  - rewrite R1, Z.eqb_refl. simpl. rewrite !halves by done. done.
  - rewrite (R4 q), Z.eqb_refl. done.
  - intros j Hj. rewrite (R4 j), (R3 j), (R2 j), (R1 j). by rewrite (proj2 (Z.eqb_neq j q) Hj).
Qed.

Lemma legacy_pfn_run (t : MmioTransport) (w : W) n pa : SIZE_OK n = true → region_ok pa pa (legacy_pages n) →
  pa mod PAGE_SIZE = 0 → pa < 2 ^ 44 →
  legacy_pfn n pa (pa + desc_bytes n) (pa + round_pages (desc_bytes n + avail_bytes n)) (t, w) =
    (Val (pa / PAGE_SIZE), (t, w)).
Proof.
  intros HS Hr Ha Hp. pose proof (SIZE_OK_eq _ HS) as (k & Hk & -> & Hn).
  destruct (part_sizes_unaligned k Hk) as [U1 _]. destruct (part_bytes_bounds _ Hn) as (B1 & B2 & _).
  unfold region_ok in Hr. pose proof (round_pages_bounds (desc_bytes (2 ^ k) + avail_bytes (2 ^ k))) as Rb.
  unfold legacy_pfn, sub_u, mul_u, add_u.
  assert (desc_bytes (2 ^ k) = 16 * 2 ^ k) as Ed by done.
  assert (avail_bytes (2 ^ k) = 2 * (2 ^ k + 3)) as Ea by (unfold avail_bytes; lia).
  replace (pa + desc_bytes (2 ^ k) - pa) with (desc_bytes (2 ^ k)) by lia.
  replace (pa + round_pages _ - pa) with (round_pages (desc_bytes (2 ^ k) + avail_bytes (2 ^ k))) by lia.
  set (a := desc_bytes (2 ^ k) + avail_bytes (2 ^ k)) in *. change (2 ^ 16) with 65536 in *.
  unfold PAGE_SIZE in *.
  repeat (erewrite bind_val by (apply arith_fits; unfold fits; lia)). rewrite Ed, Z.eqb_refl. mstep.
  repeat (erewrite bind_val by (apply arith_fits; unfold fits; lia)).
  replace (16 * 2 ^ k + 2 * (2 ^ k + 3)) with a by (unfold a; lia).
  erewrite bind_val by (apply (align_part k (λ n, desc_bytes n + avail_bytes n)); [done|unfold PAGE_SIZE; lia|done]).
  cbv beta. fold a. rewrite Z.eqb_refl. mstep. cbv zeta.
  assert (wrap 32 (pa / 4096) = pa / 4096) as ->.
  { apply wrap_small. unfold fits. split; [apply Z.div_pos; lia|]. apply Z.div_lt_upper_bound; lia. }
  assert (pa / 4096 * 4096 = pa) as Hpa by (pose proof (Z.div_mod pa 4096); lia).
  rewrite Hpa. erewrite bind_val by (apply arith_fits; unfold fits; lia). rewrite Z.eqb_refl. done.
Qed.

(** The legacy transport accepts the memory [VirtQueue::new] allocates for it: for every
    queue size, the checks of [queue_set] on the places of the parts hold for a page-aligned
    region below [2^44], and the device is given its page number. *)
Theorem mmio_legacy_accepts t w q n pa : header t = base → mmio_version t = VLegacy →
  SIZE_OK n = true → region_ok pa pa (legacy_pages n) → pa mod PAGE_SIZE = 0 → pa < 2 ^ 44 → ∃ w1,
  queue_set q n pa (pa + desc_bytes n) (pa + round_pages (desc_bytes n + avail_bytes n)) (t, w) =
    (Val tt, (t, w1)) ∧
  (let g := g_queues (regs w1) q in
   g_num g = n ∧ g_align g = PAGE_SIZE ∧ g_pfn g * PAGE_SIZE = pa) ∧
  (∀ j, j ≠ q → g_queues (regs w1) j = g_queues (regs w) j).
Proof.
  intros Hh Hv HS Hr Ha Hp. unfold queue_set. mstep. simpl. rewrite Hv.
  erewrite bind_val by (by apply legacy_pfn_run).
  destruct (wr_sel_run base t w q Hh) as (w1 & E1 & A & _). erewrite bind_val by exact E1. clear E1.
  destruct (g_queues (regs w) q). do 3 wq_step. eexists. split; [done|].
  match goal with A : at_queue _ _ _ _ |- _ => destruct A as [_ A1] end. split.
  - rewrite A1, Z.eqb_refl. simpl. split_and!; try done. unfold PAGE_SIZE in *. pose proof (Z.div_mod pa 4096). lia.
  - intros j Hj. rewrite A1. by rewrite (proj2 (Z.eqb_neq j q) Hj).
Qed.

Lemma read_features_run t w id ve f acc fs d ds p qs mx q st n : header t = base → fits 64 f →
  regs w = mkRegs id ve f acc fs d ds p qs mx q st n → ∃ w',
  read_device_features (t, w) = (Val f, (t, w')) ∧
  regs w' = mkRegs id ve f acc 1 d ds p qs mx q st n.
Proof.
  intros Hh Hf A. unfold read_device_features. do 4 wd_step. cbn [read_reg g_features_sel g_features].
  change (0 =? 0) with true. change (1 =? 0) with false. change (1 =? 1) with true. cbv iota.
  eexists. split; [|eassumption]. unfold add_u. rewrite Z.shiftl_mul_pow2, (Z.mul_comm (wrap _ (Z.shiftr _ _))) by lia.
  rewrite halves by done. by apply arith_fits.
Qed.

Lemma write_features_run t w x id ve f acc fs d ds p qs mx q st n : header t = base →
  regs w = mkRegs id ve f acc fs d ds p qs mx q st n → ∃ w',
  write_driver_features x (t, w) = (Val tt, (t, w')) ∧
  regs w' = mkRegs id ve f acc fs (wrap 32 x, wrap 32 (Z.shiftr x 32)) 1 p qs mx q st n.
Proof. intros Hh A. unfold write_driver_features. do 4 wd_step. eexists. split; [done|]. assumption. Qed.

Lemma set_page_run t w v id ve f acc fs d ds p qs mx q st n : header t = base →
  regs w = mkRegs id ve f acc fs d ds p qs mx q st n → ∃ w',
  set_guest_page_size v (t, w) = (Val tt, (t, w')) ∧
  regs w' = mkRegs id ve f acc fs d ds (if mmio_version t is VLegacy then v else p) qs mx q st n.
Proof.
  intros Hh A. unfold set_guest_page_size. mstep. cbn [fst].
  destruct (mmio_version t); [wd_step|]; eexists; by split.
Qed.

(** The features [begin_init] negotiates with a device that offers [f]. *)
Definition negotiated (all supported f : Z) : Z := Z.land (truncate_flags all f) supported.

Lemma negotiated_fits all supported f : fits 64 f → fits 64 (negotiated all supported f).
Proof. intros Hf. unfold negotiated, truncate_flags. by apply land_fits, land_fits. Qed.

(** C20. Initialisation over MMIO, by a transport as [MmioTransport::new] makes it ([new_made]):
    [begin_init] resets the device, so that no queue is in use,
    hands it the features that both it and the driver support, as one 64-bit word in two halves,
    and succeeds exactly when the device accepts them; a legacy device is told the page size. *)
Theorem mmio_begin_init fuel t w all supported : made_for t w → fits 64 (g_features (regs w)) →
  (Z.land (g_features (regs w)) Feature.VERSION_1 ≠ 0 →
     0 < Z.land (negotiated all supported (g_features (regs w))) Feature.VERSION_1) → ∃ w',
  let x := negotiated all supported (g_features (regs w)) in
  let ok := g_accepts (regs w) x in
  begin_init (H := transport fuel) all supported (t, w) =
    (Val (if ok then Ok x else Err Unsupported), (t, w')) ∧
  (g_driver (regs w')).1 + 2 ^ 32 * (g_driver (regs w')).2 = x ∧
  g_queues (regs w') = (λ _, unused_queue) ∧
  g_status (regs w') = (if ok then 11 else 3) ∧
  (ok = true → g_version (regs w) = LEGACY_VERSION → g_page_size (regs w') = PAGE_SIZE) ∧
  made_for t w'.
Proof.
  unfold made_for. intros [Hh Hver] Hf Hv. destruct (regs w) as [id ve f acc fs d ds p qs mx q st n] eqn:A.
  cbn [g_features g_accepts g_version] in *. set (x := negotiated all supported f) in *.
  pose proof (halves x (negotiated_fits all supported f Hf)) as Hx.
  unfold begin_init. cbn [transport Transport.set_status Transport.read_device_features
    Transport.write_driver_features Transport.try_set_status Transport.get_status Transport.set_guest_page_size].
  unfold set_status, get_status.
  change (Z.lor (Z.lor DeviceStatus.ACKNOWLEDGE DeviceStatus.DRIVER) DeviceStatus.FEATURES_OK) with 11.
  change (Z.lor DeviceStatus.ACKNOWLEDGE DeviceStatus.DRIVER) with 3.
  change DeviceStatus.empty with 0. do 2 wd_step. edestruct (read_features_run t w1) as (w2 & E2 & A2); [done|exact Hf|eassumption|].
  erewrite bind_val by exact E2. fold (negotiated all supported f). fold x. erewrite bind_val; cycle 1.
  { destruct (debug_assertions && _) eqn:Ed; [|done].
    apply andb_true_iff in Ed as [_ Ed]. rewrite (proj2 (Z.ltb_lt _ _)); [done|]. apply Hv. lia. }
  edestruct (write_features_run t w2 x) as (w3 & E3 & A3); [done|exact A2|].
  erewrite bind_val by exact E3. clear A2 E2 E3.
  assert (∃ w4, default_try_set_status (λ s, wr status s) 11 (t, w3) = (Val (Ok None), (t, w4)) ∧
    regs w4 = mkRegs id ve f acc 1 (wrap 32 x, wrap 32 (Z.shiftr x 32)) 1 p qs mx (λ _, unused_queue)
      (if acc x then 11 else 3) []) as (w4 & E4 & A4).
  { unfold default_try_set_status. wd_step. eexists. split; [done|]. rewrite Aw. simpl. by rewrite Hx. }
  erewrite try_ok by exact E4. destruct (rd_run base t w4 status _ _ Hh eq_refl) as (w6 & E6 & A6).
  erewrite bind_val by exact E6. rewrite A4 in A6 |- *. cbn [g_status default].
  destruct (acc x); [|exists w6; rewrite A6; by split_and!].
  edestruct (set_page_run t w6) as (w5 & E5 & A5); [done|exact A6|].
  change (contains 11 DeviceStatus.FEATURES_OK) with true. cbn [negb]. erewrite bind_val by exact E5.
  exists w5. rewrite A5. split_and!; try done. simpl. intros _ Hl. rewrite Hl in Hver.
  by destruct (mmio_version t).
Qed.
End theorems.

(** ** A device mapped at [0x1000] *)
Module FakeMmio.
Definition base : Z := 0x1000.

Fixpoint reg_at (fields : list (Reg * Z)) (o : Z) : option Reg :=
  match fields with
  | [] => None
  | (r, n) :: fields => if o =? 0 then Some r else reg_at fields (o - n)
  end.

(** A device that goes on using a queue for three reads after it is told to stop. *)
#[global] Instance volatile : Volatile Regs := {|
  vread n a g :=
    match r ← reg_at VirtIOHeader (a - base); read_reg r g with
    | Some (v, g') => (Val v, g')
    | None => (Val 0, g)
    end;
  vwrite n a v g :=
    match r ← reg_at VirtIOHeader (a - base); write_reg 3 r v g with
    | Some g' => (Val tt, g')
    | None => (Val tt, g)
    end
|}.

Lemma reg_found r : reg_at VirtIOHeader (base + offset_of VirtIOHeader r - base) = Some r.
Proof. by destruct r. Qed.

#[global, refine] Instance spec : MmioSpec Regs base := {| regs g := g; patience := 3 |}.
Proof.
  - intros r g v g' Hr. exists g'. split; [|done]. unfold vread, volatile. rewrite reg_found.
    change (mbind (λ r, read_reg r g) (Some r)) with (read_reg r g). by rewrite Hr.
  - intros r v g Hs. assert (is_Some (write_reg 3 r v g)) as [g' Hg].
    { unfold write_reg in *. destruct (selected g), g, r; simpl in *; eauto. }
    exists g', 3%nat. split; [done|]. split; [|done]. unfold vwrite, volatile. rewrite reg_found.
    change (mbind (λ r, write_reg 3 r v g) (Some r)) with (write_reg 3 r v g). by rewrite Hg.
Defined.

#[local] Instance checked : Profile := {| overflow_checks := true; debug_assertions := true |}.

(** A device of a version, and the transport [MmioTransport::new] makes for it. *)
Definition g0 (ve : Z) : Regs :=
  mkRegs 2 ve 0x130000006 (λ f, f =? 0x100000006) 0 (7, 7) 0 0 0 8 (λ _, unused_queue) 0 [].
Definition t0 (v : MmioVersion) : MmioTransport := mkMmio base v 0x100.

Lemma new_t0 v : new base 0x200 (g0 (MmioVersion_as_u32 v)) = (Val (Ok (t0 v)), g0 (MmioVersion_as_u32 v)).
Proof. by destruct v. Qed.

Lemma t0_made v : made_for (t0 v) (g0 (MmioVersion_as_u32 v)).
Proof. by split. Qed.

Lemma mmio_begin_init_witness : ∃ w',
  begin_init (H := transport 1) 0x1ffffffff 0x100000006 (t0 VLegacy, g0 1) =
    (Val (Ok 0x100000006), (t0 VLegacy, w')) ∧ g_page_size (regs w') = PAGE_SIZE.
Proof.
  destruct (mmio_begin_init base 1 (t0 VLegacy) (g0 1) 0x1ffffffff 0x100000006)
    as (w' & E & _ & _ & _ & Hp & _); [exact (t0_made VLegacy)|by vm_compute|by vm_compute|].
  exists w'. split; [exact E|by apply Hp].
Defined.

Lemma mmio_queue_lifecycle_witness : ∃ w1 w2 w3,
  queue_set 1 8 0x123450000 0x123450080 0x123451000 (t0 VModern, g0 2) = (Val tt, (t0 VModern, w1)) ∧
  queue_used 1 (t0 VModern, w1) = (Val true, (t0 VModern, w2)) ∧
  queue_unset 4 1 (t0 VModern, w2) = (Val tt, (t0 VModern, w3)).
Proof.
  destruct (mmio_queue_lifecycle base (t0 VModern) (g0 2) 1 8 0x123450000 0x123450080 0x123451000 4)
    as (w1 & w2 & w3 & w4 & E1 & E2 & E3 & _); [exact (t0_made VModern)|done|exact (le_n 4)|by vm_compute..|].
  exists w1, w2, w3. by split_and!.
Defined.

Lemma mmio_legacy_accepts_witness : ∃ w1,
  queue_set 0 8 0x80000000 (0x80000000 + desc_bytes 8) (0x80000000 + round_pages (desc_bytes 8 + avail_bytes 8))
    (t0 VLegacy, g0 1) = (Val tt, (t0 VLegacy, w1)).
Proof.
  destruct (mmio_legacy_accepts base (t0 VLegacy) (g0 1) 0 8 0x80000000) as (w1 & E & _);
    [done|done|done|by vm_compute|done|done|].
  by exists w1.
Defined.
End FakeMmio.
