(* ===== verification/Pci.v ===== *)
(** * The PCI transport

    [src/src/transport/pci.rs]: the VirtIO structures a PCI device describes by capabilities,
    and [PciTransport], an implementation of [Transport] over them. *)

From S2P Require Import Prelude Base Transport QueueData Bytes Volatile PciBus.

Module Pci.

Definition VIRTIO_VENDOR_ID : Z := 0x1af4.
Definition PCI_DEVICE_ID_OFFSET : Z := 0x1040.
Definition TRANSITIONAL_NETWORK : Z := 0x1000.
Definition TRANSITIONAL_BLOCK : Z := 0x1001.
Definition TRANSITIONAL_MEMORY_BALLOONING : Z := 0x1002.
Definition TRANSITIONAL_CONSOLE : Z := 0x1003.
Definition TRANSITIONAL_SCSI_HOST : Z := 0x1004.
Definition TRANSITIONAL_ENTROPY_SOURCE : Z := 0x1005.
Definition TRANSITIONAL_9P_TRANSPORT : Z := 0x1009.

Definition CAP_BAR_OFFSET : Z := 4.
Definition CAP_BAR_OFFSET_OFFSET : Z := 8.
Definition CAP_LENGTH_OFFSET : Z := 12.
Definition CAP_NOTIFY_OFF_MULTIPLIER_OFFSET : Z := 16.

Definition VIRTIO_PCI_CAP_COMMON_CFG : Z := 1.
Definition VIRTIO_PCI_CAP_NOTIFY_CFG : Z := 2.
Definition VIRTIO_PCI_CAP_ISR_CFG : Z := 3.
Definition VIRTIO_PCI_CAP_DEVICE_CFG : Z := 4.

(** [device_type]; [id - PCI_DEVICE_ID_OFFSET] does not underflow in its branch. *)
Definition pci_device_type (pci_device_id : Z) : DeviceType :=
  if pci_device_id =? TRANSITIONAL_NETWORK then Network
  else if pci_device_id =? TRANSITIONAL_BLOCK then Block
  else if pci_device_id =? TRANSITIONAL_MEMORY_BALLOONING then MemoryBalloon
  else if pci_device_id =? TRANSITIONAL_CONSOLE then Console
  else if pci_device_id =? TRANSITIONAL_SCSI_HOST then ScsiHost
  else if pci_device_id =? TRANSITIONAL_ENTROPY_SOURCE then EntropySource
  else if pci_device_id =? TRANSITIONAL_9P_TRANSPORT then P9
  else if PCI_DEVICE_ID_OFFSET <=? pci_device_id
  then DeviceType_from (pci_device_id - PCI_DEVICE_ID_OFFSET)
  else Invalid.

Definition virtio_device_type (info : DeviceFunctionInfo) : option DeviceType :=
  if vendor_id info =? VIRTIO_VENDOR_ID then
    match pci_device_type (device_id info) with Invalid => None | t => Some t end
  else None.

(** ** Errors and structures *)
Inductive VirtioPciError :=
| InvalidVendorId (vendor : Z)
| MissingCommonConfig
| MissingNotifyConfig
| InvalidNotifyOffMultiplier (multiplier : Z)
| MissingIsrConfig
| UnexpectedIoBar
| BarNotAllocated (bar : Z)
| BarOffsetOutOfRange
| Misaligned (address alignment : Z)
| VPci (e : PciError).

Record VirtioCapabilityInfo := mkCap { bar : Z; cap_offset : Z; cap_length : Z }.

Inductive CommonReg :=
| device_feature_select | device_feature | driver_feature_select | driver_feature | msix_config
| num_queues | device_status | config_generation | queue_select | queue_size
| queue_msix_vector | queue_enable | queue_notify_off | queue_desc | queue_driver | queue_device.

#[global] Instance CommonReg_eq_dec : EqDecision CommonReg.
Proof. solve_decision. Defined.

Definition CommonCfg : list (CommonReg * Z) :=
  [(device_feature_select, 4); (device_feature, 4); (driver_feature_select, 4);
   (driver_feature, 4); (msix_config, 2); (num_queues, 2); (device_status, 1);
   (config_generation, 1); (queue_select, 2); (queue_size, 2); (queue_msix_vector, 2);
   (queue_enable, 2); (queue_notify_off, 2); (queue_desc, 8); (queue_driver, 8);
   (queue_device, 8)].
Definition sizeof_CommonCfg : Z := foldr (λ f n, f.2 + n) 0 CommonCfg.

(** A slice in a memory-mapped region: its address and its number of elements. *)
Record PciTransport := mkPci {
  t_device_type : DeviceType;
  t_device_function : DeviceFunction;
  common_cfg : Z;
  notify_region : Z * Z;
  notify_off_multiplier : Z;
  notification_offsets : list (Z * Z);
  isr_status : Z;
  config_space : option (Z * Z)
}.

(** ** Finding the structures *)
Section new.
Context `{Profile} {W : Type} `{ConfigurationAccess W} `{Hal W}.

Definition lift_pci {A} (r : result A PciError) : result A VirtioPciError :=
  match r with Ok x => Ok x | Err e => Err (VPci e) end.

(** [size_of::<T>()] is [size], [align_of::<T>()] is [align]. *)
Definition get_bar_region (size align : Z) (df : DeviceFunction) (info : VirtioCapabilityInfo)
    : M W (result Z VirtioPciError) :=
  bar_info ←? (r ← bar_info df (bar info); mret (lift_pci r));
  match memory_address_size bar_info with
  | None => mret (Err UnexpectedIoBar)
  | Some (bar_address, bar_size) =>
    if bar_address =? 0 then mret (Err (BarNotAllocated (bar info))) else
    e ← add_u 32 (cap_offset info) (cap_length info);
    if (bar_size <? e) || (cap_length info <? size) then mret (Err BarOffsetOutOfRange) else
    paddr ← add_u 64 bar_address (cap_offset info);
    vaddr ← mmio_phys_to_virt paddr (cap_length info);
    if negb (vaddr mod align =? 0) then mret (Err (Misaligned vaddr align)) else
    mret (Ok vaddr)
  end.

Definition get_bar_region_slice (size align : Z) (df : DeviceFunction) (info : VirtioCapabilityInfo)
    : M W (result (Z * Z) VirtioPciError) :=
  ptr ←? get_bar_region size align df info;
  mret (Ok (ptr, cap_length info / size)).

(** The variables of the loop over the capabilities. *)
Record Found := mkFound {
  common : option VirtioCapabilityInfo;
  notify_cfg : option VirtioCapabilityInfo;
  multiplier : Z;
  isr : option VirtioCapabilityInfo;
  device_cfg : option VirtioCapabilityInfo
}.
Definition nothing_found : Found := mkFound None None 0 None None.

(** One round of the loop. *)
Definition visit (df : DeviceFunction) (c : CapabilityInfo) (f : Found) : M W Found :=
  if negb (id c =? PCI_CAP_ID_VNDR) then mret f else
  let cap_len := wrap 8 (private_header c) in
  let cfg_type := wrap 8 (Z.shiftr (private_header c) 8) in
  if cap_len <? 16 then mret f else
  o1 ← add_u 8 (offset c) CAP_BAR_OFFSET;
  b ← read_word df o1;
  o2 ← add_u 8 (offset c) CAP_BAR_OFFSET_OFFSET;
  o ← read_word df o2;
  o3 ← add_u 8 (offset c) CAP_LENGTH_OFFSET;
  l ← read_word df o3;
  let struct_info := mkCap (wrap 8 b) o l in
  if (cfg_type =? VIRTIO_PCI_CAP_COMMON_CFG) && bool_decide (common f = None) then
    mret (mkFound (Some struct_info) (notify_cfg f) (multiplier f) (isr f) (device_cfg f))
  else if (cfg_type =? VIRTIO_PCI_CAP_NOTIFY_CFG) && (20 <=? cap_len) && bool_decide (notify_cfg f = None) then
    o4 ← add_u 8 (offset c) CAP_NOTIFY_OFF_MULTIPLIER_OFFSET;
    m ← read_word df o4;
    mret (mkFound (common f) (Some struct_info) m (isr f) (device_cfg f))
  else if (cfg_type =? VIRTIO_PCI_CAP_ISR_CFG) && bool_decide (isr f = None) then
    mret (mkFound (common f) (notify_cfg f) (multiplier f) (Some struct_info) (device_cfg f))
  else if (cfg_type =? VIRTIO_PCI_CAP_DEVICE_CFG) && bool_decide (device_cfg f = None) then
    mret (mkFound (common f) (notify_cfg f) (multiplier f) (isr f) (Some struct_info))
  else mret f.

Fixpoint visit_loop (fuel : nat) (df : DeviceFunction) (next : option Z) (f : Found) : M W Found :=
  match fuel with
  | O => hang
  | S fuel =>
    '(x, next) ← capability_next df next;
    match x with
    | None => mret f
    | Some c => f ← visit df c f; visit_loop fuel df next f
    end
  end.

Definition ok_or {A E} (x : option A) (e : E) : result A E :=
  match x with Some x => Ok x | None => Err e end.

(** [PciTransport::new] after the loop. *)
Definition finish (df : DeviceFunction) (device_type : DeviceType) (f : Found)
    : M W (result PciTransport VirtioPciError) :=
  common ←? mret (ok_or (common f) MissingCommonConfig);
  common_cfg ←? get_bar_region sizeof_CommonCfg 8 df common;
  notify_cfg ←? mret (ok_or (notify_cfg f) MissingNotifyConfig);
  if negb (multiplier f mod 2 =? 0) then mret (Err (InvalidNotifyOffMultiplier (multiplier f))) else
  notify_region ←? get_bar_region_slice 2 2 df notify_cfg;
  isr ←? mret (ok_or (isr f) MissingIsrConfig);
  isr_status ←? get_bar_region 1 1 df isr;
  config_space ←? match device_cfg f with
    | Some device_cfg =>
      r ←? get_bar_region_slice 4 4 df device_cfg; mret (Ok (Some r))
    | None => mret (Ok None)
    end;
  mret (Ok (mkPci device_type df common_cfg notify_region (multiplier f) [] isr_status config_space)).

Definition new (fuel : nat) (df : DeviceFunction) : M W (result PciTransport VirtioPciError) :=
  device_vendor ← read_word df 0;
  let device_id := wrap 16 (Z.shiftr device_vendor 16) in
  let vendor_id := wrap 16 device_vendor in
  if negb (vendor_id =? VIRTIO_VENDOR_ID) then mret (Err (InvalidVendorId vendor_id)) else
  o ← capabilities_offset df;
  f ← visit_loop fuel df o nothing_found;
  finish df (pci_device_type device_id) f.
End new.

(** ** The transport *)
Section transport.
Context `{Profile} {W : Type} `{Volatile W}.
Abbreviation St := (PciTransport * W)%type.

Definition rd (r : CommonReg) : M St Z :=
  t ← gets fst; on_snd (volread CommonCfg (common_cfg t) r).
Definition wr (r : CommonReg) (v : Z) : M St unit :=
  t ← gets fst; on_snd (volwrite CommonCfg (common_cfg t) r v).

Definition device_type : M St DeviceType := t ← gets fst; mret (t_device_type t).

Definition read_device_features : M St Z :=
  wr device_feature_select 0;;
  low ← rd device_feature;
  wr device_feature_select 1;;
  high ← rd device_feature;
  mret (Z.lor low (wrap 64 (Z.shiftl high 32))).

Definition write_driver_features (driver_features : Z) : M St unit :=
  wr driver_feature_select 0;;
  wr driver_feature (wrap 32 driver_features);;
  wr driver_feature_select 1;;
  wr driver_feature (wrap 32 (Z.shiftr driver_features 32)).

Definition max_queue_size (queue : Z) : M St Z := wr queue_select queue;; rd queue_size.

(** The offset recorded for a queue. *)
Definition find_offset (queue : Z) (l : list (Z * Z)) : option Z :=
  snd <$> find (λ p, p.1 =? queue) l.

Definition notify (queue : Z) : M St unit :=
  t ← gets fst;
  queue_notify_off ← unwrap (find_offset queue (notification_offsets t));
  offset_bytes ← mul_u 64 queue_notify_off (notify_off_multiplier t);
  let index := offset_bytes / 2 in
  assert (index <? (notify_region t).2);;
  on_snd (vwrite 2 ((notify_region t).1 + 2 * index) queue).

Definition get_status : M St Z :=
  s ← rd device_status; mret (truncate_flags DeviceStatus.all s).
Definition set_status (s : Z) : M St unit := wr device_status (wrap 8 s).

Definition set_guest_page_size (_ : Z) : M St unit := mret tt.
Definition requires_legacy_layout : M St bool := mret false.

Definition push_offset (queue off : Z) (t : PciTransport) : PciTransport :=
  mkPci (t_device_type t) (t_device_function t) (common_cfg t) (notify_region t)
    (notify_off_multiplier t) (notification_offsets t ++ [(queue, off)]) (isr_status t)
    (config_space t).

Definition queue_set (queue size descriptors driver_area device_area : Z) : M St unit :=
  t ← gets fst;
  (if existsb (λ p, p.1 =? queue) (notification_offsets t) then panic else mret tt);;
  wr queue_select queue;;
  wr queue_size (wrap 16 size);;
  wr queue_desc descriptors;;
  wr queue_driver driver_area;;
  wr queue_device device_area;;
  wr queue_enable 1;;
  off ← rd queue_notify_off;
  modify (λ s, (push_offset queue off s.1, s.2)).

Definition queue_unset (_ : Z) : M St unit := mret tt.

Definition queue_used (queue : Z) : M St bool :=
  wr queue_select queue;;
  v ← rd queue_enable;
  mret (v =? 1).

(** [ack_interrupt] and [ack_interrupt_raw]; [from_bits_retain] keeps every bit. *)
Definition ack_interrupt : M St Z := t ← gets fst; on_snd (vread 1 (isr_status t)).

Definition read_config_generation : M St Z := rd config_generation.

Definition read_config_space (size align offset : Z) : M St (Result (list Z)) :=
  assert (align <=? 4);;
  assert (offset mod align =? 0);;
  t ← gets fst;
  match config_space t with
  | None => mret (Err ConfigSpaceMissing)
  | Some (base, len) =>
    n ← mul_u 64 len 4;
    e ← add_u 64 offset size;
    if n <? e then mret (Err ConfigSpaceTooSmall) else
    v ← on_snd (vread size (base + offset));
    mret (Ok (le (Z.to_nat size) v))
  end.

Definition write_config_space (align offset : Z) (value : list Z) : M St (Result unit) :=
  assert (align <=? 4);;
  assert (offset mod align =? 0);;
  t ← gets fst;
  match config_space t with
  | None => mret (Err ConfigSpaceMissing)
  | Some (base, len) =>
    n ← mul_u 64 len 4;
    e ← add_u 64 offset (Z.of_nat (length value));
    if n <? e then mret (Err ConfigSpaceTooSmall) else
    on_snd (vwrite (Z.of_nat (length value)) (base + offset) (of_le value));;
    mret (Ok tt)
  end.

(** [while self.get_status() != DeviceStatus::empty() {}]. *)
Fixpoint wait_reset (fuel : nat) : M St unit :=
  match fuel with
  | O => hang
  | S fuel => s ← get_status; if s =? DeviceStatus.empty then mret tt else wait_reset fuel
  end.

(** [Drop]. *)
Definition drop (fuel : nat) : M St unit := set_status DeviceStatus.empty;; wait_reset fuel.

Definition transport : Transport PciTransport W := {|
  Transport.device_type := device_type;
  Transport.read_device_features := read_device_features;
  Transport.write_driver_features := write_driver_features;
  Transport.max_queue_size := max_queue_size;
  Transport.notify := notify;
  Transport.get_status := get_status;
  Transport.set_status := set_status;
  Transport.try_set_status := default_try_set_status set_status;
  Transport.set_guest_page_size := set_guest_page_size;
  Transport.requires_legacy_layout := requires_legacy_layout;
  Transport.queue_set := queue_set;
  Transport.queue_unset := queue_unset;
  Transport.queue_used := queue_used;
  Transport.ack_interrupt := ack_interrupt;
  Transport.read_config_generation := read_config_generation;
  Transport.read_config_space := read_config_space;
  Transport.write_config_space := write_config_space
|}.
End transport.
End Pci.
