(* ===== verification/PciProps.v ===== *)
(** * Properties of the PCI transport

    Which of a device's capabilities [PciTransport::new] uses, what it checks of the regions
    they describe, and what setting up and notifying a queue does to the device. *)

From S2P Require Import Prelude Base Transport QueueData Bytes Volatile PciBus PciBusProps Pci.
Import Pci.

(** ** The capabilities of a device *)
Section find.
Context `{Profile} {W : Type} `{PciSpec W} (w : W) (df : DeviceFunction).

Definition cap_len (c : CapabilityInfo) : Z := wrap 8 (private_header c).
Definition cfg_type (c : CapabilityInfo) : Z := wrap 8 (Z.shiftr (private_header c) 8).

(** A VirtIO capability of the given type and at least the given length. *)
Definition virtio_cap (ty n : Z) (c : CapabilityInfo) : bool :=
  (id c =? PCI_CAP_ID_VNDR) && (n <=? cap_len c) && (cfg_type c =? ty).

(** The structure a capability describes, and the multiplier of a notification capability. *)
Definition structure (c : CapabilityInfo) : VirtioCapabilityInfo :=
  mkCap (wrap 8 (reg w df (offset c + 4))) (reg w df (offset c + 8)) (reg w df (offset c + 12)).

(** The first capability of each type. *)
Definition first_found (cs : list CapabilityInfo) : Found :=
  mkFound (structure <$> find (virtio_cap 1 16) cs) (structure <$> find (virtio_cap 2 20) cs)
    (from_option (λ c, reg w df (offset c + 16)) 0 (find (virtio_cap 2 20) cs))
    (structure <$> find (virtio_cap 3 16) cs) (structure <$> find (virtio_cap 4 16) cs).

(** A VirtIO capability lies in the configuration space. *)
Definition cap_in_space (c : CapabilityInfo) : Prop :=
  0 ≤ offset c ∧ offset c mod 4 = 0 ∧
  (id c = PCI_CAP_ID_VNDR → 16 ≤ cap_len c → offset c + cap_len c ≤ 256).

Lemma find_snoc {A} (p : A → bool) l x :
  find p (l ++ [x]) = match find p l with Some y => Some y | None => if p x then Some x else None end.
Proof. induction l as [|y l IH]; simpl; [done|]. destruct (p y); done. Qed.

Lemma read_at_run {A} (k : Z → M W A) o n : df_ok df → 0 ≤ o → o mod 4 = 0 → 0 ≤ n → n mod 4 = 0 →
  o + n < 256 →
  (x ← add_u 8 o n; v ← read_word df x; k v) w = k (reg w df (o + n)) w.
Proof.
  intros Hdf Ho Ha Hn Hna Hb. unfold add_u. erewrite bind_val by (apply arith_fits; unfold fits; lia).
  erewrite bind_val; [done|]. apply read_word_spec; [done|lia|]. rewrite Z.add_mod, Ha, Hna by lia. done.
Qed.

(** A round of the loop takes the capability into account. *)
Lemma visit_run c cs : df_ok df → cap_in_space c →
  visit df c (first_found cs) w = (Val (first_found (cs ++ [c])), w).
Proof.
  intros Hdf (Ho & Ha & Hs). unfold visit. fold (cap_len c). fold (cfg_type c).
  unfold first_found. rewrite !find_snoc.
  generalize (find (virtio_cap 1 16) cs) (find (virtio_cap 2 20) cs) (find (virtio_cap 3 16) cs)
    (find (virtio_cap 4 16) cs). intros f1 f2 f3 f4. unfold virtio_cap.
  destruct (Z.eqb_spec (id c) PCI_CAP_ID_VNDR) as [Hid|]; cbn [andb negb];
    [|by repeat case_match].
  destruct (Z.ltb_spec (cap_len c) 16) as [Hl|Hl].
  { rewrite (proj2 (Z.leb_gt 16 _)), (proj2 (Z.leb_gt 20 _)) by lia. cbn [andb]. by repeat case_match. }
  specialize (Hs Hid Hl). rewrite (proj2 (Z.leb_le 16 _)) by lia. cbn [andb].
  unfold CAP_BAR_OFFSET, CAP_BAR_OFFSET_OFFSET, CAP_LENGTH_OFFSET, CAP_NOTIFY_OFF_MULTIPLIER_OFFSET.
  do 3 rewrite read_at_run by (done || lia). fold (structure c). cbn [common notify_cfg isr device_cfg].
  unfold VIRTIO_PCI_CAP_COMMON_CFG, VIRTIO_PCI_CAP_NOTIFY_CFG, VIRTIO_PCI_CAP_ISR_CFG,
    VIRTIO_PCI_CAP_DEVICE_CFG.
  destruct (Z.eqb_spec (cfg_type c) 1) as [->|]; [by (destruct f1, f2, f3, f4; destruct (20 <=? _))|].
  destruct (Z.eqb_spec (cfg_type c) 2) as [->|]; cycle 1.
  { destruct (Z.eqb_spec (cfg_type c) 3) as [->|]; [|destruct (cfg_type c =? 4)];
      destruct f1, f2, f3, f4; by destruct (20 <=? _). }
  destruct (Z.leb_spec 20 (cap_len c)); [|by destruct f1, f2, f3, f4].
  destruct f2; [by destruct f1, f3, f4|]. cbn [fmap option_fmap option_map]. simpl.
  rewrite read_at_run by (done || lia). by destruct f1, f3, f4.
Qed.

Lemma visit_loop_run l : ∀ o fuel cs, df_ok df → (∀ x, o = Some x → 0 ≤ x < 256 ∧ x mod 4 = 0) →
  cap_list w df o l → (length l < fuel)%nat → (∀ x, x ∈ l → cap_in_space (cap_at w df x)) →
  visit_loop fuel df o (first_found cs) w = (Val (first_found (cs ++ (cap_at w df <$> l))), w).
Proof.
  induction l as [|x l IH]; intros o fuel cs Hdf Ho Hl Hf Hs;
    (destruct fuel as [|fuel]; [lia|]); cbn [visit_loop].
  - destruct o; [done|]. simpl. by rewrite app_nil_r.
  - destruct o as [y|]; [|done]. destruct Hl as [-> Hl]. destruct (Ho y eq_refl) as [Hy Hya].
    erewrite bind_val by (by apply capability_next_run). cbv beta iota.
    erewrite bind_val by (apply visit_run; [done|apply Hs; set_solver]).
    rewrite fmap_cons. change (cap_at w df y :: ?x) with ([cap_at w df y] ++ x).
    rewrite (assoc (++) cs [cap_at w df y] (cap_at w df <$> l)).
    apply IH; [done| |done|simpl in Hf; lia|set_solver].
    intros n Hn. by apply (cap_next_ok w df y).
Qed.
End find.

Section theorems.
Context `{Profile} {W : Type} `{PciSpec W} `{!Hal W}.

(** C35. [PciTransport::new] refuses a device of another vendor, and of a VirtIO device whose
    capability list ends it uses the first capability of each type that is long enough, whatever
    other capabilities surround it: its bar, offset, length and notification multiplier are those
    of these capabilities. *)
Theorem pci_new_finds df w l fuel : df_ok df → has_capabilities w df = true →
  cap_list w df (Some (first_cap w df)) l → (length l < fuel)%nat →
  (∀ x, x ∈ l → cap_in_space (cap_at w df x)) →
  let vendor := wrap 16 (reg w df 0) in
  let device := wrap 16 (Z.shiftr (reg w df 0) 16) in
  new fuel df w =
    if decide (vendor = VIRTIO_VENDOR_ID)
    then finish df (pci_device_type device) (first_found w df (cap_at w df <$> l)) w
    else (Val (Err (InvalidVendorId vendor)), w).
Proof.
  intros Hdf Hc Hl Hf Hs vendor device. unfold new.
  erewrite bind_val by (apply read_word_spec; [done|lia|done]). cbv zeta. fold vendor device.
  destruct (decide (vendor = VIRTIO_VENDOR_ID)) as [->|Hv].
  - rewrite Z.eqb_refl. cbn [negb]. erewrite bind_val by (by apply capabilities_offset_run). rewrite Hc.
    erewrite bind_val; [done|]. apply (visit_loop_run w df l _ _ []); try done.
    intros x [= <-]. apply first_cap_ok.
  - by rewrite (proj2 (Z.eqb_neq vendor _) Hv).
Qed.

(** C37. A region [get_bar_region] returns lies in a memory register that has been allocated, holds
    the structure it is read as, and is aligned for it, when overflows are checked. *)
Theorem pci_region_in_bar size align df info w v w' : overflow_checks = true →
  get_bar_region size align df info w = (Val (Ok v), w') → ∃ t p a n w1,
  bar_info df (bar info) w = (Val (Ok (MemoryBar t p a n)), w1) ∧ a ≠ 0 ∧
  cap_offset info + cap_length info ≤ n ∧ size ≤ cap_length info ∧ v mod align = 0 ∧
  mmio_phys_to_virt (a + cap_offset info) (cap_length info) w1 = (Val v, w').
Proof.
  intros Hc. unfold get_bar_region. intros [(e & _ & ?)|(b & w1 & Hb & E)]%try_val_inv; [done|].
  apply bind_val_inv in Hb as (r & w0 & Hb & [= Hr <-]). destruct r as [b'|]; [|done]. injection Hr as ->.
  destruct b as [t p a n|]; [|done]. cbn [memory_address_size] in E.
  destruct (Z.eqb_spec a 0) as [|Ha]; [done|]. unfold add_u in E.
  apply bind_val_inv in E as (x & w2 & [-> ->]%arith_checked & E); [|done].
  destruct (_ || _) eqn:Ec; [done|]. apply orb_false_iff in Ec as [E1%Z.ltb_ge E2%Z.ltb_ge].
  apply bind_val_inv in E as (x & w3 & [-> ->]%arith_checked & E); [|done].
  apply bind_val_inv in E as (y & w4 & Em & E).
  destruct (Z.eqb_spec (y mod align) 0) as [Hy|]; [|done]. injection E as -> ->.
  by exists t, p, a, n, w0.
Qed.

(** Without overflow checks a capability whose end wraps around passes: the region of a
    [get_bar_region] that succeeds can lie outside its register. *)
Lemma pci_region_wraps size align df info w t p a n w1 v w' : overflow_checks = false →
  bar_info df (bar info) w = (Val (Ok (MemoryBar t p a n)), w1) → a ≠ 0 → fits 64 (a + cap_offset info) →
  0 ≤ n → cap_offset info + cap_length info = 2 ^ 32 → size ≤ cap_length info → v mod align = 0 →
  mmio_phys_to_virt (a + cap_offset info) (cap_length info) w1 = (Val v, w') →
  get_bar_region size align df info w = (Val (Ok v), w').
Proof.
  intros Hc Hb Ha Hf Hn Ho Hs Hv Hm. unfold get_bar_region.
  erewrite try_ok by (erewrite bind_val by exact Hb; reflexivity). cbn [memory_address_size].
  rewrite (proj2 (Z.eqb_neq a 0) Ha). unfold add_u. rewrite Ho.
  erewrite (bind_val (arith 32 _)) by (unfold arith; rewrite Hc; reflexivity). change (wrap 32 (2 ^ 32)) with 0.
  rewrite (proj2 (Z.ltb_ge n 0)), (proj2 (Z.ltb_ge (cap_length info) size)) by lia. cbn [orb].
  erewrite bind_val by (by apply arith_fits). erewrite bind_val by exact Hm. by rewrite Hv.
Qed.
End theorems.

(** ** Queues

    The registers of the common configuration that concern queues, and the notification region
    (sections 4.1.4.3 and 4.1.4.4 of the specification): [c_notify_off] is the device's. *)
Record CQueue := mkCQueue {
  c_size : Z; c_desc : Z; c_driver : Z; c_device : Z; c_enable : Z; c_notify_off : Z
}.
Record CRegs := mkCRegs {
  c_select : Z;
  c_queues : Z → CQueue;
  c_notified : list (Z * Z)
}.

Definition read_common (r : CommonReg) (g : CRegs) : option Z :=
  let q := c_queues g (c_select g) in
  match r with
  | queue_select => Some (c_select g)
  | queue_size => Some (c_size q)
  | queue_desc => Some (c_desc q)
  | queue_driver => Some (c_driver q)
  | queue_device => Some (c_device q)
  | queue_enable => Some (c_enable q)
  | queue_notify_off => Some (c_notify_off q)
  | _ => None
  end.

Definition common_queue (r : CommonReg) (v : Z) (q : CQueue) : option CQueue :=
  let 'mkCQueue n d r' v' e o := q in
  match r with
  | queue_size => Some (mkCQueue v d r' v' e o)
  | queue_desc => Some (mkCQueue n v r' v' e o)
  | queue_driver => Some (mkCQueue n d v v' e o)
  | queue_device => Some (mkCQueue n d r' v e o)
  | queue_enable => Some (mkCQueue n d r' v' v o)
  | _ => None
  end.

Definition write_common (r : CommonReg) (v : Z) (g : CRegs) : option CRegs :=
  if decide (r = queue_select) then Some (mkCRegs v (c_queues g) (c_notified g)) else
  q ← common_queue r v (c_queues g (c_select g));
  Some (mkCRegs (c_select g) (λ i, if i =? c_select g then q else c_queues g i) (c_notified g)).

(** A world with the common configuration at [base], and the notification region of [n] words
    at [nb]. *)
Class CommonSpec (W : Type) `{Volatile W} (base nb n : Z) := {
  cregs : W → CRegs;
  common_read_spec : ∀ r v w, read_common r (cregs w) = Some v →
    vread (size_of_field CommonCfg r) (base + offset_of CommonCfg r) w = (Val v, w);
  common_write_spec : ∀ r v w g, write_common r v (cregs w) = Some g → ∃ w',
    vwrite (size_of_field CommonCfg r) (base + offset_of CommonCfg r) v w = (Val tt, w') ∧ cregs w' = g;
  notify_spec : ∀ i q w, 0 ≤ i < n → ∃ w',
    vwrite 2 (nb + 2 * i) q w = (Val tt, w') ∧
    cregs w' = mkCRegs (c_select (cregs w)) (c_queues (cregs w)) (c_notified (cregs w) ++ [(nb + 2 * i, q)])
}.

Section queues.
Context `{Profile} {W : Type} `{Volatile W} (base nb n : Z) `{!CommonSpec W base nb n}.

Lemma crd_run t w r v : common_cfg t = base → read_common r (cregs w) = Some v →
  rd r (t, w) = (Val v, (t, w)).
Proof. intros E Hr. unfold rd. mstep. apply on_snd_val. simpl. rewrite E. by apply common_read_spec. Qed.

(** The selected queue is [q], its registers [x]; those of the other queues and the
    notifications are as in [g0]. *)
Definition at_cqueue (g : CRegs) (q : Z) (x : CQueue) (g0 : CRegs) : Prop :=
  c_select g = q ∧ (∀ j, c_queues g j = if j =? q then x else c_queues g0 j) ∧
  c_notified g = c_notified g0.

Lemma cwr_queue_run t w r v q x x' g0 : common_cfg t = base → at_cqueue (cregs w) q x g0 →
  common_queue r v x = Some x' → ∃ w',
  wr r v (t, w) = (Val tt, (t, w')) ∧ at_cqueue (cregs w') q x' g0.
Proof.
  intros E (Hq & Hx & Hn) Hr.
  assert (r ≠ queue_select) as Hsel by (destruct x; by intros ->).
  destruct (common_write_spec r v w
    (mkCRegs q (λ i, if i =? q then x' else c_queues (cregs w) i) (c_notified (cregs w)))) as (w' & Hw & Hr').
  { unfold write_common. rewrite decide_False by done. by rewrite Hq, (Hx q), Z.eqb_refl, Hr. }
  exists w'. split; [unfold wr; mstep; apply on_snd_val; simpl; by rewrite E|].
  rewrite Hr'. split_and!; [done| |done]. intros j. simpl. rewrite Hx. by destruct (j =? q).
Qed.

Lemma cwr_select_run t w q : common_cfg t = base → ∃ w',
  wr queue_select q (t, w) = (Val tt, (t, w')) ∧
  at_cqueue (cregs w') q (c_queues (cregs w) q) (cregs w).
Proof.
  intros E. edestruct (common_write_spec queue_select q w) as (w' & Hw & Hr); [done|].
  exists w'. split; [unfold wr; mstep; apply on_snd_val; simpl; by rewrite E|].
  rewrite Hr. split_and!; [done| |done]. intros j. simpl. by destruct (Z.eqb_spec j q) as [->|].
Qed.
End queues.

(** Runs the next write to a register of the selected queue. *)
Ltac cq_step :=
  match goal with
  | A : at_cqueue (cregs ?w) ?q _ _, Hh : common_cfg ?t = ?b |- context [(wr ?r ?v ≫= _) (?t, ?w)] =>
    let w' := fresh "w" in let E := fresh "Hw" in let A' := fresh "Aw" in
    edestruct (cwr_queue_run b _ _ t w r v q _ _ _ Hh A eq_refl) as (w' & E & A');
    erewrite bind_val by exact E; cbv beta; clear E A
  end.

Section queue_theorems.
Context `{Profile} {W : Type} `{Volatile W} (base nb n : Z) `{!CommonSpec W base nb n}.

Lemma existsb_find q l : existsb (λ p : Z * Z, p.1 =? q) l = bool_decide (is_Some (find_offset q l)).
Proof.
  unfold find_offset. induction l as [|[a b] l IH]; [done|]. simpl.
  destruct (a =? q); [done|]. by rewrite IH.
Qed.

Lemma find_offset_snoc q off l : find_offset q l = None → find_offset q (l ++ [(q, off)]) = Some off.
Proof.
  unfold find_offset. rewrite find_snoc. destruct (find _ l); [done|]. simpl. by rewrite Z.eqb_refl.
Qed.

Lemma pci_queue_set_run t w q size d dr dv : common_cfg t = base →
  find_offset q (notification_offsets t) = None →
  let off := c_notify_off (c_queues (cregs w) q) in ∃ w1,
  queue_set q size d dr dv (t, w) = (Val tt, (push_offset q off t, w1)) ∧
  at_cqueue (cregs w1) q (mkCQueue (wrap 16 size) d dr dv 1 off) (cregs w).
Proof.
  intros Hh Hn off. unfold queue_set. mstep. cbn [fst]. rewrite existsb_find, Hn. cbn.
  erewrite bind_val by reflexivity.
  destruct (cwr_select_run base nb n t w q Hh) as (w1 & E1 & A). erewrite bind_val by exact E1. clear E1.
  unfold off. destruct (c_queues (cregs w) q) as [n0 d0 r0 v0 e0 o0]. do 5 cq_step.
  match goal with A : at_cqueue (cregs ?w) _ _ _ |- _ => exists w; pose proof A as (Hs & Hx & _) end.
  erewrite bind_val by (apply (crd_run base nb n); [done|]; unfold read_common; by rewrite Hs, Hx, Z.eqb_refl).
  by split.
Qed.

(** C34. Setting a queue over PCI gives the device its size and addresses and enables it, without
    touching another queue, and records where the device wants it notified: [notify] then writes
    the queue's number at exactly that place of the notification region, or panics if the device
    named a place outside it. A queue can be set only once. *)
Theorem pci_queue_set_notify t w q size d dr dv : common_cfg t = base → notify_region t = (nb, n) →
  find_offset q (notification_offsets t) = None → fits 16 size →
  fits 16 (c_notify_off (c_queues (cregs w) q)) → fits 32 (notify_off_multiplier t) →
  notify_off_multiplier t mod 2 = 0 →
  let off := c_notify_off (c_queues (cregs w) q) in
  let place := off * notify_off_multiplier t in ∃ w1,
  let t1 := push_offset q off t in
  queue_set q size d dr dv (t, w) = (Val tt, (t1, w1)) ∧
  c_queues (cregs w1) q = mkCQueue size d dr dv 1 off ∧
  (∀ j, j ≠ q → c_queues (cregs w1) j = c_queues (cregs w) j) ∧
  (place < 2 * n → ∃ w2, notify q (t1, w1) = (Val tt, (t1, w2)) ∧
     c_notified (cregs w2) = c_notified (cregs w) ++ [(nb + place, q)]) ∧
  (2 * n ≤ place → notify q (t1, w1) = (Panic, (t1, w1))) ∧
  queue_set q size d dr dv (t1, w1) = (Panic, (t1, w1)).
Proof.
  intros Hh Hr Hn Hsz Ho Hm Hev off place.
  destruct (pci_queue_set_run t w q size d dr dv Hh Hn) as (w1 & E1 & Hs & Hx & Hno). exists w1. intros t1.
  assert (find_offset q (notification_offsets t1) = Some off) as Hf by (by apply find_offset_snoc).
  assert (2 * (place / 2) = place) as Hp.
  { assert (place mod 2 = 0); [|pose proof (Z.div_mod place 2); lia].
    unfold place. rewrite Z.mul_mod, Hev, Z.mul_0_r by lia. done. }
  assert (fits 64 place ∧ 0 ≤ place) as [Hfp Hp0] by (unfold fits, place in *; nia).
  assert (∀ X, notify q (t1, w1) = X ↔ (assert (place / 2 <? n);;
    on_snd (vwrite 2 (nb + 2 * (place / 2)) q)) (t1, w1) = X) as Hnot.
  { intros X. unfold notify. mstep. cbn [fst]. rewrite Hf. erewrite bind_val by reflexivity.
    cbn [t1 push_offset notify_off_multiplier notify_region]. rewrite Hr. cbn [fst snd].
    unfold mul_u. fold place. by erewrite bind_val by (by apply arith_fits). }
  split_and!; [done|by rewrite Hx, Z.eqb_refl, wrap_small| | | |].
  - intros j Hj. rewrite Hx. by rewrite (proj2 (Z.eqb_neq j q) Hj).
  - intros Hlt. destruct (notify_spec (place / 2) q w1) as (w2 & E2 & R2); [lia|]. exists w2.
    rewrite R2, Hnot, (proj2 (Z.ltb_lt (place / 2) n)) by lia. erewrite bind_val by reflexivity.
    split; [by apply on_snd_val|]. simpl. by rewrite Hno, Hp.
  - intros Hge. rewrite Hnot, (proj2 (Z.ltb_ge (place / 2) n)) by lia. done.
  - unfold queue_set. mstep. cbn [fst]. rewrite existsb_find, Hf. done.
Qed.
End queue_theorems.

(** ** Concrete devices *)
Section witnesses.
Import FakePci.
#[local] Instance checked : Profile := {| overflow_checks := true; debug_assertions := true |}.

(** Device memory mapped at its physical address; the transport allocates nothing. *)
#[local] Instance identity_hal : Hal World := {|
  dma_alloc _ _ w := (Panic, w);
  dma_dealloc _ _ _ w := (Panic, w);
  mmio_phys_to_virt p _ w := (Val p, w);
  share _ _ w := (Panic, w);
  unshare _ _ _ w := (Panic, w)
|}.

Lemma pci_new_finds_witness : (new 3 fun0 w0).1 = Val (Err BarOffsetOutOfRange).
Proof.
  assert (df_ok fun0) as Hdf by (unfold df_ok, fun0; simpl; lia).
  assert (has_capabilities w0 fun0 = true) as Hc by (vm_compute; reflexivity).
  assert (∀ x, x ∈ [0x40; 0x50] → cap_in_space (cap_at w0 fun0 x)) as Hs.
  { intros x [->| [->|Hx%elem_of_nil]%elem_of_cons]%elem_of_cons; [| |done]; split_and!; vm_compute; congruence. }
  rewrite (pci_new_finds fun0 w0 [0x40; 0x50] 3 Hdf Hc); [vm_compute; reflexivity| |simpl; lia|done].
  vm_compute. tauto.
Defined.

Lemma pci_region_in_bar_witness : ∃ n w1,
  bar_info fun0 0 w0 = (Val (Ok (MemoryBar Width32 true 0xfe001000 n)), w1) ∧ 0x100 + 0x200 ≤ n.
Proof.
  destruct (get_bar_region 56 8 fun0 (mkCap 0 0x100 0x200) w0) as [o w'] eqn:E.
  assert (o = Val (Ok 0xfe001100)) as ->.
  { change o with (fst (o, w')). rewrite <- E. vm_compute. reflexivity. }
  destruct (pci_region_in_bar 56 8 fun0 (mkCap 0 0x100 0x200) w0 0xfe001100 w')
    as (t & p & a & n & w1 & Hb & _ & Hn & _); [reflexivity|exact E|].
  cbn [bar] in Hb. exists n, w1. split; [|done]. rewrite Hb.
  assert (fst (bar_info fun0 0 w0) = Val (Ok (MemoryBar Width32 true 0xfe001000 4096))) as Hv by (vm_compute; reflexivity).
  rewrite Hb in Hv. simpl in Hv. by injection Hv as -> -> -> _.
Defined.
End witnesses.

Module FakeCommon.
Definition base : Z := 0x1000.
Definition nb : Z := 0x2000.

Fixpoint reg_at (fields : list (CommonReg * Z)) (o : Z) : option CommonReg :=
  match fields with
  | [] => None
  | (r, n) :: fields => if o =? 0 then Some r else reg_at fields (o - n)
  end.

#[global] Instance volatile : Volatile CRegs := {|
  vread n a g := match reg_at CommonCfg (a - base) ≫= λ r, read_common r g with
                 | Some v => (Val v, g) | None => (Panic, g) end;
  vwrite n a v g :=
    if (nb <=? a) && (a <? nb + 16)
    then (Val tt, mkCRegs (c_select g) (c_queues g) (c_notified g ++ [(a, v)])) else
    match reg_at CommonCfg (a - base) ≫= λ r, write_common r v g with
    | Some g => (Val tt, g) | None => (Panic, g) end
|}.

#[global, refine] Instance spec : CommonSpec CRegs base nb 8 := {| cregs g := g |}.
Proof.
  - intros r v g E. destruct r; simpl in *; by simplify_eq.
  - intros r v g g' E. exists g'. split; [|done].
    unfold vwrite, volatile. replace ((nb <=? _) && _) with false by by destruct r.
    replace (reg_at _ _) with (Some r) by by destruct r. simpl. by rewrite E.
  - intros i q g Hi. eexists. split; [|done]. unfold vwrite, volatile.
    rewrite (proj2 (Z.leb_le nb _)), (proj2 (Z.ltb_lt _ (nb + 16))) by lia. done.
Defined.

#[local] Instance checked : Profile := {| overflow_checks := true; debug_assertions := true |}.

Definition g0 : CRegs := mkCRegs 0 (λ i, mkCQueue 64 0 0 0 0 i) [].
Definition t0 : PciTransport := mkPci Block (mkDeviceFunction 0 1 0) base (nb, 8) 4 [] 0x3000 None.

Lemma pci_queue_set_notify_witness : ∃ w1 w2,
  queue_set 1 16 0x5000 0x6000 0x7000 (t0, g0) = (Val tt, (push_offset 1 1 t0, w1)) ∧
  notify 1 (push_offset 1 1 t0, w1) = (Val tt, (push_offset 1 1 t0, w2)) ∧ c_notified w2 = [(nb + 4, 1)].
Proof.
  destruct (pci_queue_set_notify base nb 8 t0 g0 1 16 0x5000 0x6000 0x7000)
    as (w1 & E1 & _ & _ & Hn & _); [done|done|done|by vm_compute|by vm_compute|by vm_compute|done|].
  destruct Hn as (w2 & E2 & R2); [done|]. by exists w1, w2.
Defined.
End FakeCommon.
