(* ===== verification/Simulation.v ===== *)
(** * Transports that act alike

    [sim I f c1 c2]: from states that satisfy [I], [c2] does on the image under [f] what [c1]
    does, with the same answer, panic or hang, and [I] is kept. [Call] is a call of a transport's
    method; the provided methods of the trait, [begin_init], [finish_init] and
    [read_consistent], do the same over transports whose methods do. *)

From S2P Require Import Prelude Base Transport.

Definition sim {S1 S2 A} (I : S1 → Prop) (f : S1 → S2) (c1 : M S1 A) (c2 : M S2 A) : Prop :=
  ∀ s o s', I s → c1 s = (o, s') → c2 (f s) = (o, f s') ∧ I s'.

Create HintDb sim.

Section sim.
Context {S1 S2 : Type} (I : S1 → Prop) (f : S1 → S2).

Lemma sim_ret {A} (a : A) : sim I f (mret a) (mret a).
Proof. intros s o s' HI E. by injection E as <- <-. Qed.

Lemma sim_panic {A} : sim I f (panic (A := A)) panic.
Proof. intros s o s' HI E. by injection E as <- <-. Qed.

Lemma sim_hang {A} : sim I f (hang (A := A)) hang.
Proof. intros s o s' HI E. by injection E as <- <-. Qed.

Lemma sim_bind {A B} (c1 : M S1 A) c2 (k1 : A → M S1 B) k2 :
  sim I f c1 c2 → (∀ a, sim I f (k1 a) (k2 a)) → sim I f (c1 ≫= k1) (c2 ≫= k2).
Proof.
  intros Hc Hk s o s' HI E. unfold mbind, M_bind in *.
  destruct (c1 s) as [o1 s1] eqn:E1. destruct (Hc _ _ _ HI E1) as [-> HI1].
  destruct o1; [by apply (Hk a)|by injection E as <- <-..].
Qed.

(** As [sim_bind], with what the first computation's answers satisfy. *)
Lemma sim_bind_post {A B} (Q : A → Prop) (c1 : M S1 A) c2 (k1 : A → M S1 B) k2 :
  sim I f c1 c2 → (∀ s a s', c1 s = (Val a, s') → Q a) → (∀ a, Q a → sim I f (k1 a) (k2 a)) →
  sim I f (c1 ≫= k1) (c2 ≫= k2).
Proof.
  intros Hc HQ Hk s o s' HI E. unfold mbind, M_bind in *.
  destruct (c1 s) as [o1 s1] eqn:E1. destruct (Hc _ _ _ HI E1) as [-> HI1].
  destruct o1; [by apply (Hk a (HQ _ _ _ E1))|by injection E as <- <-..].
Qed.

Lemma sim_try {A B E} (c1 : M S1 (result A E)) c2 (k1 : A → M S1 (result B E)) k2 :
  sim I f c1 c2 → (∀ a, sim I f (k1 a) (k2 a)) → sim I f (try c1 k1) (try c2 k2).
Proof. intros Hc Hk. apply sim_bind; [done|]. intros [a|e]; [done|apply sim_ret]. Qed.

Lemma sim_assert b : sim I f (assert b) (assert b).
Proof. destruct b; [apply sim_ret|apply sim_panic]. Qed.

Lemma sim_unwrap {A} (o : option A) : sim I f (unwrap o) (unwrap o).
Proof. destruct o; [apply sim_ret|apply sim_panic]. Qed.

Lemma sim_arith `{Profile} w x : sim I f (arith w x) (arith w x).
Proof. unfold arith. case_match; [apply sim_ret|]. case_match; [apply sim_panic|apply sim_ret]. Qed.

Lemma sim_if {A} (b : bool) (c1 d1 : M S1 A) c2 d2 :
  sim I f c1 c2 → sim I f d1 d2 → sim I f (if b then c1 else d1) (if b then c2 else d2).
Proof. by destruct b. Qed.

(** A computation that starts by looking at the state. *)
Lemma sim_gets {A B C} (g1 : S1 → A) (g2 : S2 → B) (k1 : A → M S1 C) k2 :
  (∀ s o s', I s → k1 (g1 s) s = (o, s') → k2 (g2 (f s)) (f s) = (o, f s') ∧ I s') →
  sim I f (gets g1 ≫= k1) (gets g2 ≫= k2).
Proof. intros Hk s o s' HI E. by apply (Hk s). Qed.
End sim.

#[export] Hint Resolve sim_ret sim_panic sim_hang sim_assert sim_unwrap sim_arith : sim.

(** Composes [sim] along two computations of the same structure. *)
Ltac sim := repeat (intros; first
  [ solve [eauto 3 with sim]
  | apply sim_bind | apply sim_try | apply sim_if
  | match goal with |- sim _ _ (match ?x with _ => _ end) _ => destruct x end ]).

(** ** Calls *)

(** The calls of a transport's methods, and their answers. *)
Inductive Call :=
| DeviceTypeCall | ReadDeviceFeatures | WriteDriverFeatures (features : Z) | MaxQueueSize (queue : Z)
| Notify (queue : Z) | GetStatus | SetStatus (status : Z) | TrySetStatus (status : Z)
| SetGuestPageSize (size : Z) | RequiresLegacyLayout
| QueueSet (queue size descriptors driver_area device_area : Z) | QueueUnset (queue : Z)
| QueueUsed (queue : Z) | AckInterrupt | ReadConfigGeneration
| ReadConfigSpace (size align offset : Z) | WriteConfigSpace (align offset : Z) (value : list Z).

Inductive Answer :=
| AType (t : DeviceType) | AWord (x : Z) | AUnit | ABool (b : bool)
| AStatus (r : Result (option Z)) | ABytes (r : Result (list Z)) | AWritten (r : Result unit).

Section calls.
Context {T W : Type} (tr : Transport T W).

Definition call (c : Call) : M (T * W) Answer :=
  match c with
  | DeviceTypeCall => x ← device_type; mret (AType x)
  | ReadDeviceFeatures => x ← read_device_features; mret (AWord x)
  | WriteDriverFeatures f => write_driver_features f;; mret AUnit
  | MaxQueueSize q => x ← max_queue_size q; mret (AWord x)
  | Notify q => notify q;; mret AUnit
  | GetStatus => x ← get_status; mret (AWord x)
  | SetStatus s => set_status s;; mret AUnit
  | TrySetStatus s => x ← try_set_status s; mret (AStatus x)
  | SetGuestPageSize n => set_guest_page_size n;; mret AUnit
  | RequiresLegacyLayout => x ← requires_legacy_layout; mret (ABool x)
  | QueueSet q n d r v => queue_set q n d r v;; mret AUnit
  | QueueUnset q => queue_unset q;; mret AUnit
  | QueueUsed q => x ← queue_used q; mret (ABool x)
  | AckInterrupt => x ← ack_interrupt; mret (AWord x)
  | ReadConfigGeneration => x ← read_config_generation; mret (AWord x)
  | ReadConfigSpace n a o => x ← read_config_space n a o; mret (ABytes x)
  | WriteConfigSpace a o v => x ← write_config_space a o v; mret (AWritten x)
  end.

(** A sequence of calls, and the answers to those that returned. *)
Fixpoint calls (cs : list Call) : M (T * W) (list Answer) :=
  match cs with
  | [] => mret []
  | c :: cs => a ← call c; l ← calls cs; mret (a :: l)
  end.
End calls.

Section transports.
Context {T1 T2 W1 W2 : Type} (tr1 : Transport T1 W1) (tr2 : Transport T2 W2).
Context (I : T1 * W1 → Prop) (f : T1 * W1 → T2 * W2).

Lemma calls_sim cs : (∀ c, c ∈ cs → sim I f (call tr1 c) (call tr2 c)) →
  sim I f (calls tr1 cs) (calls tr2 cs).
Proof.
  induction cs as [|c cs IH]; intros Hc; cbn [calls]; sim; [apply Hc; left|].
  apply IH. intros d Hd. apply Hc. by right.
Qed.

(** Initialisation over transports whose methods do the same. *)
Lemma begin_init_sim `{Profile} all supported :
  (∀ s, sim I f (@set_status _ _ tr1 s) (@set_status _ _ tr2 s)) →
  (∀ s, sim I f (@try_set_status _ _ tr1 s) (@try_set_status _ _ tr2 s)) →
  sim I f (@get_status _ _ tr1) (@get_status _ _ tr2) →
  sim I f (@read_device_features _ _ tr1) (@read_device_features _ _ tr2) →
  (∀ x, sim I f (@write_driver_features _ _ tr1 x) (@write_driver_features _ _ tr2 x)) →
  (∀ x, sim I f (@set_guest_page_size _ _ tr1 x) (@set_guest_page_size _ _ tr2 x)) →
  sim I f (begin_init all supported) (begin_init all supported).
Proof. intros. unfold begin_init. sim. Qed.
End transports.
