(* ===== verification/HypPci.v ===== *)
(** * The transport of a protected virtual machine

    [src/src/transport/x86_64.rs] and its modules [hypercalls.rs] and [cam.rs]: a virtual machine
    under pKVM reaches the registers of a PCI device by hypercalls. [HypIoRegion] reads and
    writes registers, [HypCam] accesses the configuration space, [HypPciTransport] is the
    transport over them. *)

From S2P Require Import Prelude Base Transport QueueData Bytes Volatile PciBus Pci.

Module HypPci.
Import Pci.

(** ** Hypercalls *)

(** The instructions: [vmcall] with its number and four arguments, which leaves its answer in
    [rax], and [cpuid], which leaves the word of interest in [rbx]. What they do is the
    hypervisor's. *)
Class Hypervisor (W : Type) := {
  vmcall_impl : ∀ (hypcall a1 a2 a3 a4 : Z), M W Z;
  cpuid : ∀ leaf : Z, M W Z
}.

Definition KVM_CPUID_SIGNATURE : Z := 0x40000000.
Definition KVM_HC_PKVM_OP : Z := 20.
Definition PKVM_GHC_IOREAD : Z := KVM_HC_PKVM_OP + 3.
Definition PKVM_GHC_IOWRITE : Z := KVM_HC_PKVM_OP + 4.
Definition HYP_IO_MAX : Z := 8.
Definition PKVM_SIGNATURE : list Z := [0x50; 0x4b; 0x56; 0x4d].

Record HypIoRegion := mkRegion { paddr : Z; size : Z }.

Section hypercalls.
Context `{Profile} {W : Type} `{Hypervisor W}.

Definition cpuid_signature : M W (list Z) :=
  signature ← cpuid KVM_CPUID_SIGNATURE; mret (le 4 signature).

Definition hyp_io_read (address size : Z) : M W Z := vmcall_impl PKVM_GHC_IOREAD address size 0 0.
Definition hyp_io_write (address size data : Z) : M W unit :=
  vmcall_impl PKVM_GHC_IOWRITE address size data 0;; mret tt.

(** [HypIoRegion::read] and [write] of a value of [n] bytes, the low bytes of the hypercall's
    word. *)
Definition io_read (n : Z) (r : HypIoRegion) (offset : Z) : M W Z :=
  e ← add_u 64 offset n;
  assert (e <=? size r);;
  assert (n <=? HYP_IO_MAX);;
  a ← add_u 64 (paddr r) offset;
  data ← hyp_io_read a n;
  mret (wrap (8 * n) data).
Definition io_write (n : Z) (r : HypIoRegion) (offset value : Z) : M W unit :=
  e ← add_u 64 offset n;
  assert (e <=? size r);;
  assert (n <=? HYP_IO_MAX);;
  a ← add_u 64 (paddr r) offset;
  hyp_io_write a n value.
End hypercalls.

(** ** The configuration space *)
Module HypCam.
Record HypCam := mkHypCam { phys_base : Z; cam : Cam }.

Section access.
Context `{Profile} {W : Type} `{Hypervisor W}.

Definition is_pkvm : M W bool := s ← cpuid_signature; mret (bool_decide (s = PKVM_SIGNATURE)).

Definition read_word (c : HypCam) (df : DeviceFunction) (register_offset : Z) : M W Z :=
  address ← cam_offset (cam c) df register_offset;
  a ← add_u 64 (phys_base c) address;
  v ← hyp_io_read a 4;
  mret (wrap 32 v).
Definition write_word (c : HypCam) (df : DeviceFunction) (register_offset data : Z) : M W unit :=
  address ← cam_offset (cam c) df register_offset;
  a ← add_u 64 (phys_base c) address;
  hyp_io_write a 4 data.

Definition access (c : HypCam) : ConfigurationAccess W := {|
  PciBus.read_word := read_word c;
  PciBus.write_word := write_word c
|}.
End access.
End HypCam.

(** ** Finding the structures *)
Record HypPciTransport := mkHyp {
  t_device_type : DeviceType;
  t_device_function : DeviceFunction;
  common_cfg : HypIoRegion;
  notify_region : HypIoRegion;
  notify_off_multiplier : Z;
  notification_offsets : list (Z * Z);
  isr_status : HypIoRegion;
  config_space : option HypIoRegion
}.

Section new.
Context `{Profile} {W : Type} `{ConfigurationAccess W}.

(** [size_of::<T>()] is [n], [align_of::<T>()] is [align]. *)
Definition get_bar_region (n align : Z) (df : DeviceFunction) (info : VirtioCapabilityInfo)
    : M W (result HypIoRegion VirtioPciError) :=
  bar_info ←? (r ← bar_info df (bar info); mret (lift_pci r));
  match memory_address_size bar_info with
  | None => mret (Err UnexpectedIoBar)
  | Some (bar_address, bar_size) =>
    if bar_address =? 0 then mret (Err (BarNotAllocated (bar info))) else
    e ← add_u 32 (cap_offset info) (cap_length info);
    if (bar_size <? e) || (cap_length info <? n) then mret (Err BarOffsetOutOfRange) else
    paddr ← add_u 64 bar_address (cap_offset info);
    if negb (paddr mod align =? 0) then mret (Err (Misaligned paddr align)) else
    mret (Ok (mkRegion paddr (cap_length info)))
  end.

(** [HypPciTransport::new] after the loop over the capabilities. *)
Definition finish (df : DeviceFunction) (device_type : DeviceType) (f : Found)
    : M W (result HypPciTransport VirtioPciError) :=
  common ←? mret (ok_or (common f) MissingCommonConfig);
  common_cfg ←? get_bar_region sizeof_CommonCfg 8 df common;
  notify_cfg ←? mret (ok_or (notify_cfg f) MissingNotifyConfig);
  if negb (multiplier f mod 2 =? 0) then mret (Err (InvalidNotifyOffMultiplier (multiplier f))) else
  notify_region ←? get_bar_region 2 2 df notify_cfg;
  isr ←? mret (ok_or (isr f) MissingIsrConfig);
  isr_status ←? get_bar_region 1 1 df isr;
  config_space ←? match device_cfg f with
    | Some device_cfg =>
      r ←? get_bar_region 4 4 df device_cfg; mret (Ok (Some r))
    | None => mret (Ok None)
    end;
  mret (Ok (mkHyp device_type df common_cfg notify_region (multiplier f) [] isr_status config_space)).

(** The loop is that of [PciTransport::new], line by line. *)
Definition new (fuel : nat) (df : DeviceFunction) : M W (result HypPciTransport VirtioPciError) :=
  device_vendor ← read_word df 0;
  let device_id := wrap 16 (Z.shiftr device_vendor 16) in
  let vendor_id := wrap 16 device_vendor in
  if negb (vendor_id =? VIRTIO_VENDOR_ID) then mret (Err (InvalidVendorId vendor_id)) else
  o ← capabilities_offset df;
  f ← visit_loop fuel df o nothing_found;
  finish df (pci_device_type device_id) f.
End new.

(** ** The transport *)
Section transport.
Context `{Profile} {W : Type} `{Hypervisor W}.
Abbreviation St := (HypPciTransport * W)%type.

(** The macros [configread!] and [configwrite!] at a type of [n] bytes. *)
Definition configread (n : Z) (r : CommonReg) : M St Z :=
  t ← gets fst; on_snd (io_read n (common_cfg t) (offset_of CommonCfg r)).
Definition configwrite (n : Z) (r : CommonReg) (v : Z) : M St unit :=
  t ← gets fst; on_snd (io_write n (common_cfg t) (offset_of CommonCfg r) v).

Definition device_type : M St DeviceType := t ← gets fst; mret (t_device_type t).

Definition read_device_features : M St Z :=
  configwrite 4 device_feature_select 0;;
  low ← configread 4 device_feature;
  configwrite 4 device_feature_select 1;;
  high ← configread 4 device_feature;
  mret (Z.lor (wrap 64 (Z.shiftl high 32)) low).

Definition write_driver_features (driver_features : Z) : M St unit :=
  configwrite 4 driver_feature_select 0;;
  configwrite 4 driver_feature (wrap 32 driver_features);;
  configwrite 4 driver_feature_select 1;;
  configwrite 4 driver_feature (wrap 32 (Z.shiftr driver_features 32)).

Definition max_queue_size (queue : Z) : M St Z :=
  configwrite 2 queue_select queue;; configread 2 queue_size.

Definition notify (queue : Z) : M St unit :=
  t ← gets fst;
  queue_notify_off ← unwrap (find_offset queue (notification_offsets t));
  offset_bytes ← mul_u 64 queue_notify_off (notify_off_multiplier t);
  on_snd (io_write 2 (notify_region t) offset_bytes queue).

Definition get_status : M St Z :=
  s ← configread 1 device_status; mret (truncate_flags DeviceStatus.all s).
Definition set_status (s : Z) : M St unit := configwrite 1 device_status (wrap 8 s).

Definition set_guest_page_size (_ : Z) : M St unit := mret tt.
Definition requires_legacy_layout : M St bool := mret false.

Definition push_offset (queue off : Z) (t : HypPciTransport) : HypPciTransport :=
  mkHyp (t_device_type t) (t_device_function t) (common_cfg t) (notify_region t)
    (notify_off_multiplier t) (notification_offsets t ++ [(queue, off)]) (isr_status t)
    (config_space t).

Definition queue_set (queue size descriptors driver_area device_area : Z) : M St unit :=
  t ← gets fst;
  (if existsb (λ p, p.1 =? queue) (notification_offsets t) then panic else mret tt);;
  configwrite 2 queue_select queue;;
  configwrite 2 queue_size (wrap 16 size);;
  configwrite 8 queue_desc descriptors;;
  configwrite 8 queue_driver driver_area;;
  configwrite 8 queue_device device_area;;
  configwrite 2 queue_enable 1;;
  off ← configread 2 queue_notify_off;
  modify (λ s, (push_offset queue off s.1, s.2)).

Definition queue_unset (_ : Z) : M St unit := mret tt.

Definition queue_used (queue : Z) : M St bool :=
  configwrite 2 queue_select queue;;
  v ← configread 2 queue_enable;
  mret (v =? 1).

Definition ack_interrupt : M St Z :=
  t ← gets fst;
  v ← on_snd (io_read 1 (isr_status t) 0);
  mret (truncate_flags InterruptStatus.all v).

(** The value read is a [u32], as the method's result is. *)
Definition read_config_generation : M St Z := configread 4 config_generation.

Definition read_config_space (n align offset : Z) : M St (Result (list Z)) :=
  assert (align <=? 4);;
  assert (offset mod align =? 0);;
  t ← gets fst;
  match config_space t with
  | None => mret (Err ConfigSpaceMissing)
  | Some r =>
    e ← add_u 64 offset n;
    if size r <? e then mret (Err ConfigSpaceTooSmall) else
    v ← on_snd (io_read n r offset);
    mret (Ok (le (Z.to_nat n) v))
  end.

Definition write_config_space (align offset : Z) (value : list Z) : M St (Result unit) :=
  assert (align <=? 4);;
  assert (offset mod align =? 0);;
  t ← gets fst;
  match config_space t with
  | None => mret (Err ConfigSpaceMissing)
  | Some r =>
    e ← add_u 64 offset (Z.of_nat (length value));
    if size r <? e then mret (Err ConfigSpaceTooSmall) else
    on_snd (io_write (Z.of_nat (length value)) r offset (of_le value));;
    mret (Ok tt)
  end.

Definition transport : Transport HypPciTransport W := {|
  Transport.device_type := device_type;
  Transport.read_device_features := read_device_features;
  Transport.write_driver_features := write_driver_features;
  Transport.max_queue_size := max_queue_size;
  Transport.notify := notify;
  Transport.get_status := get_status;
  Transport.set_status := set_status;
  Transport.try_set_status := default_try_set_status set_status;
  Transport.set_guest_page_size := set_guest_page_size;
  Transport.requires_legacy_layout := requires_legacy_layout;
  Transport.queue_set := queue_set;
  Transport.queue_unset := queue_unset;
  Transport.queue_used := queue_used;
  Transport.ack_interrupt := ack_interrupt;
  Transport.read_config_generation := read_config_generation;
  Transport.read_config_space := read_config_space;
  Transport.write_config_space := write_config_space
|}.
End transport.
End HypPci.
