(* ===== verification/HypPciProps.v ===== *)
(** * Properties of the transport of a protected virtual machine

    Under a hypervisor that performs the accesses it is asked for, [HypPciTransport] and
    [HypCam] are [PciTransport] and [MmioCam] of the same registers, mapped at their physical
    addresses. *)

From S2P Require Import Prelude Base Transport QueueData Bytes Volatile PciBus PciBusProps Pci PciProps HypPci Simulation.

Module P := Pci.Pci.
Module Y := HypPci.HypPci.
Import Pci.Pci(CommonCfg, CommonReg, sizeof_CommonCfg).
Import HypPci.HypPci(Hypervisor, HypIoRegion, paddr, size, vmcall_impl, io_read, io_write).

(** A register is one, two, four or eight bytes. *)
Definition width (n : Z) : Prop := n = 1 ∨ n = 2 ∨ n = 4 ∨ n = 8.

(** What the two hypercalls do: they perform the access to the register at the physical
    address; the answer to a read is in the low bytes of the word returned. *)
Class HypervisorSpec (W : Type) `{Hypervisor W} `{Volatile W} := {
  hyp_read_spec : ∀ a n w, width n →
    (d ← vmcall_impl Y.PKVM_GHC_IOREAD a n 0 0; mret (wrap (8 * n) d)) w = vread n a w;
  hyp_write_spec : ∀ a n d w, width n →
    (vmcall_impl Y.PKVM_GHC_IOWRITE a n d 0;; mret tt) w = vwrite n a d w
}.

(** A region of the physical address space. *)
Definition region_in (r : HypIoRegion) : Prop := 0 ≤ paddr r ∧ 0 ≤ size r ∧ paddr r + size r < 2 ^ 64.

Section regions.
Context `{Profile} {W : Type} `{HypervisorSpec W}.

Lemma io_bounds {S A} n r o (k : Z → M S A) s : width n → region_in r → 0 ≤ o → o + n ≤ size r →
  (e ← add_u 64 o n;
   assert (e <=? size r);;
   assert (n <=? Y.HYP_IO_MAX);;
   a ← add_u 64 (paddr r) o; k a) s = k (paddr r + o) s.
Proof.
  intros Hw (Hp & Hs & Hr) Ho Hn. unfold add_u.
  assert (0 < n ≤ 8) by (unfold width in Hw; lia).
  erewrite bind_val by (apply arith_fits; unfold fits; lia).
  rewrite (proj2 (Z.leb_le (o + n) _) Hn), (proj2 (Z.leb_le n Y.HYP_IO_MAX)) by (unfold Y.HYP_IO_MAX; lia). mstep.
  by erewrite bind_val by (apply arith_fits; unfold fits; lia).
Qed.

Lemma io_read_eq n r o w : width n → region_in r → 0 ≤ o → o + n ≤ size r →
  io_read n r o w = vread n (paddr r + o) w.
Proof. intros. unfold io_read. rewrite io_bounds by done. by apply hyp_read_spec. Qed.

Lemma io_write_eq n r o v w : width n → region_in r → 0 ≤ o → o + n ≤ size r →
  io_write n r o v w = vwrite n (paddr r + o) v w.
Proof. intros. unfold io_write. rewrite io_bounds by done. by apply hyp_write_spec. Qed.

(** An access outside the region panics. *)
Lemma io_write_outside n r o v w : width n → 0 ≤ o → o + n < 2 ^ 64 → size r < o + n →
  io_write n r o v w = (Panic, w).
Proof.
  intros Hw Ho Hf Hn. unfold io_write, add_u. unfold width in Hw.
  erewrite bind_val by (apply arith_fits; unfold fits; lia).
  by rewrite (proj2 (Z.leb_gt (o + n) (size r)) Hn).
Qed.
End regions.

(** ** The transport *)

(** The transport over the same registers, mapped at their physical addresses. *)
Definition slice_of (n : Z) (r : HypIoRegion) : Z * Z := (paddr r, size r / n).
Definition pci_of (t : Y.HypPciTransport) : P.PciTransport :=
  P.mkPci (Y.t_device_type t) (Y.t_device_function t) (paddr (Y.common_cfg t))
    (slice_of 2 (Y.notify_region t)) (Y.notify_off_multiplier t) (Y.notification_offsets t)
    (paddr (Y.isr_status t)) (slice_of 4 <$> Y.config_space t).
Definition as_pci {W} (s : Y.HypPciTransport * W) : P.PciTransport * W := (pci_of s.1, s.2).

(** The regions hold the structures, and the configuration space whole words. *)
Record hyp_ok (t : Y.HypPciTransport) : Prop := {
  ok_common : region_in (Y.common_cfg t) ∧ sizeof_CommonCfg ≤ size (Y.common_cfg t);
  ok_notify : region_in (Y.notify_region t);
  ok_multiplier : fits 32 (Y.notify_off_multiplier t) ∧ Y.notify_off_multiplier t mod 2 = 0;
  ok_offsets : Forall (λ p : Z * Z, fits 16 p.2) (Y.notification_offsets t);
  ok_isr : region_in (Y.isr_status t) ∧ 1 ≤ size (Y.isr_status t);
  ok_config : ∀ r, Y.config_space t = Some r → region_in r ∧ size r mod 4 = 0
}.

(** The calls compared. The answers to [AckInterrupt] and [ReadConfigGeneration] differ. An access
    to the configuration space is one of 1, 2, 4 or 8 bytes, which is what a hypervisor is asked to
    perform as one access (the six bytes of a MAC address are not), at an offset below [2 ^ 32]. *)
Definition comparable (c : Call) : Prop :=
  match c with
  | AckInterrupt | ReadConfigGeneration => False
  | ReadConfigSpace n a o => width n ∧ 0 ≤ o < 2 ^ 32
  | WriteConfigSpace a o v => width (Z.of_nat (length v)) ∧ 0 ≤ o < 2 ^ 32
  | _ => True
  end.

Section transport.
Context `{Profile} {W : Type} `{HypervisorSpec W}.
Abbreviation I := (λ s : Y.HypPciTransport * W, hyp_ok s.1).

Lemma common_field r : width (size_of_field CommonCfg r) ∧ 0 ≤ offset_of CommonCfg r ∧
  offset_of CommonCfg r + size_of_field CommonCfg r ≤ sizeof_CommonCfg.
Proof. unfold width. destruct r; vm_compute; naive_solver. Qed.

Lemma configread_sim n r : n = size_of_field CommonCfg r →
  sim I as_pci (Y.configread n r) (P.rd r).
Proof.
  intros -> [t w] o s' HI E. cbn [fst] in HI. destruct (ok_common _ HI) as [Hr Hs].
  destruct (common_field r) as (Hw & Ho & Hb).
  revert E. unfold Y.configread, P.rd, volread. mstep. unfold on_snd, zoom. simpl.
  rewrite io_read_eq by (done || lia). destruct (vread _ _ _). by intros [= <- <-].
Qed.

Lemma configwrite_sim n r v : n = size_of_field CommonCfg r →
  sim I as_pci (Y.configwrite n r v) (P.wr r v).
Proof.
  intros -> [t w] o s' HI E. cbn [fst] in HI. destruct (ok_common _ HI) as [Hr Hs].
  destruct (common_field r) as (Hw & Ho & Hb).
  revert E. unfold Y.configwrite, P.wr, volwrite. mstep. unfold on_snd, zoom. simpl.
  rewrite io_write_eq by (done || lia). destruct (vwrite _ _ _). by intros [= <- <-].
Qed.
End transport.

#[export] Hint Extern 1 (sim _ _ (Y.configread _ _) _) => apply configread_sim; reflexivity : sim.
#[export] Hint Extern 1 (sim _ _ (Y.configwrite _ _ _) _) => apply configwrite_sim; reflexivity : sim.

Section methods.
Context `{Profile} {W : Type} `{HypervisorSpec W}.
Abbreviation I := (λ s : Y.HypPciTransport * W, hyp_ok s.1).
Abbreviation alike := (sim I as_pci).

Lemma features_sim : alike Y.read_device_features P.read_device_features.
Proof.
  unfold Y.read_device_features, P.read_device_features. sim. intros x. rewrite Z.lor_comm. apply sim_ret.
Qed.

Lemma find_offset_in q l off : P.find_offset q l = Some off → ∃ p, p ∈ l ∧ p.2 = off.
Proof.
  unfold P.find_offset. destruct (find _ l) as [p|] eqn:E; [|done]. intros [= <-].
  exists p. split; [|done]. apply list_elem_of_In. by apply find_some in E as [? _].
Qed.

(** Both transports check that the place of the notification is in the region. *)
Lemma notify_sim q : alike (Y.notify q) (P.notify q).
Proof.
  apply sim_gets. intros [t w] o s' HI E. cbn [as_pci pci_of fst snd P.notification_offsets
    P.notify_off_multiplier P.notify_region slice_of] in *.
  destruct (P.find_offset q _) as [off|] eqn:Ef; [|by injection E as <- <-].
  destruct (find_offset_in _ _ _ Ef) as (p & Hp & <-). destruct HI as [? Hr [Hm Hev] Hf ? ?] eqn:EI. clear EI.
  rewrite Forall_forall in Hf. specialize (Hf p Hp). cbn [unwrap] in *.
  erewrite bind_val in E by reflexivity. mstep. revert E.
  set (x := p.2 * Y.notify_off_multiplier t). assert (0 ≤ x < 2 ^ 48 ∧ x mod 2 = 0) as [Hx Hxe].
  { split; [unfold fits, x in *; nia|]. unfold x. by rewrite Z.mul_mod, Hev, Z.mul_0_r. }
  unfold mul_u. fold x. rewrite !(bind_val _ _ _ x _ (arith_fits 64 x _ ltac:(unfold fits; lia))).
  assert (2 * (x / 2) = x) as Hd by (pose proof (Z.div_mod x 2); lia). cbv beta zeta. rewrite Hd.
  unfold on_snd, zoom. cbn [view update snd_lens snd fst]. intros E. destruct (Z.ltb_spec (x / 2) (size (Y.notify_region t) / 2)) as [Hlt|Hge].
  - assert (x + 2 ≤ size (Y.notify_region t)) by (pose proof (Z.mul_div_le (size (Y.notify_region t)) 2); lia).
    mstep. rewrite io_write_eq in E by (unfold width; (done || lia)). cbn.
    destruct (vwrite _ _ _). by injection E as <- <-.
  - assert (size (Y.notify_region t) < x + 2).
    { pose proof (Z.div_mod (size (Y.notify_region t)) 2). pose proof (Z.mod_pos_bound (size (Y.notify_region t)) 2). lia. }
    rewrite io_write_outside in E by (unfold width; lia). by injection E as <- <-.
Qed.

Lemma configread_fits n r (s : Y.HypPciTransport * W) v s' : 0 ≤ n →
  Y.configread n r s = (Val v, s') → fits (8 * n) v.
Proof.
  intros Hn E. unfold Y.configread in E. apply bind_val_inv in E as (t & s1 & _ & E).
  unfold on_snd, zoom in E. destruct (Y.io_read _ _ _ _) as [x w1] eqn:Er. injection E as -> _.
  unfold Y.io_read in Er. repeat (apply bind_val_inv in Er as (? & ? & _ & Er)).
  injection Er as <- _. apply wrap_fits. lia.
Qed.

Lemma push_sim q off : fits 16 off →
  alike (modify (λ s, (Y.push_offset q off s.1, s.2))) (modify (λ s, (P.push_offset q off s.1, s.2))).
Proof.
  intros Ho [t w] o s' [] E. injection E as <- <-. split; [done|]. split; try done.
  apply Forall_app. by split; [|constructor].
Qed.

Lemma queue_set_sim q n d r v : alike (Y.queue_set q n d r v) (P.queue_set q n d r v).
Proof.
  apply sim_gets. intros [t w] o s' HI E. cbn [as_pci pci_of fst snd P.notification_offsets] in *.
  revert E HI. generalize (existsb (λ p : Z * Z, p.1 =? q) (Y.notification_offsets t)). intros b E HI.
  refine (sim_bind I as_pci _ (if b then panic else mret tt) _ _ _ _ (t, w) _ _ HI E); [sim|]. clear E. intros _.
  do 6 (apply sim_bind; [sim|intros _]).
  apply (sim_bind_post _ _ (fits 16)); [by apply configread_sim| |apply push_sim].
  intros ? ? ?. by apply (configread_fits 2).
Qed.

(** The checks of an access of [n] bytes to the configuration space. *)
Lemma config_sim {A} n a o (k1 : HypIoRegion → M (Y.HypPciTransport * W) (Result A)) k2 :
  width n → 0 ≤ o < 2 ^ 32 →
  (∀ r, region_in r → o + n ≤ size r → alike (k1 r) (k2 (paddr r))) →
  alike
    (assert (a <=? 4);; assert (o mod a =? 0);;
     t ← gets fst;
     match Y.config_space t with
     | None => mret (Err ConfigSpaceMissing)
     | Some r => e ← add_u 64 o n; if size r <? e then mret (Err ConfigSpaceTooSmall) else k1 r
     end)
    (assert (a <=? 4);; assert (o mod a =? 0);;
     t ← gets fst;
     match P.config_space t with
     | None => mret (Err ConfigSpaceMissing)
     | Some (base, len) =>
       x ← mul_u 64 len 4;
       e ← add_u 64 o n; if x <? e then mret (Err ConfigSpaceTooSmall) else k2 base
     end).
Proof.
  intros Hw Ho Hk. do 2 (apply sim_bind; [sim|intros _]).
  apply sim_gets. intros [t w] x s' HI E. cbn [as_pci pci_of fst snd P.config_space] in *.
  destruct (Y.config_space t) as [r|] eqn:Er; [|by injection E as <- <-].
  destruct (ok_config _ HI r Er) as [Hr Hs4]. cbn [fmap option_fmap option_map slice_of].
  assert (size r / 4 * 4 = size r) as Hsz by (pose proof (Z.div_mod (size r) 4); lia).
  assert (fits 64 (o + n)) by (unfold width, fits in *; lia). unfold mul_u, add_u in *. rewrite Hsz.
  erewrite bind_val in E by (by apply arith_fits).
  erewrite bind_val by (apply arith_fits; unfold region_in, fits in *; lia).
  erewrite bind_val by (by apply arith_fits).
  destruct (Z.ltb_spec (size r) (o + n)); [by injection E as <- <-|]. by apply (Hk r).
Qed.

Lemma on_snd_sim {A} (c1 c2 : M W A) : (∀ w, c1 w = c2 w) → alike (on_snd c1) (on_snd c2).
Proof.
  intros Hc [t w] o s' HI E. unfold on_snd, zoom in *. simpl in *. rewrite <- Hc.
  destruct (c1 w) as [x w1]. by injection E as <- <-.
Qed.

(** The calls whose answers are the same. *)
Lemma call_sim c : comparable c → alike (call Y.transport c) (call P.transport c).
Proof.
  destruct c as [| | | | | | | | | | | | | | |n a o|a o v]; cbn [comparable call]; intros Hc; try done;
    (apply sim_bind; [|intros; apply sim_ret]); cbn -[Y.read_config_space Y.write_config_space];
    try (by apply features_sim || apply notify_sim || apply queue_set_sim).
  all: try (unfold Y.write_driver_features, P.write_driver_features, Y.max_queue_size, P.max_queue_size,
    Y.get_status, P.get_status, default_try_set_status, Y.set_status, P.set_status, Y.queue_used,
    P.queue_used, Y.requires_legacy_layout, P.requires_legacy_layout, Y.queue_unset, P.queue_unset,
    Y.set_guest_page_size, P.set_guest_page_size; by sim).
  - by intros [t w] o s' HI E; injection E as <- <-.
  - destruct Hc as [Hw Ho]. apply config_sim; [done..|]. intros r Hr Hs.
    apply sim_bind; [|sim]. apply on_snd_sim. intros w. by apply io_read_eq; try lia.
  - destruct Hc as [Hw Ho]. apply config_sim; [done..|]. intros r Hr Hs.
    apply sim_bind; [|sim]. apply on_snd_sim. intros w. by apply io_write_eq; try lia.
Qed.
End methods.

(** ** Construction *)
Definition map_ok {A B E} (f : A → B) (r : result A E) : result B E :=
  match r with Ok a => Ok (f a) | Err e => Err e end.

(** [c] with the answers seen through [f]. *)
Definition through {S A B E} (f : A → B) (c : M S (result A E)) : M S (result B E) :=
  r ← c; mret (map_ok f r).

Section construction.
Context `{Profile} {W : Type} `{ConfigurationAccess W} `{!Hal W}.
Hypothesis identity_map : ∀ p n w, mmio_phys_to_virt p n w = (Val p, w).

(** Two computations with the same outcome, whose regions correspond. *)
Lemma through_try {A B A' B' E} (f : A → A') (g : B → B') (c : M W (result A E)) c' k k' w :
  c' w = through f c w → (∀ a w', c w = (Val (Ok a), w') → k' (f a) w' = through g (k a) w') →
  try c' k' w = through g (try c k) w.
Proof.
  unfold through, try, mbind, M_bind. intros -> Hk.
  destruct (c w) as [[[a|e]| |] w1] eqn:Ec; [|done..]. cbn. by rewrite Hk.
Qed.

Lemma region_as_pci n align df info w :
  P.get_bar_region n align df info w = through paddr (Y.get_bar_region n align df info) w.
Proof.
  apply (through_try (λ b, b)).
  { unfold through, mbind, M_bind. destruct (bar_info df _ w) as [[[b|e]| |] w1]; done. }
  intros b w1 _. destruct (memory_address_size b) as [[a m]|]; [|done].
  destruct (a =? 0); [done|]. unfold through, mbind, M_bind.
  destruct (add_u 32 _ _ w1) as [[e| |] w2]; [|done..]. destruct (_ || _); [done|].
  destruct (add_u 64 _ _ w2) as [[x| |] w3]; [|done..]. rewrite identity_map. by destruct (negb _).
Qed.

Lemma region_size n align df info w r w' :
  Y.get_bar_region n align df info w = (Val (Ok r), w') → size r = Pci.cap_length info.
Proof.
  unfold Y.get_bar_region. intros [(e & _ & ?)|(b & w1 & _ & E)]%try_val_inv; [done|].
  destruct (memory_address_size b) as [[a m]|]; [|done]. destruct (a =? 0); [done|].
  apply bind_val_inv in E as (x & w2 & _ & E). destruct (_ || _); [done|].
  apply bind_val_inv in E as (y & w3 & _ & E). destruct (negb _); [done|]. by injection E as <- _.
Qed.

Lemma slice_as_pci n align df info w :
  P.get_bar_region_slice n align df info w = through (slice_of n) (Y.get_bar_region n align df info) w.
Proof.
  unfold P.get_bar_region_slice, try. unfold mbind at 1, M_bind at 1. rewrite region_as_pci.
  unfold through, mbind, M_bind.
  destruct (Y.get_bar_region n align df info w) as [[[r|e]| |] w1] eqn:E; [|done..].
  cbn. by rewrite <- (region_size _ _ _ _ _ _ _ E).
Qed.

Lemma finish_as_pci df ty f w : P.finish df ty f w = through pci_of (Y.finish df ty f) w.
Proof.
  unfold P.finish, Y.finish.
  apply (through_try (λ c, c)); [by destruct (Pci.common f)|]. intros c w1 _.
  apply (through_try paddr); [apply region_as_pci|]. intros common w2 _.
  apply (through_try (λ c, c)); [by destruct (Pci.notify_cfg f)|]. intros nc w3 _.
  destruct (negb _); [done|].
  apply (through_try (slice_of 2)); [apply slice_as_pci|]. intros nr w4 _.
  apply (through_try (λ c, c)); [by destruct (Pci.isr f)|]. intros ic w5 _.
  apply (through_try paddr); [apply region_as_pci|]. intros isr w6 _.
  apply (through_try (fmap (slice_of 4))); [|done].
  destruct (Pci.device_cfg f) as [dc|]; [|done].
  apply (through_try (slice_of 4)); [apply slice_as_pci|done].
Qed.

(** [HypPciTransport::new] finds the structures that [PciTransport::new] would find under a
    mapping of device memory at its physical addresses, and refuses a device with the same error,
    on every path: same accesses to the configuration space, same panic or hang. *)
Theorem hyp_new_as_pci fuel df w : P.new fuel df w = through pci_of (Y.new fuel df) w.
Proof.
  unfold P.new, Y.new, through, mbind, M_bind.
  destruct (read_word df 0 w) as [[v| |] w1]; [|done..]. destruct (negb _); [done|].
  destruct (capabilities_offset df w1) as [[o| |] w2]; [|done..].
  destruct (P.visit_loop fuel df o P.nothing_found w2) as [[f| |] w3]; [|done..].
  apply finish_as_pci.
Qed.
End construction.

(** ** The configuration space *)
Section cam.
Context `{Profile} {W : Type} `{HypervisorSpec W} (c : Y.HypCam.HypCam).
Hypothesis base_in : 0 ≤ Y.HypCam.phys_base c ∧ Y.HypCam.phys_base c + Cam_size (Y.HypCam.cam c) < 2 ^ 64.
Abbreviation mapped := (MmioCam.mkMmioCam (Y.HypCam.phys_base c) (Y.HypCam.cam c)).

Lemma cam_offset_bounds m df o (w : W) a w' : fits 8 (bus df) → 0 ≤ device df → 0 ≤ function df → fits 8 o →
  cam_offset m df o w = (Val a, w') → 0 ≤ a < Cam_size m ∧ 4 * Z.shiftr a 2 = a.
Proof.
  intros Hb Hd Hf Ho E. unfold cam_offset in E. apply bind_val_inv in E as ([] & w1 & Ev & E).
  set (x := Z.lor _ o) in E. apply bind_val_inv in E as ([] & w2 & E1 & E).
  apply bind_val_inv in E as ([] & w3 & E2 & E). injection E as <- <-.
  destruct (Z.ltb_spec x (Cam_size m)); [|done]. destruct (Z.eqb_spec (Z.land x 3) 0) as [Hx|]; [|done].
  assert (0 ≤ x); [|split; [lia|]].
  - apply Z.lor_nonneg. split; [|unfold fits in Ho; lia]. apply (wrap_fits 32). lia.
  - change 3 with (2 ^ 2 - 1) in Hx. rewrite land_mask in Hx by done. rewrite Z.shiftr_div_pow2 by done.
    change (2 ^ 2) with 4 in *. pose proof (Z.div_mod x 4). lia.
Qed.

(** Both access the word of the register at the same physical address. *)
Lemma hyp_cam_as_mmio df o w : fits 8 (bus df) → 0 ≤ device df → 0 ≤ function df → fits 8 o →
  Y.HypCam.read_word c df o w = MmioCam.read_word mapped df o w ∧
  ∀ d, Y.HypCam.write_word c df o d w = MmioCam.write_word mapped df o d w.
Proof.
  intros Hb Hd Hf Ho. unfold Y.HypCam.read_word, MmioCam.read_word, Y.HypCam.write_word,
    MmioCam.write_word. cbn [MmioCam.cam MmioCam.mmio_base]. unfold mbind, M_bind.
  destruct (cam_offset _ df o w) as [[a| |] w1] eqn:E; [|done..].
  destruct (cam_offset_bounds _ _ _ _ _ _ Hb Hd Hf Ho E) as [Ha ->]. unfold add_u.
  rewrite arith_fits by (unfold fits; lia).
  assert (width 4) by (unfold width; lia). split; [by apply (hyp_read_spec _ 4)|].
  intros d. by apply hyp_write_spec.
Qed.
End cam.

(** ** Use *)
Section use.
Context `{Profile} {W : Type} `{HypervisorSpec W}.

(** C36. Under a hypervisor that performs the accesses of 1, 2, 4 and 8 bytes it is asked for, a
    sequence of calls of [HypPciTransport] has the answers, the panics and the effect on the device
    that the calls of [PciTransport] on the same registers have. The calls are those other than
    [ack_interrupt] and [read_config_generation], with accesses to the configuration space of 1, 2,
    4 or 8 bytes at offsets below [2 ^ 32]; the configuration space, if there is one, is a whole
    number of words, as [PciTransport] rounds its size down to one. *)
Theorem hyp_calls_as_pci cs t w : hyp_ok t → Forall comparable cs →
  calls P.transport cs (pci_of t, w) =
    (let '(o, (t', w')) := calls Y.transport cs (t, w) in (o, (pci_of t', w'))) ∧
  hyp_ok (calls Y.transport cs (t, w)).2.1.
Proof.
  intros Ht Hcs. rewrite Forall_forall in Hcs.
  pose proof (calls_sim Y.transport P.transport _ _ cs (λ c Hc, call_sim c (Hcs c Hc)) (t, w)) as Hs.
  destruct (calls Y.transport cs (t, w)) as [o [t' w']] eqn:E. by apply (Hs _ _ Ht eq_refl).
Qed.

(** Initialisation. *)
Lemma hyp_begin_init all supported :
  sim (λ s : Y.HypPciTransport * W, hyp_ok s.1) as_pci
    (@begin_init _ _ Y.transport _ all supported) (@begin_init _ _ P.transport _ all supported).
Proof.
  apply begin_init_sim; cbn; unfold default_try_set_status, Y.set_status, P.set_status, Y.get_status,
    P.get_status, Y.write_driver_features, P.write_driver_features; [sim..|apply features_sim|sim|sim].
Qed.

(** The flags of an interrupt are truncated here and not there. *)
Lemma hyp_ack : sim (λ s : Y.HypPciTransport * W, hyp_ok s.1) as_pci Y.ack_interrupt
  (v ← P.ack_interrupt; mret (truncate_flags InterruptStatus.all v)).
Proof.
  intros [t w] o s' HI E. destruct (ok_isr _ HI) as [Hr Hs]. cbn [fst] in *.
  unfold Y.ack_interrupt, P.ack_interrupt, mbind, M_bind, on_snd, zoom in *. simpl in *.
  rewrite io_read_eq, Z.add_0_r in E by (unfold width; (done || lia)).
  destruct (vread _ _ _) as [[v| |] w1]; by injection E as <- <-.
Qed.

(** The generation is read with the three bytes that follow its register: the number of the
    selected queue and half of the queue's size. *)
Lemma hyp_generation_wide t w : hyp_ok t →
  Y.read_config_generation (t, w) = on_snd (vread 4 (paddr (Y.common_cfg t) + 21)) (t, w) ∧
  offset_of CommonCfg Pci.config_generation = 21 ∧ size_of_field CommonCfg Pci.config_generation = 1.
Proof.
  intros HI. destruct (ok_common _ HI) as [Hr Hs]. split; [|done].
  unfold Y.read_config_generation, Y.configread. mstep. unfold on_snd, zoom. cbn [view snd_lens snd fst].
  change (offset_of CommonCfg Pci.config_generation) with 21.
  rewrite io_read_eq; [done|unfold width; lia|done|lia|change sizeof_CommonCfg with 56 in Hs; lia].
Qed.
End use.

(** ** A concrete machine *)
Module FakeHyp.
Import PciBusProps.FakePci.

(** A block device with the four structures in its first register. *)
Definition w1 : World := λ df o,
  if bool_decide (df = fun0) then
    match o with
    | 0x40 => 0x01105009 | 0x4c => 56
    | 0x50 => 0x02146409 | 0x58 => 0x100 | 0x5c => 16 | 0x60 => 4
    | 0x64 => 0x03107409 | 0x6c => 0x200 | 0x70 => 4
    | 0x74 => 0x04100009 | 0x7c => 0x300 | 0x80 => 8
    | _ => w0 df o
    end
  else INVALID_READ.

Definition t1 : Y.HypPciTransport :=
  Y.mkHyp Block fun0 (Y.mkRegion 0xfe001000 56) (Y.mkRegion 0xfe001100 16) 4 []
    (Y.mkRegion 0xfe001200 4) (Some (Y.mkRegion 0xfe001300 8)).

(** Device memory as bytes, which the hypervisor reads and writes. *)
Definition Bus : Type := Z → Z.
Definition bus_read (n a : Z) : M Bus Z := λ b,
  (Val (of_le ((λ i, b (a + Z.of_nat i) mod 256) <$> seq 0 (Z.to_nat n))), b).
Definition bus_write (n a v : Z) : M Bus unit := λ b,
  (Val tt, λ x, if (a <=? x) && (x <? a + n) then nth (Z.to_nat (x - a)) (le (Z.to_nat n) v) 0 else b x).

#[global] Instance bus : Volatile Bus := {| vread := bus_read; vwrite := bus_write |}.
#[global] Instance pkvm : Hypervisor Bus := {|
  vmcall_impl op a n d _ :=
    if op =? Y.PKVM_GHC_IOREAD then bus_read n a
    else if op =? Y.PKVM_GHC_IOWRITE then bus_write n a d;; mret 0 else panic;
  Y.cpuid _ := mret 0x4d564b50
|}.

#[global] Instance pkvm_spec : HypervisorSpec Bus.
Proof.
  split.
  - intros a n w Hw. cbn. unfold bus_read, mbind, M_bind, mret, M_ret. do 2 f_equal.
    apply wrap_small. set (l := _ <$> _).
    replace n with (Z.of_nat (length l)) by (unfold l, width in *; rewrite length_fmap, length_seq; lia).
    apply of_le_bound. unfold l. apply Forall_fmap, Forall_true. intros i. apply Z.mod_pos_bound. lia.
  - done.
Defined.

Lemma t1_ok : hyp_ok t1.
Proof.
  split; change sizeof_CommonCfg with 56; unfold region_in, fits; cbn -[Z.pow]; try lia; [by split; [lia|]|done|].
  intros r [= <-]. cbn -[Z.pow]. split; [lia|done].
Qed.
End FakeHyp.

Section witnesses.
Import PciBusProps.FakePci FakeHyp.
#[local] Instance checked : Profile := {| overflow_checks := true; debug_assertions := true |}.

Lemma hyp_new_as_pci_witness :
  (through pci_of (Y.new 5 fun0) w1).1 = Val (Ok (pci_of t1)).
Proof.
  rewrite <- (@hyp_new_as_pci _ World access PciProps.identity_hal (λ p n w, eq_refl) 5 fun0 w1). vm_compute. reflexivity.
Defined.

Lemma hyp_calls_as_pci_witness :
  (calls P.transport [SetStatus 3; GetStatus; QueueSet 1 8 0x1000 0x2000 0x3000; QueueUsed 1; Notify 1;
     WriteConfigSpace 4 4 [1; 2; 3; 4]; ReadConfigSpace 2 2 6] (pci_of t1, λ _, 0)).1 =
  Val [AUnit; AWord 3; AUnit; ABool true; AUnit; AWritten (Ok tt); ABytes (Ok [3; 4])].
Proof.
  erewrite (proj1 (hyp_calls_as_pci _ t1 (λ _, 0) t1_ok _)). vm_compute. reflexivity.
  Unshelve. repeat constructor; cbn; unfold width; lia.
Defined.
End witnesses.
