(* ===== verification/SomeTransport.v ===== *)
(** * Any transport

    [src/src/transport/some.rs]: [SomeTransport] is a transport of one of the kinds, and hands
    every call to it. *)

From S2P Require Import Prelude Base Transport Volatile Mmio Pci HypPci Simulation.

Module SomeTransport.
Import Mmio Pci HypPci.

Inductive SomeTransport :=
| Mmio (mmio : MmioTransport)
| Pci (pci : PciTransport)
| HypPci (pci : HypPciTransport).

(** [impl From<MmioTransport>] and [impl From<PciTransport>]. *)
Definition from_mmio : MmioTransport → SomeTransport := Mmio.
Definition from_pci : PciTransport → SomeTransport := Pci.

Section transport.
Context `{Profile} {W : Type} `{Volatile W} `{Hypervisor W} (fuel : nat).
Abbreviation St := (SomeTransport * W)%type.

(** A method run on the transport inside. *)
Definition inside {T A} (wrap : T → SomeTransport) (c : M (T * W) A) (t : T) : M St A := λ s,
  let '(o, (t', w)) := c (t, s.2) in (o, (wrap t', w)).

Definition device_type : M St DeviceType :=
  self ← gets fst;
  match self with
  | Mmio mmio => inside Mmio Mmio.device_type mmio
  | Pci pci => inside Pci Pci.device_type pci
  | HypPci pci => inside HypPci HypPci.device_type pci
  end.

Definition read_device_features : M St Z :=
  self ← gets fst;
  match self with
  | Mmio mmio => inside Mmio Mmio.read_device_features mmio
  | Pci pci => inside Pci Pci.read_device_features pci
  | HypPci pci => inside HypPci HypPci.read_device_features pci
  end.

Definition write_driver_features (driver_features : Z) : M St unit :=
  self ← gets fst;
  match self with
  | Mmio mmio => inside Mmio (Mmio.write_driver_features driver_features) mmio
  | Pci pci => inside Pci (Pci.write_driver_features driver_features) pci
  | HypPci pci => inside HypPci (HypPci.write_driver_features driver_features) pci
  end.

Definition max_queue_size (queue : Z) : M St Z :=
  self ← gets fst;
  match self with
  | Mmio mmio => inside Mmio (Mmio.max_queue_size queue) mmio
  | Pci pci => inside Pci (Pci.max_queue_size queue) pci
  | HypPci pci => inside HypPci (HypPci.max_queue_size queue) pci
  end.

Definition notify (queue : Z) : M St unit :=
  self ← gets fst;
  match self with
  | Mmio mmio => inside Mmio (Mmio.notify queue) mmio
  | Pci pci => inside Pci (Pci.notify queue) pci
  | HypPci pci => inside HypPci (HypPci.notify queue) pci
  end.

Definition get_status : M St Z :=
  self ← gets fst;
  match self with
  | Mmio mmio => inside Mmio Mmio.get_status mmio
  | Pci pci => inside Pci Pci.get_status pci
  | HypPci pci => inside HypPci HypPci.get_status pci
  end.

Definition set_status (status : Z) : M St unit :=
  self ← gets fst;
  match self with
  | Mmio mmio => inside Mmio (Mmio.set_status status) mmio
  | Pci pci => inside Pci (Pci.set_status status) pci
  | HypPci pci => inside HypPci (HypPci.set_status status) pci
  end.

Definition set_guest_page_size (guest_page_size : Z) : M St unit :=
  self ← gets fst;
  match self with
  | Mmio mmio => inside Mmio (Mmio.set_guest_page_size guest_page_size) mmio
  | Pci pci => inside Pci (Pci.set_guest_page_size guest_page_size) pci
  | HypPci pci => inside HypPci (HypPci.set_guest_page_size guest_page_size) pci
  end.

Definition requires_legacy_layout : M St bool :=
  self ← gets fst;
  match self with
  | Mmio mmio => inside Mmio Mmio.requires_legacy_layout mmio
  | Pci pci => inside Pci Pci.requires_legacy_layout pci
  | HypPci pci => inside HypPci HypPci.requires_legacy_layout pci
  end.

Definition queue_set (queue size descriptors driver_area device_area : Z) : M St unit :=
  self ← gets fst;
  match self with
  | Mmio mmio => inside Mmio (Mmio.queue_set queue size descriptors driver_area device_area) mmio
  | Pci pci => inside Pci (Pci.queue_set queue size descriptors driver_area device_area) pci
  | HypPci pci => inside HypPci (HypPci.queue_set queue size descriptors driver_area device_area) pci
  end.

Definition queue_unset (queue : Z) : M St unit :=
  self ← gets fst;
  match self with
  | Mmio mmio => inside Mmio (Mmio.queue_unset fuel queue) mmio
  | Pci pci => inside Pci (Pci.queue_unset queue) pci
  | HypPci pci => inside HypPci (HypPci.queue_unset queue) pci
  end.

Definition queue_used (queue : Z) : M St bool :=
  self ← gets fst;
  match self with
  | Mmio mmio => inside Mmio (Mmio.queue_used queue) mmio
  | Pci pci => inside Pci (Pci.queue_used queue) pci
  | HypPci pci => inside HypPci (HypPci.queue_used queue) pci
  end.

Definition ack_interrupt : M St Z :=
  self ← gets fst;
  match self with
  | Mmio mmio => inside Mmio Mmio.ack_interrupt mmio
  | Pci pci => inside Pci Pci.ack_interrupt pci
  | HypPci pci => inside HypPci HypPci.ack_interrupt pci
  end.

(** The raw pointer points to the transport. *)
Definition ack_interrupt_raw : M St Z :=
  self ← gets fst;
  match self with
  | Mmio mmio => inside Mmio Mmio.ack_interrupt mmio
  | Pci pci => inside Pci Pci.ack_interrupt pci
  | HypPci pci => inside HypPci HypPci.ack_interrupt pci
  end.

Definition read_config_generation : M St Z :=
  self ← gets fst;
  match self with
  | Mmio mmio => inside Mmio Mmio.read_config_generation mmio
  | Pci pci => inside Pci Pci.read_config_generation pci
  | HypPci pci => inside HypPci HypPci.read_config_generation pci
  end.

Definition read_config_space (n align offset : Z) : M St (Result (list Z)) :=
  self ← gets fst;
  match self with
  | Mmio mmio => inside Mmio (Mmio.read_config_space n align offset) mmio
  | Pci pci => inside Pci (Pci.read_config_space n align offset) pci
  | HypPci pci => inside HypPci (HypPci.read_config_space n align offset) pci
  end.

Definition write_config_space (align offset : Z) (value : list Z) : M St (Result unit) :=
  self ← gets fst;
  match self with
  | Mmio mmio => inside Mmio (Mmio.write_config_space align offset value) mmio
  | Pci pci => inside Pci (Pci.write_config_space align offset value) pci
  | HypPci pci => inside HypPci (HypPci.write_config_space align offset value) pci
  end.

Definition transport : Transport SomeTransport W := {|
  Transport.device_type := device_type;
  Transport.read_device_features := read_device_features;
  Transport.write_driver_features := write_driver_features;
  Transport.max_queue_size := max_queue_size;
  Transport.notify := notify;
  Transport.get_status := get_status;
  Transport.set_status := set_status;
  Transport.try_set_status := default_try_set_status set_status;
  Transport.set_guest_page_size := set_guest_page_size;
  Transport.requires_legacy_layout := requires_legacy_layout;
  Transport.queue_set := queue_set;
  Transport.queue_unset := queue_unset;
  Transport.queue_used := queue_used;
  Transport.ack_interrupt := ack_interrupt;
  Transport.read_config_generation := read_config_generation;
  Transport.read_config_space := read_config_space;
  Transport.write_config_space := write_config_space
|}.
End transport.

(** ** The wrapper is transparent *)
Section transparent.
Context `{Profile} {W : Type} `{Volatile W} `{Hypervisor W} (fuel : nat).

Definition anything {S} (s : S) : Prop := True.
Definition wrapped {T} (wrap : T → SomeTransport) (s : T * W) : SomeTransport * W := (wrap s.1, s.2).

(** A method that hands the call on. *)
Lemma inside_sim {T A} (wrap : T → SomeTransport) (c : M (T * W) A) (k : SomeTransport → M (SomeTransport * W) A) :
  (∀ t, k (wrap t) = inside wrap c t) → sim anything (wrapped wrap) c (gets fst ≫= k).
Proof.
  intros Hk [t w] o [t' w'] _ E. split; [|done]. unfold mbind, M_bind, gets, wrapped. simpl.
  rewrite Hk. unfold inside. simpl. by rewrite E.
Qed.

Ltac hands_on :=
  match goal with c : Call |- _ => destruct c end; cbn [call];
  (apply sim_bind; [|intros; apply sim_ret]); try (by apply inside_sim);
  apply sim_bind; [by apply inside_sim|intros; apply sim_ret].

(** Every call has the answer and the effect of the call of the transport inside. *)
Lemma some_call_mmio c : sim anything (wrapped Mmio) (call (Mmio.transport fuel) c) (call (transport fuel) c).
Proof. hands_on. Qed.
Lemma some_call_pci c : sim anything (wrapped Pci) (call Pci.transport c) (call (transport fuel) c).
Proof. hands_on. Qed.
Lemma some_call_hyp c : sim anything (wrapped HypPci) (call HypPci.transport c) (call (transport fuel) c).
Proof. hands_on. Qed.

(** Whatever a driver calls, over [SomeTransport] it gets the answers it would get over the
    transport inside, with the same effect on the device, and the transport keeps its kind. *)
Theorem some_transparent cs w :
  (∀ t, calls (transport fuel) cs (Mmio t, w) =
    let '(o, (t', w')) := calls (Mmio.transport fuel) cs (t, w) in (o, (Mmio t', w'))) ∧
  (∀ t, calls (transport fuel) cs (Pci t, w) =
    let '(o, (t', w')) := calls Pci.transport cs (t, w) in (o, (Pci t', w'))) ∧
  (∀ t, calls (transport fuel) cs (HypPci t, w) =
    let '(o, (t', w')) := calls HypPci.transport cs (t, w) in (o, (HypPci t', w'))).
Proof.
  assert (∀ T (tr : Transport T W) wrap, (∀ c, sim anything (wrapped wrap) (call tr c) (call (transport fuel) c)) →
    ∀ t, calls (transport fuel) cs (wrap t, w) =
      let '(o, (t', w')) := calls tr cs (t, w) in (o, (wrap t', w'))) as Hsim.
  { intros T tr wrap Hc t. pose proof (calls_sim tr (transport fuel) _ _ cs (λ c _, Hc c) (t, w)) as Hs.
    destruct (calls tr cs (t, w)) as [o [t' w']]. by apply (Hs _ _ I eq_refl). }
  split_and!; apply Hsim; [apply some_call_mmio|apply some_call_pci|apply some_call_hyp].
Qed.
End transparent.
End SomeTransport.
