(* ===== verification/FakeDevice.v ===== *)
(** * The device of the unit tests

    [fake_read_write_queue] of [src/src/queue.rs] and the methods of [State] in
    [src/src/transport/fake.rs] that call it: a device that takes the next chain of a queue, hands
    what it reads to a handler and writes the handler's answer back. *)

From S2P Require Import Prelude Base Transport QueueData FakeTransport.

Module FakeDevice.
Section device.
Context `{Profile} {W : Type} `{Mem W} (QUEUE_SIZE : Z).
Abbreviation St := (Shared * W)%type.

(** [slice::from_raw_parts(d.addr, d.len)]. *)
Definition read_buffer (d : Descriptor) : M St (list Z) :=
  on_snd (mem_read (mkSlice (d_addr d) (d_len d))).

(** Writes as much of [remaining] as the descriptor's buffer holds; the result is the rest. *)
Definition write_buffer (d : Descriptor) (remaining : list Z) : M St (list Z) :=
  let length_to_write := Z.min (Z.of_nat (length remaining)) (d_len d) in
  on_snd (mem_write (d_addr d) (take (Z.to_nat length_to_write) remaining));;
  mret (drop (Z.to_nat length_to_write) remaining).

(** ** Indirect descriptors *)

(** The two loops over the list, the second from where the first has stopped. *)
Fixpoint read_list (l : list Descriptor) (input : list Z) : M St (list Z * list Descriptor) :=
  match l with
  | [] => mret (input, [])
  | d :: l' =>
    if contains (d_flags d) DescFlags.WRITE then mret (input, l) else
    bytes ← read_buffer d;
    read_list l' (input ++ bytes)
  end.
Fixpoint write_list (l : list Descriptor) (remaining : list Z) : M St (list Z) :=
  match l with
  | [] => mret remaining
  | d :: l =>
    assert (contains (d_flags d) DescFlags.WRITE);;
    remaining ← write_buffer d remaining;
    write_list l remaining
  end.

(** ** Chains *)

(** [while !descriptor.flags.contains(WRITE)]. *)
Fixpoint read_chain (fuel : nat) (table : list Descriptor) (d : Descriptor) (input : list Z)
    : M St (list Z * Descriptor) :=
  if contains (d_flags d) DescFlags.WRITE then mret (input, d) else
  match fuel with
  | O => hang
  | S fuel =>
    bytes ← read_buffer d;
    match next d with
    | Some n => d ← unwrap (index table n); read_chain fuel table d (input ++ bytes)
    | None => mret (input ++ bytes, d)
    end
  end.

Fixpoint write_chain (fuel : nat) (table : list Descriptor) (d : Descriptor) (remaining : list Z)
    : M St (list Z) :=
  match fuel with
  | O => hang
  | S fuel =>
    assert (contains (d_flags d) DescFlags.WRITE);;
    remaining ← write_buffer d remaining;
    match next d with
    | Some n => d ← unwrap (index table n); write_chain fuel table d remaining
    | None => mret remaining
    end
  end.

(** ** Serving a request *)
Section serve.
Context (handler : list Z → M W (list Z)).

(** The result is the length of the input, and the output. *)
Definition serve_indirect (d : Descriptor) : M St (Z * list Z) :=
  assert (d_flags d =? DescFlags.INDIRECT);;
  bytes ← read_buffer d;
  l ← unwrap (descriptors_from_bytes (d_addr d) bytes);
  '(input, l) ← read_list l [];
  output ← on_snd (handler input);
  remaining ← write_list l output;
  assert (bool_decide (remaining = []));;
  mret (Z.of_nat (length input), output).

Definition serve_direct (fuel : nat) (table : list Descriptor) (d : Descriptor) : M St (Z * list Z) :=
  '(input, d) ← read_chain fuel table d [];
  output ← on_snd (handler input);
  remaining ← (if contains (d_flags d) DescFlags.WRITE then write_chain fuel table d output
               else mret output);
  assert (bool_decide (remaining = []));;
  mret (Z.of_nat (length input), output).

Definition fake_read_write_queue (fuel : nat) : M St bool :=
  avail ← gets (λ s, sh_avail s.1);
  used ← gets (λ s, sh_used s.1);
  if av_idx avail =? us_idx used then mret false else
  let next_slot := Z.land (us_idx used) (QUEUE_SIZE - 1) in
  head ← unwrap (index (av_ring avail) next_slot);
  table ← gets (λ s, sh_desc s.1);
  d ← unwrap (index table head);
  '(input_length, output) ← (if contains (d_flags d) DescFlags.INDIRECT then serve_indirect d
                             else serve_direct fuel table d);
  len ← add_u 64 input_length (Z.of_nat (length output));
  _ ← unwrap (index (us_ring used) next_slot);
  modify (λ s, (mkShared (sh_desc s.1) (sh_avail s.1)
    (mkUsedRing (us_flags used) (wrapping_add 16 (us_idx used) 1)
       (<[Z.to_nat next_slot := mkUsedElem head (wrap 32 len)]> (us_ring used))
       (us_avail_event used)), s.2));;
  mret true.
End serve.

End device.

(** ** The test's side of a queue

    The memory at the three addresses of the queue is the [Shared] of the state. *)
Section test.
Context `{Profile} {W : Type} `{Mem W} (QUEUE_SIZE : Z).
Abbreviation Test := (FakeTransport.FakeTransport * (Shared * W))%type.

Definition queue_ready (queue_index : Z) : M Test unit :=
  queue ← FakeTransport.get_queue queue_index;
  assert (negb (FakeTransport.qs_descriptors queue =? 0)).

Definition write_to_queue (fuel : nat) (queue_index : Z) (data : list Z) : M Test unit :=
  queue_ready queue_index;;
  b ← on_snd (fake_read_write_queue QUEUE_SIZE
        (λ input, assert (bool_decide (input = []));; mret data) fuel);
  assert b.

(** A variable [ret] of the caller that a handler assigns: it starts as [None]. *)
Abbreviation Ret := (option (list Z)).
#[local] Instance mem_ret : Mem (W * Ret) := {|
  mem_read b := on_fst (mem_read b);
  mem_write a l := on_fst (mem_write a l)
|}.
Definition with_ret {A} (c : M (Shared * (W * Ret)) A) : M (Shared * W) (A * Ret) := λ s,
  let '(o, (sh, (w, ret))) := c (s.1, (s.2, None)) in
  (match o with Val a => Val (a, ret) | Panic => Panic | Hang => Hang end, (sh, w)).

Definition read_from_queue (fuel : nat) (queue_index : Z) : M Test (list Z) :=
  queue_ready queue_index;;
  '(b, ret) ← on_snd (with_ret (fake_read_write_queue QUEUE_SIZE
        (λ input, modify (λ s, (s.1, Some input));; mret []) fuel));
  assert b;;
  unwrap ret.

Definition read_write_queue (fuel : nat) (queue_index : Z) (handler : list Z → M W (list Z))
    : M Test bool :=
  queue_ready queue_index;;
  on_snd (fake_read_write_queue QUEUE_SIZE handler fuel).

Fixpoint wait_until_queue_notified (fuel : nat) (queue_index : Z) : M Test unit :=
  match fuel with
  | O => hang
  | S fuel =>
    b ← FakeTransport.poll_queue_notified queue_index;
    if b : bool then mret tt else wait_until_queue_notified fuel queue_index
  end.
End test.
End FakeDevice.
