(* ===== verification/FakeDeviceProps.v ===== *)
(** * Properties of the device of the unit tests

    On a chain that a driver has added, the device hands the bytes of the request's inputs to the
    handler and spreads the answer over its outputs. *)

From S2P Require Import Prelude Base Transport QueueData Queue QueueInv QueueLemmas DeviceQueueSpec Serve FakeDevice.
Import FakeDevice.

(** The buffer of a descriptor at the address where it was shared. *)
Definition dev_buffer (s : Seg) : Slice := mkSlice s.1.1 (s_len s.1.2).
Definition sizes (bs : list Slice) : nat := sum_list (Z.to_nat ∘ s_len <$> bs).

(** What a device puts into a buffer that held [old]. *)
Definition overwrite (new old : list Z) : list Z := new ++ drop (length new) old.

Lemma overwrite_split (k : nat) (new old rest : list Z) : length old = k →
  overwrite (take k new) old ++ overwrite (take (length rest) (drop k new)) rest =
  overwrite (take (k + length rest) new) (old ++ rest).
Proof.
  intros Hk. unfold overwrite. destruct (decide (length new ≤ k)%nat) as [Hl|Hl].
  - rewrite (drop_ge new), take_nil, !(take_ge new) by lia. simpl.
    rewrite drop_0, drop_app_le by lia. by rewrite app_assoc.
  - rewrite (drop_ge old), app_nil_r by (rewrite length_take; lia).
    rewrite (drop_app_ge old) by (rewrite length_take; lia).
    rewrite app_assoc, take_take_drop. do 2 f_equal. rewrite !length_take, length_drop. lia.
Qed.

Section props.
Context `{Profile} {W : Type} `{MemorySpec W}.
Context (table : list Descriptor).
Abbreviation bytes w bs := (mjoin (bytes_of w <$> bs)).

Lemma bytes_length (w : W) bs : length (bytes w bs) = sizes bs.
Proof.
  induction bs as [|b bs IH]; [done|].
  change (bytes w (b :: bs)) with (bytes_of w b ++ bytes w bs).
  change (sizes (b :: bs)) with (Z.to_nat (s_len b) + sizes bs)%nat.
  by rewrite length_app, bytes_of_length, IH.
Qed.

Lemma chain_head i c s segs : chain_segs table (i :: c) (s :: segs) → s.2 ≠ Both → ∃ d,
  index table i = Some d ∧ d_addr d = s.1.1 ∧ d_len d = s_len s.1.2 ∧
  contains (d_flags d) DescFlags.WRITE = negb (is_read s) ∧
  contains (d_flags d) DescFlags.INDIRECT = false ∧ next d = head c ∧ chain_segs table c segs.
Proof.
  intros [(nx & E & Hn) Hc] Hb. destruct (seg_desc_flags (nonempty c) nx s Hb) as (F1 & F2 & F3).
  exists (seg_desc (nonempty c) nx s). split_and!; try done. unfold next. rewrite F3.
  destruct c as [|j c]; [done|]. simpl. f_equal. by apply Hn.
Qed.

(** The loop over the inputs stops at the first output, or at the last descriptor. *)
Lemma read_chain_run ins outs : ∀ i c d fuel input sh (w : W),
  chain_segs table (i :: c) (ins ++ outs) → index table i = Some d →
  Forall (λ s, s.2 = DriverToDevice) ins → Forall (λ s, s.2 = DeviceToDriver) outs →
  (length ins ≤ fuel)%nat → ∃ i' c' d',
  read_chain fuel table d input (sh, w) = (Val (input ++ bytes w (dev_buffer <$> ins), d'), (sh, w)) ∧
  index table i' = Some d' ∧ contains (d_flags d') DescFlags.WRITE = nonempty outs ∧
  (outs ≠ [] → chain_segs table (i' :: c') outs).
Proof.
  induction ins as [|s ins IH]; intros i c d fuel input sh w Hc Hd Hi Ho Hf.
  - exists i, c, d. destruct outs as [|s outs]; [done|]. apply Forall_cons in Ho as [Hs Ho].
    destruct (chain_head i c s outs Hc) as (d' & Hd' & _ & _ & Hw & _); [by rewrite Hs|].
    rewrite Hd in Hd'. injection Hd' as <-. unfold is_read in Hw. rewrite Hs in Hw. cbn [negb] in Hw.
    destruct fuel; cbn [read_chain]; rewrite Hw; by rewrite app_nil_r.
  - apply Forall_cons in Hi as [Hs Hi]. rewrite <- app_comm_cons in Hc.
    destruct (chain_head i c s (ins ++ outs) Hc) as (d' & Hd' & Ha & Hl & Hw & _ & Hn & Hc'); [by rewrite Hs|].
    rewrite Hd in Hd'. injection Hd' as <-. unfold is_read in Hw. rewrite Hs in Hw. cbn [negb] in Hw.
    destruct fuel as [|fuel]; [simpl in Hf; lia|]. cbn [read_chain]. rewrite Hw. cbv iota. unfold read_buffer.
    erewrite bind_val by (apply on_snd_val, mem_read_spec). rewrite Ha, Hl, Hn.
    change (byte_at w <$> _) with (bytes_of w (dev_buffer s)). rewrite fmap_cons, fmap_cons.
    cbn [mjoin list_join]. destruct c as [|j c]; cbn [head].
    + destruct ins; [|done]. destruct outs; [|done]. exists i, [], d. by rewrite app_nil_r.
    + destruct (ins ++ outs) as [|s' rest] eqn:E; [done|].
      assert (s'.2 ≠ Both) as Hb.
      { assert (Forall (λ s, s.2 ≠ Both) (ins ++ outs)) as Hall.
        { apply Forall_app. split; (eapply Forall_impl; [eassumption|]); by intros ? ->. }
        rewrite E in Hall. by apply Forall_cons in Hall as [? _]. }
      destruct (chain_head j c s' rest Hc' Hb) as (d' & Hd' & _). rewrite Hd'. mstep.
      destruct (IH j c d' fuel (input ++ bytes_of w (dev_buffer s)) sh w) as (i' & c' & d2 & R & R1 & R2 & R3);
        [done..|simpl in Hf; lia|].
      exists i', c', d2. rewrite R. by rewrite app_assoc.
Qed.

Lemma write_buffer_run d s rem sh (w : W) : d_addr d = s.1.1 → d_len d = s_len s.1.2 → 0 ≤ s_len s.1.2 →
  let k := Z.to_nat (s_len s.1.2) in ∃ w',
  write_buffer d rem (sh, w) = (Val (drop k rem), (sh, w')) ∧
  bytes_of w' (dev_buffer s) = overwrite (take k rem) (bytes_of w (dev_buffer s)) ∧
  (∀ x, ¬ in_slice (dev_buffer s) x → byte_at w' x = byte_at w x).
Proof.
  intros Ha Hl Hnn k. unfold write_buffer. rewrite Ha, Hl.
  set (m := Z.to_nat (Z.min _ _)).
  assert (take m rem = take k rem ∧ drop m rem = drop k rem) as [-> ->].
  { unfold m, k. destruct (decide (Z.of_nat (length rem) ≤ s_len s.1.2)).
    - by rewrite !take_ge, !drop_ge by lia.
    - by rewrite Z.min_r by lia. }
  destruct (mem_write_spec s.1.1 (take k rem) w) as (w' & E & _). exists w'.
  erewrite bind_val by (by apply on_snd_val). split; [done|].
  apply (write_bytes w w' (dev_buffer s)); [|done]. rewrite length_take. simpl. lia.
Qed.

(** The loop over the outputs spreads what is left of the answer over their buffers. *)
Lemma write_chain_run outs : ∀ i c d fuel rem sh (w : W),
  chain_segs table (i :: c) outs → index table i = Some d →
  Forall (λ s, s.2 = DeviceToDriver ∧ 0 ≤ s_len s.1.2) outs → disjoint_all (dev_buffer <$> outs) →
  (length outs ≤ fuel)%nat → let bs := dev_buffer <$> outs in ∃ w',
  write_chain fuel table d rem (sh, w) = (Val (drop (sizes bs) rem), (sh, w')) ∧
  bytes w' bs = overwrite (take (sizes bs) rem) (bytes w bs) ∧
  (∀ x, (∀ b, b ∈ bs → ¬ in_slice b x) → byte_at w' x = byte_at w x).
Proof.
  induction outs as [|s outs IH]; intros i c d fuel rem sh w Hc Hd Ho Hj Hf bs; [done|].
  apply Forall_cons in Ho as [[Hs Hl0] Ho]. destruct Hj as [Hj1 Hj].
  destruct (chain_head i c s outs Hc) as (d' & Hd' & Ha & Hl & Hw & _ & Hn & Hc'); [by rewrite Hs|].
  rewrite Hd in Hd'. injection Hd' as <-. unfold is_read in Hw. rewrite Hs in Hw. cbn [negb] in Hw.
  destruct fuel as [|fuel]; [simpl in Hf; lia|]. cbn [write_chain]. rewrite Hw. mstep.
  destruct (write_buffer_run d s rem sh w Ha Hl Hl0) as (w1 & E1 & B1 & U1).
  erewrite bind_val by exact E1. rewrite Hn. clear E1.
  set (k := Z.to_nat (s_len s.1.2)) in *. set (rest := dev_buffer <$> outs) in *.
  assert (bytes w1 rest = bytes w rest) as Erest.
  { f_equal. apply list_fmap_ext. intros n b Hb%list_elem_of_lookup_2. apply bytes_of_ext. intros x Hx. apply U1.
    rewrite Forall_forall in Hj1. intros Hx'. by apply (Hj1 b Hb x). }
  assert (∀ w', bytes_of w' (dev_buffer s) = bytes_of w1 (dev_buffer s) →
    bytes w' rest = overwrite (take (sizes rest) (drop k rem)) (bytes w rest) →
    bytes w' bs = overwrite (take (sizes bs) rem) (bytes w bs)) as Hjoin.
  { intros w' Hf1 Hr1. change (bytes w' bs) with (bytes_of w' (dev_buffer s) ++ bytes w' rest).
    change (bytes w bs) with (bytes_of w (dev_buffer s) ++ bytes w rest).
    rewrite Hf1, Hr1, B1, <- (bytes_length w rest), overwrite_split by apply bytes_of_length.
    by rewrite (bytes_length w rest). }
  destruct c as [|j c]; cbn [head].
  - destruct outs; [|done]. exists w1. split; [|split].
    + unfold bs, sizes. simpl. rewrite Nat.add_0_r. done.
    + by apply Hjoin.
    + intros x Hx. apply U1, Hx. by left.
  - destruct outs as [|s' outs']; [done|]. apply Forall_cons in Ho as Ho'. destruct Ho' as [[Hs' _] _].
    destruct (chain_head j c s' outs' Hc') as (d' & Hd' & _); [by rewrite Hs'|]. rewrite Hd'. mstep.
    destruct (IH j c d' fuel (drop k rem) sh w1 Hc' Hd' Ho Hj) as (w2 & E2 & B2 & U2); [simpl in *; lia|].
    exists w2. rewrite E2, drop_drop. split; [done|]. split.
    + apply Hjoin; [|by rewrite B2, Erest]. apply bytes_of_ext. intros x Hx. apply U2. intros b Hb Hx'.
      rewrite Forall_forall in Hj1. by apply (Hj1 b Hb x).
    + intros x Hx. rewrite U2; [apply U1, Hx; by left|]. intros b Hb. apply Hx. by right.
Qed.
End props.

Section serve.
Context `{Profile} {W : Type} `{MemorySpec W} (SIZE : Z).
Abbreviation bytes w bs := (mjoin (bytes_of w <$> bs)).

(** The rings after the chain [h] has been returned with [len] bytes. *)
Definition used_by (h len : Z) (sh : Shared) : Shared :=
  let u := sh_used sh in
  mkShared (sh_desc sh) (sh_avail sh)
    (mkUsedRing (us_flags u) (wrapping_add 16 (us_idx u) 1)
       (<[Z.to_nat (Z.land (us_idx u) (SIZE - 1)) := mkUsedElem h len]> (us_ring u)) (us_avail_event u)).

(** The next chain of the available ring is [h], a chain without indirection for [ins] and
    [outs]. *)
Record next_chain (sh : Shared) (h : Z) (ins outs : list Seg) : Prop := {
  nc_some : av_idx (sh_avail sh) ≠ us_idx (sh_used sh);
  nc_head : index (av_ring (sh_avail sh)) (Z.land (us_idx (sh_used sh)) (SIZE - 1)) = Some h;
  nc_room : is_Some (index (us_ring (sh_used sh)) (Z.land (us_idx (sh_used sh)) (SIZE - 1)));
  nc_segs : ∃ c, chain_segs (sh_desc sh) (h :: c) (ins ++ outs);
  nc_ins : Forall (λ s, s.2 = DriverToDevice) ins;
  nc_outs : Forall (λ s, s.2 = DeviceToDriver ∧ 0 ≤ s_len s.1.2) outs;
  nc_disjoint : disjoint_all (dev_buffer <$> outs)
}.

Lemma out_dirs outs : Forall (λ s : Seg, s.2 = DeviceToDriver ∧ 0 ≤ s_len s.1.2) outs →
  Forall (λ s : Seg, s.2 = DeviceToDriver) outs.
Proof. intros Ho. eapply Forall_impl; [exact Ho|]. by intros s []. Qed.

Lemma serve_direct_run handler sh h ins outs d fuel (w w1 : W) output :
  next_chain sh h ins outs → index (sh_desc sh) h = Some d → (length ins + length outs ≤ fuel)%nat →
  handler (bytes w (dev_buffer <$> ins)) w = (Val output, w1) →
  let bs := dev_buffer <$> outs in ∃ w',
  serve_direct handler fuel (sh_desc sh) d (sh, w) =
    (if decide (length output ≤ sizes bs)%nat then Val (Z.of_nat (sizes (dev_buffer <$> ins)), output) else Panic,
     (sh, w')) ∧
  bytes w' bs = overwrite (take (sizes bs) output) (bytes w1 bs) ∧
  (∀ x, (∀ b, b ∈ bs → ¬ in_slice b x) → byte_at w' x = byte_at w1 x).
Proof.
  intros [Hne Hh Hr (c & Hc) Hi Ho Hj] Hd Hf Hhd bs. unfold serve_direct.
  destruct (read_chain_run (sh_desc sh) ins outs h c d fuel [] sh w Hc Hd Hi (out_dirs _ Ho))
    as (i' & c' & d' & R & Hd' & Hw & Hc'); [lia|].
  erewrite bind_val by exact R. cbn [app]. erewrite bind_val by (by apply on_snd_val). rewrite Hw.
  assert (∃ w', (if nonempty outs then write_chain fuel (sh_desc sh) d' output else mret output) (sh, w1) =
    (Val (drop (sizes bs) output), (sh, w')) ∧
    bytes w' bs = overwrite (take (sizes bs) output) (bytes w1 bs) ∧
    (∀ x, (∀ b, b ∈ bs → ¬ in_slice b x) → byte_at w' x = byte_at w1 x)) as (w' & E & B & U).
  { destruct outs as [|s outs]; [by exists w1|].
    destruct (write_chain_run (sh_desc sh) (s :: outs) i' c' d' fuel output sh w1) as (w' & E & B & U);
      [by apply Hc'|done..|simpl in *; lia|]. by exists w'. }
  erewrite bind_val by exact E. exists w'. split; [|done]. rewrite bytes_length.
  case_decide as Hl.
  - by rewrite drop_ge by lia.
  - rewrite bool_decide_eq_false_2; [done|]. intros Hnil%(f_equal length). rewrite length_drop in Hnil.
    simpl in Hnil. lia.
Qed.

(** On the next chain of a queue, the device of the tests hands the handler the bytes of the
    buffers the driver gave it to read, in order, and spreads the handler's answer over the
    buffers it may write, in order, leaving the rest of them and all other memory as they were. It
    returns the chain with the length of what it has read and written, or panics if the answer is
    longer than the buffers. *)
Theorem fake_device_serves handler sh h ins outs fuel (w w1 : W) output :
  next_chain sh h ins outs → (length ins + length outs ≤ fuel)%nat →
  fits 64 (Z.of_nat (sizes (dev_buffer <$> ins)) + Z.of_nat (length output)) →
  handler (bytes w (dev_buffer <$> ins)) w = (Val output, w1) →
  let bs := dev_buffer <$> outs in ∃ w',
  fake_read_write_queue SIZE handler fuel (sh, w) =
    (if decide (length output ≤ sizes bs)%nat
     then (Val true, (used_by h (wrap 32 (Z.of_nat (sizes (dev_buffer <$> ins)) + Z.of_nat (length output))) sh, w'))
     else (Panic, (sh, w'))) ∧
  ((length output ≤ sizes bs)%nat → bytes w' bs = overwrite output (bytes w1 bs)) ∧
  (∀ x, (∀ b, b ∈ bs → ¬ in_slice b x) → byte_at w' x = byte_at w1 x).
Proof.
  intros Hn Hf Hfit Hhd bs. pose proof Hn as [Hne Hh [u0 Hr] (c & Hc) Hi Ho Hj].
  assert (∃ d, index (sh_desc sh) h = Some d ∧ contains (d_flags d) DescFlags.INDIRECT = false) as (d & Hd & Hind).
  { destruct (ins ++ outs) as [|s segs] eqn:E; [done|].
    destruct (chain_head (sh_desc sh) h c s segs Hc) as (d & Hd & _ & _ & _ & Hind & _); [|by exists d].
    assert (Forall (λ s : Seg, s.2 ≠ Both) (ins ++ outs)) as Hall.
    { apply Forall_app. split; [eapply Forall_impl; [exact Hi|]; by intros ? ->|].
      eapply Forall_impl; [exact Ho|]. by intros ? [-> _]. }
    rewrite E in Hall. by apply Forall_cons in Hall as [? _]. }
  destruct (serve_direct_run handler sh h ins outs d fuel w w1 output Hn Hd Hf Hhd) as (w' & E & B & U).
  exists w'. unfold fake_read_write_queue. mstep. cbn [fst].
  rewrite (proj2 (Z.eqb_neq _ _) Hne), Hh. mstep. cbn [fst]. rewrite Hd. mstep. rewrite Hind. fold bs in E, B, U.
  split; [|split; [|done]].
  - case_decide as Hl; [|by erewrite bind_panic by exact E].
    erewrite bind_val by exact E. cbv beta iota. unfold add_u.
    erewrite bind_val by (by apply arith_fits). rewrite Hr. by mstep.
  - intros Hl. by rewrite B, take_ge.
Qed.
End serve.
