(* ===== verification/Rig.v ===== *)
(** * The machine the unit tests run on

    The tests run a driver on [FakeHal] and [FakeTransport], with a thread that plays the device
    on the same state. The thread's turns come while the driver spins; a turn that has to wait
    gives way and is tried again at the next one. *)

From S2P Require Import Prelude Base Transport QueueData Queue Volatile Bytes FakeHal FakeTransport FakeDevice.
From stdpp Require Export strings.
#[global] Open Scope Z_scope.

Module Rig.

(** Tests are debug builds. *)
#[export] Instance debug : Profile := {| overflow_checks := true; debug_assertions := true |}.

#[export] Instance result_eq_dec {A E} `{EqDecision A} `{EqDecision E} : EqDecision (result A E).
Proof. solve_decision. Defined.

(** What a turn of the thread acts on: the state behind the [Arc], the rings of the queue the
    driver waits for, the memory and the thread's own variables. *)
Abbreviation Local D := (FakeHal.World * D)%type.
Abbreviation Turn D := (Z → M (FakeTransport.FakeTransport * (Shared * Local D)) unit).

Record Rig (D : Type) := mkRig {
  r_hal : FakeHal.World;
  r_dev : FakeTransport.FakeTransport;
  r_local : D;
  r_todo : list (Turn D);
  r_panicked : bool
}.
Arguments mkRig {D} _ _ _ _ _.
Arguments r_hal {D} _.
Arguments r_dev {D} _.
Arguments r_local {D} _.
Arguments r_todo {D} _.
Arguments r_panicked {D} _.

(** The driver's [FakeTransport]: its state is behind an [Arc]. *)
Inductive Handle := the_transport.

Section rig.
Context {D : Type}.
Abbreviation W := (Rig D).

Definition hal_lens : lens W FakeHal.World :=
  {| view := r_hal; update := λ h w, mkRig h (r_dev w) (r_local w) (r_todo w) (r_panicked w) |}.
Definition arc_lens : lens (Handle * W) (FakeTransport.FakeTransport * W) :=
  {| view := λ s, (r_dev s.2, s.2);
     update := λ a s, (s.1, mkRig (r_hal a.2) a.1 (r_local a.2) (r_todo a.2) (r_panicked a.2)) |}.

#[export] Instance rig_hal : Hal W := {|
  Base.dma_alloc p d := zoom hal_lens (dma_alloc p d);
  Base.dma_dealloc p v n := zoom hal_lens (dma_dealloc p v n);
  Base.mmio_phys_to_virt p n := zoom hal_lens (mmio_phys_to_virt p n);
  Base.share b d := zoom hal_lens (share b d);
  Base.unshare p b d := zoom hal_lens (unshare p b d)
|}.
#[export] Instance rig_allocator : Allocator W := {|
  Base.box_new n := zoom hal_lens (box_new n);
  Base.box_write p l := zoom hal_lens (box_write p l);
  Base.box_drop p n := zoom hal_lens (box_drop p n)
|}.
#[export] Instance rig_mem : Mem W := {|
  Base.mem_read b := zoom hal_lens (mem_read b);
  Base.mem_write a l := zoom hal_lens (mem_write a l)
|}.

(** Every variable gets memory of its own. *)
Fixpoint place (vars : list (list Z)) : M FakeHal.World (list Slice) :=
  match vars with
  | [] => mret []
  | v :: vars =>
    let n := Z.of_nat (length v) in
    a ← FakeHal.alloc_zeroed (FakeHal.Block n) n;
    mem_write a v;;
    l ← place vars;
    mret (mkSlice a n :: l)
  end.
#[export] Instance rig_stack : Stack W := λ vars, zoom hal_lens (place vars).

#[export] Instance rig_transport : Transport Handle W := {|
  Transport.device_type := zoom arc_lens device_type;
  Transport.read_device_features := zoom arc_lens read_device_features;
  Transport.write_driver_features v := zoom arc_lens (write_driver_features v);
  Transport.max_queue_size q := zoom arc_lens (max_queue_size q);
  Transport.notify q := zoom arc_lens (notify q);
  Transport.get_status := zoom arc_lens get_status;
  Transport.set_status v := zoom arc_lens (set_status v);
  Transport.try_set_status v := zoom arc_lens (try_set_status v);
  Transport.set_guest_page_size v := zoom arc_lens (set_guest_page_size v);
  Transport.requires_legacy_layout := zoom arc_lens requires_legacy_layout;
  Transport.queue_set q n a b c := zoom arc_lens (queue_set q n a b c);
  Transport.queue_unset q := zoom arc_lens (queue_unset q);
  Transport.queue_used q := zoom arc_lens (queue_used q);
  Transport.ack_interrupt := zoom arc_lens ack_interrupt;
  Transport.read_config_generation := zoom arc_lens read_config_generation;
  Transport.read_config_space s a o := zoom arc_lens (read_config_space s a o);
  Transport.write_config_space a o v := zoom arc_lens (write_config_space a o v)
|}.

(** A memory-mapped device that is plain memory: a [VirtIOHeader] on the stack. *)
#[export] Instance rig_volatile : Volatile W := {|
  vread n a := l ← mem_read (mkSlice a n); mret (of_le l);
  vwrite n a v := mem_write a (Bytes.le (Z.to_nat n) v)
|}.

(** ** The thread *)
#[export] Instance local_mem : Mem (Local D) := {|
  Base.mem_read b := on_fst (mem_read b);
  Base.mem_write a l := on_fst (mem_write a l)
|}.

(** One turn, on queue [idx]. *)
#[export] Instance rig_device : Device W := λ idx sh w,
  match r_todo w with
  | t :: ts =>
    if r_panicked w then (sh, w) else
    let '(o, (dev, (sh', (h, d)))) := t idx (r_dev w, (sh, (r_hal w, r_local w))) in
    (sh', mkRig h dev d (match o with Val _ => ts | _ => t :: ts end)
            (match o with Panic => true | _ => false end))
  | [] => (sh, w)
  end.

(** A turn that acts on queue [q]. *)
Definition at_queue (q : Z) (c : M (FakeTransport.FakeTransport * (Shared * Local D)) unit) : Turn D :=
  λ idx, if idx =? q then c else hang.
(** [State::wait_until_queue_notified]: a turn looks once. *)
Definition notified (q : Z) : M (FakeTransport.FakeTransport * (Shared * Local D)) unit :=
  FakeDevice.wait_until_queue_notified 1 q.

(** [handle.join().unwrap()]. *)
Definition join {A} : M (A * W) unit :=
  w ← gets snd;
  assert (negb (r_panicked w) && bool_decide (length (r_todo w) = 0%nat)).

(** ** The main thread *)

(** What the test does as the device, on a queue of its driver. *)
Definition device_lens {T} : lens (VirtQueue.VirtQueue * (T * W))
    (FakeTransport.FakeTransport * (Shared * Local D)) :=
  {| view := λ s, (r_dev s.2.2, (VirtQueue.shared s.1, (r_hal s.2.2, r_local s.2.2)));
     update := λ a s, (VirtQueue.set_shared a.2.1 s.1,
       (s.2.1, mkRig a.2.2.1 a.1 a.2.2.2 (r_todo s.2.2) (r_panicked s.2.2))) |}.
Definition as_device {S T A} (l : lens S (VirtQueue.VirtQueue * (T * W)))
    (c : M (FakeTransport.FakeTransport * (Shared * Local D)) A) : M S A :=
  zoom l (zoom device_lens c).

(** [r.unwrap()] and [r.unwrap_err()]. *)
Definition ok {S A E} (c : M S (result A E)) : M S A :=
  r ← c; match r with Ok a => mret a | Err _ => panic end.
Definition err {S A E} (c : M S (result A E)) : M S E :=
  r ← c; match r with Ok _ => panic | Err e => mret e end.

Definition assert_eq {S A} `{EqDecision A} (a b : A) : M S unit := assert (bool_decide (a = b)).

(** A computation with a variable [x], and one that uses a driver made over the transport. *)
Definition holding {X S A} (x : X) (c : M (X * S) A) : M S A := λ s,
  let '(o, (_, s')) := c (x, s) in (o, s').
Definition driving {A X T} (x : X) (c : M (X * W) A) : M (T * W) A := on_snd (holding x c).
Definition with_driver {A X} (new : M (Handle * W) (Result X)) (c : M (X * W) A) : M (Handle * W) A :=
  x ← ok new; driving x c.

(** The state of the machine when a test starts its threads. *)
Definition start (type : DeviceType) (max features : Z) (queues : nat) (config : list Z) (local : D)
    (turns : list (Turn D)) : Handle * W :=
  (the_transport, mkRig (FakeHal.mkWorld ∅ ∅)
     (FakeTransport.mkFakeTransport type max features
        (FakeTransport.State_new (replicate queues FakeTransport.QueueStatus_default) config))
     local turns false).
End rig.

(** A test passes if it runs to its end. *)
Definition run {S A} (c : M S A) (s : S) : outcome A := (c s).1.

(** The bytes of a string. *)
Definition bytes (s : string) : list Z := (λ c, Z.of_N (Ascii.N_of_ascii c)) <$> String.list_ascii_of_string s.
End Rig.
