(* ===== verification/TestBlk.v ===== *)
(** * The unit tests of the block device driver

    The tests of [src/src/device/blk.rs]: the driver and the thread that plays the device, step by
    step. *)

From S2P Require Import Prelude Base Transport Bytes QueueData Queue FakeHal FakeTransport FakeDevice Blk Rig.
Import Blk Rig.

Module TestBlk.

(** [BlkConfig] with a capacity, all else zero. *)
Definition config_space (low high : Z) : list Z := encode_fields BlkConfig [low; high; 0; 0; 0; 0; 0; 0; 0; 0; 0; 0].

Abbreviation Machine := (Handle * Rig unit)%type.
Definition started (features : Z) (turns : list (Turn unit)) : Machine :=
  start Block QUEUE_SIZE features 1 (config_space 66 0) tt turns.

(** The thread: one request, which [handler] answers. *)
Definition answer (handler : list Z → M (Local unit) (list Z)) : Turn unit :=
  at_queue QUEUE (
    notified QUEUE;;
    b ← FakeDevice.read_write_queue QUEUE_SIZE 4 QUEUE handler;
    assert b).

(** Rounds of the driver's waiting loop. *)
Definition fuel : nat := 3.

Definition config : outcome unit :=
  run (with_driver (new fuel) (
    b ← gets fst;
    assert_eq (capacity b) 0x0200000042;;
    assert_eq (readonly b) true)) (start Block QUEUE_SIZE BlkFeature.RO 1 (config_space 0x42 0x02) tt []).

Definition read : outcome unit :=
  let thread := answer (λ request,
    assert_eq request (BlkReq_as_bytes (mkBlkReq In 0 42));;
    mret (bytes "Test data" ++ replicate (Z.to_nat SECTOR_SIZE - 9) 0 ++ [RespStatus.OK])) in
  run (with_driver (new fuel) (
    buffer ← on_snd (stack_slot (replicate 512 0));
    ok (read_blocks fuel 42 buffer);;
    l ← on_snd (mem_read (mkSlice (s_ptr buffer) 9));
    assert_eq l (bytes "Test data");;
    join)) (started Feature.RING_INDIRECT_DESC [thread]).

Definition write : outcome unit :=
  let thread := answer (λ request,
    assert_eq (take 16 request) (BlkReq_as_bytes (mkBlkReq Out 0 42));;
    let data := list.drop 16 request in
    assert_eq (Z.of_nat (length data)) SECTOR_SIZE;;
    assert_eq (take 9 data) (bytes "Test data");;
    mret [RespStatus.OK]) in
  run (with_driver (new fuel) (
    buffer ← on_snd (stack_slot (bytes "Test data" ++ replicate 503 0));
    ok (write_blocks fuel 42 buffer);;
    (* The device does not support flushing: the request is ignored. *)
    ok (flush fuel);;
    join)) (started Feature.RING_INDIRECT_DESC [thread]).

Definition flush : outcome unit :=
  let thread := answer (λ request,
    assert_eq request (BlkReq_as_bytes (mkBlkReq Flush 0 0));;
    mret [RespStatus.OK]) in
  run (with_driver (new fuel) (
    ok (Blk.flush fuel);;
    join)) (started (Z.lor Feature.RING_INDIRECT_DESC BlkFeature.FLUSH) [thread]).

Definition device_id : outcome unit :=
  let thread := answer (λ request,
    assert_eq request (BlkReq_as_bytes (mkBlkReq GetId 0 0));;
    mret (bytes "device_id" ++ replicate 11 0 ++ [RespStatus.OK])) in
  run (with_driver (new fuel) (
    id ← on_snd (stack_slot (replicate 20 0));
    length ← ok (Blk.device_id fuel id);
    l ← on_snd (mem_read (mkSlice (s_ptr id) length));
    assert_eq l (bytes "device_id");;
    join)) (started Feature.RING_INDIRECT_DESC [thread]).

(** All of them pass. *)
Theorem blk_tests_pass : [config; read; write; flush; device_id] = replicate 5 (Val tt).
Proof. vm_compute. reflexivity. Qed.
End TestBlk.
