(* ===== verification/TestQueue.v ===== *)
(** * The unit tests of the virtqueues

    The tests of [src/src/queue.rs]: a queue of the driver on a memory-mapped header that is plain
    memory, or on the transport of the tests; and the two sides of a queue in two threads. *)

From S2P Require Import Prelude Base Transport Bytes QueueData Queue DeviceQueue Volatile Mmio FakeHal FakeTransport.
From S2P Require Import FakeDevice Rig.
Import Rig.

Module TestQueue.
Import VirtQueue.

(** ** A memory-mapped header *)

(** [VirtIOHeader::make_fake_header]. *)
Definition make_fake_header (version device_id vendor_id device_features queue_num_max : Z) : list Z :=
  mjoin ((λ f : Mmio.Reg * Z, Bytes.le (Z.to_nat f.2) match f.1 with
    | Mmio.magic => Mmio.MAGIC_VALUE
    | Mmio.version => version
    | Mmio.device_id => device_id
    | Mmio.vendor_id => vendor_id
    | Mmio.device_features => device_features
    | Mmio.queue_num_max => queue_num_max
    | _ => 0
    end) <$> Mmio.VirtIOHeader).

Abbreviation W := (Rig unit).
#[local] Instance mmio : Transport Mmio.MmioTransport W := Mmio.transport 1.
#[local] Instance no_thread : Device W := rig_device.

(** A test with such a transport. *)
Definition on_header (test : M (Mmio.MmioTransport * W) unit) : outcome unit :=
  run (header ← stack_slot (make_fake_header Mmio.MODERN_VERSION 1 0 0 4);
       transport ← ok (Mmio.new (s_ptr header) (s_len header));
       holding transport test) (start Block 0 0 0 [] tt []).2.

(** Slices that are written where they are used: [&[1, 2]]. *)
Definition slices (l : list (list Z)) : M (VirtQueue * W) (list Slice) := on_snd (stack_slots l).

Definition queue_too_big : outcome unit := on_header (
  e ← err (new 8 0 false false); assert_eq e InvalidParam).

Definition queue_already_used : outcome unit := on_header (
  ok (new 4 0 false false);;
  e ← err (new 4 0 false false); assert_eq e AlreadyUsed).

Definition add_empty : outcome unit := on_header (
  q ← ok (new 4 0 false false);
  driving q (e ← err (add 4 [] []); assert_eq e InvalidParam)).

Definition add_too_many : outcome unit := on_header (
  q ← ok (new 4 0 false false);
  driving q (
    n ← available_desc 4; assert_eq n 4;;
    ins ← slices [[]; []; []]; outs ← slices [[]; []];
    e ← err (add 4 ins outs); assert_eq e QueueFull)).

(** The descriptor at [i] has this length and these flags; the result is its successor. *)
Definition expect_desc (i len flags : Z) : M (VirtQueue * W) Z :=
  q ← gets fst;
  d ← unwrap (index (desc q) i);
  assert_eq (d_len d) len;;
  assert_eq (d_flags d) flags;;
  mret (d_next d).

Definition add_buffers : outcome unit := on_header (
  q ← ok (new 4 0 false false);
  driving q (
    n ← available_desc 4; assert_eq n 4;;
    ins ← slices [[1; 2]; [3]]; outs ← slices [[0; 0]; [0]];
    token ← ok (add 4 ins outs);
    n ← available_desc 4; assert_eq n 0;;
    q ← gets fst;
    assert (negb (can_pop q));;
    first ← unwrap (index (av_ring (avail q)) 0);
    assert_eq first token;;
    second ← expect_desc first 2 DescFlags.NEXT;
    third ← expect_desc second 1 DescFlags.NEXT;
    fourth ← expect_desc third 2 (Z.lor DescFlags.NEXT DescFlags.WRITE);
    expect_desc fourth 1 DescFlags.WRITE;;
    mret tt)).

Definition add_buffers_indirect : outcome unit := on_header (
  q ← ok (new 4 0 true false);
  driving q (
    n ← available_desc 4; assert_eq n 4;;
    ins ← slices [[1; 2]; [3]]; outs ← slices [[0; 0]; [0]];
    token ← ok (add 4 ins outs);
    n ← available_desc 4; assert_eq n 4;;
    q ← gets fst;
    assert (negb (can_pop q));;
    head ← unwrap (index (av_ring (avail q)) 0);
    assert_eq head token;;
    expect_desc head (4 * DESCRIPTOR_SIZE) DescFlags.INDIRECT;;
    d ← unwrap (index (desc q) head);
    b ← on_snd (mem_read (mkSlice (d_addr d) (4 * DESCRIPTOR_SIZE)));
    l ← unwrap (decode_descriptors 4 b);
    assert_eq (d_len <$> l) [2; 1; 2; 1];;
    assert_eq (d_flags <$> l)
      [DescFlags.NEXT; DescFlags.NEXT; Z.lor DescFlags.NEXT DescFlags.WRITE; DescFlags.WRITE];;
    assert_eq (take 3 (d_next <$> l)) [1; 2; 3])).

(** ** The transport of the tests *)
Definition on_fake (features : Z) (event_idx : bool) (test : M (VirtQueue * W) unit) : outcome unit :=
  run (q ← ok (new 4 0 false event_idx); driving q test) (start Block 4 features 1 [] tt []).

Definition avail_flags (v : Z) : M (VirtQueue * W) unit :=
  q ← gets fst; assert_eq (av_flags (avail q)) v.

Definition set_dev_notify : outcome unit := on_fake 0 false (
  avail_flags 0;;
  VirtQueue.set_dev_notify false;;
  avail_flags 1;;
  VirtQueue.set_dev_notify true;;
  avail_flags 0).

(** What the device writes to the used ring. *)
Definition store_used (f : UsedRing → UsedRing) : M (VirtQueue * W) unit :=
  modq (λ q, set_shared (mkShared (desc q) (avail q) (f (used q))) q).
Definition expect_notify (b : bool) : M (VirtQueue * W) unit :=
  q ← gets fst; assert_eq (should_notify q) b.

Definition add_notify : outcome unit := on_fake 0 false (
  ins ← slices [[42]];
  ok (add 4 ins []);;
  expect_notify true;;
  store_used (λ u, mkUsedRing 1 (us_idx u) (us_ring u) (us_avail_event u));;
  expect_notify false).

Definition add_notify_event_idx : outcome unit := on_fake Feature.RING_EVENT_IDX true (
  ins ← slices [[42]];
  token ← ok (add 4 ins []); assert_eq token 0;;
  expect_notify true;;
  store_used (λ u, mkUsedRing (us_flags u) (us_idx u) (us_ring u) 1);;
  expect_notify false;;
  ins ← slices [[42]];
  token ← ok (add 4 ins []); assert_eq token 1;;
  expect_notify true).

(** ** Two threads *)
Module D := DeviceVirtQueue.
Abbreviation Pair := (Rig (option D.DeviceVirtQueue)).

(** The device's queue is the device thread's. *)
Definition queue_of_device {A} (c : M (D.DeviceVirtQueue * (FakeTransport.FakeTransport * FakeHal.World)) A)
    : M (FakeTransport.FakeTransport * (Shared * Local (option D.DeviceVirtQueue))) A :=
  λ '(t, (sh, (w, d))),
  match d with
  | None => (Panic, (t, (sh, (w, d))))
  | Some q => let '(o, (q', (t', w'))) := c (D.set_shared sh q, (t, w)) in (o, (t', (D.shared q', (w', Some q'))))
  end.

(** [DeviceVirtQueue::new], over the memory of the driver's queue. *)
Definition create_device (SIZE : Z) : M (FakeTransport.FakeTransport * (Shared * Local (option D.DeviceVirtQueue))) unit :=
  λ '(t, (sh, (w, d))),
  let '(o, (t', w')) := D.new SIZE 0 sh (t, w) in
  (match o with Val (Ok q) => Val tt | Hang => Hang | _ => Panic end,
   (t', (sh, (w', match o with Val (Ok q) => Some q | _ => d end)))).

Definition id_lens {S} : lens S S := {| view := λ s, s; update := λ a _, a |}.

(** [queue_pair_test], with [create_queues]. *)
Definition queue_pair_test (SIZE : Z) (driver_func : M (VirtQueue * (Handle * Pair)) unit)
    (device_func : list (Turn (option D.DeviceVirtQueue))) : outcome unit :=
  run (driver ← ok (new SIZE 0 false true);
       holding driver (as_device id_lens (create_device SIZE);; driver_func;; on_snd join))
    (start Socket SIZE 0 1 [] None device_func).

(** The device's spinning gives way to the driver. *)
Definition no_step (sh : Shared) (w : FakeHal.World) : Shared * FakeHal.World := (sh, w).
Definition fuel : nat := 12.

(** [while !device.can_pop() { spin_loop(); }] and [device.poll], expecting [data]. *)
Definition poll_data (SIZE : Z) (data : list Z) : Turn (option D.DeviceVirtQueue) :=
  at_queue 0 (queue_of_device (
    zoom D.device_lens (D.wait_can_pop no_step 1);;
    r ← holding tt (ok (D.poll SIZE fuel (λ buffer, assert_eq buffer data;; mret (Ok (Some tt)))));
    assert_eq r (Some tt))).

Definition locals (l : list (list Z)) : M (VirtQueue * (Handle * Pair)) (list Slice) := on_snd (on_snd (stack_slots l)).

Definition data : list Z := seqZ 0 10.

Definition simple_send_to_device : outcome unit := queue_pair_test 8 (
    ins ← locals [data];
    ok (add_notify_wait_pop 8 3 ins []);;
    mret tt)
  [poll_data 8 data].

Definition split_send_to_device : outcome unit := queue_pair_test 16 (
    ins ← locals ((λ i, [i]) <$> data);
    ok (add_notify_wait_pop 16 3 ins []);;
    mret tt)
  [poll_data 16 data].

(** [device.wait_pop_add_notify(&[&data], ..)], with the result expected. *)
Definition send_data (SIZE : Z) (expected : Result unit) : Turn (option D.DeviceVirtQueue) :=
  at_queue 0 (queue_of_device (r ← D.wait_pop_add_notify SIZE no_step fuel [data]; assert_eq r expected)).

Definition expect_bytes (b : Slice) (l : list Z) : M (VirtQueue * (Handle * Pair)) unit :=
  x ← on_snd (on_snd (mem_read b)); assert_eq x l.

Definition recv_from_device : outcome unit := queue_pair_test 8 (
    buffer ← on_snd (on_snd (stack_slot (replicate 10 0)));
    expect_bytes buffer (replicate 10 0);;
    ok (add_notify_wait_pop 8 3 [] [buffer]);;
    expect_bytes buffer data)
  [send_data 8 (Ok tt)].

Definition recv_from_device_with_retry : outcome unit := queue_pair_test 8 (
    buffer ← on_snd (on_snd (stack_slot (replicate 10 0)));
    read_buffer ← on_snd (on_snd (stack_slot [0]));
    ok (zoom queue_lens (add 8 [read_buffer] []));;
    expect_bytes buffer (replicate 10 0);;
    ok (add_notify_wait_pop 8 4 [] [buffer]);;
    expect_bytes buffer data)
  [send_data 8 (Err NotReady); send_data 8 (Ok tt)].

(** All of them pass. *)
Theorem queue_tests_pass :
  [queue_too_big; queue_already_used; add_empty; add_too_many; add_buffers; add_buffers_indirect; set_dev_notify;
   add_notify; add_notify_event_idx; simple_send_to_device; split_send_to_device; recv_from_device;
   recv_from_device_with_retry] = replicate 13 (Val tt).
Proof. vm_compute. reflexivity. Qed.
End TestQueue.
