(* ===== verification/TestConsole.v ===== *)
(** * The unit tests of the console and input drivers

    The tests of [src/src/device/console.rs] and [src/src/device/input.rs]. *)

From S2P Require Import Prelude Base Transport Bytes QueueData Queue FakeHal FakeTransport FakeDevice.
From S2P Require Import Console Input Rig.
Import Rig.

Module TestConsole.
Import Console.

(** [Config] with a size, all else zero. *)
Definition config_space (cols rows : Z) : list Z := encode_fields Config [cols; rows; 0; 0].
Definition started (features cols rows : Z) (turns : list (Turn unit)) : Handle * Rig unit :=
  Rig.start Transport.Console 2 features 2 (config_space cols rows) tt turns.

Definition fuel : nat := 3.
Abbreviation St := (VirtIOConsole Handle * Rig unit)%type.

#[local] Instance Size_eq_dec : EqDecision Size.
Proof. solve_decision. Defined.

Definition config_info_no_features : outcome unit :=
  run (with_driver new (
    s ← size fuel; assert_eq s (Ok None))) (started 0 80 42 []).

Definition config_info : outcome unit :=
  run (with_driver new (
    s ← size fuel; assert_eq s (Ok (Some (mkSize 80 42))))) (started 0x07 80 42 []).

Definition emergency_write : outcome unit :=
  run (with_driver new (
    ok (Console.emergency_write 42);;
    w ← gets snd;
    assert_eq (of_le (take 4 (list.drop (Z.to_nat config_emerg_wr) (FakeTransport.st_config_space (FakeTransport.ft_state (r_dev w)))))) 42))
  (started 0x07 0 0 []).

Definition expect_recv (pop : bool) (expected : option Z) : M St unit :=
  r ← ok (recv pop); assert_eq r expected.
Definition expect_interrupt (expected : bool) : M St unit :=
  r ← ack_interrupt; assert_eq r (Ok expected).

Definition receive : outcome unit :=
  run (with_driver new (
    expect_recv false None;;
    expect_recv true None;;
    expect_interrupt false;;
    expect_recv false None;;
    as_device rx_lens (
      FakeDevice.write_to_queue QUEUE_SIZE 2 QUEUE_RECEIVEQ_PORT_0 [42];;
      FakeTransport.put (λ st, FakeTransport.mkState (FakeTransport.st_status st) (FakeTransport.st_driver_features st)
        (FakeTransport.st_guest_page_size st) true (FakeTransport.st_queues st)
        (FakeTransport.st_config_generation st) (FakeTransport.st_config_space st)));;
    expect_interrupt true;;
    w ← gets snd;
    assert_eq (FakeTransport.st_interrupt_pending (FakeTransport.ft_state (r_dev w))) false;;
    expect_recv false (Some 42);;
    expect_recv true (Some 42);;
    expect_recv true None)) (started 0 0 0 []).

Definition send : outcome unit :=
  let thread := at_queue QUEUE_TRANSMITQ_PORT_0 (
    notified QUEUE_TRANSMITQ_PORT_0;;
    data ← FakeDevice.read_from_queue QUEUE_SIZE 2 QUEUE_TRANSMITQ_PORT_0;
    assert_eq data (bytes "Q")) in
  run (with_driver new (
    r ← Console.send fuel 81; assert_eq r (Ok tt);;
    join)) (started 0 0 0 [thread]).

(** All of them pass. *)
Theorem console_tests_pass :
  [config_info_no_features; config_info; emergency_write; receive; send] = replicate 5 (Val tt).
Proof. vm_compute. reflexivity. Qed.
End TestConsole.

Module TestInput.
Import Input.

#[local] Instance DevIDs_eq_dec : EqDecision DevIDs.
Proof. solve_decision. Defined.
#[local] Instance AbsInfo_eq_dec : EqDecision AbsInfo.
Proof. solve_decision. Defined.

Abbreviation St := (VirtIOInput Handle * Rig unit)%type.

(** The configuration space of the device. *)
Definition config_bytes : M St (list Z) :=
  gets (λ s, FakeTransport.st_config_space (FakeTransport.ft_state (r_dev s.2))).
Definition set_data (value : list Z) : M St unit :=
  as_device event_lens (FakeTransport.put (λ st,
    let c := FakeTransport.st_config_space st in
    let n := Z.to_nat config_size in
    let d := Z.to_nat config_data in
    FakeTransport.mkState (FakeTransport.st_status st) (FakeTransport.st_driver_features st)
      (FakeTransport.st_guest_page_size st) (FakeTransport.st_interrupt_pending st) (FakeTransport.st_queues st)
      (FakeTransport.st_config_generation st)
      (take n c ++ [Z.of_nat (length value)] ++ take (d - n - 1) (list.drop (n + 1) c) ++
       value ++ list.drop (d + length value) c))).

(** A query, with the answer and the selectors it leaves. *)
Definition expect {A} `{EqDecision A} (value : list Z) (query : M St (Result A)) (answer : A)
    (select : InputConfigSelect) (subsel : Z) : M St unit :=
  set_data value;;
  r ← ok query; assert_eq r answer;;
  c ← config_bytes;
  assert_eq (nth (Z.to_nat config_select) c 0) (InputConfigSelect_as_u8 select);;
  assert_eq (nth (Z.to_nat config_subsel) c 0) subsel.

Definition config : outcome unit :=
  run (with_driver new (
    expect (bytes "Test input device") name (bytes "Test input device") IdName 0;;
    expect (bytes "Serial number") serial_number (bytes "Serial number") IdSerial 0;;
    let ids0 := mkDevIDs 0x4242 0x1234 0x0067 0x4321 in
    expect (encode_fields DevIDs_widths [0x4242; 0x1234; 0x0067; 0x4321]) ids ids0 IdDevids 0;;
    expect [0x12; 0x34; 0x56] prop_bits [0x12; 0x34; 0x56] PropBits 0;;
    expect [0x42; 0x66] (ev_bits 3) [0x42; 0x66] EvBits 3;;
    expect (encode_fields AbsInfo_widths [12; 1234; 4; 10; 2]) (abs_info 5) (mkAbsInfo 12 1234 4 10 2) AbsInfo_ 5))
  (start Block QUEUE_SIZE 0 2 (replicate 136 0) tt []).

(** It passes. *)
Theorem input_test_passes : config = Val tt.
Proof. vm_compute. reflexivity. Qed.
End TestInput.
