(* ===== verification/TestVsock.v ===== *)
(** * The unit tests of the socket driver

    The tests of [src/src/device/socket/vsock.rs] and [src/src/device/socket/connectionmanager.rs]:
    a connection manager over the driver's socket, and a thread that plays the host. *)

From S2P Require Import Prelude Base Transport Bytes QueueData Queue Owning VsockProtocol Vsock ConnectionManager.
From S2P Require Import FakeHal FakeTransport FakeDevice Rig.
Import Rig.

Module TestVsock.

#[local] Instance VsockBufferStatus_eq_dec : EqDecision VsockBufferStatus.
Proof. solve_decision. Defined.

(** [VirtioVsockConfig] with the guest's cid. *)
Definition config_space : list Z := encode_fields [4; 4]%nat [66; 0].
Definition fuel : nat := 6.
Definition started (turns : list (Turn unit)) : Handle * Rig unit := start Socket 32 0 3 config_space tt turns.
Definition new_socket : M (Handle * Rig unit) (Result (VirtIOSocket Handle)) := VirtIOSocket.new DEFAULT_RX_BUFFER_SIZE fuel.

Definition config : outcome unit :=
  run (with_driver new_socket (
    s ← gets fst; assert_eq (VirtIOSocket.guest_cid s) 0x42)) (started []).

(** ** The manager's tests *)
Abbreviation St := (Conns * (VirtIOSocket Handle * Rig unit))%type.
#[local] Instance socket : VirtIOSocketManager (VirtIOSocket Handle) (Rig unit) :=
  VirtIOSocket.socket_manager DEFAULT_RX_BUFFER_SIZE fuel.

(** While the manager waits for an event, the host has its turn at the receive queue. *)
Definition rx_queue_lens : lens St (VQ.VirtQueue * (Handle * Rig unit)) :=
  {| view := λ s, (OQ.queue (VirtIOSocket.rx s.2.1), (VirtIOSocket.transport s.2.1, s.2.2));
     update := λ a s, (s.1, (VirtIOSocket.mkSocket a.2.1 (OQ.set_queue a.1 (VirtIOSocket.rx s.2.1))
       (VirtIOSocket.tx s.2.1) (VirtIOSocket.event s.2.1) (VirtIOSocket.guest_cid s.2.1), a.2.2)) |}.
Definition spin : M St unit := zoom rx_queue_lens (zoom VQ.queue_lens VQ.spin).

Definition host_cid : Z := 2.
Definition guest_cid : Z := 66.
Definition host_port : Z := 1234.
Definition guest_port : Z := 4321.
Definition host_address : VsockAddr := mkVsockAddr host_cid host_port.
Definition guest_address : VsockAddr := mkVsockAddr guest_cid guest_port.

(** Headers from and to the guest. *)
Definition header (src dst : VsockAddr) (op : VirtioVsockOp) (len flags buf_alloc fwd_cnt : Z) : VirtioVsockHdr :=
  VirtioVsockHdr.mkHdr (cid src) (cid dst) (port src) (port dst) len (SocketType_as_u16 Stream)
    (VirtioVsockOp.as_u16 op) flags buf_alloc fwd_cnt.

(** The host waits for a packet; it is [h] with the bytes [body]. *)
Definition expect_packet (h : VirtioVsockHdr) (body : list Z) : Turn unit :=
  at_queue TX_QUEUE_IDX (
    notified TX_QUEUE_IDX;;
    request ← FakeDevice.read_from_queue QUEUE_SIZE 3 TX_QUEUE_IDX;
    assert_eq (Z.of_nat (length request)) (VirtioVsockHdr.size_of + Z.of_nat (length body));;
    assert_eq (VirtioVsockHdr.read_from_prefix request) (Some h);;
    assert_eq (drop (Z.to_nat VirtioVsockHdr.size_of) request) body).
(** The host sends a packet. *)
Definition send_packet (h : VirtioVsockHdr) (body : list Z) : Turn unit :=
  at_queue RX_QUEUE_IDX (
    FakeDevice.write_to_queue QUEUE_SIZE 3 RX_QUEUE_IDX (VirtioVsockHdr.as_bytes h ++ body)).

(** The guest waits for an event from the host. *)
Definition expect_event (type : VsockEventType) (buffer_allocation forward_count : Z) : M St unit :=
  event ← ok (Common.wait_for_event spin fuel);
  assert_eq (VsockEvent.source event) host_address;;
  assert_eq (VsockEvent.destination event) guest_address;;
  assert_eq (VsockEvent.event_type event) type;;
  assert_eq (VsockEvent.buffer_status event) (mkStatus buffer_allocation forward_count).

Definition on_manager (test : M St unit) : M (Handle * Rig unit) unit :=
  with_driver new_socket (holding VsockConnectionManager.new test).

Definition send_recv : outcome unit :=
  let hello_from_guest := bytes "Hello from guest" in
  let hello_from_host := bytes "Hello from host" in
  let n := Z.of_nat (length hello_from_guest) in
  let m := Z.of_nat (length hello_from_host) in
  run (on_manager (
    ok (Common.connect host_address guest_port);;
    expect_event VsockEventType.Connected 50 0;;
    buffer ← on_snd (on_snd (stack_slot hello_from_guest));
    ok (Common.send host_address guest_port buffer);;
    expect_event (VsockEventType.Received m) 50 n;;
    '(buffer, length) ← ok (Common.recv host_address guest_port (replicate 64 0));
    assert_eq length m;;
    assert_eq (take (Z.to_nat m) buffer) hello_from_host;;
    ok (Common.shutdown host_address guest_port);;
    on_snd join))
  (started [
    expect_packet (header guest_address host_address VirtioVsockOp.Request 0 0 1024 0) [];
    send_packet (header host_address guest_address VirtioVsockOp.Response 0 0 50 0) [];
    expect_packet (header guest_address host_address VirtioVsockOp.Rw n 0 1024 0) hello_from_guest;
    send_packet (header host_address guest_address VirtioVsockOp.Rw m 0 50 n) hello_from_host;
    expect_packet (header guest_address host_address VirtioVsockOp.Shutdown 0
      (Z.lor StreamShutdown.SEND StreamShutdown.RECEIVE) 1024 m) []]).

Definition incoming_connection : outcome unit :=
  let wrong_guest_address := mkVsockAddr guest_cid 4444 in
  run (on_manager (
    Common.listen guest_port;;
    expect_event VsockEventType.ConnectionRequest 50 0;;
    on_snd join))
  (started [
    send_packet (header host_address wrong_guest_address VirtioVsockOp.Request 0 0 50 0) [];
    expect_packet (header wrong_guest_address host_address VirtioVsockOp.Rst 0 0 1024 0) [];
    send_packet (header host_address guest_address VirtioVsockOp.Request 0 0 50 0) [];
    expect_packet (header guest_address host_address VirtioVsockOp.Response 0 0 1024 0) []]).

(** All of them pass. *)
Theorem vsock_tests_pass : [config; send_recv; incoming_connection] = replicate 3 (Val tt).
Proof. vm_compute. reflexivity. Qed.
End TestVsock.
