(* ===== verification/TestSound.v ===== *)
(** * The unit tests of the sound driver

    The tests of [src/src/device/sound.rs], and the device they talk to, [src/src/device/sound/fake.rs]:
    [FakeSoundDevice] describes the jacks, streams and channel maps it was given, records the
    parameters of its streams and what they play. *)

From S2P Require Import Prelude Base Transport Bytes QueueData Queue Sound FakeHal FakeTransport FakeDevice Rig.
Import Sound Rig.

Module FakeSound.

Record VirtIOSndPcmSetParams := mkSetParams {
  sp_command_code : Z; sp_stream_id : Z; sp_buffer_bytes : Z; sp_period_bytes : Z; sp_features : Z;
  sp_channels : Z; sp_format : Z; sp_rate : Z; sp_padding : Z
}.
#[global] Instance VirtIOSndPcmSetParams_eq_dec : EqDecision VirtIOSndPcmSetParams.
Proof. solve_decision. Defined.

(** [read_from_bytes]: the structure has exactly these bytes. *)
Definition read_from_bytes (widths : list nat) (bytes : list Z) : option (list Z) :=
  if decide (length bytes = struct_size widths) then Some (decode_fields widths bytes) else None.
Definition VirtIOSndPcmSetParams_from (bytes : list Z) : option VirtIOSndPcmSetParams :=
  match read_from_bytes VirtIOSndPcmSetParams_widths bytes with
  | Some [a; b; c; d; e; f; g; h; i] => Some (mkSetParams a b c d e f g h i)
  | _ => None
  end.

(** [state] is the machine's; the rest is shared by the clones of the device. *)
Record FakeSoundDevice := mkFakeSound {
  terminated : bool;
  params : list (option VirtIOSndPcmSetParams);
  played_bytes : list (list Z);
  jack_infos : list VirtIOSndJackInfo;
  pcm_infos : list VirtIOSndPcmInfo;
  chmap_infos : list VirtIOSndChmapInfo
}.

Definition set_params (l : list (option VirtIOSndPcmSetParams)) (d : FakeSoundDevice) : FakeSoundDevice :=
  mkFakeSound (terminated d) l (played_bytes d) (jack_infos d) (pcm_infos d) (chmap_infos d).
Definition set_played (l : list (list Z)) (d : FakeSoundDevice) : FakeSoundDevice :=
  mkFakeSound (terminated d) (params d) l (jack_infos d) (pcm_infos d) (chmap_infos d).

(** [VirtIOSndHdr { command_code }.as_bytes()]. *)
Definition hdr (code : CommandCode) : list Z := encode_fields VirtIOSndHdr_widths [CommandCode_as_u32 code].

(** [read_from_prefix]. *)
Definition read_from_prefix (widths : list nat) (bytes : list Z) : option (list Z) :=
  if (struct_size widths <=? length bytes)%nat then Some (decode_fields widths bytes) else None.

Definition handle_tx (request : list Z) : M FakeSoundDevice (list Z) :=
  header ← unwrap (read_from_prefix [4]%nat request);
  let stream_id := nth 0 header 0 in
  d ← gets (λ d, d);
  played ← unwrap (index (played_bytes d) stream_id);
  modify (set_played (<[Z.to_nat stream_id := played ++ list.drop 4 request]> (played_bytes d)));;
  mret (encode_fields VirtIOSndPcmStatus_widths [CommandCode_as_u32 SOk; 0]).

(** [&infos[start_id..start_id + count]]. *)
Definition slice_of {A} (start_id count : Z) (l : list A) : M FakeSoundDevice (list A) :=
  stop ← add_u 64 start_id count;
  assert (stop <=? Z.of_nat (length l));;
  mret (take (Z.to_nat count) (list.drop (Z.to_nat start_id) l)).

(** The answer to a query of [size] bytes for each item. *)
Definition answer_query {A} (request : list Z) (size : nat) (items : FakeSoundDevice → list A)
    (as_bytes : A → list Z) : M FakeSoundDevice (list Z) :=
  r ← unwrap (read_from_bytes VirtIOSndQueryInfo_widths request);
  assert (nth 3 r 0 =? Z.of_nat size);;
  l ← gets items;
  l ← slice_of (nth 1 r 0) (nth 2 r 0) l;
  mret (hdr SOk ++ mjoin (as_bytes <$> l)).

Definition handle_control_request (request : list Z) : M FakeSoundDevice (list Z) :=
  header ← unwrap (read_from_prefix VirtIOSndHdr_widths request);
  let code := nth 0 header 0 in
  if code =? CommandCode_as_u32 RJackInfo then
    answer_query request (struct_size VirtIOSndJackInfo_widths) jack_infos JackInfo_as_bytes
  else if code =? CommandCode_as_u32 RPcmInfo then
    answer_query request (struct_size VirtIOSndPcmInfo_widths) pcm_infos PcmInfo_as_bytes
  else if code =? CommandCode_as_u32 RChmapInfo then
    answer_query request (struct_size VirtIOSndChmapInfo_widths) chmap_infos ChmapInfo_as_bytes
  else if code =? CommandCode_as_u32 RPcmSetParams then
    request ← unwrap (VirtIOSndPcmSetParams_from request);
    d ← gets (λ d, d);
    _ ← unwrap (index (params d) (sp_stream_id request));
    modify (set_params (<[Z.to_nat (sp_stream_id request) := Some request]> (params d)));;
    mret (hdr SOk)
  else if existsb (λ c, code =? CommandCode_as_u32 c) [RPcmPrepare; RPcmStart; RPcmStop; RPcmRelease] then
    _ ← unwrap (read_from_bytes VirtIOSndPcmHdr_widths request);
    mret (hdr SOk)
  else panic.

(** [while state.read_write_queue(queue, handler) {}]. *)
Fixpoint serve_all (fuel : nat) (queue : Z) (handler : list Z → M FakeSoundDevice (list Z))
    : M (FakeTransport.FakeTransport * (Shared * Local FakeSoundDevice)) unit :=
  match fuel with
  | O => hang
  | S fuel =>
    b ← FakeDevice.read_write_queue QUEUE_SIZE 4 queue (λ request, on_snd (handler request));
    if b : bool then serve_all fuel queue handler else mret tt
  end.

(** A round of [run], at a time when the driver waits for [queue]. The driver waits for each
    request on the control queue: none is left when it waits for another queue. *)
Definition run_round : Turn FakeSoundDevice := λ queue,
  d ← gets (λ s, s.2.2.2);
  if terminated d then hang else
  control ← FakeTransport.poll_queue_notified CONTROL_QUEUE_IDX;
  if control : bool then
    assert (queue =? CONTROL_QUEUE_IDX);;
    serve_all 3 CONTROL_QUEUE_IDX handle_control_request
  else if queue =? TX_QUEUE_IDX then
    tx ← FakeTransport.poll_queue_notified TX_QUEUE_IDX;
    if tx : bool then serve_all (S (Z.to_nat QUEUE_SIZE)) TX_QUEUE_IDX handle_tx else hang
  else hang.

(** The machine with the device's thread, for a number of rounds. *)
Definition new (rounds : nat) (jacks : list VirtIOSndJackInfo) (pcms : list VirtIOSndPcmInfo)
    (chmaps : list VirtIOSndChmapInfo) : Handle * Rig FakeSoundDevice :=
  start Socket 32 0 4
    (encode_fields Config [Z.of_nat (length jacks); Z.of_nat (length pcms); Z.of_nat (length chmaps)])
    (mkFakeSound false (replicate (length pcms) None) (replicate (length pcms) []) jacks pcms chmaps)
    (replicate rounds run_round).

(** [fake.terminate()] and [handle.join().unwrap()]. *)
Definition terminate {A} : M (A * Rig FakeSoundDevice) unit :=
  modify (λ '(a, w), let d := r_local w in
    (a, mkRig (r_hal w) (r_dev w)
          (mkFakeSound true (params d) (played_bytes d) (jack_infos d) (pcm_infos d) (chmap_infos d))
          (r_todo w) (r_panicked w))).
Definition join {A} : M (A * Rig FakeSoundDevice) unit := w ← gets snd; assert (negb (r_panicked w)).
End FakeSound.

Module TestSound.

Definition fuel : nat := 200.
Abbreviation St := (VirtIOSound Handle * Rig FakeSound.FakeSoundDevice)%type.

Definition config : outcome unit :=
  run (with_driver new (
    s ← gets fst;
    assert_eq (jacks s) 3;;
    assert_eq (streams s) 4;;
    assert_eq (chmaps s) 2)) (start Transport.Sound 32 0 4 (encode_fields Config [3; 4; 2]) tt []).

(** A query of the driver, with its answer. *)
Definition expect {A} `{EqDecision A} (query : M St (Result A)) (answer : A) : M St unit :=
  r ← ok query; assert_eq r answer.

Definition empty_info : outcome unit :=
  run (with_driver new (
    s ← gets fst;
    assert_eq (jacks s) 0;;
    assert_eq (streams s) 0;;
    assert_eq (chmaps s) 0;;
    expect (output_streams fuel) [];;
    expect (input_streams fuel) [];;
    FakeSound.terminate;;
    FakeSound.join)) (FakeSound.new 10 [] [] []).

Definition output_info : VirtIOSndPcmInfo :=
  mkPcmInfo 0 0 (Z.lor PcmFormats.U8 PcmFormats.U32) (Z.lor PcmRates.RATE_44100 PcmRates.RATE_32000)
    VIRTIO_SND_D_OUTPUT 1 2 (replicate 5 0).
Definition input_info : VirtIOSndPcmInfo := mkPcmInfo 0 0 0 0 VIRTIO_SND_D_INPUT 0 0 (replicate 5 0).

Definition stream_info : outcome unit :=
  run (with_driver new (
    expect (output_streams fuel) [0];;
    expect (rates_supported fuel 0) (Z.lor PcmRates.RATE_44100 PcmRates.RATE_32000);;
    expect (formats_supported fuel 0) (Z.lor PcmFormats.U8 PcmFormats.U32);;
    expect (channel_range_supported fuel 0) (1, 2);;
    expect (features_supported fuel 0) 0;;
    expect (input_streams fuel) [1];;
    expect (rates_supported fuel 1) 0;;
    expect (formats_supported fuel 1) 0;;
    expect (channel_range_supported fuel 1) (0, 0);;
    expect (features_supported fuel 1) 0;;
    FakeSound.terminate;;
    FakeSound.join))
  (FakeSound.new 10 [mkJackInfo 0 0 0 0 0 (replicate 7 0)] [output_info; input_info]
     [mkChmapInfo 0 0 0 (replicate 18 0)]).

(** The device has played [expected] on stream 0. *)
Definition expect_played (expected : list Z) : M St unit :=
  w ← gets snd; assert_eq (head (FakeSound.played_bytes (r_local w))) (Some expected).
Definition play_frames (n : nat) (b : Z) : M St unit :=
  frames ← on_snd (stack_slot (replicate n b));
  ok (pcm_xfer fuel 0 frames).

Definition play : outcome unit :=
  run (with_driver new (
    expect (output_streams fuel) [0];;
    expect (input_streams fuel) [];;
    ok (pcm_set_params fuel 0 100 100 0 1 U8 Rate8000);;
    w ← gets snd;
    assert_eq (head (FakeSound.params (r_local w)))
      (Some (Some (FakeSound.mkSetParams (CommandCode_as_u32 RPcmSetParams) 0 100 100 0 1
        (PcmFormat_as_u8 U8) (PcmRate_as_u8 Rate8000) 0)));;
    ok (pcm_prepare fuel 0);;
    ok (pcm_start fuel 0);;
    play_frames 0 0;;
    expect_played [];;
    play_frames 100 42;;
    expect_played (replicate 100 42);;
    play_frames 200 66;;
    expect_played (replicate 100 42 ++ replicate 200 66);;
    play_frames 50 55;;
    expect_played (replicate 100 42 ++ replicate 200 66 ++ replicate 50 55);;
    play_frames 5000 12;;
    expect_played (replicate 100 42 ++ replicate 200 66 ++ replicate 50 55 ++ replicate 5000 12);;
    ok (pcm_stop fuel 0);;
    ok (pcm_release fuel 0);;
    FakeSound.terminate;;
    FakeSound.join)) (FakeSound.new 100 [] [output_info] []).
(** All of them pass. *)
Theorem sound_tests_pass : [config; empty_info; stream_info; play] = replicate 4 (Val tt).
Proof. vm_compute. reflexivity. Qed.
End TestSound.
