(* ===== verification/TestPci.v ===== *)
(** * The unit tests of the PCI transport

    The tests of [src/src/transport/pci.rs]: the types of devices by their PCI identifiers. *)

From S2P Require Import Prelude Base Transport PciBus Pci Rig.
Import Pci Rig.

Module TestPci.

Definition expect (device_id : Z) (type : DeviceType) : M unit unit := assert_eq (pci_device_type device_id) type.

Definition transitional_device_ids : outcome unit := run (
  expect 0x1000 Network;;
  expect 0x1002 MemoryBalloon;;
  expect 0x1009 P9) tt.

Definition offset_device_ids : outcome unit := run (
  expect 0x1040 Invalid;;
  expect 0x1045 MemoryBalloon;;
  expect 0x1049 P9;;
  expect 0x1058 Memory;;
  expect 0x1059 Sound;;
  expect 0x1060 Invalid) tt.

Definition info (vendor device : Z) : DeviceFunctionInfo := mkDeviceFunctionInfo vendor device 0 0 0 0 Standard.

Definition virtio_device_type_valid : outcome unit := run (
  assert_eq (virtio_device_type (info VIRTIO_VENDOR_ID TRANSITIONAL_BLOCK)) (Some Block)) tt.

Definition virtio_device_type_invalid : outcome unit := run (
  assert_eq (virtio_device_type (info 0x1234 TRANSITIONAL_BLOCK)) None;;
  assert_eq (virtio_device_type (info VIRTIO_VENDOR_ID 0x1040)) None) tt.

(** All of them pass. *)
Theorem pci_tests_pass :
  [transitional_device_ids; offset_device_ids; virtio_device_type_valid; virtio_device_type_invalid] =
  replicate 4 (Val tt).
Proof. vm_compute. reflexivity. Qed.
End TestPci.
