(* ===== verification/ExamplePrograms.v ===== *)
(** * Programs of the examples

    The tests of the block device and of the display ([virtio_blk] and [virtio_gpu] of
    [examples/aarch64/src/main.rs]; the riscv kernel's [virtio_blk] does not assert that the disk
    can be written), run on the drivers of [Blk.v] and [Gpu.v] against the disk of [BlkProps.v]
    and the display of [GpuProps.v]; and the adapter between the network driver and a TCP stack
    ([examples/riscv/src/tcp.rs]), whose tokens share the driver through a [RefCell]. *)

From S2P Require Import Prelude Base Transport QueueData Queue DeviceQueue Owning Bytes Driver Blk Gpu Net.

(** ** What the programs share *)
Section program.
Context {W T : Type}.

(** [.expect(..)] on a result. *)
Definition expect {S A} (c : M S (Result A)) : M S A :=
  r ← c; match r with Ok a => mret a | Err _ => panic end.

Fixpoint for_each {S} (l : list Z) (body : Z → M S unit) : M S unit :=
  match l with [] => mret tt | i :: l => body i;; for_each l body end.

(** A local variable with a destructor, from its construction to the end of the block. *)
Definition scope {X} (x : X) (transport : X → T) (c : M (X * W) unit) (drop : X → M (T * W) unit)
    : M (T * W) unit := λ s,
  let '(o, (x', w')) := c (x, s.2) in
  match o with
  | Val _ => drop x' (transport x', w')
  | Panic => (Panic, (transport x', w'))
  | Hang => (Hang, (transport x', w'))
  end.
End program.

(** A loop over a range, with an invariant. *)
Lemma for_each_range {S} (Inv : Z → S → Prop) (body : Z → M S unit) (n : nat) : ∀ a s,
  (∀ i s, a ≤ i < a + Z.of_nat n → Inv i s → ∃ s', body i s = (Val tt, s') ∧ Inv (i + 1) s') →
  Inv a s → ∃ s', for_each (seqZ a (Z.of_nat n)) body s = (Val tt, s') ∧ Inv (a + Z.of_nat n) s'.
Proof.
  induction n as [|n IH]; intros a s Hbody Ha.
  { exists s. split; [done|]. by rewrite Z.add_0_r. }
  rewrite seqZ_cons by lia. destruct (Hbody a s) as (s1 & E1 & H1); [lia|done|].
  replace (Z.pred (Z.of_nat (Datatypes.S n))) with (Z.of_nat n) by lia.
  destruct (IH (Z.succ a) s1) as (s2 & E2 & H2); [intros i s' Hi; apply Hbody; lia|by rewrite <- Z.add_1_r|].
  exists s2. split; [cbn [for_each]; by erewrite bind_val by exact E1|].
  by replace (a + Z.of_nat (Datatypes.S n)) with (Z.succ a + Z.of_nat n) by lia.
Qed.

(** ** The block device test *)
Module BlkDemo.
Import Blk.
Section demo.
Context `{Profile} {W T : Type} `{Hal W} `{Allocator W} `{Mem W} `{Stack W} `{Device W}.
Context `{Transport T W}.
Context (fuel : nat).

(** The body of the loop; [input] and [output] are where the two arrays are stored. *)
Definition round (input output : Slice) (i : Z) : M (VirtIOBlk T * W) unit :=
  on_snd (mem_write (s_ptr input) (replicate 512 (wrap 8 i)));;
  expect (write_blocks fuel i input);;
  expect (read_blocks fuel i output);;
  x ← on_snd (mem_read input);
  y ← on_snd (mem_read output);
  assert (bool_decide (x = y)).

Definition rounds (input output : Slice) (sectors : list Z) : M (VirtIOBlk T * W) unit :=
  for_each sectors (round input output).

Definition virtio_blk (input output : Slice) : M (T * W) unit :=
  blk ← expect (new fuel);
  assert (negb (readonly blk));;
  on_snd (mem_write (s_ptr input) (replicate 512 0xff));;
  on_snd (mem_write (s_ptr output) (replicate 512 0));;
  scope blk transport (rounds input output (seqZ 0 32)) drop.
End demo.
End BlkDemo.

(** ** The display test *)
Module GpuDemo.
Import Gpu.
Section demo.
Context `{Profile} {W T : Type} `{Hal W} `{Allocator W} `{Mem W} `{Stack W} `{Device W}.
Context `{Transport T W}.
Context (fuel : nat).

(** [fb[i] = v]. *)
Definition store (fb : Slice) (i v : Z) : M W unit :=
  assert (i <? s_len fb);; mem_write (s_ptr fb + i) [v].

Definition pixel (fb : Slice) (width y x : Z) : M W unit :=
  a ← mul_u 64 y width;
  b ← add_u 64 a x;
  idx ← mul_u 64 b 4;
  store fb idx (wrap 8 x);;
  i1 ← add_u 64 idx 1;
  store fb i1 (wrap 8 y);;
  i2 ← add_u 64 idx 2;
  s ← add_u 64 x y;
  store fb i2 (wrap 8 s).

Definition draw (fb : Slice) (width height : Z) : M W unit :=
  for_each (seqZ 0 height) (λ y, for_each (seqZ 0 width) (λ x, pixel fb width y x)).

(** The loop that waits has no effect. *)
Definition show : M (VirtIOGpu T * W) unit :=
  '(width, height) ← expect (resolution fuel);
  fb ← expect (setup_framebuffer fuel);
  on_snd (draw fb width height);;
  expect (flush fuel).

Definition virtio_gpu : M (T * W) unit :=
  gpu ← expect new;
  scope gpu transport show drop.
End demo.
End GpuDemo.

(** ** The adapter for a TCP stack *)
Module Tcp.
Import Net.
Section adapter.
Context `{Profile} {W T : Type} `{Hal W} `{Allocator W} `{Mem W} `{Stack W} `{Device W}.
Context `{Transport T W}.
Context (QUEUE_SIZE : Z) (fuel : nat).

(** [Rc<RefCell<DeviceImpl<T>>>]: the driver, and whether it is borrowed. The tokens hold clones of
    the [Rc]. *)
Record DeviceWrapper := mkDeviceWrapper { borrowed : bool; inner : VirtIONet T }.
Abbreviation St := (DeviceWrapper * W)%type.

(** [borrow_mut()] and the end of the guard. *)
Definition borrow_mut : M St unit :=
  s ← gets fst;
  assert (negb (borrowed s));;
  modify (λ s, (mkDeviceWrapper true (inner s.1), s.2)).
Definition end_borrow : M St unit := modify (λ s, (mkDeviceWrapper false (inner s.1), s.2)).

(** A call through a guard. *)
Definition dev_lens : lens St (VirtIONet T * W) :=
  {| view := λ s, (inner s.1, s.2); update := λ a s, (mkDeviceWrapper (borrowed s.1) a.1, a.2) |}.
Definition on_dev {A} (c : M (VirtIONet T * W) A) : M St A := zoom dev_lens c.

(** [Device::receive]: the token for the buffer; the other token is that of [transmit]. *)
Definition receive : M St (option RxBuffer) :=
  borrow_mut;;
  r ← on_dev (Net.receive QUEUE_SIZE);
  end_borrow;;
  match r with
  | Ok buf => mret (Some buf)
  | Err NotReady => mret None
  | Err _ => panic
  end.

(** [VirtioRxToken::consume]: the handler runs while the driver is not borrowed. *)
Definition rx_consume {R} (rx_buf : RxBuffer) (f : Slice → M St R) : M St R :=
  packet ← on_snd (RxBuffer.packet rx_buf);
  result ← f packet;
  borrow_mut;;
  r ← on_dev (recycle_rx_buffer QUEUE_SIZE rx_buf);
  match r with
  | Ok _ => end_borrow;; mret result
  | Err _ => panic
  end.

(** [VirtioTxToken::consume]: the handler runs while it is. *)
Definition tx_consume {R} (len : Z) (f : Slice → M St R) : M St R :=
  borrow_mut;;
  tx_buf ← on_dev (new_tx_buffer len);
  result ← f (TxBuffer.packet tx_buf);
  r ← on_dev (send QUEUE_SIZE fuel tx_buf);
  match r with
  | Ok _ => end_borrow;; mret result
  | Err _ => panic
  end.
End adapter.
Arguments mkDeviceWrapper {T} _ _.
Arguments borrowed {T} _.
Arguments inner {T} _.
End Tcp.

From S2P Require Import QueueInv QueueLemmas QueueSpec QueueWait Serve Single BlkProps GpuProps NetProps.
From S2P Require Import QueueNew FakeTransport Lab Bench.

Section blk_demo.
Import Blk BlkDemo.
Context {N : nat} {T W : Type} `{Server QUEUE_SIZE N QUEUE T W Disk} `{Profile} (fuel : nat).
Context (Hproto : ∀ d rs ls, serve d rs ls = blk_serve d rs ls) (Hfuel : (N < fuel)%nat).
Implicit Types (b : VirtIOBlk T) (w : W).

(** A sector's worth of memory of the program. *)
Definition sector_buffer (buf : Slice) : Prop := user_buffer buf ∧ s_len buf = 512.

Lemma sector_sectors buf : sector_buffer buf → sectors buf.
Proof. intros [Hu Hl]. split; [done|]. by rewrite Hl. Qed.

(** The sector [i] of the disk holds [512] times the byte [i]. *)
Definition pattern (i : Z) : list Z := replicate 512 (wrap 8 i).

Lemma disk_write_other d i j l : i ≠ j → length l = 512%nat →
  disk_read (disk_write d i l) j 512 = disk_read d j 512.
Proof.
  intros Hne Hl. unfold disk_read. apply list_fmap_ext. intros k x Hx.
  apply lookup_seqZ in Hx as [-> Hk]. cbn. rewrite decide_False; [done|]. rewrite Hl. unfold SECTOR_SIZE. lia.
Qed.

Lemma fill_sector_run buf v b w rest : blk_ok b w rest → sector_buffer buf → ∃ w1,
  mem_write (s_ptr buf) (replicate 512 v) w = (Val tt, w1) ∧ blk_ok b w1 rest ∧
  dstate w1 = dstate w ∧ bytes_of w1 buf = replicate 512 v ∧
  ∀ x, ¬ in_slice buf x → byte_at w1 x = byte_at w x.
Proof.
  intros [Hid Hix Htk] [Hu Hl]. destruct (mem_write_spec (s_ptr buf) (replicate 512 v) w) as (w1 & E & _).
  destruct (write_quiet _ _ _ _ _ E) as [Hd Hh].
  destruct (write_bytes w w1 buf (replicate 512 v)) as [Hb Ho]; [by rewrite length_replicate, Hl|done|].
  exists w1. split_and!; try done.
  - split; try done. by eapply idle_held.
  - rewrite Hb, drop_ge, app_nil_r; [done|]. rewrite bytes_of_length, length_replicate, Hl. done.
Qed.

Lemma round_run input output i b w rest : blk_ok b w rest → sector_buffer input → sector_buffer output →
  disjoint input output → 0 ≤ i < 2 ^ 32 → d_ro (dstate w) = false → i + 1 ≤ d_sectors (dstate w) →
  ∃ b' w', round fuel input output i (b, w) = (Val tt, (b', w')) ∧ blk_ok b' w' rest ∧
    dstate w' = disk_write (dstate w) i (pattern i).
Proof.
  intros Hb Hin Hout Hdis Hi Hro Hcap. destruct (fill_sector_run input (wrap 8 i) b w rest Hb Hin) as (w1 & E1 & Hb1 & Hd1 & Hby & _).
  assert (fits 64 i) as Hi64 by (unfold fits; lia).
  assert (∀ d buf, sector_buffer buf → i + 1 ≤ d_sectors d → fits_disk d i buf) as Hfit.
  { intros d buf [_ Hl] Hc. unfold fits_disk. rewrite Hl. done. }
  destruct (write_simulates fuel Hproto Hfuel i input b w1 rest Hb1 Hi64 (sector_sectors _ Hin))
    as (r & b2 & w2 & E2 & Hb2 & _ & D2).
  destruct (read_simulates fuel Hproto Hfuel i output b2 w2 rest Hb2 Hi64 (sector_sectors _ Hout))
    as (r3 & b3 & w3 & E3 & Hb3 & _ & D3).
  rewrite <- Hd1 in Hro, Hcap.
  inversion D2 as [| |d m m' s0 buf0 Hr Hf Hun X1 X2 X3 X4|d m m' s0 buf0 [Hr|Hf]|]; subst;
    [|congruence|destruct Hf; by apply Hfit].
  inversion D3 as [d m m' s0 buf0 Hf3 Hm Hun3 Y1 Y2 Y3 Y4|d m m' s0 buf0 Hf3| | |]; subst;
    [|destruct Hf3; apply Hfit; [done|]; by rewrite <- X4].
  change (mem_bytes (byte_at w1) input) with (bytes_of w1 input) in *. rewrite Hby, Hd1 in X4.
  assert (bytes_of w3 input = pattern i) as Hi3.
  { etrans; [|exact Hby]. apply bytes_of_ext. intros x Hx. pose proof (proj2 (proj1 Hin) x Hx) as Hux.
    rewrite Hun3; [by apply Hun|exact Hux|]. intros Ho. by apply (Hdis x). }
  assert (bytes_of w3 output = pattern i) as Ho3.
  { change (bytes_of w3 output) with (mem_bytes (byte_at w3) output). rewrite Hm, <- X4, (proj2 Hout).
    apply (disk_read_write (dstate w) i (pattern i)). }
  exists b3, w3. split_and!; [|done|by rewrite <- Y4, <- X4]. unfold round, expect.
  erewrite bind_val by (apply on_snd_val; exact E1). erewrite bind_val by (by erewrite bind_val by exact E2).
  erewrite bind_val by (by erewrite bind_val by exact E3).
  erewrite bind_val by (apply on_snd_val, mem_read_spec). erewrite bind_val by (apply on_snd_val, mem_read_spec).
  fold (bytes_of w3 input) (bytes_of w3 output). rewrite Hi3, Ho3. by rewrite bool_decide_true.
Qed.

Lemma rounds_run input output rest : sector_buffer input → sector_buffer output →
  disjoint input output → ∀ l b w, blk_ok b w rest → Forall (λ i, 0 ≤ i < 2 ^ 32) l → NoDup l →
  d_ro (dstate w) = false → Forall (λ i, i + 1 ≤ d_sectors (dstate w)) l →
  ∃ b' w', rounds fuel input output l (b, w) = (Val tt, (b', w')) ∧ blk_ok b' w' rest ∧
    d_sectors (dstate w') = d_sectors (dstate w) ∧
    (∀ i, i ∈ l → disk_read (dstate w') i 512 = pattern i) ∧
    (∀ i, i ∉ l → disk_read (dstate w') i 512 = disk_read (dstate w) i 512).
Proof.
  intros Hin Hout Hdis l. induction l as [|i l IH]; intros b w Hb Hl Hnd Hro Hcap.
  { exists b, w. split_and!; try done. by intros i ?%not_elem_of_nil. }
  apply Forall_cons in Hl as [Hi Hl], Hcap as [Hc Hcap]. apply NoDup_cons in Hnd as [Hni Hnd].
  destruct (round_run input output i b w rest) as (b1 & w1 & E1 & Hb1 & Hd1); try done.
  destruct (IH b1 w1) as (b2 & w2 & E2 & Hb2 & Hs2 & Hr2 & Ho2); rewrite ?Hd1; try done.
  exists b2, w2. split_and!; try done.
  - unfold rounds. cbn [for_each]. by erewrite bind_val by exact E1.
  - rewrite Hs2, Hd1. done.
  - intros j [->|Hj]%elem_of_cons; [|by apply Hr2]. rewrite Ho2, Hd1 by done.
    apply (disk_read_write (dstate w) i (pattern i)).
  - intros j Hj. apply not_elem_of_cons in Hj as [Hne Hj]. rewrite Ho2, Hd1 by done.
    by apply disk_write_other.
Qed.

(** C27. The test of the block device passes on a disk that can be written and has 32 sectors: once the
    driver is constructed, no assertion of the program fails, and it ends with the destructor of a
    driver that is still consistent. Each of the first 32 sectors holds its number, and the
    others are as they were. *)
Theorem blk_demo_passes input output t w b t1 w1 rest :
  new fuel (t, w) = (Val (Ok b), (t1, w1)) → blk_ok b w1 rest → readonly b = false →
  d_ro (dstate w1) = false → 32 ≤ d_sectors (dstate w1) →
  sector_buffer input → sector_buffer output → disjoint input output →
  ∃ b' w', virtio_blk fuel input output (t, w) = drop b' (transport b', w') ∧ blk_ok b' w' rest ∧
    (∀ i, 0 ≤ i < 32 → disk_read (dstate w') i 512 = pattern i) ∧
    (∀ i, 32 ≤ i → disk_read (dstate w') i 512 = disk_read (dstate w1) i 512).
Proof.
  intros En Hb Hr Hro Hcap Hin Hout Hdis.
  destruct (fill_sector_run input 0xff b w1 rest Hb Hin) as (w2 & E2 & Hb2 & Hd2 & _).
  destruct (fill_sector_run output 0 b w2 rest Hb2 Hout) as (w3 & E3 & Hb3 & Hd3 & _).
  destruct (rounds_run input output rest Hin Hout Hdis (seqZ 0 32) b w3) as (b' & w' & E & Hb' & _ & Hp & Ho);
    rewrite ?Hd3, ?Hd2; try done; [apply Forall_seqZ; lia|apply NoDup_seqZ|apply Forall_seqZ; lia|].
  exists b', w'. split_and!; [|done| |].
  - unfold virtio_blk, expect. erewrite bind_val by (by erewrite bind_val by exact En).
    rewrite Hr. erewrite bind_val by done. erewrite bind_val by (apply on_snd_val; exact E2).
    erewrite bind_val by (apply on_snd_val; exact E3). unfold scope. cbn [snd]. by rewrite E.
  - intros i Hi. apply Hp, elem_of_seqZ. lia.
  - intros i Hi. rewrite Ho, Hd3, Hd2; [done|]. rewrite elem_of_seqZ. lia.
Qed.
End blk_demo.

(** A disk of 32 sectors. *)
Section blk_witness.
Import Bench Blk BlkDemo Lab FakeTransport.
#[local] Instance demo_device : Device (Lab Disk) := lab_device (λ _, blk_serve).
#[local] Instance demo_server : Server QUEUE_SIZE 1 QUEUE FakeTransport (Lab Disk) Disk :=
  lab_server (λ _, blk_serve) QUEUE_SIZE QUEUE eq_refl (Z.le_refl _) blk_serve_lengths.

Definition disk32 : Disk := mkDisk (λ x, x mod 251) 32 false [].
Definition demo_world : Lab Disk := lab0 disk32.
Definition demo_transport : FakeTransport :=
  mkFakeTransport Block 64 0 (State_new [QueueStatus_default] (32 :: replicate 63 0)).

Lemma demo_serves d rs ls : serve d rs ls = blk_serve d rs ls.
Proof. done. Qed.

(** The driver that [new] constructs. *)
Definition demo_blk : VirtIOBlk FakeTransport :=
  mkVirtIOBlk (new 2 (demo_transport, demo_world)).2.1
    (initial_queue QUEUE_SIZE (Modern (Dma.mkDma (2 ^ 40) (2 ^ 40) 1) (Dma.mkDma (2 ^ 40) (2 ^ 40) 1) 256)
      QUEUE false false) 32 0.

Lemma demo_new : new 2 (demo_transport, demo_world) = (Val (Ok demo_blk), (transport demo_blk, demo_world)).
Proof. vm_compute. reflexivity. Qed.

Lemma demo_blk_ok : blk_ok demo_blk demo_world [].
Proof.
  split; [|done|vm_compute; reflexivity]. split; [|done..]. exists (seqZ 0 QUEUE_SIZE).
  unfold demo_blk. cbn [queue]. exact (initial_inv QUEUE_SIZE eq_refl _ QUEUE false false demo_world).
Qed.

Lemma blk_demo_passes_witness : ∃ b' w',
  virtio_blk 2 (mkSlice 65536 512) (mkSlice 131072 512) (demo_transport, demo_world) =
    drop b' (transport b', w') ∧
  disk_read (ldev w') 7 512 = pattern 7.
Proof.
  destruct (blk_demo_passes 2 demo_serves (le_n 2) (mkSlice 65536 512) (mkSlice 131072 512)
    demo_transport demo_world demo_blk _ _ [] demo_new demo_blk_ok) as (b' & w' & E & _ & Hp & _).
  - reflexivity.
  - reflexivity.
  - apply Z.le_refl.
  - split; [by apply low_user|done].
  - split; [by apply low_user|done].
  - intros x. unfold in_slice. cbn. lia.
  - exists b', w'. split; [exact E|]. apply (Hp 7). lia.
Defined.
End blk_witness.

(** ** The picture of the display test *)
Section picture.
Import GpuDemo.
Context `{Profile} {W : Type} `{MemorySpec W}.
Implicit Types (w : W) (fb : Slice).

(** The byte at offset [k] of a picture, and the bytes it has: three of each four. *)
Definition pix (width k : Z) : Z :=
  let x := k / 4 mod width in
  let y := k / 4 / width in
  wrap 8 (if k mod 4 =? 0 then x else if k mod 4 =? 1 then y else x + y).

(** The first [n] pixels are drawn. *)
Definition drawn fb (width n : Z) w w' : Prop := ∀ a, let k := a - s_ptr fb in
  byte_at w' a = if decide (0 ≤ k < 4 * n ∧ k mod 4 ≠ 3) then pix width k else byte_at w a.

Lemma store_pixel_run fb i v w : 0 ≤ i < s_len fb → ∃ w', store fb i v w = (Val tt, w') ∧
  mem_write (s_ptr fb + i) [v] w = (Val tt, w') ∧
  ∀ a, byte_at w' a = if decide (a = s_ptr fb + i) then v else byte_at w a.
Proof.
  intros Hi. destruct (mem_write_spec (s_ptr fb + i) [v] w) as (w' & E & Hm). exists w'. split_and!.
  - unfold store. rewrite (proj2 (Z.ltb_lt _ _)) by lia. by erewrite bind_val by done.
  - done.
  - intros a. rewrite Hm. cbn [length]. destruct (decide (a = s_ptr fb + i)) as [->|Hne].
    + rewrite decide_True by lia. by rewrite Z.sub_diag.
    + by rewrite decide_False by lia.
Qed.

(** Writes to memory that leave a part of the world alone. *)
Definition quiet (R : W → W → Prop) : Prop :=
  (∀ w, R w w) ∧ ∀ w w1 a l w2, R w w1 → mem_write a l w1 = (Val tt, w2) → R w w2.

Lemma pixel_run (R : W → W → Prop) fb width height y x w0 w : quiet R → R w0 w →
  0 ≤ x < width → 0 ≤ y < height → width * height * 4 ≤ s_len fb < 2 ^ 64 →
  drawn fb width (y * width + x) w0 w →
  ∃ w', pixel fb width y x w = (Val tt, w') ∧ R w0 w' ∧ drawn fb width (y * width + x + 1) w0 w'.
Proof.
  intros [_ HR] HR0 Hx Hy Hl Hd. set (p := y * width + x) in *.
  assert (0 ≤ y * width) by nia. assert (p + 1 ≤ width * height) as Hp by (unfold p; nia).
  assert (x + y < 2 ^ 64) by nia.
  destruct (store_pixel_run fb (p * 4) (wrap 8 x) w) as (w1 & E1 & M1 & B1); [lia|].
  destruct (store_pixel_run fb (p * 4 + 1) (wrap 8 y) w1) as (w2 & E2 & M2 & B2); [lia|].
  destruct (store_pixel_run fb (p * 4 + 2) (wrap 8 (x + y)) w2) as (w3 & E3 & M3 & B3); [lia|].
  exists w3. split_and!; [|by repeat (eapply HR; [|done])|].
  - unfold pixel, mul_u, add_u. erewrite bind_val by (apply arith_fits; unfold fits; lia).
    erewrite bind_val by (apply arith_fits; unfold fits, p in *; lia). fold p.
    erewrite bind_val by (apply arith_fits; unfold fits; lia). erewrite bind_val by exact E1.
    erewrite bind_val by (apply arith_fits; unfold fits; lia). erewrite bind_val by exact E2.
    erewrite bind_val by (apply arith_fits; unfold fits; lia).
    erewrite bind_val by (apply arith_fits; unfold fits; lia). exact E3.
  - intros a. cbv zeta. rewrite B3, B2, B1, Hd. cbv zeta. set (k := a - s_ptr fb).
    assert (∀ c, 0 ≤ c < 4 → k = p * 4 + c → k / 4 = p ∧ k mod 4 = c) as Hk.
    { intros c Hc ->. split; [rewrite Z.div_add_l by done; rewrite Z.div_small by done; lia|].
      rewrite Z.add_comm, Z.mod_add by done. by apply Z.mod_small. }
    assert (p mod width = x ∧ p / width = y) as [Hpx Hpy].
    { unfold p. split; [rewrite Z.add_comm, Z.mod_add by lia; by apply Z.mod_small|].
      rewrite Z.div_add_l, Z.div_small by lia. lia. }
    assert (∀ c, 0 ≤ c < 3 → k = p * 4 + c →
      (if decide (0 ≤ k < 4 * (p + 1) ∧ k mod 4 ≠ 3) then pix width k else byte_at w0 a) =
      wrap 8 (if c =? 0 then x else if c =? 1 then y else x + y)) as Hpix.
    { intros c Hc Ek. destruct (Hk c ltac:(lia) Ek) as [E4 Em]. rewrite decide_True by lia.
      unfold pix. by rewrite E4, Em, Hpx, Hpy. }
    destruct (decide (a = s_ptr fb + (p * 4 + 2))) as [Ha|N2]; [by rewrite (Hpix 2) by lia|].
    destruct (decide (a = s_ptr fb + (p * 4 + 1))) as [Ha|N1]; [by rewrite (Hpix 1) by lia|].
    destruct (decide (a = s_ptr fb + p * 4)) as [Ha|N0]; [by rewrite (Hpix 0) by lia|].
    pose proof (Z.mod_pos_bound k 4 ltac:(lia)). pose proof (Z.div_mod k 4 ltac:(lia)).
    apply decide_ext. split; (intros [Hr Hc3]; split; [|done]); lia.
Qed.

Lemma draw_run (R : W → W → Prop) fb width height w : quiet R →
  0 ≤ width → 0 ≤ height → width * height * 4 ≤ s_len fb < 2 ^ 64 →
  ∃ w', draw fb width height w = (Val tt, w') ∧ R w w' ∧ drawn fb width (width * height) w w'.
Proof.
  intros HR Hw Hh Hl. unfold draw.
  destruct (for_each_range (λ y w', R w w' ∧ drawn fb width (y * width) w w')
    (λ y, for_each (seqZ 0 width) (λ x, pixel fb width y x)) (Z.to_nat height) 0 w) as (w' & E & HRw & Hd).
  - intros y w1 Hy [HR1 Hd1].
    destruct (for_each_range (λ x w', R w w' ∧ drawn fb width (y * width + x) w w')
      (λ x, pixel fb width y x) (Z.to_nat width) 0 w1) as (w2 & E2 & HR2 & Hd2).
    + intros x w2 Hx [HR2 Hd2].
      destruct (pixel_run R fb width height y x w w2) as (w3 & E3 & HR3 & Hd3); try done; [lia..|].
      exists w3. split_and!; try done. by replace (y * width + (x + 1)) with (y * width + x + 1) by lia.
    + by rewrite Z.add_0_r.
    + rewrite Z2Nat.id in E2, Hd2 by done. exists w2. split_and!; try done.
      by replace ((y + 1) * width) with (y * width + (0 + width)) by lia.
  - split; [apply HR|]. intros a. cbv zeta. by rewrite decide_False by lia.
  - rewrite Z2Nat.id in E, Hd by done. exists w'. split_and!; try done.
    by replace (width * height) with ((0 + height) * width) by lia.
Qed.
End picture.

Section gpu_demo.
Import Gpu GpuDemo.
Context {N : nat} {T W : Type} `{Server QUEUE_SIZE N QUEUE_TRANSMIT T W GpuDev} `{Profile} (fuel : nat).
Context (Hproto : ∀ d rs ls, serve d rs ls = gpu_serve d rs ls) (Hfuel : (N < fuel)%nat).
Implicit Types (g : VirtIOGpu T) (w : W).

Lemma write_is_quiet : quiet (λ w w', held w' ≡ₚ held w ∧ dstate w' = dstate w).
Proof.
  split; [done|]. intros w w1 a l w2 [Hh Hd] E. destruct (write_quiet _ _ _ _ _ E) as [Hd' Hh'].
  split; [by rewrite Hh'|congruence].
Qed.

(** C28. The display test, from a driver that has no frame buffer yet: it gets the resolution and sets
    up the frame buffer, memory that is the backing of the resource the device shows; nothing panics,
    every index is inside the frame buffer, the picture is complete in it when it is flushed, and the
    display is told to show that resource. *)
Theorem gpu_demo_shows g w rest : gpu_ok g w rest → frame_buffer_dma g = None → dma_quiet →
  display_ok (dstate w) →
  let R := g_rect (dstate w) in
  let size := width R * height R * 4 in
  ∃ va pa g0 w0 g1 w1 w2 g' w', let fb := mkSlice va (pages size * PAGE_SIZE) in
    show fuel (g, w) = (Val tt, (g', w')) ∧ gpu_ok g' w' rest ∧
    resolution fuel (g, w) = (Val (Ok (width R, height R)), (g0, w0)) ∧
    setup_framebuffer fuel (g0, w0) = (Val (Ok fb), (g1, w1)) ∧
    frame_buffer_dma g1 = Some (Dma.mkDma pa va (pages size)) ∧
    size ≤ s_len fb ∧ draw fb (width R) (height R) w1 = (Val tt, w2) ∧
    drawn fb (width R) (width R * height R) w1 w2 ∧ flush fuel (g1, w2) = (Val (Ok tt), (g', w')) ∧
    dstate w' = mkGpuDev R (Flush R RESOURCE_ID_FB :: Transfer R 0 RESOURCE_ID_FB ::
      fb_log (mkGpuDev R (GetDisplayInfo :: g_log (dstate w))) pa size).
Proof.
  intros Hg Hfb Hdma Hd R size. pose proof Hd as (Hr & Hx & Hy & Hsize & _).
  destruct (info_run fuel Hproto Hfuel g w rest Hg Hr) as (info & g1 & w1 & E1 & Hi & Hg1 & S1 & _ & D1).
  destruct (setup_run fuel Hproto Hfuel g1 w1 rest Hg1) as (pa & va & g2 & w2 & E2 & Hg2 & Hsz & Hr2 & Hf2 & D2);
    [unfold same_gpu in S1; naive_solver congruence|done|by rewrite D1|].
  rewrite D1 in E2, Hsz, Hr2, Hf2, D2. cbn [g_rect] in E2, Hsz, Hr2, Hf2, D2. fold R size in E2, Hsz, Hr2, Hf2, D2.
  change (0 < size < 2 ^ 32) in Hsize.
  pose proof (pages_bounds size ltac:(lia)) as (Hpg1 & Hpg2 & Hpg3). set (fb := mkSlice va (pages size * PAGE_SIZE)) in *.
  pose proof Hr as (_ & _ & Hw & Hh). fold R in Hw, Hh, Hx, Hy.
  destruct (draw_run _ fb (width R) (height R) w2 write_is_quiet) as (w3 & E3 & [Hh3 Hd3] & Hdr);
    [unfold fits in *; lia..|cbn; fold size; unfold PAGE_SIZE in *; lia|].
  destruct (flush_run fuel Hproto Hfuel g2 w3 rest R pa size) as (g4 & w4 & E4 & Hg4 & D4).
  - by eapply gpu_ok_world.
  - done.
  - done.
  - rewrite Hd3, D2. cbn [g_log fb_log resource]. rewrite Z.eqb_refl. cbn [inside g_rect]. rewrite Hx, Hy.
    by rewrite !(proj2 (Z.leb_le _ _)) by lia.
  - rewrite Hd3, D2. cbn [g_log fb_log backing]. by rewrite Z.eqb_refl.
  - assert (resolution fuel (g, w) = (Val (Ok (width R, height R)), (g1, w1))) as E0
      by (unfold resolution; erewrite try_ok by exact E1; by rewrite Hi).
    exists va, pa, g1, w1, g2, w2, w3, g4, w4. fold fb. rewrite Hd3, D2 in D4. split_and!; try done.
    unfold show, expect. erewrite bind_val by (by erewrite bind_val by exact E0).
    cbv beta iota. erewrite bind_val by (by erewrite bind_val by exact E2).
    erewrite bind_val by (apply on_snd_val; exact E3). by erewrite bind_val by exact E4.
Qed.
End gpu_demo.

Section gpu_witness.
Import Bench Gpu GpuDemo Lab FakeTransport.
#[local] Existing Instance gpu_device.
#[local] Existing Instance gpu_server.

Lemma gpu_demo_shows_witness : ∃ va pa g0 (w0 : Lab GpuDev) g1 (w1 w2 : Lab GpuDev) g' w',
  let fb := mkSlice va (300 * PAGE_SIZE) in
  show 2 (gpu0, lab0 screen0) = (Val tt, (g', w')) ∧
  setup_framebuffer 2 (g0, w0) = (Val (Ok fb), (g1, w1)) ∧ frame_buffer_dma g1 = Some (Dma.mkDma pa va 300) ∧
  draw fb 640 480 w1 = (Val tt, w2) ∧ byte_at w2 (s_ptr fb + 2565) = 1.
Proof.
  destruct (gpu_demo_shows 2 gpu_serves (le_n 2) gpu0 (lab0 screen0) [] gpu0_ok eq_refl lab_dma_quiet)
    as (va & pa & g0 & w0 & g1 & w1 & w2 & g' & w' & E & _ & _ & Es & Ef & Hl & Ed & Hd & _); [by repeat split|].
  exists va, pa, g0, w0, g1, w1, w2, g', w'. cbv zeta. split_and!; [exact E|exact Es|exact Ef|exact Ed|].
  cbn [s_ptr] in *. rewrite (Hd (va + 2565)). cbn [s_ptr]. replace (va + 2565 - va) with 2565 by lia. reflexivity.
Defined.
End gpu_witness.

(** ** A packet through the adapter *)
Section tcp.
Import Net Tcp.
Context `{Profile} {T W : Type} `{DmaSpec W} `{Transport T W} `{!Notifier QUEUE_RECEIVE T W}.
Context (SIZE : Z) (HS : SIZE_OK SIZE = true).
Implicit Types (n : VirtIONet T) (w : W).

Lemma borrow_run n w : borrow_mut (mkDeviceWrapper false n, w) = (Val tt, (mkDeviceWrapper true n, w)).
Proof. done. Qed.

Lemma on_dev_val {A} (c : M (VirtIONet T * W) A) b n w x n' w' : c (n, w) = (Val x, (n', w')) →
  on_dev c (mkDeviceWrapper b n, w) = (Val x, (mkDeviceWrapper b n', w')).
Proof. intros E. exact (zoom_val dev_lens c (mkDeviceWrapper b n, w) x (n', w') E). Qed.

Lemma packet_run b w : 0 ≤ RxBuffer.packet_len b →
  hdr_size (RxBuffer.legacy_header b) + RxBuffer.packet_len b ≤ s_len (RxBuffer.buf b) →
  s_len (RxBuffer.buf b) < 2 ^ 32 → ∃ p, RxBuffer.packet b w = (Val p, w) ∧
  s_len p = RxBuffer.packet_len b.
Proof.
  intros Hp Hl Hb. assert (0 ≤ hdr_size (RxBuffer.legacy_header b)) by (by destruct (RxBuffer.legacy_header b)).
  eexists. unfold RxBuffer.packet, add_u. erewrite bind_val by (apply arith_fits; unfold fits; lia).
  unfold RxBuffer.as_bytes. rewrite !(proj2 (Z.leb_le _ _)) by lia. split; [done|]. cbn. lia.
Qed.

(** What a handler of a packet must do: return, leave the driver unborrowed and consistent, and the
    places of its receive buffers alone. It may use the driver meanwhile, for instance to answer. *)
Definition handler_ok {R} (f : Slice → M (DeviceWrapper * W) R) b rest : Prop :=
  ∀ n w p, net_ok SIZE n w (box b :: rest) → s_len p = RxBuffer.packet_len b → ∃ r n' w',
    f p (mkDeviceWrapper false n, w) = (Val r, (mkDeviceWrapper false n', w')) ∧
    net_ok SIZE n' w' (box b :: rest) ∧ rx_buffers n' = rx_buffers n.

(** A packet that arrives is given to the handler with its length, and its buffer goes back to the
    device: nothing panics, the [RefCell] included, and the driver is as ready for packets as it was. *)
Theorem tcp_packet {R} (f : Slice → M (DeviceWrapper * W) R) n w rest e b :
  net_ok SIZE n w rest → next_used SIZE (Raw.recv_queue (Net.inner n)) = Some e →
  index (rx_buffers n) (wrap 16 (ue_id e)) = Some (Some b) →
  RxBuffer.legacy_header b = Raw.legacy_header (Net.inner n) →
  hdr_size (Raw.legacy_header (Net.inner n)) ≤ ue_len e ≤ s_len (RxBuffer.buf b) →
  let b' := RxBuffer.set_packet_len (ue_len e - hdr_size (Raw.legacy_header (Net.inner n))) b in
  handler_ok f b' rest → ∃ s r n' w' i,
  receive SIZE (mkDeviceWrapper false n, w) = (Val (Some b'), s) ∧
  rx_consume SIZE b' f s = (Val r, (mkDeviceWrapper false n', w')) ∧ net_ok SIZE n' w' rest ∧
  0 ≤ i < SIZE ∧
  rx_buffers n' = <[Z.to_nat i := Some (RxBuffer.set_idx i b')]> (<[Z.to_nat (wrap 16 (ue_id e)) := None]> (rx_buffers n)).
Proof.
  intros Hn Hu Hb Hleg [Hle Hlen] b' Hf. pose proof (receive_run SIZE HS n w rest Hn) as R1.
  rewrite Hu in R1. cbv zeta in R1. rewrite Hb, (proj2 (Z.leb_le _ _)) in R1 by done.
  destruct R1 as (n1 & w1 & E1 & Hbufs & _ & Hn1 & _ & _). fold b' in E1.
  destruct Hn as (fl0 & infl0 & Hn). assert (0 ≤ wrap 16 (ue_id e)) as Ht by (apply (wrap_fits 16); lia).
  destruct (nk_place _ _ _ _ _ _ Hn _ b Ht Hb) as (Hidx & Hbok & _).
  destruct (packet_run b' w1) as (p & Ep & Hpl); [cbn; lia|cbn; rewrite Hleg; lia|apply Hbok|].
  destruct (Hf n1 w1 p Hn1 Hpl) as (r & n2 & w2 & Ef & Hn2 & Hr2).
  exists (mkDeviceWrapper false n1, w1), r. unfold receive, rx_consume.
  destruct (recycle_rx_run SIZE HS n2 w2 rest b' Hn2 Hbok) as (n3 & w3 & [(i & Hi & Hnone & E3 & Hn3 & Hr3)|(Hfull & _)]).
  - exists n3, w3, i. split_and!; [| |done|lia..|by rewrite Hr3, Hr2, Hbufs].
    + erewrite bind_val by apply borrow_run. erewrite bind_val by (apply on_dev_val; exact E1). done.
    + erewrite bind_val by (apply on_snd_val; exact Ep). erewrite bind_val by exact Ef.
      erewrite bind_val by apply borrow_run. erewrite bind_val by (apply on_dev_val; exact E3). done.
  - exfalso. unfold index in Hb. apply lookup_lt_Some in Hb as Hlt.
    apply (Hfull (wrap 16 (ue_id e))); [rewrite (nk_len _ _ _ _ _ _ Hn) in Hlt; lia|].
    unfold index. by rewrite Hr2, Hbufs, list_lookup_insert_eq by done.
Qed.

End tcp.

Section tcp_witness.
Import Bench Lab FakeTransport Net Tcp.
Abbreviation Wire := (Lab (list (list Z))).
#[local] Instance tcp_notifier : Notifier QUEUE_RECEIVE FakeTransport Wire :=
  lab_notifier QUEUE_RECEIVE (Z.le_refl _).

(** A stack that reads the packet and counts its bytes. *)
Definition count_bytes (p : Slice) : M (DeviceWrapper (T := FakeTransport) * Wire) nat :=
  l ← on_snd (mem_read p); mret (length l).

Lemma tcp_packet_witness : ∃ b' s r n' w',
  receive 4 (mkDeviceWrapper false net2, net1.2) = (Val (Some b'), s) ∧
  rx_consume 4 b' count_bytes s = (Val r, (mkDeviceWrapper false n', w')) ∧ net_ok 4 n' w' [].
Proof.
  destruct (tcp_packet 4 eq_refl count_bytes net2 net1.2 [] (mkUsedElem 0 100)
    (RxBuffer.set_idx 0 rx0) net2_ok) as (s & r & n' & w' & i & E1 & E2 & Hn & _);
    [reflexivity|reflexivity|reflexivity|vm_compute; split; congruence| |].
  - intros n w p Hn Hp. eexists _, n, w. split; [|by split].
    unfold count_bytes. erewrite bind_val by (apply on_snd_val, mem_read_spec). reflexivity.
  - eexists _, s, r, n', w'. split; [exact E1|]. split; [exact E2|exact Hn].
Defined.
End tcp_witness.
